(* ===== verification/_CoqProject ===== *)
-Q . S2P
Prelude.v
Float64.v
FloatDiv.v
Timer.v
Graph.v
EdgeStore.v
Locks.v
Concurrent.v
Dag.v
TopoSort.v
CriticalPath.v
Stats.v
Output.v
FreqTool.v
Callbacks.v
Steps.v
Discipline.v
Threads.v
ThreadLogic.v
TeamInv.v
TeamRules.v
TeamLoops.v
TeamRound.v
TeamRounds.v
Team.v
NodeData.v
Protocol.v
Invariant.v
Objects.v
SafeTasks.v
SafeRegions.v
SafeBarriers.v
SafeLoops.v
Safety.v
ShortTeam.v
Init.v
EmptyTool.v
Signatures.v
Session.v
Examples.v
MatMul.v
LoopTest.v
TaskPrograms.v
Tracing.v
