(* ===== verification/Prelude.v ===== *)
(** * Verification of libtdg, the task-dependency-graph tool for OpenMP

    libtdg is a tool that an OpenMP runtime loads through the OMPT interface.
    The runtime calls it back when threads, tasks, parallel regions, barriers,
    loops and chunks begin and end; the tool builds a graph whose nodes are
    pieces of sequential execution with the time spent in them and whose edges
    are dependences.  At the end it computes metrics of the graph (total time
    and its distribution, the critical path) and writes the graph and a log of
    the chunks to files.

    ** The parts and the files

    - src/graph.h, src/graph.cc: [Node], [Edge], [Graph].  [Graph] (file
      Graph.v) has the data, the adjacency operations, [connectNodes],
      [disconnectNodes], the node table and the destructors, with the edges
      themselves in the vectors; [EdgeStore] has the same operations on the [Edge]
      objects that the vectors point to; [TopoSort] has
      [visitNode] and [topoSort]; [Output] has [printToStream] and
      [printDotFile]; [Stats] has [compute_stats].
    - src/metrics.h, src/metrics.cc: [CriticalPath] has the critical-path metric
      ([computeCriticalPath], [getMetric]), [Stats] the time metric
      ([TotalTimeMetric::init]), [Output] the reports and the log file.
    - src/callbacks.cc: [Callbacks] has the objects the tool keeps per task,
      region, loop and thread, and every callback as a whole; [run] executes a
      sequence of callbacks.
    - The mutexes of graph.h, graph.cc and callbacks.cc: [Locks] cuts the
      operations on the shared graph at their lock operations and lets a
      scheduler choose the thread that steps next; [Concurrent] has what
      concurrent connections do to the edges.  [Steps] has every callback of
      callbacks.cc again, as a program of single accesses and lock operations
      that the callbacks of other threads may interleave, and proves that it is
      the callback of [Callbacks] when it runs alone; [Threads] runs such
      programs side by side, [Discipline] has what they guarantee of their
      mutexes, [ThreadLogic] a logic for one thread among others; [TeamInv],
      [TeamRules], [TeamLoops], [TeamRound], [TeamRounds] and [Team] apply it to
      the team of a parallel region: the parts of the threads and the invariant, a
      rule for every access, the loops of a thread, one thread up to a barrier, all
      threads from barrier to barrier, and the theorem.
    - src/init.cc: [Init] has [parse_tokens], [init_libtdg] and
      [finalize_libtdg].
    - src/timer/timer.c, src/timer/x86_64-gcc-rdtsc.h: [Timer] has the
      conversion of cycle-counter readings and the calibration.
    - src/timer/query_cpu_freq.cc: [FreqTool] has the sanity check of the
      counter and the program that writes the frequency file.
    - src/ompt.h, src/callbacks.h: [Signatures] has the events, the types of
      their callbacks and the functions registered for them.
    - src/callbacks.cc built with LIBTDG_TRACE: [Tracing].
    - src/callbacks_empty.cc, src/init_empty.cc: [EmptyTool] has the variant of
      the tool that only traces.
    - src/fib/fib.cc, src/mm/omp_mm.c, src/task_test/tasks.c, src/test/loop.c:
      [Examples] has [fib] and the loops of the matrix product, [MatMul] the
      program omp_mm, [TaskPrograms] the tasks of fib.cc and tasks.c, [LoopTest]
      [do_work] and loop.c.

    [Prelude] (this file) has what all files share: the outcome type [res] with
    its monad, machine integers, tactics and generic lemmas.  [Float64] has the
    binary64 arithmetic of the type [double], on the executable specification
    of the Standard Library, and what is proved about it: every sum and
    difference of finite numbers is the exact value rounded to nearest even,
    hence addition is monotone; [FloatDiv] has the same for products and
    quotients of the magnitudes the clock computes with.  [Dag] has the reference algorithms (depth-first
    search, evaluation of a recursive definition along an order, longest paths)
    that the program's loops are compared with.

    ** How the code is modelled

    Objects live in finite maps indexed by address, one map per class; [new]
    takes an address that was never used, [delete] removes the entry.  Using a
    freed or a null pointer, a double free, an index outside an array, an
    indeterminate value, a signed overflow, a mutex locked twice or unlocked by
    another thread, or an ordering that is not a strict weak order is the outcome
    [UB]; [exit] is the outcome [Exit].  Integers
    are kept at their width where they can wrap.  Fields that a constructor
    leaves indeterminate are options.  A [std::map] is iterated in key order.
    The code is the one built with HAVE_PAPI and, but for [Tracing], without
    LIBTDG_TRACE.

    A callback appears twice: in [Callbacks] as a function on the state, which is
    what the theorems about sequences of callbacks use, and in [Steps] as a
    program (type [prog]) of accesses, lock operations and returns, which is what
    the theorems about threads use.  [Threads.whole_callbacks_refine] connects the
    two: whole callbacks, one after the other, are one of the schedules.

    What is not under src/ is a parameter: the clock and the PAPI library are
    the record [Env] (Callbacks), the answers of the runtime and of PAPI during
    the start the record [InitEnv] (Init), the success of opening a file the
    argument [can_open] (Output); [std::sort] is the class [StdSort] (Stats),
    whose laws are the guarantees of the C++ standard and of which merge sort
    is an instance.  The OpenMP runtime is a state machine of its own,
    [rt_step] in [Protocol], that accepts the sequences of callbacks a runtime
    may produce, including interleavings of the callbacks of different threads.
    The counter of the processor is a sequence of 64-bit numbers.

    ** What is proved

    - Graph: connecting and disconnecting keep the graph well-formed (every
      edge in the exit vector of its source and in the entry vector of its
      target, once) and change exactly one edge, disconnecting undoes connecting;
      the destructor frees every
      node once.
    - EdgeStore: the operations on shared [Edge] objects do what those of Graph do,
      without a dangling pointer, and the two vectors of an edge hold the same
      object; no [Edge] is ever freed.
    - Locks: mutexes are taken in a fixed order (barrier, table, exits,
      entries), hence no schedule of any number of threads deadlocks, every run
      ends after at most ten steps for each operation, with all mutexes free; no
      mutex is misused, and no two threads are ever about to touch the same
      vector.
    - Concurrent: if no two threads ask for the same edge, every schedule of
      connections ends in a well-formed graph with exactly the edges asked for;
      if two do, the edge can be recorded twice, since [connectNodes] tests and
      inserts in two critical sections.  Runs of whole operations, as the other
      files study them, are runs of the lock-level steps.
    - Steps, Discipline, Threads: threads that run any callbacks, interleaved at
      every access and every lock operation, neither deadlock nor run for ever,
      and outside the holder of its mutex no thread reads or writes protected
      data.  The tool deletes a node (end of an implicit task) and a region (end of
      the region) without their mutexes.  Nobody holds such a mutex then, no second
      thread deletes the object, and nobody locks the mutex later, as long as no
      schedule leads to undefined behaviour: that is a condition, since the callbacks
      themselves leave it to the runtime.  [Team] proves that no schedule of a team
      does.
    - TeamInv, TeamRules, TeamLoops, TeamRound, TeamRounds, Team: the threads of
      a team start their implicit tasks, in any number of rounds run loops and meet
      at a barrier, and end; on every schedule they finish without undefined
      behaviour and leave the same graph: in each round one node per thread behind
      the parent or the barrier before, the start, chunks and sink of each of its
      loops and the barrier behind these, and the sink of the region behind the
      last barrier.  That a barrier holds the threads until all have arrived is
      what OpenMP promises of the runtime; it is the second step of [rstep].
    - TopoSort: [topoSort] returns on every well-formed graph, and on an
      acyclic one it returns all nodes with sources before targets, ordered by
      level, where the level is the length of the longest path to the node;
      [visitNode] refines the reference search and the grouping loop is the
      stable sort by level.
    - CriticalPath: the reported time is that of a path and no path takes
      longer, with the roundings of binary64 addition; the reported length is
      the number of edges of the longest path; the marked nodes are a path
      that attains the time; a second metric object reports zero.
    - Invariant, Objects, SafeTasks, SafeRegions, SafeBarriers, SafeLoops,
      Safety: an invariant that relates the runtime's state, the tool's
      objects and the graph, and that every callback keeps.  Every node has a
      label, a list of numbers, and every edge increases it lexicographically.
      Hence no run that the protocol allows reaches undefined behaviour, the
      graph is well-formed and acyclic, and the barrier counter counts the
      tasks that wait.
    - ShortTeam: when the runtime grants a team smaller than requested, which the
      protocol excludes, a task that arrives at its next barrier finds the old
      barrier node, and the graph gets a cycle.
    - NodeData: for every order of the callbacks, chunks carry what the
      printers read, and with a clock that does not run backwards the times are
      finite and not negative.
    - Stats, Output: order statistics, sums, counters and reports; the dot file
      and the log file read back as the graph and as the chunks.
    - Init, Session: the token parser, the start, and the whole session, from
      the frequency file on: any allowed run that leaves a node, followed by any
      list of known metrics, ends without undefined behaviour and with all nodes
      freed; without a node that holds unless the list has the time metric, which
      then reads an indeterminate average.  A token that names no metric leads to a
      call through an indeterminate pointer.
    - Timer: exact tick differences across a wrap of the counter, termination of
      the calibration, which stops after three measurements in a row that do not
      improve and returns the smallest one made, and readings that are
      finite and never decrease, with all roundings, which is the clock that
      NodeData and Session need.
    - FreqTool: the floating-point test of the sanity check decides the 5 % rule
      exactly, and the frequency it writes is the one that is read back.
    - EmptyTool: the output read back gives the calls and the dependences.
    - Signatures: every event is reported through a pointer of the type of the
      function registered for it, unless OMPT_STATIC_CHUNKS is defined.
    - Tracing: the build with tracing does to the state what the build without
      does, and its output read back gives the callbacks with their arguments.
    - Examples, MatMul, TaskPrograms, LoopTest: whatever the order in which the
      runtime executes the tasks, [fib] returns the Fibonacci number modulo [2^32]
      after the same number of steps; the matrix product gives the same bits under
      every schedule, and the program prints the exact sum; tasks.c prints in one
      of two orders, which the graph of the tool does not show; the loop test
      prints one finite result per iteration.

    ** Bounds and fuel

    [visitNode] recurses at most as deep as there are nodes, so [topoSort] gives
    it the number of nodes as fuel; the marking loop visits a node once, so it
    gets the same fuel; [topoSort_terminates] and [computeCriticalPath_terminates]
    show that [NoFuel] never results.  [calibrate_loop] gets any fuel:
    [3 * HRT_MIN_START + 3] is shown to be enough.  Levels and path
    lengths are of type [int], hence the hypothesis that there are fewer than
    [INT_MAX] nodes; ids are 64-bit, hence fewer than [2^61] callbacks; sums of
    times are shown finite for fewer than [2^52] calls of the clock, each below
    [2^970] ms (the clock of timer.c stays below [2^75] ms).  The sanity check is
    exact for fewer than [2^40] ticks in a sleep, five minutes at 3 GHz, and the
    file for frequencies below [2^53].

    ** What is not modelled

    In [Steps] an access to a field is atomic and threads see each other's writes
    at once.  The protected data have no races, hence for them this is what C++
    promises; a race on the fields that no mutex protects (times, the data of a
    task, [g_finalNode]) is given an order instead of being undefined.  [Team] is
    about one region whose threads run loops and meet at barriers; for explicit
    tasks and nested regions the shape of the graph is proved for callbacks that
    run one after the other ([Safety]).

    Not modelled: the messages on standard error and the few messages of init.cc
    under LIBTDG_TRACE; the digits the stream library prints; the memory of
    [Metric] objects; failing allocations; the build without PAPI, which does
    not compile; of ompt.h the inquiry functions and thread states, which the tool
    does not use; calls of [ftimer_init] in the example programs. *)

From stdpp Require Import base gmap list sorting.
From Stdlib Require Import ZArith Lia.

(** ** Outcomes of C++ code

    A function of the program either returns ([Ok]), runs into undefined
    behaviour ([UB]), calls [exit] ([Exit]), or, for the functions modelled
    with fuel, has not finished yet ([NoFuel]).  [NoFuel] is an artefact of the
    model: the termination theorems show that it is never the answer when the
    fuel bound stated there is met. *)

Inductive ub : Type :=
  | NullDeref
  | UseAfterFree
  | DoubleFree
  | BadCast
  | OutOfRange
  | Uninitialized
  | BadOrder
  | LockMisuse
  | SignedOverflow.

Inductive res (A : Type) : Type :=
  | Ok (a : A)
  | UB (u : ub)
  | Exit (code : Z)
  | NoFuel.
Arguments Ok {A} a.
Arguments UB {A} u.
Arguments Exit {A} code.
Arguments NoFuel {A}.

#[export] Instance ub_eq_dec : EqDecision ub.
Proof. solve_decision. Defined.

#[export] Instance res_ret : MRet res := fun A a => Ok a.

#[export] Instance res_bind : MBind res := fun A B f m =>
  match m with
  | Ok a => f a
  | UB u => UB u
  | Exit c => Exit c
  | NoFuel => NoFuel
  end.

#[export] Instance res_fmap : FMap res := fun A B f m => a ← m; Ok (f a).

(** A pointer that must not be null. *)
Definition non_null {A} (p : option A) : res A :=
  match p with Some a => Ok a | None => UB NullDeref end.

(** Dereferencing an address: freed objects are absent from the store. *)
Definition lookup_obj {A} (h : gmap positive A) (l : positive) : res A :=
  match h !! l with Some a => Ok a | None => UB UseAfterFree end.

(** Left-to-right loop over the elements of a container. *)
Fixpoint res_foldl {A B} (f : A → B → res A) (a : A) (l : list B) : res A :=
  match l with
  | [] => Ok a
  | b :: l' => a' ← f a b; res_foldl f a' l'
  end.

(** ** Machine integers *)

Definition INT_MAX : Z := 2147483647.
Definition INT_MIN : Z := -2147483648.

(** Signed 32-bit addition: overflow is undefined behaviour. *)
Definition int_add (a b : Z) : res Z :=
  let c := (a + b)%Z in
  if (INT_MIN <=? c)%Z && (c <=? INT_MAX)%Z then Ok c else UB SignedOverflow.

(** Unsigned wrap-around. *)
Definition u32 (z : Z) : Z := (z mod 2 ^ 32)%Z.
Definition u64 (z : Z) : Z := (z mod 2 ^ 64)%Z.

(** Two's complement value of a 32-bit or 64-bit pattern: conversion to [int],
    and the arithmetic of [std::atomic<int64_t>]. *)
Definition i32 (z : Z) : Z := ((z + 2 ^ 31) mod 2 ^ 32 - 2 ^ 31)%Z.
Definition i64 (z : Z) : Z := ((z + 2 ^ 63) mod 2 ^ 64 - 2 ^ 63)%Z.

(** ** Lemmas on outcomes *)

Create HintDb tdg.

Lemma bind_Ok_inv {A B} (m : res A) (f : A → res B) b :
  (m ≫= f) = Ok b → ∃ a, m = Ok a ∧ f a = Ok b.
Proof. destruct m; simpl; intros H; try discriminate; eauto. Qed.

Lemma lookup_obj_Ok {A} (h : gmap positive A) l a :
  lookup_obj h l = Ok a ↔ h !! l = Some a.
Proof. unfold lookup_obj. destruct (h !! l); split; congruence. Qed.

Lemma lookup_obj_Some {A} (h : gmap positive A) l a :
  h !! l = Some a → lookup_obj h l = Ok a.
Proof. apply lookup_obj_Ok. Qed.

Lemma int_add_Ok a b :
  (INT_MIN ≤ a + b ≤ INT_MAX)%Z → int_add a b = Ok (a + b)%Z.
Proof.
  intros [H1 H2]. unfold int_add.
  apply Z.leb_le in H1. apply Z.leb_le in H2. by rewrite H1, H2.
Qed.

Lemma u32_small z : (0 ≤ z < 2 ^ 32)%Z → u32 z = z.
Proof. intros. by apply Z.mod_small. Qed.

Lemma u64_small z : (0 ≤ z < 2 ^ 64)%Z → u64 z = z.
Proof. intros. by apply Z.mod_small. Qed.

Lemma u32_add a b : u32 (u32 a + b) = u32 (a + b).
Proof. unfold u32. by rewrite Z.add_mod_idemp_l. Qed.

Lemma u32_u32 a : u32 (u32 a) = u32 a.
Proof. unfold u32. by rewrite Zmod_mod. Qed.

(** ** Lists *)

Lemma filter_all {A} (P : A → Prop) `{!∀ x, Decision (P x)} (l : list A) : (∀ x, x ∈ l → P x) → filter P l = l.
Proof.
  induction l as [|x l IH]; intros Hl; [done|]. rewrite filter_cons, decide_True by (apply Hl; by left).
  f_equal. apply IH. intros. apply Hl. by right.
Qed.

Lemma res_foldl_app {A B} (f : A → B → res A) a l1 l2 :
  res_foldl f a (l1 ++ l2) = (a' ← res_foldl f a l1; res_foldl f a' l2).
Proof.
  revert a. induction l1 as [|b l1 IH]; intros a; simpl; [done|].
  destruct (f a b); simpl; auto.
Qed.

(** ** Tactics *)

(** Splits a successful run of a monadic computation into its steps. *)
Ltac run_inv :=
  repeat match goal with
  | H : (_ ≫= _) = Ok _ |- _ =>
      apply bind_Ok_inv in H; let a := fresh "v" in destruct H as (a & ? & H)
  | H : Ok _ = Ok _ |- _ => injection H as H; subst
  | H : lookup_obj _ _ = Ok _ |- _ => apply lookup_obj_Ok in H
  | H : (let '(_, _) := ?x in _) = Ok _ |- _ => destruct x
  end; simplify_eq.

(** Executes the first step of a monadic computation whose result is known. *)
Ltac run_step :=
  match goal with
  | H : ?h !! ?l = Some _ |- context [lookup_obj ?h ?l] =>
      rewrite (lookup_obj_Some _ _ _ H)
  end; cbn [mbind res_bind].
