(* ===== verification/Float64.v ===== *)
(** * IEEE-754 binary64 arithmetic, the C++ type [double] *)
From stdpp Require Import base gmap list sorting.
From Stdlib Require Import ZArith Lia SpecFloat.
From S2P Require Import Prelude.

Abbreviation double := spec_float.

Local Open Scope Z_scope.

Definition prec : Z := 53.
Definition emax : Z := 1024.

Definition dzero : double := S754_zero false.
Definition dadd (x y : double) : double := SFadd prec emax x y.
Definition dsub (x y : double) : double := SFsub prec emax x y.
Definition ddiv (x y : double) : double := SFdiv prec emax x y.
Definition dmul (x y : double) : double := SFmul prec emax x y.
Definition dsqrt (x : double) : double := SFsqrt prec emax x.
Definition dltb (x y : double) : bool := SFltb x y.

(** Conversion of an integer, [(double)z]. *)
Definition d_of_Z (z : Z) : double := binary_normalize prec emax z 0 false.

(** [std::max<double>]: the first argument unless it is smaller. *)
Definition dmax (x y : double) : double := if dltb x y then y else x.

(** ** The value of a double

    Every finite binary64 number is an integer multiple of [2^-1074], so its
    value is kept as an integer in that unit; the infinities are placed at
    [2^2098], just above the largest finite number. *)

Definition HUGE : Z := 2 ^ 2098.

Definition dval (x : double) : Z :=
  match x with
  | S754_zero _ => 0
  | S754_infinity s => cond_Zopp s HUGE
  | S754_nan => 0
  | S754_finite s m e => cond_Zopp s (Zpos m * 2 ^ (e + 1074))
  end.

Definition is_nan (x : double) : bool :=
  match x with S754_nan => true | _ => false end.

Definition is_finite (x : double) : bool :=
  match x with S754_zero _ | S754_finite _ _ _ => true | _ => false end.

Definition valid64 (x : double) : Prop := valid_binary prec emax x = true.

(** A number: a well-formed double that is not NaN. *)
Definition is_num (x : double) : Prop := valid64 x ∧ is_nan x = false.

(** A finite number. *)
Definition is_fin (x : double) : Prop := valid64 x ∧ is_finite x = true.

#[global] Instance double_eq_dec : EqDecision double.
Proof. solve_decision. Defined.

#[global] Instance is_fin_dec x : Decision (is_fin x).
Proof. unfold is_fin, valid64. apply _. Defined.

(** Rounding to nearest, ties to even: [X / D] as an integer. *)
Definition rne (X D : Z) : Z :=
  let q := X / D in
  match 2 * (X mod D) ?= D with
  | Lt => q
  | Eq => if Z.even q then q else q + 1
  | Gt => q + 1
  end.

(** The exponent of the last place kept for a magnitude [X]. *)
Definition ulp_exp (X : Z) : Z := Z.max (Z.log2 X + 1 - 53) 0.

(** The quotient of non-negative integers, rounded to 53 significant bits. *)
Definition rndQ (X b : Z) : Z := rne X (b * 2 ^ ulp_exp (X / b)) * 2 ^ ulp_exp (X / b).

(** A non-negative integer rounded to 53 significant bits. *)
Definition rnd (X : Z) : Z := rndQ X 1.

(** The correctly rounded result of an exact value [X], saturating at the
    infinities. *)
Definition rndZ (X : Z) : Z := Z.sgn X * Z.min (rnd (Z.abs X)) HUGE.

(** ** Digits *)

Lemma digits2_log2 m : Zpos (digits2_pos m) = Z.log2 (Zpos m) + 1.
Proof.
  induction m as [m IH|m IH|]; simpl digits2_pos; [| |done].
  - rewrite Pos2Z.inj_succ, IH, Pos2Z.inj_xI, Z.log2_succ_double by lia. lia.
  - rewrite Pos2Z.inj_succ, IH, Pos2Z.inj_xO, Z.log2_double by lia. lia.
Qed.

Lemma log2_bounds X : 0 < X → 2 ^ Z.log2 X ≤ X < 2 ^ (Z.log2 X + 1).
Proof. intros H. pose proof (Z.log2_spec X H). lia. Qed.

Lemma pow2_pos k : 0 ≤ k → 0 < 2 ^ k.
Proof. intros. apply Z.pow_pos_nonneg; lia. Qed.

Lemma pow2_le a b : 0 ≤ a ≤ b → 2 ^ a ≤ 2 ^ b.
Proof. intros. apply Z.pow_le_mono_r; lia. Qed.

Lemma pow2_split a b : 0 ≤ a ≤ b → 2 ^ b = 2 ^ (b - a) * 2 ^ a.
Proof. intros. rewrite <- Z.pow_add_r by lia. f_equal. lia. Qed.

Lemma ulp_exp_nonneg X : 0 ≤ ulp_exp X.
Proof. unfold ulp_exp. lia. Qed.

(** ** Rounding to nearest even *)

Lemma rne_cases X D : X / D ≤ rne X D ≤ X / D + 1.
Proof. unfold rne. case (_ ?= _); [destruct (Z.even _)|..]; lia. Qed.

Lemma rne_exact X D : 0 < D → X mod D = 0 → rne X D = X / D.
Proof. intros Hk H. unfold rne. rewrite H. by rewrite (proj2 (Z.compare_lt_iff (2 * 0) _)) by lia. Qed.

Lemma rne_mono X Y D : 0 < D → X ≤ Y → rne X D ≤ rne Y D.
Proof.
  intros Hp HXY. pose proof (Z.div_le_mono X Y _ Hp HXY) as Hq.
  destruct (Z.eq_dec (X / D) (Y / D)) as [E|N].
  - pose proof (Z.div_mod X D ltac:(lia)) as HX. pose proof (Z.div_mod Y D ltac:(lia)) as HY.
    unfold rne. rewrite <- E in *.
    destruct (Z.compare_spec (2 * (X mod D)) D), (Z.compare_spec (2 * (Y mod D)) D);
      try destruct (Z.even (X / D)); lia.
  - pose proof (rne_cases X D). pose proof (rne_cases Y D). lia.
Qed.

Lemma rne_scale X D c : 0 < D → 0 < c → rne (X * c) (D * c) = rne X D.
Proof.
  intros Hn Hj. unfold rne. rewrite Z.div_mul_cancel_r, Z.mul_mod_distr_r by lia.
  replace (2 * (X mod D * c)) with ((2 * (X mod D)) * c) by lia. by rewrite <- Zmult_compare_compat_r by lia.
Qed.

(** The bounds of a quotient by the place of its leading bit. *)
Lemma div_pow2_bounds X b k :
  0 < b → 0 ≤ k ≤ Z.log2 (X / b) → 0 < X / b →
  2 ^ (Z.log2 (X / b) - k) ≤ X / (b * 2 ^ k) < 2 ^ (Z.log2 (X / b) + 1 - k).
Proof.
  intros Hb Hk HX. pose proof (log2_bounds _ HX) as [Hl Hu]. pose proof (pow2_pos k ltac:(lia)).
  rewrite <- Z.div_div by lia.
  rewrite (pow2_split k (Z.log2 (X / b))) in Hl by lia. rewrite (pow2_split k (Z.log2 (X / b) + 1)) in Hu by lia.
  split; [apply Z.div_le_lower_bound; lia|apply Z.div_lt_upper_bound; lia].
Qed.

Lemma ulp_exp_le_log2 X : 0 < X → ulp_exp X ≤ Z.log2 X.
Proof. intros. unfold ulp_exp. pose proof (Z.log2_nonneg X). lia. Qed.

(** The rounded mantissa. *)
Lemma rneQ_bounds X b :
  0 < b → 0 < X / b →
  let k := ulp_exp (X / b) in
  2 ^ (Z.log2 (X / b) - k) ≤ rne X (b * 2 ^ k) ≤ 2 ^ (Z.log2 (X / b) + 1 - k).
Proof.
  intros Hb HX k. pose proof (ulp_exp_nonneg (X / b)). pose proof (ulp_exp_le_log2 _ HX).
  pose proof (div_pow2_bounds X b k Hb ltac:(lia) HX). pose proof (rne_cases X (b * 2 ^ k)). lia.
Qed.

Lemma rndQ_lower X b : 0 < b → 0 < X / b → 2 ^ Z.log2 (X / b) ≤ rndQ X b.
Proof.
  intros Hb HX. pose proof (ulp_exp_nonneg (X / b)). pose proof (ulp_exp_le_log2 _ HX).
  destruct (rneQ_bounds X b Hb HX) as [Hl _]. pose proof (pow2_pos (ulp_exp (X / b)) ltac:(lia)).
  rewrite (pow2_split (ulp_exp (X / b))) by lia. apply Z.mul_le_mono_nonneg_r; [lia|done].
Qed.

Lemma rndQ_upper X b : 0 < b → 0 < X / b → rndQ X b ≤ 2 ^ (Z.log2 (X / b) + 1).
Proof.
  intros Hb HX. pose proof (ulp_exp_nonneg (X / b)). pose proof (ulp_exp_le_log2 _ HX).
  destruct (rneQ_bounds X b Hb HX) as [_ Hu]. pose proof (pow2_pos (ulp_exp (X / b)) ltac:(lia)).
  rewrite (pow2_split (ulp_exp (X / b)) (Z.log2 (X / b) + 1)) by lia. apply Z.mul_le_mono_nonneg_r; [lia|done].
Qed.

Lemma rndQ_mono X Y b : 0 < b → 0 < X / b → X ≤ Y → rndQ X b ≤ rndQ Y b.
Proof.
  intros Hb HX HXY. pose proof (Z.div_le_mono X Y b Hb HXY) as Hq. pose proof (Z.log2_le_mono _ _ Hq).
  destruct (Z.eq_dec (Z.log2 (X / b)) (Z.log2 (Y / b))) as [E|].
  - unfold rndQ, ulp_exp. rewrite E. fold (ulp_exp (Y / b)).
    pose proof (pow2_pos _ (ulp_exp_nonneg (Y / b))). apply Z.mul_le_mono_nonneg_r; [lia|].
    apply rne_mono; [by apply Z.mul_pos_pos|done].
  - transitivity (2 ^ (Z.log2 (X / b) + 1)); [by apply rndQ_upper|].
    transitivity (2 ^ Z.log2 (Y / b)); [|apply rndQ_lower; lia].
    apply pow2_le. pose proof (Z.log2_nonneg (X / b)). lia.
Qed.

Lemma rnd_0 : rnd 0 = 0.
Proof. done. Qed.

Lemma rnd_lower X : 0 < X → 2 ^ Z.log2 X ≤ rnd X.
Proof. intros HX. pose proof (rndQ_lower X 1) as H. rewrite Z.div_1_r in H. by apply H. Qed.

Lemma rnd_upper X : 0 < X → rnd X ≤ 2 ^ (Z.log2 X + 1).
Proof. intros HX. pose proof (rndQ_upper X 1) as H. rewrite Z.div_1_r in H. by apply H. Qed.

Lemma rnd_mono X Y : 0 ≤ X ≤ Y → rnd X ≤ rnd Y.
Proof.
  intros [H0 HXY]. destruct (Z.eq_dec X 0) as [->|]; [rewrite rnd_0|].
  - destruct (Z.eq_dec Y 0) as [->|]; [done|].
    pose proof (rnd_lower Y ltac:(lia)). pose proof (pow2_pos (Z.log2 Y) (Z.log2_nonneg _)). lia.
  - apply rndQ_mono; [lia|rewrite Z.div_1_r; lia|done].
Qed.

Lemma rnd_nonneg X : 0 ≤ X → 0 ≤ rnd X.
Proof. intros. rewrite <- rnd_0. apply rnd_mono. lia. Qed.

(** 53 bits are kept. *)
Lemma rnd_exact m j : 0 < m < 2 ^ 53 → 0 ≤ j → rnd (m * 2 ^ j) = m * 2 ^ j.
Proof.
  intros Hm Hj. unfold rnd, rndQ. rewrite Z.div_1_r, Z.mul_1_l.
  assert (0 ≤ ulp_exp (m * 2 ^ j) ≤ j) as Hu.
  { unfold ulp_exp. rewrite Z.log2_mul_pow2 by lia. assert (Z.log2 m < 53) by (apply Z.log2_lt_pow2; lia). lia. }
  generalize dependent (ulp_exp (m * 2 ^ j)). intros u Hu. pose proof (pow2_pos u ltac:(lia)).
  rewrite (pow2_split u j), Z.mul_assoc by lia.
  rewrite rne_exact; [by rewrite Z.div_mul by lia|done|apply Z.mod_mul; lia].
Qed.

Lemma HUGE_pos : 0 < HUGE.
Proof. apply pow2_pos. lia. Qed.

Lemma rndZ_mono X Y : X ≤ Y → rndZ X ≤ rndZ Y.
Proof.
  intros H. unfold rndZ. pose proof HUGE_pos.
  pose proof (rnd_nonneg (Z.abs X) ltac:(lia)). pose proof (rnd_nonneg (Z.abs Y) ltac:(lia)).
  destruct (Z.sgn_spec X) as [[? ->]|[[? ->]|[? ->]]],
    (Z.sgn_spec Y) as [[? ->]|[[? ->]|[? ->]]]; try lia.
  - pose proof (rnd_mono (Z.abs X) (Z.abs Y) ltac:(lia)). lia.
  - pose proof (rnd_mono (Z.abs Y) (Z.abs X) ltac:(lia)). lia.
Qed.

(** ** Shifting with a rounding and a sticky bit *)

(** [mrs] is the quotient of [X] by [D], with the rounding bit and the sticky
    bit. *)
Definition shr_inv (X D : Z) (mrs : shr_record) : Prop :=
  shr_m mrs = X / D ∧
  shr_r mrs = (D <=? 2 * (X mod D)) ∧
  shr_s mrs = (if shr_r mrs then D <? 2 * (X mod D) else 0 <? X mod D).

Lemma shr_inv_1 X : shr_inv X 1 {| shr_m := X; shr_r := false; shr_s := false |}.
Proof. split_and!; simpl; by rewrite ?Z.mod_1_r, ?Z.div_1_r. Qed.

Lemma shr_1_eq m r s :
  0 ≤ m → shr_1 {| shr_m := m; shr_r := r; shr_s := s |} =
    {| shr_m := m / 2; shr_r := Z.odd m; shr_s := r || s |}.
Proof.
  intros. destruct m as [|[p|p|]|]; try lia; simpl; try done;
    rewrite <- (Z.div2_div (Zpos _)); done.
Qed.

Lemma shr_1_inv X D mrs : 0 ≤ X → 0 < D → shr_inv X D mrs → shr_inv X (D * 2) (shr_1 mrs).
Proof.
  intros HX Hp (Hm & Hr & Hs). destruct mrs as [m r s]. cbn [shr_m shr_r shr_s] in Hm, Hr, Hs.
  assert (0 ≤ X / D) by (apply Z.div_pos; lia). pose proof (Z.mod_pos_bound X D Hp).
  assert (X mod (D * 2) = X mod D + D * ((X / D) mod 2)) as Hmod by (by rewrite Z.rem_mul_r by lia).
  assert (Hrs : r || s = (0 <? X mod D)).
  { subst s. destruct r; simpl; [|done]. symmetry in Hr. apply Z.leb_le in Hr. symmetry. apply Z.ltb_lt. lia. }
  rewrite shr_1_eq by lia.
  assert (Hodd : Z.odd m = (D * 2 <=? 2 * (X mod (D * 2)))).
  { rewrite Hmod, Hm, Zmod_odd. destruct (Z.odd _); symmetry; [apply Z.leb_le|apply Z.leb_gt]; lia. }
  split_and!; cbn [shr_m shr_r shr_s]; [| done |].
  - rewrite <- Z.div_div by lia. by rewrite Hm.
  - rewrite Hrs, Hmod, Hm, Zmod_odd. destruct (Z.odd (X / D)); apply eq_true_iff_eq; rewrite !Z.ltb_lt; lia.
Qed.

Lemma iter_shr_inv X p D mrs :
  0 ≤ X → 0 < D → shr_inv X D mrs → shr_inv X (D * 2 ^ Zpos p) (iter_pos shr_1 p mrs).
Proof.
  intros HX. revert D mrs. induction p as [p IH|p IH|]; intros D mrs HD H; simpl iter_pos.
  - apply shr_1_inv in H; [|lia..]. pose proof (pow2_pos (Zpos p) ltac:(lia)). apply IH, IH in H; [|lia..].
    replace (D * 2 ^ Zpos p~1) with (D * 2 * 2 ^ Zpos p * 2 ^ Zpos p); [done|].
    replace (Zpos p~1) with (1 + (Zpos p + Zpos p)) by lia. rewrite !Z.pow_add_r by lia. lia.
  - pose proof (pow2_pos (Zpos p) ltac:(lia)). apply IH, IH in H; [|lia..].
    replace (D * 2 ^ Zpos p~0) with (D * 2 ^ Zpos p * 2 ^ Zpos p); [done|].
    replace (Zpos p~0) with (Zpos p + Zpos p) by lia. rewrite Z.pow_add_r by lia. lia.
  - by apply shr_1_inv.
Qed.

Lemma round_shr_inv X D mrs :
  shr_inv X D mrs → round_nearest_even (shr_m mrs) (loc_of_shr_record mrs) = rne X D.
Proof.
  intros (Hm & Hr & Hs). destruct mrs as [m r s]; simpl in *. subst m. unfold rne.
  destruct (Z.compare_spec (2 * (X mod D)) D) as [E|L|G];
    (destruct r; [symmetry in Hr; apply Z.leb_le in Hr
                 |symmetry in Hr; apply Z.leb_gt in Hr]); try lia;
    destruct s; simpl; try done; symmetry in Hs; rewrite ?Z.ltb_lt, ?Z.ltb_ge in Hs; lia.
Qed.

Lemma iter_xO m d : Zpos (Pos.iter xO m d) = Zpos m * 2 ^ Zpos d.
Proof.
  induction d as [|d IH] using Pos.peano_ind; [simpl; lia|].
  rewrite Pos.iter_succ, Pos2Z.inj_xO, IH, Pos2Z.inj_succ, Z.pow_succ_r by lia. lia.
Qed.

Lemma fexp64 e : fexp prec emax e = Z.max (e - 53) (-1074).
Proof. done. Qed.

(** ** Normalisation and rounding of an integer mantissa *)

Lemma log2_scale m j : 0 ≤ j → Z.log2 (Zpos m * 2 ^ j) = Z.log2 (Zpos m) + j.
Proof. intros. rewrite Z.log2_mul_pow2 by lia. lia. Qed.

Lemma shr_nonpos mrs e n : n ≤ 0 → shr mrs e n = (mrs, e).
Proof. intros. destruct n; [done|lia|done]. Qed.

Lemma shr_run X D mrs e n :
  0 ≤ X → 0 < D → 0 ≤ n → shr_inv X D mrs →
  ∃ mrs', shr mrs e n = (mrs', e + n) ∧ shr_inv X (D * 2 ^ n) mrs'.
Proof.
  intros HX HD Hn H. destruct n as [|p|p]; [| |lia]; simpl.
  - eexists; split; [by rewrite Z.add_0_r|by rewrite Z.mul_1_r].
  - eexists; split; [done|]. by apply (iter_shr_inv X p D).
Qed.

Lemma log2_div_scale X b j : 0 < b → 0 < X / b → 0 ≤ j → Z.log2 (X * 2 ^ j / b) = Z.log2 (X / b) + j.
Proof.
  intros Hb HX Hj. pose proof (log2_bounds _ HX) as [Hl Hu]. pose proof (pow2_pos j Hj).
  pose proof (Z.div_mod X b ltac:(lia)). pose proof (Z.mod_pos_bound X b Hb). pose proof (Z.log2_nonneg (X / b)).
  assert (b * 2 ^ Z.log2 (X / b) ≤ X) as Hl' by nia. assert (X < b * 2 ^ (Z.log2 (X / b) + 1)) as Hu' by nia.
  apply Z.log2_unique; [lia|]. rewrite <- Z.add_succ_l, !Z.pow_add_r by lia. split.
  - apply Z.div_le_lower_bound; [lia|]. rewrite Z.mul_assoc. apply Z.mul_le_mono_nonneg_r; lia.
  - apply Z.div_lt_upper_bound; [lia|]. rewrite Z.mul_assoc. by apply Z.mul_lt_mono_pos_r.
Qed.

Lemma ulp_exp_scale X b e :
  0 < b → 0 < X / b → -1074 ≤ e →
  ulp_exp (X * 2 ^ (e + 1074) / b) = fexp prec emax (Z.log2 (X / b) + 1 + e) + 1074.
Proof. intros. unfold ulp_exp. rewrite log2_div_scale, fexp64 by lia. lia. Qed.

(** A mantissa and exponent in canonical form: 53 bits unless subnormal. *)
Definition canon (m : positive) (e : Z) : Prop :=
  -1074 ≤ e ∧ Zpos m < 2 ^ 53 ∧ (e = -1074 ∨ 2 ^ 52 ≤ Zpos m).

Lemma log2_lt m n : 0 ≤ n → Zpos m < 2 ^ n ↔ Z.log2 (Zpos m) < n.
Proof. intros. apply Z.log2_lt_pow2. lia. Qed.

Lemma canonical_canon m e : canonical_mantissa prec emax m e = true ↔ canon m e.
Proof.
  unfold canonical_mantissa, canon. rewrite Z.eqb_eq, fexp64, digits2_log2.
  pose proof (Z.log2_nonneg (Zpos m)).
  rewrite log2_lt by lia. assert (2 ^ 52 ≤ Zpos m ↔ 52 ≤ Z.log2 (Zpos m)) as ->.
  { apply Z.log2_le_pow2. lia. }
  lia.
Qed.

Lemma round_stage2 m f :
  0 < m ≤ 2 ^ 53 → -1074 ≤ f → (f = -1074 ∨ 2 ^ 52 ≤ m) →
  ∃ m' mrs e', shr_fexp prec emax m f loc_Exact = (mrs, e') ∧ shr_m mrs = Zpos m' ∧
    canon m' e' ∧ Zpos m' * 2 ^ (e' + 1074) = m * 2 ^ (f + 1074).
Proof.
  intros Hm Hf Hc. destruct m as [|m|]; [lia| |lia].
  unfold shr_fexp. cbn [Zdigits2 shr_record_of_loc].
  rewrite fexp64, digits2_log2.
  destruct (Z.eq_dec (Zpos m) (2 ^ 53)) as [E|N].
  - rewrite E, Z.log2_pow2 by lia.
    replace (Z.max (53 + 1 + f - 53) (-1074) - f) with 1 by lia.
    exists (2 ^ 52)%positive. do 2 eexists. split; [done|].
    split; [done|]. split; [split_and!; [lia|done|by right]|].
    replace (f + 1 + 1074) with (1 + (f + 1074)) by lia.
    rewrite (Z.pow_add_r 2 1) by lia. change (Zpos (2 ^ 52)) with (2 ^ 52).
    change (2 ^ 53) with (2 ^ 52 * 2). lia.
  - assert (Z.log2 (Zpos m) < 53) by (apply log2_lt; lia).
    rewrite shr_nonpos by lia. exists m. do 2 eexists. split; [done|].
    split; [done|]. split; [|done]. split_and!; lia.
Qed.

Lemma rneQ_range X b :
  0 < b → 0 < X / b →
  0 < rne X (b * 2 ^ ulp_exp (X / b)) ≤ 2 ^ 53 ∧
  (ulp_exp (X / b) = 0 ∨ 2 ^ 52 ≤ rne X (b * 2 ^ ulp_exp (X / b))).
Proof.
  intros Hb HX. destruct (rneQ_bounds X b Hb HX) as [Hl Hu]. pose proof (ulp_exp_le_log2 _ HX).
  pose proof (ulp_exp_nonneg (X / b)). pose proof (pow2_pos (Z.log2 (X / b) - ulp_exp (X / b)) ltac:(lia)).
  split; [split; [lia|]|].
  - etransitivity; [apply Hu|]. apply pow2_le. unfold ulp_exp. lia.
  - destruct (Z.eq_dec (ulp_exp (X / b)) 0); [by left|right].
    etransitivity; [|apply Hl]. apply pow2_le. unfold ulp_exp in *. lia.
Qed.

Lemma canon_value_bounds m e :
  canon m e → e ≤ 971 → Zpos m * 2 ^ (e + 1074) < HUGE.
Proof.
  intros (He & Hm & _) Hle. unfold HUGE.
  change 2098 with (53 + 2045). rewrite (Z.pow_add_r 2 53 2045) by lia.
  pose proof (pow2_pos (e + 1074) ltac:(lia)).
  pose proof (pow2_le (e + 1074) 2045 ltac:(lia)).
  apply Z.lt_le_trans with (2 ^ 53 * 2 ^ (e + 1074)).
  - by apply Z.mul_lt_mono_pos_r.
  - by apply Z.mul_le_mono_nonneg_l.
Qed.

Lemma canon_value_huge m e :
  canon m e → 971 < e → HUGE ≤ Zpos m * 2 ^ (e + 1074).
Proof.
  intros (He & _ & [->|Hm]) Hlt; [lia|]. unfold HUGE.
  change 2098 with (52 + 2046). rewrite (Z.pow_add_r 2 52 2046) by lia.
  pose proof (pow2_pos 52 ltac:(lia)). pose proof (pow2_pos 2046 ltac:(lia)).
  apply Z.mul_le_mono_nonneg; [lia|done|lia|]. apply pow2_le. lia.
Qed.

(** Rounding of the quotient [X / b], of which [q] is the integer part and [l]
    tells where between [q] and [q + 1] it lies. *)
Lemma binary_round_aux_spec s q e l X b :
  0 < b → -1074 ≤ e → shr_inv X b (shr_record_of_loc (Zpos q) l) →
  e ≤ fexp prec emax (Zpos (digits2_pos q) + e) →
  let r := binary_round_aux prec emax s (Zpos q) e l in
  is_num r ∧ dval r = cond_Zopp s (Z.min (rndQ (X * 2 ^ (e + 1074)) b) HUGE).
Proof.
  intros Hb He Hi Hf r. subst r.
  assert (X / b = Zpos q) as Hq by (destruct Hi as [<- _]; by destruct l as [|[]]).
  assert (0 ≤ X) as HX by (pose proof (Z.div_mod X b ltac:(lia)); pose proof (Z.mod_pos_bound X b Hb); nia).
  assert (0 < X * 2 ^ (e + 1074) / b) as HV.
  { pose proof (pow2_pos (e + 1074) ltac:(lia)). apply Z.div_str_pos. pose proof (Z.div_mod X b ltac:(lia)).
    pose proof (Z.mod_pos_bound X b Hb). nia. }
  pose proof (ulp_exp_scale X b e Hb ltac:(lia) He) as Hu. rewrite Hq, <- digits2_log2 in Hu.
  destruct (rneQ_range _ b Hb HV) as [Hr Hn]. pose proof (ulp_exp_nonneg (X * 2 ^ (e + 1074) / b)).
  destruct (shr_run X b _ e (fexp prec emax (Zpos (digits2_pos q) + e) - e) HX Hb ltac:(lia) Hi) as (mrs & Hs & Hi').
  set (f := fexp prec emax (Zpos (digits2_pos q) + e)) in *.
  assert (shr_fexp prec emax (Zpos q) e l = (mrs, e + (f - e))) as Hs' by apply Hs.
  unfold binary_round_aux. rewrite Hs', (round_shr_inv _ _ _ Hi').
  rewrite <- (rne_scale X _ (2 ^ (e + 1074))) by (try apply Z.mul_pos_pos; try apply pow2_pos; lia).
  rewrite <- Z.mul_assoc, <- Z.pow_add_r by lia. replace (f - e + (e + 1074)) with (f + 1074) by lia.
  replace (e + (f - e)) with (f + 1074 - 1074) by lia. unfold rndQ. rewrite <- Hu in *.
  destruct (round_stage2 (rne (X * 2 ^ (e + 1074)) (b * 2 ^ ulp_exp (X * 2 ^ (e + 1074) / b)))
    (ulp_exp (X * 2 ^ (e + 1074) / b) - 1074)) as (m' & mrs' & e' & -> & -> & Hc & Hv);
    [done|lia|destruct Hn; [left; lia|by right]|].
  rewrite Z.sub_add in Hv. rewrite <- Hv. change (emax - prec) with 971. destruct (Z.leb_spec e' 971) as [Hle|Hgt].
  - split; [split; [|done]|].
    + unfold valid64. simpl. unfold bounded. apply andb_true_intro. split; [by apply canonical_canon|by apply Z.leb_le].
    + simpl. f_equal. pose proof (canon_value_bounds _ _ Hc Hle). lia.
  - split; [done|]. simpl. f_equal. pose proof (canon_value_huge _ _ Hc Hgt). lia.
Qed.

Lemma binary_round_spec s mx ex :
  -1074 ≤ ex →
  let r := binary_round prec emax s mx ex in
  is_num r ∧ dval r = cond_Zopp s (Z.min (rnd (Zpos mx * 2 ^ (ex + 1074))) HUGE).
Proof.
  intros Hex r. subst r. unfold binary_round.
  set (f := fexp prec emax (Zpos (digits2_pos mx) + ex)).
  assert (-1074 ≤ f) by (unfold f; rewrite fexp64; lia).
  destruct (Z.le_gt_cases ex f) as [Hle|Hgt].
  - assert (shl_align mx ex f = (mx, ex)) as -> by (unfold shl_align; destruct (f - ex) eqn:E; [done..|lia]).
    apply binary_round_aux_spec; [lia|done|apply shr_inv_1|done].
  - destruct (f - ex) as [|p|p] eqn:E; [lia..|].
    assert (shl_align mx ex f = (Pos.iter xO mx p, f)) as -> by (unfold shl_align; by rewrite E).
    replace (Zpos mx * 2 ^ (ex + 1074)) with (Zpos (Pos.iter xO mx p) * 2 ^ (f + 1074)).
    + apply binary_round_aux_spec; [lia|done|apply shr_inv_1|].
      unfold f at 1. rewrite !fexp64, !digits2_log2, iter_xO, log2_scale by lia. lia.
    + rewrite iter_xO, <- Z.mul_assoc, <- Z.pow_add_r by lia. do 2 f_equal. lia.
Qed.

Lemma binary_normalize_spec m e s :
  -1074 ≤ e →
  is_num (binary_normalize prec emax m e s) ∧
  dval (binary_normalize prec emax m e s) = rndZ (m * 2 ^ (e + 1074)).
Proof.
  intros He. pose proof (pow2_pos (e + 1074) ltac:(lia)) as Hp.
  destruct m as [|m|m]; cbn [binary_normalize].
  - done.
  - destruct (binary_round_spec false m e He) as [? ->]. split; [done|].
    unfold rndZ. rewrite Z.sgn_pos, Z.abs_eq by lia. simpl cond_Zopp. lia.
  - destruct (binary_round_spec true m e He) as [? ->]. split; [done|].
    unfold rndZ. rewrite Z.sgn_neg, Z.abs_neq by lia. simpl cond_Zopp.
    replace (- (Z.neg m * 2 ^ (e + 1074))) with (Z.pos m * 2 ^ (e + 1074)) by lia. lia.
Qed.

(** ** Canonical representation *)

Lemma valid_finite s m e : valid64 (S754_finite s m e) → canon m e ∧ e ≤ 971.
Proof.
  unfold valid64. simpl. unfold bounded. intros [H1 H2]%andb_prop. split.
  - by apply canonical_canon.
  - by apply Z.leb_le.
Qed.

Lemma is_fin_num x : is_fin x → is_num x.
Proof. intros [? H]. split; [done|]. by destruct x. Qed.

Lemma rndZ_opp X : rndZ (- X) = - rndZ X.
Proof. unfold rndZ. rewrite Z.sgn_opp, Z.abs_opp. lia. Qed.

Lemma rnd_canon m e : canon m e → rnd (Zpos m * 2 ^ (e + 1074)) = Zpos m * 2 ^ (e + 1074).
Proof. intros (He & Hm & _). apply rnd_exact; lia. Qed.

Lemma rndZ_fin x : is_fin x → rndZ (dval x) = dval x.
Proof.
  intros [Hv Hf]. destruct x as [s|s| |s m e]; try done.
  destruct (valid_finite _ _ _ Hv) as [Hc He]. pose proof Hc as (Hmin & _).
  assert (rndZ (Zpos m * 2 ^ (e + 1074)) = Zpos m * 2 ^ (e + 1074)) as Hpos.
  { pose proof (pow2_pos (e + 1074) ltac:(lia)).
    pose proof (canon_value_bounds _ _ Hc He).
    unfold rndZ. rewrite Z.sgn_pos, Z.abs_eq, rnd_canon by (done || lia). lia. }
  destruct s; simpl; [by rewrite rndZ_opp, Hpos|done].
Qed.

Lemma dval_fin_bounds x : is_fin x → - HUGE < dval x < HUGE.
Proof.
  intros [Hv Hf]. pose proof HUGE_pos. destruct x as [s|s| |s m e]; try done; cbn [dval]; try lia.
  destruct (valid_finite _ _ _ Hv) as [Hc He]. pose proof (canon_value_bounds _ _ Hc He).
  pose proof (pow2_pos (e + 1074) ltac:(destruct Hc; lia)).
  destruct s; cbn [cond_Zopp]; lia.
Qed.

Lemma dval_num_bounds x : is_num x → - HUGE ≤ dval x ≤ HUGE.
Proof.
  intros [Hv Hn]. pose proof HUGE_pos. destruct x as [s|s| |s m e]; [| |discriminate|].
  - cbn [dval]. lia.
  - destruct s; cbn [dval cond_Zopp]; lia.
  - pose proof (dval_fin_bounds (S754_finite s m e) (conj Hv eq_refl)). lia.
Qed.

(** ** Comparison *)

Lemma canon_lt m1 e1 m2 e2 :
  canon m1 e1 → canon m2 e2 → e1 < e2 →
  Zpos m1 * 2 ^ (e1 + 1074) < Zpos m2 * 2 ^ (e2 + 1074).
Proof.
  intros (H1 & Hm1 & _) (H2 & _ & [->|Hm2]) Hlt; [lia|].
  pose proof (pow2_pos (e1 + 1074) ltac:(lia)).
  apply Z.lt_le_trans with (2 ^ 53 * 2 ^ (e1 + 1074)); [by apply Z.mul_lt_mono_pos_r|].
  replace (e2 + 1074) with ((e2 - e1 - 1) + (1 + (e1 + 1074))) by lia.
  rewrite (Z.pow_add_r 2 (e2 - e1 - 1)), (Z.pow_add_r 2 1) by lia.
  pose proof (pow2_pos (e2 - e1 - 1) ltac:(lia)).
  change (2 ^ 53) with (2 ^ 52 * 2). change (2 ^ 1) with 2.
  transitivity (Zpos m2 * 1 * (2 * 2 ^ (e1 + 1074))).
  - rewrite Z.mul_1_r, Z.mul_assoc. apply Z.mul_le_mono_nonneg_r; lia.
  - rewrite <- !Z.mul_assoc. apply Z.mul_le_mono_nonneg_l; [lia|].
    apply Z.mul_le_mono_nonneg_r; lia.
Qed.

Lemma canon_compare m1 e1 m2 e2 :
  canon m1 e1 → canon m2 e2 →
  match Z.compare e1 e2 with
  | Lt => Lt | Gt => Gt | Eq => Pos.compare_cont Eq m1 m2
  end = (Zpos m1 * 2 ^ (e1 + 1074) ?= Zpos m2 * 2 ^ (e2 + 1074)).
Proof.
  intros H1 H2. destruct (Z.compare_spec e1 e2) as [->|L|G].
  - pose proof (pow2_pos (e2 + 1074) ltac:(destruct H2; lia)).
    rewrite <- Zmult_compare_compat_r by lia. done.
  - symmetry. apply Z.compare_lt_iff. by apply canon_lt.
  - symmetry. apply Z.compare_gt_iff. by apply canon_lt.
Qed.

(** Comparison of numbers is comparison of their values. *)
Lemma dcompare_val x y :
  is_num x → is_num y → SFcompare x y = Some (dval x ?= dval y).
Proof.
  intros Hx Hy. pose proof HUGE_pos.
  destruct x as [s1|s1| |s1 m1 e1]; try (by destruct Hx);
    destruct y as [s2|s2| |s2 m2 e2]; try (by destruct Hy);
    try (pose proof (dval_fin_bounds (S754_finite s1 m1 e1) (conj (proj1 Hx) eq_refl));
         pose proof (valid_finite _ _ _ (proj1 Hx)) as [Hc1 _];
         pose proof (pow2_pos (e1 + 1074) ltac:(destruct Hc1; lia)));
    try (pose proof (dval_fin_bounds (S754_finite s2 m2 e2) (conj (proj1 Hy) eq_refl));
         pose proof (valid_finite _ _ _ (proj1 Hy)) as [Hc2 _];
         pose proof (pow2_pos (e2 + 1074) ltac:(destruct Hc2; lia)));
    cbn [SFcompare dval] in *; f_equal.
  all: try destruct s1; try destruct s2; cbn [cond_Zopp] in *; symmetry;
       try first [apply Z.compare_refl|apply Z.compare_lt_iff; lia|apply Z.compare_gt_iff; lia].
  - rewrite Z.compare_opp, <- (canon_compare _ _ _ _ Hc2 Hc1).
    rewrite (Z.compare_antisym e1 e2). destruct (e1 ?= e2); simpl; try done.
    apply (Pos.compare_antisym m1 m2).
  - symmetry. by apply canon_compare.
Qed.

(** [x < y] on numbers. *)
Lemma dltb_val x y : is_num x → is_num y → dltb x y = (dval x <? dval y).
Proof.
  intros Hx Hy. unfold dltb, SFltb, Z.ltb. rewrite dcompare_val by done.
  by destruct (_ ?= _).
Qed.

(** ** Addition and subtraction are correctly rounded *)

Lemma shl_align_fst m e ez :
  ez ≤ e → Zpos (shl_align m e ez).1 = Zpos m * 2 ^ (e - ez).
Proof.
  intros. unfold shl_align. destruct (ez - e) as [|p|p] eqn:E.
  - simpl. replace (e - ez) with 0 by lia. lia.
  - lia.
  - simpl fst. rewrite iter_xO. do 2 f_equal. lia.
Qed.

Lemma aligned_value s m e ez :
  -1074 ≤ ez ≤ e →
  cond_Zopp s (Zpos (shl_align m e ez).1) * 2 ^ (ez + 1074) = dval (S754_finite s m e).
Proof.
  intros. rewrite shl_align_fst by lia. cbn [dval].
  replace (e + 1074) with ((e - ez) + (ez + 1074)) by lia.
  rewrite (Z.pow_add_r 2 (e - ez)) by lia. destruct s; cbn [cond_Zopp]; lia.
Qed.

Lemma dadd_correct x y :
  is_fin x → is_fin y → is_num (dadd x y) ∧ dval (dadd x y) = rndZ (dval x + dval y).
Proof.
  intros Hx Hy. pose proof (is_fin_num _ Hx). pose proof (is_fin_num _ Hy).
  destruct x as [s1|s1| |s1 m1 e1]; try (by destruct Hx);
    destruct y as [s2|s2| |s2 m2 e2]; try (by destruct Hy).
  - unfold dadd. by destruct s1, s2.
  - rewrite Z.add_0_l, rndZ_fin by done. done.
  - rewrite Z.add_0_r, rndZ_fin by done. done.
  - destruct (valid_finite _ _ _ (proj1 Hx)) as [(? & _) _].
    destruct (valid_finite _ _ _ (proj1 Hy)) as [(? & _) _].
    unfold dadd. cbn [SFadd].
    pose proof (binary_normalize_spec
      (cond_Zopp s1 (Zpos (shl_align m1 e1 (Z.min e1 e2)).1) +
       cond_Zopp s2 (Zpos (shl_align m2 e2 (Z.min e1 e2)).1)) (Z.min e1 e2) false ltac:(lia))
      as [Hn Hv].
    split; [apply Hn|]. rewrite Hv, Z.mul_add_distr_r, !aligned_value by lia. done.
Qed.

Lemma dsub_correct x y :
  is_fin x → is_fin y → is_num (dsub x y) ∧ dval (dsub x y) = rndZ (dval x - dval y).
Proof.
  intros Hx Hy. pose proof (is_fin_num _ Hx). pose proof (is_fin_num _ Hy).
  destruct x as [s1|s1| |s1 m1 e1]; try (by destruct Hx);
    destruct y as [s2|s2| |s2 m2 e2]; try (by destruct Hy).
  - unfold dsub. by destruct s1, s2.
  - rewrite Z.sub_0_l, rndZ_opp, rndZ_fin by done. split; [|destruct s2; unfold dsub; cbn [SFsub dval negb cond_Zopp]; lia].
    split; [|done]. destruct Hy as [Hv _]. apply Hv.
  - rewrite Z.sub_0_r, rndZ_fin by done. done.
  - destruct (valid_finite _ _ _ (proj1 Hx)) as [(? & _) _].
    destruct (valid_finite _ _ _ (proj1 Hy)) as [(? & _) _].
    unfold dsub. cbn [SFsub].
    pose proof (binary_normalize_spec
      (cond_Zopp s1 (Zpos (shl_align m1 e1 (Z.min e1 e2)).1) -
       cond_Zopp s2 (Zpos (shl_align m2 e2 (Z.min e1 e2)).1)) (Z.min e1 e2) false ltac:(lia))
      as [Hn Hv].
    split; [apply Hn|]. rewrite Hv, Z.mul_sub_distr_r, !aligned_value by lia. done.
Qed.

Lemma dadd_inf_l s y : is_fin y → dadd (S754_infinity s) y = S754_infinity s.
Proof. intros [_ Hf]. by destruct y. Qed.

Lemma is_num_cases x : is_num x → is_fin x ∨ ∃ s, x = S754_infinity s.
Proof. intros [Hv Hn]. destruct x as [s|s| |s m e]; [left| |done|left]; eauto; done. Qed.

(** Adding a finite number to a number gives a number. *)
Lemma dadd_num x y : is_num x → is_fin y → is_num (dadd x y).
Proof.
  intros Hx Hy. destruct (is_num_cases _ Hx) as [?|[s ->]].
  - by apply dadd_correct.
  - by rewrite dadd_inf_l.
Qed.

Lemma rndZ_bounds X : - HUGE ≤ rndZ X ≤ HUGE.
Proof.
  unfold rndZ. pose proof HUGE_pos. pose proof (rnd_nonneg (Z.abs X) ltac:(lia)).
  destruct (Z.sgn_spec X) as [[? ->]|[[? ->]|[? ->]]]; lia.
Qed.

(** Rounded addition is monotone in its first argument. *)
Lemma dadd_mono_l x x' y :
  is_num x → is_num x' → is_fin y → dval x ≤ dval x' → dval (dadd x y) ≤ dval (dadd x' y).
Proof.
  intros Hx Hx' Hy Hle.
  pose proof (dval_num_bounds _ (dadd_num x y Hx Hy)).
  pose proof (dval_num_bounds _ (dadd_num x' y Hx' Hy)).
  destruct (is_num_cases _ Hx) as [Fx|[s ->]].
  - destruct (is_num_cases _ Hx') as [Fx'|[s' ->]].
    + destruct (dadd_correct x y Fx Hy) as [_ ->]. destruct (dadd_correct x' y Fx' Hy) as [_ ->].
      apply rndZ_mono. lia.
    + rewrite (dadd_inf_l s' y) in * by done. pose proof (dval_fin_bounds _ Fx).
      destruct s'; cbn [dval cond_Zopp] in *; lia.
  - rewrite (dadd_inf_l s y) in * by done.
    destruct s; cbn [dval cond_Zopp] in *; [lia|].
    destruct (is_num_cases _ Hx') as [Fx'|[s' ->]].
    + pose proof (dval_fin_bounds _ Fx'). lia.
    + rewrite dadd_inf_l in * by done. done.
Qed.

(** [0.0 + x] has the value of [x]. *)
Lemma dadd_0_l x : is_fin x → dval (dadd dzero x) = dval x.
Proof.
  intros Hx. destruct (dadd_correct dzero x) as [_ ->]; [done..|]. by apply rndZ_fin.
Qed.

(** [x + y] with [y >= 0] is not below [x]. *)
Lemma dadd_ge_l x y : is_num x → is_fin y → 0 ≤ dval y → dval x ≤ dval (dadd x y).
Proof.
  intros Hx Hy H0. destruct (is_num_cases _ Hx) as [Fx|[s ->]].
  - destruct (dadd_correct x y Fx Hy) as [_ ->]. rewrite <- (rndZ_fin x) at 1 by done.
    apply rndZ_mono. lia.
  - by rewrite dadd_inf_l.
Qed.

Lemma dzero_fin : is_fin dzero.
Proof. done. Qed.

Lemma dmax_num x y : is_num x → is_num y → is_num (dmax x y).
Proof. intros. unfold dmax. by destruct (dltb x y). Qed.

Lemma dmax_val x y : is_num x → is_num y → dval (dmax x y) = Z.max (dval x) (dval y).
Proof.
  intros. unfold dmax. rewrite dltb_val by done.
  destruct (Z.ltb_spec (dval x) (dval y)); lia.
Qed.

#[export] Hint Resolve is_fin_num dzero_fin dadd_num dmax_num : tdg.
