(* ===== verification/FloatDiv.v ===== *)
(** * Multiplication and division of binary64 numbers

    The values of a product and of a quotient, for the magnitudes the clock
    computes with: numbers that are at least 1, far away from the subnormal
    range. *)
From stdpp Require Import base numbers list.
From Stdlib Require Import ZArith Lia SpecFloat.
From S2P Require Import Prelude Float64.

Local Open Scope Z_scope.

(** The value 1. *)
Definition ONE : Z := 2 ^ 1074.

Lemma ONE_pos : 0 < ONE.
Proof. apply pow2_pos. lia. Qed.

(** ** Products *)

Lemma dmul_finite s1 m1 e1 s2 m2 e2 :
  -1074 ≤ e1 + e2 → 2 ^ 52 ≤ Zpos m1 →
  is_num (dmul (S754_finite s1 m1 e1) (S754_finite s2 m2 e2)) ∧
  dval (dmul (S754_finite s1 m1 e1) (S754_finite s2 m2 e2)) =
    cond_Zopp (xorb s1 s2) (Z.min (rnd (Zpos m1 * Zpos m2 * 2 ^ (e1 + e2 + 1074))) HUGE).
Proof.
  intros He Hm. unfold dmul. cbn [SFmul]. rewrite <- Pos2Z.inj_mul.
  apply binary_round_aux_spec; [lia|done|apply shr_inv_1|].
  rewrite fexp64, digits2_log2. assert (52 ≤ Z.log2 (Zpos (m1 * m2))); [|lia].
  apply Z.log2_le_pow2; [lia|]. rewrite Pos2Z.inj_mul. nia.
Qed.

(** ** Quotients *)

(** The location of a remainder in its interval. *)
Lemma new_location_inv X b q :
  0 < b → X / b = Zpos q → shr_inv X b (shr_record_of_loc (Zpos q) (new_location b (X mod b))).
Proof.
  intros Hb Hq. pose proof (Z.mod_pos_bound X b Hb) as Hr.
  assert (new_location b (X mod b) =
    if X mod b =? 0 then loc_Exact else loc_Inexact (2 * (X mod b) ?= b)) as ->.
  { unfold new_location. destruct (Z.even b) eqn:E; [done|]. unfold new_location_odd.
    destruct (X mod b =? 0); [done|]. f_equal.
    assert (2 * (X mod b) ≠ b) as Hne by (intros E'; rewrite <- E', Z.even_mul in E; done).
    destruct (Z.compare_spec (2 * (X mod b) + 1) b), (Z.compare_spec (2 * (X mod b)) b); lia || done. }
  destruct (Z.eqb_spec (X mod b) 0) as [E|N].
  - split_and!; cbn [shr_record_of_loc shr_m shr_r shr_s]; rewrite ?E; [done| |done]. symmetry. apply Z.leb_gt. lia.
  - destruct (Z.compare_spec (2 * (X mod b)) b) as [E|L|G]; split_and!; cbn [shr_record_of_loc shr_m shr_r shr_s];
      try done; symmetry; rewrite ?Z.leb_le, ?Z.leb_gt, ?Z.ltb_lt, ?Z.ltb_ge; lia.
Qed.

Lemma log2_div_lower a b : 0 < b → 0 < a / b → Z.log2 a - Z.log2 b ≤ Z.log2 (a / b) + 1.
Proof.
  intros Hb Ha. pose proof (log2_bounds _ Ha) as [_ Hu]. pose proof (log2_bounds b Hb) as [_ Hb'].
  pose proof (Z.div_mod a b ltac:(lia)). pose proof (Z.mod_pos_bound a b Hb).
  pose proof (Z.log2_nonneg b). pose proof (Z.log2_nonneg (a / b)).
  assert (a < 2 ^ (Z.log2 b + 1 + (Z.log2 (a / b) + 1))) as Hlt by (rewrite Z.pow_add_r by lia; nia).
  apply Z.log2_lt_pow2 in Hlt; [lia|nia].
Qed.

Lemma div_core m1 e1 m2 e2 :
  -1074 ≤ e1 - e2 → Zpos m2 ≤ Zpos m1 * 2 ^ (e1 - e2 + 1074) →
  ∃ q e X, SFdiv_core_binary prec emax (Zpos m1) e1 (Zpos m2) e2 =
      (Zpos q, e, new_location (Zpos m2) (X mod Zpos m2)) ∧
    X / Zpos m2 = Zpos q ∧ -1074 ≤ e ∧ e ≤ fexp prec emax (Zpos (digits2_pos q) + e) ∧
    X * 2 ^ (e + 1074) = Zpos m1 * 2 ^ (e1 - e2 + 1074).
Proof.
  intros He Hge. unfold SFdiv_core_binary. cbn [Zdigits2].
  set (d1 := Zpos (digits2_pos m1)). set (d2 := Zpos (digits2_pos m2)).
  set (e' := Z.min (fexp prec emax (d1 + e1 - (d2 + e2))) (e1 - e2)).
  assert (-1074 ≤ e' ≤ e1 - e2) as He' by (unfold e'; rewrite fexp64; lia).
  assert (match e1 - e2 - e' with Z0 => Zpos m1 | Zpos _ => Z.shiftl (Zpos m1) (e1 - e2 - e') | Zneg _ => 0 end =
    Zpos m1 * 2 ^ (e1 - e2 - e')) as ->.
  { destruct (e1 - e2 - e') as [|p|p] eqn:E; [simpl; lia|rewrite Z.shiftl_mul_pow2 by lia; done|lia]. }
  set (X := Zpos m1 * 2 ^ (e1 - e2 - e')).
  assert (Zpos m2 ≤ X) as HX.
  { unfold X. destruct (Z.eq_dec e' (-1074)) as [->|Hne]; [by replace (e1 - e2 - -1074) with (e1 - e2 + 1074) by lia|].
    apply Z.lt_le_incl. apply Z.log2_lt_cancel. rewrite log2_scale by lia.
    unfold e', d1, d2 in *. rewrite fexp64, !digits2_log2 in *. lia. }
  destruct (X / Zpos m2) as [|q|q] eqn:Eq.
  - assert (1 ≤ X / Zpos m2) by (apply Z.div_le_lower_bound; lia). lia.
  - exists q, e', X. pose proof (Z.div_eucl X (Zpos m2)) as _.
    assert (Z.div_eucl X (Zpos m2) = (Zpos q, X mod Zpos m2)) as ->.
    { unfold Z.div in Eq. unfold Z.modulo. destruct (Z.div_eucl X (Zpos m2)). by rewrite Eq. }
    split_and!; try done; try lia.
    + pose proof (log2_div_lower X (Zpos m2) ltac:(lia) ltac:(lia)) as Hl. rewrite Eq in Hl. unfold X in Hl.
      rewrite log2_scale in Hl by lia. unfold e' at 1, d1, d2. rewrite !fexp64, !digits2_log2. lia.
    + unfold X. rewrite <- Z.mul_assoc, <- Z.pow_add_r by lia. do 2 f_equal. lia.
  - assert (0 ≤ X / Zpos m2) by (apply Z.div_pos; lia). lia.
Qed.

Lemma ddiv_finite s1 m1 e1 s2 m2 e2 :
  -1074 ≤ e1 - e2 → Zpos m2 ≤ Zpos m1 * 2 ^ (e1 - e2 + 1074) →
  is_num (ddiv (S754_finite s1 m1 e1) (S754_finite s2 m2 e2)) ∧
  dval (ddiv (S754_finite s1 m1 e1) (S754_finite s2 m2 e2)) =
    cond_Zopp (xorb s1 s2) (Z.min (rndQ (Zpos m1 * 2 ^ (e1 - e2 + 1074)) (Zpos m2)) HUGE).
Proof.
  intros He Hge. destruct (div_core m1 e1 m2 e2 He Hge) as (q & e & X & E & Hq & He' & Hf & HX).
  unfold ddiv. cbn [SFdiv]. rewrite E, <- HX.
  apply binary_round_aux_spec; [lia|done|by apply new_location_inv|done].
Qed.

Lemma rndQ_scale X b c : 0 < b → 0 < c → rndQ (X * c) (b * c) = rndQ X b.
Proof.
  intros Hb Hc. unfold rndQ. rewrite Z.div_mul_cancel_r by lia.
  pose proof (pow2_pos _ (ulp_exp_nonneg (X / b))).
  replace (b * c * 2 ^ ulp_exp (X / b)) with (b * 2 ^ ulp_exp (X / b) * c) by lia.
  by rewrite rne_scale by (done || apply Z.mul_pos_pos; done).
Qed.

Lemma rndQ_exact X b : 0 < b → rndQ (X * b) b = rnd X.
Proof. intros Hb. rewrite <- (Z.mul_1_l b) at 2. apply rndQ_scale; lia. Qed.

(** ** Numbers that are at least 1 *)

(** A finite number from 1 up. *)
Definition at_least_one (x : double) : Prop := is_fin x ∧ ONE ≤ dval x.

Lemma at_least_one_finite x :
  at_least_one x → ∃ m e, x = S754_finite false m e ∧ canon m e ∧ -52 ≤ e ∧ 2 ^ 52 ≤ Zpos m.
Proof.
  intros [[Hv Hf] Hx]. pose proof ONE_pos. destruct x as [s|s| |s m e]; cbn [dval] in Hx; try done.
  destruct (valid_finite _ _ _ Hv) as [Hc _]. pose proof Hc as (He & Hm & Hn).
  pose proof (pow2_pos (e + 1074) ltac:(lia)). destruct s; cbn [cond_Zopp] in Hx; [lia|].
  assert (-52 ≤ e) as He'.
  { destruct (Z.le_gt_cases (-52) e) as [|Hlt]; [done|]. exfalso. unfold ONE in Hx.
    pose proof (pow2_le (53 + (e + 1074)) 1074 ltac:(lia)) as Hle. rewrite Z.pow_add_r in Hle by lia.
    assert (Zpos m * 2 ^ (e + 1074) < 2 ^ 53 * 2 ^ (e + 1074)); [|lia]. by apply Z.mul_lt_mono_pos_r. }
  exists m, e. split_and!; try done. destruct Hn; [lia|done].
Qed.

Lemma num_below_fin x : is_num x → dval x < HUGE → - HUGE < dval x → is_fin x.
Proof. intros Hn H1 H2. destruct (is_num_cases x Hn) as [?|[[] ->]]; cbn [dval cond_Zopp] in *; done || lia. Qed.

(** ** Bounds *)

Lemma rnd_pow2 k : 0 ≤ k → rnd (2 ^ k) = 2 ^ k.
Proof. intros Hk. pose proof (rnd_exact 1 k ltac:(lia) Hk) as E. by rewrite !Z.mul_1_l in E. Qed.

Lemma rnd_le_pow2 X k : 0 ≤ k → 0 ≤ X ≤ 2 ^ k → rnd X ≤ 2 ^ k.
Proof. intros Hk HX. rewrite <- (rnd_pow2 k) by done. by apply rnd_mono. Qed.

Lemma rnd_ge_pow2 X k : 0 ≤ k → 2 ^ k ≤ X → 2 ^ k ≤ rnd X.
Proof. intros Hk HX. rewrite <- (rnd_pow2 k) by done. apply rnd_mono. pose proof (pow2_pos k Hk). lia. Qed.

Lemma below_HUGE k : 0 ≤ k < 2098 → 2 ^ k < HUGE.
Proof. intros. apply Z.pow_lt_mono_r; lia. Qed.

(** [(double)z] of a positive 64-bit number. *)
Lemma d_of_Z_pos z :
  1 ≤ z < 2 ^ 64 →
  at_least_one (d_of_Z z) ∧ dval (d_of_Z z) = rnd (z * ONE) ∧ dval (d_of_Z z) ≤ 2 ^ 1138.
Proof.
  intros Hz. destruct (binary_normalize_spec z 0 false ltac:(lia)) as [Hn Hv]. fold (d_of_Z z) in Hn, Hv.
  change (2 ^ (0 + 1074)) with ONE in Hv. pose proof ONE_pos. pose proof (below_HUGE 1138 ltac:(lia)).
  assert (ONE ≤ z * ONE ≤ 2 ^ 1138) as Hb.
  { change 1138 with (64 + 1074). rewrite (Z.pow_add_r 2 64 1074) by lia. fold ONE. nia. }
  assert (ONE ≤ rnd (z * ONE)) by (apply (rnd_ge_pow2 _ 1074); [lia|apply Hb]). pose proof (rnd_le_pow2 (z * ONE) 1138 ltac:(lia) ltac:(lia)).
  assert (dval (d_of_Z z) = rnd (z * ONE)) as E.
  { rewrite Hv. unfold rndZ. rewrite Z.sgn_pos, Z.abs_eq by lia. lia. }
  split_and!; try lia. split; [|lia]. apply num_below_fin; [done|lia..].
Qed.

(** The product with 1000. *)
Lemma dmul_1000 x :
  at_least_one x → dval x ≤ 2 ^ 1138 →
  at_least_one (dmul (d_of_Z 1000) x) ∧ dval (dmul (d_of_Z 1000) x) = rnd (1000 * dval x) ∧
  dval (dmul (d_of_Z 1000) x) ≤ 2 ^ 1148.
Proof.
  intros Hx Hb. destruct (at_least_one_finite x Hx) as (m & e & -> & Hc & He & Hm). destruct Hx as [_ Hx].
  change (d_of_Z 1000) with (S754_finite false (Z.to_pos (1000 * 2 ^ 43)) (-43)).
  destruct (dmul_finite false (Z.to_pos (1000 * 2 ^ 43)) (-43) false m e ltac:(lia) ltac:(done)) as [Hn Hv].
  cbn [xorb cond_Zopp dval] in *.
  replace (Zpos (Z.to_pos (1000 * 2 ^ 43)) * Zpos m * 2 ^ (-43 + e + 1074)) with (1000 * (Zpos m * 2 ^ (e + 1074))) in Hv.
  2:{ change (Zpos (Z.to_pos (1000 * 2 ^ 43))) with (1000 * 2 ^ 43). rewrite (pow2_split 43 (e + 1074)) by lia.
      replace (-43 + e + 1074) with (e + 1074 - 43) by lia. ring. }
  set (A := Zpos m * 2 ^ (e + 1074)) in *. pose proof ONE_pos. pose proof (below_HUGE 1148 ltac:(lia)).
  assert (1000 * A ≤ 2 ^ 1148) by (change 1148 with (10 + 1138); rewrite (Z.pow_add_r 2 10 1138) by lia; lia).
  assert (ONE ≤ rnd (1000 * A)) by (apply (rnd_ge_pow2 _ 1074); [lia|]; fold ONE; lia).
  pose proof (rnd_le_pow2 (1000 * A) 1148 ltac:(lia) ltac:(lia)). rewrite Z.min_l in Hv by lia.
  split_and!; [split; [apply num_below_fin; [done|..]|]|..]; lia.
Qed.

(** A quotient of numbers from 1 up. *)
Lemma ddiv_one x y :
  at_least_one x → at_least_one y → dval x ≤ 2 ^ 1148 → dval y ≤ 2 ^ 1138 →
  is_fin (ddiv x y) ∧ dval (ddiv x y) = rndQ (dval x * ONE) (dval y) ∧ 0 ≤ dval (ddiv x y) ≤ 2 ^ 1149 ∧
  0 < dval x * ONE / dval y.
Proof.
  intros Hx Hy Hbx Hby. destruct (at_least_one_finite x Hx) as (m1 & e1 & -> & Hc1 & He1 & Hm1).
  destruct (at_least_one_finite y Hy) as (m2 & e2 & -> & Hc2 & He2 & Hm2). destruct Hx as [_ Hx], Hy as [_ Hy].
  cbn [dval cond_Zopp] in *. pose proof ONE_pos as H1.
  pose proof (pow2_pos (e1 + 1074) ltac:(lia)). pose proof (pow2_pos (e2 + 1074) ltac:(lia)).
  assert (e2 ≤ 12) as He2'.
  { destruct (Z.le_gt_cases e2 12) as [|Hgt]; [done|exfalso].
    assert (2 ^ (52 + (e2 + 1074)) ≤ 2 ^ 1138) as Hp.
    { rewrite Z.pow_add_r by lia. etransitivity; [|exact Hby]. apply Z.mul_le_mono_nonneg_r; lia. }
    apply Z.pow_le_mono_r_iff in Hp; lia. }
  assert (Zpos m1 * 2 ^ (e1 + 1074) * ONE = Zpos m1 * 2 ^ (e1 - e2 + 1074) * 2 ^ (e2 + 1074)) as EX.
  { unfold ONE. rewrite <- !Z.mul_assoc, <- !Z.pow_add_r by lia. do 2 f_equal. lia. }
  set (A := Zpos m1 * 2 ^ (e1 + 1074)) in *. set (B := Zpos m2 * 2 ^ (e2 + 1074)) in *.
  assert (Zpos m2 ≤ Zpos m1 * 2 ^ (e1 - e2 + 1074)) as Hge.
  { destruct Hc2 as (_ & Hm2' & _). pose proof (pow2_le 53 (e1 - e2 + 1074) ltac:(lia)). nia. }
  destruct (ddiv_finite false m1 e1 false m2 e2 ltac:(lia) Hge) as [Hn Hv]. cbn [xorb cond_Zopp] in Hv.
  rewrite <- (rndQ_scale _ _ (2 ^ (e2 + 1074))), <- EX in Hv by lia. fold B in Hv.
  assert (0 < A * ONE / B) as Hq.
  { rewrite EX. unfold B. rewrite Z.div_mul_cancel_r by lia. apply Z.div_str_pos. lia. }
  assert (A * ONE / B ≤ A) as Hle by (apply Z.div_le_upper_bound; nia).
  pose proof (rndQ_lower _ B ltac:(lia) Hq) as Hl. pose proof (rndQ_upper _ B ltac:(lia) Hq) as Hu.
  pose proof (pow2_pos _ (Z.log2_nonneg (A * ONE / B))).
  assert (2 ^ (Z.log2 (A * ONE / B) + 1) ≤ 2 ^ 1149) as Hp.
  { apply pow2_le. pose proof (Z.log2_nonneg (A * ONE / B)). split; [lia|].
    pose proof (Z.log2_le_mono (A * ONE / B) (2 ^ 1148) ltac:(lia)) as Hlog. rewrite Z.log2_pow2 in Hlog by lia. lia. }
  pose proof (below_HUGE 1149 ltac:(lia)). rewrite Z.min_l in Hv by lia.
  split_and!; try lia. apply num_below_fin; [done|lia..].
Qed.
