(* ===== verification/Timer.v ===== *)
(** * The cycle-counter clock (timer.c, x86_64-gcc-rdtsc.h)

    [rdtsc] returns a 64-bit counter in two 32-bit halves.  Ticks are unsigned
    64-bit numbers; the frequency is read from a file or measured by
    [HRT_CALIBRATE], which repeats one-second measurements until three in a row
    bring no smaller value.  The processor's counter and the contents of the
    file are inputs. *)
From stdpp Require Import base numbers list.
From Stdlib Require Import ZArith Zbitwise Lia SpecFloat.
From S2P Require Import Prelude Float64 FloatDiv.

Local Open Scope Z_scope.

(** ** The program *)

Record x86_64_timeval_t : Type := MkTimeval { tv_l : Z; tv_h : Z }.

(** [HRT_GET_TIMESTAMP] when the counter holds [tsc]: [rdtsc] leaves the low
    half in EAX and the high half in EDX. *)
Definition HRT_GET_TIMESTAMP (tsc : Z) : x86_64_timeval_t :=
  {| tv_l := tsc mod 2 ^ 32; tv_h := (tsc / 2 ^ 32) mod 2 ^ 32 |}.

(** [(((UINT64_T) t.h) << 32) | t.l]. *)
Definition HRT_GET_TIME (t : x86_64_timeval_t) : Z := Z.lor (u64 (Z.shiftl (tv_h t) 32)) (tv_l t).

Definition HRT_GET_ELAPSED_TICKS (t1 t2 : x86_64_timeval_t) : Z := u64 (HRT_GET_TIME t2 - HRT_GET_TIME t1).

(** The loop of [HRT_CALIBRATE]: the measurement [k] reads the counter before
    and after [sleep(1)]; the fuel bounds the number of measurements. *)
Fixpoint calibrate_loop (fuel : nat) (tsc : nat → Z * Z) (k : nat) (notsmaller min : Z) : res Z :=
  if notsmaller <? 3 then
    match fuel with
    | O => NoFuel
    | S fuel =>
        let elapsed_ticks := HRT_GET_ELAPSED_TICKS (HRT_GET_TIMESTAMP (tsc k).1) (HRT_GET_TIMESTAMP (tsc k).2) in
        let notsmaller := notsmaller + 1 in
        if elapsed_ticks <? min then calibrate_loop fuel tsc (S k) 0 elapsed_ticks
        else calibrate_loop fuel tsc (S k) notsmaller min
    end
  else Ok min.

(** [(UINT64_T)(~0x1)]. *)
Definition HRT_MIN_START : Z := 2 ^ 64 - 2.

Definition HRT_CALIBRATE (fuel : nat) (tsc : nat → Z * Z) : res Z := calibrate_loop fuel tsc 0 0 HRT_MIN_START.

(** [1e3*(double)ticks/(double)g_timerfreq]. *)
Definition HRT_GET_MSEC (g_timerfreq ticks : Z) : double :=
  ddiv (dmul (d_of_Z 1000) (d_of_Z ticks)) (d_of_Z g_timerfreq).

(** Conversion of a double to [uint64_t]: truncation, undefined when the result
    does not fit. *)
Definition double_to_u64 (x : double) : res Z :=
  match x with
  | S754_zero _ => Ok 0
  | S754_finite s m e =>
      let z := if 0 <=? e then Zpos m * 2 ^ e else Zpos m / 2 ^ (- e) in
      if (if s then z =? 0 else z <? 2 ^ 64) then Ok z else UB OutOfRange
  | _ => UB OutOfRange
  end.

(** [.cpu_freq] as the program finds it: it cannot be opened, it has no line, or
    [strtod] reads a number from its first line. *)
Inductive freq_file : Type :=
  | NoFile
  | EmptyFile
  | FirstLine (strtod : double).

(** The value given to [g_timerfreq]. *)
Definition init_clock_time (fuel : nat) (cpufreq_file : freq_file) (tsc : nat → Z * Z) : res Z :=
  match cpufreq_file with
  | FirstLine d => double_to_u64 d
  | EmptyFile => Exit (-1)
  | NoFile => HRT_CALIBRATE fuel tsc
  end.

Definition get_clock_time (g_timerfreq tsc : Z) : double :=
  HRT_GET_MSEC g_timerfreq (HRT_GET_TIME (HRT_GET_TIMESTAMP tsc)).

(** ** Halves of the counter *)

Lemma land_halves h l : 0 ≤ l < 2 ^ 32 → Z.land (Z.shiftl h 32) l = 0.
Proof.
  intros Hl. apply Z.bits_inj'. intros n Hn. rewrite Z.land_spec, Z.bits_0.
  destruct (Z.lt_ge_cases n 32).
  - by rewrite Z.shiftl_spec_low.
  - rewrite <- (Z.mod_small l (2 ^ 32)) by done. rewrite Z.mod_pow2_bits_high by lia. apply andb_false_r.
Qed.

Lemma lor_halves h l : 0 ≤ l < 2 ^ 32 → Z.lor (Z.shiftl h 32) l = h * 2 ^ 32 + l.
Proof.
  intros Hl. pose proof (Z.add_lor_land (Z.shiftl h 32) l) as E. rewrite land_halves in E by done.
  rewrite Z.shiftl_mul_pow2 in E |- * by lia. lia.
Qed.

(** The two halves give the counter back. *)
Lemma get_time_tsc tsc : 0 ≤ tsc < 2 ^ 64 → HRT_GET_TIME (HRT_GET_TIMESTAMP tsc) = tsc.
Proof.
  intros Ht. unfold HRT_GET_TIME, HRT_GET_TIMESTAMP. cbn [tv_h tv_l].
  assert (0 ≤ tsc / 2 ^ 32 < 2 ^ 32) by (split; [apply Z.div_pos; lia|apply Z.div_lt_upper_bound; lia]).
  pose proof (Z.mod_pos_bound tsc (2 ^ 32) ltac:(lia)).
  rewrite (Z.mod_small (tsc / 2 ^ 32)) by done. unfold u64. rewrite Z.mod_small.
  - rewrite lor_halves by done. pose proof (Z.div_mod tsc (2 ^ 32) ltac:(lia)). lia.
  - rewrite Z.shiftl_mul_pow2 by lia. lia.
Qed.

(** ** Calibration *)

(** The measurement [k]. *)
Definition measured (tsc : nat → Z * Z) (k : nat) : Z :=
  HRT_GET_ELAPSED_TICKS (HRT_GET_TIMESTAMP (tsc k).1) (HRT_GET_TIMESTAMP (tsc k).2).

Lemma measured_nonneg tsc k : 0 ≤ measured tsc k.
Proof. apply Z.mod_pos_bound. lia. Qed.

(** The smallest of the first [n] measurements, and of the value before them. *)
Fixpoint best (tsc : nat → Z * Z) (n : nat) : Z :=
  match n with
  | O => HRT_MIN_START
  | S n => Z.min (best tsc n) (measured tsc n)
  end.

Lemma best_nonneg tsc n : 0 ≤ best tsc n.
Proof. induction n as [|n IH]; cbn; [unfold HRT_MIN_START; lia|]. pose proof (measured_nonneg tsc n). lia. Qed.

Lemma best_anti tsc n m : (n ≤ m)%nat → best tsc m ≤ best tsc n.
Proof. intros H. induction H as [|m _ IH]; [lia|]. cbn. lia. Qed.

(** The loop ends behind the measurement [n]: the last three have brought nothing
    smaller, and no three in a row before. *)
Definition calibrated (tsc : nat → Z * Z) (n : nat) : Prop :=
  (3 ≤ n)%nat ∧ best tsc n = best tsc (n - 3) ∧ ∀ j, (3 ≤ j < n)%nat → best tsc j < best tsc (j - 3).

(** From measurement [k] on, when the last [w] have brought nothing smaller: the
    number of measurements that the loop makes, and its result. *)
Lemma calibrate_loop_run tsc k w :
  (w ≤ 3)%nat → (w ≤ k)%nat → best tsc k = best tsc (k - w) →
  ((w < k)%nat → best tsc (k - w) < best tsc (k - w - 1)) →
  (∀ j, (3 ≤ j < k)%nat → best tsc j < best tsc (j - 3)) →
  ∃ n, (k ≤ n)%nat ∧ calibrated tsc n ∧ Z.of_nat n ≤ Z.of_nat k + 3 * best tsc k + 3 - Z.of_nat w ∧
    ∀ fuel, calibrate_loop fuel tsc k (Z.of_nat w) (best tsc k) = if (n - k <=? fuel)%nat then Ok (best tsc n) else NoFuel.
Proof.
  assert (∃ d, d = Z.to_nat (3 * best tsc k + 3 - Z.of_nat w)) as [d Ed] by eauto. revert k w Ed.
  induction (lt_wf d) as [d _ IH]. intros k w -> Hw Hk Hb Hlast Hold. pose proof (best_nonneg tsc k) as H0.
  destruct (decide (w = 3%nat)) as [->|Hw3].
  { exists k. split_and!; [lia|split_and!; [lia|done|done]|lia|]. intros fuel. rewrite Nat.sub_diag. by destruct fuel. }
  assert (∀ n fuel, (k < n)%nat → (∀ fuel', calibrate_loop fuel' tsc (S k) (if measured tsc k <? best tsc k then 0 else Z.of_nat w + 1)
      (best tsc (S k)) = if (n - S k <=? fuel')%nat then Ok (best tsc n) else NoFuel) →
    calibrate_loop fuel tsc k (Z.of_nat w) (best tsc k) = if (n - k <=? fuel)%nat then Ok (best tsc n) else NoFuel) as Hstep.
  { intros n fuel Hn Hrun. destruct fuel as [|fuel]; cbn [calibrate_loop]; rewrite (proj2 (Z.ltb_lt _ _)) by lia.
    - by destruct (Nat.leb_spec (n - k) 0); [lia|].
    - fold (measured tsc k). specialize (Hrun fuel). replace (n - k <=? S fuel)%nat with (n - S k <=? fuel)%nat
        by (destruct (Nat.leb_spec (n - S k) fuel), (Nat.leb_spec (n - k) (S fuel)); lia).
      rewrite <- Hrun. cbn [best]. destruct (Z.ltb_spec (measured tsc k) (best tsc k)); f_equal; lia. }
  assert (∀ j, (3 ≤ j < S k)%nat → best tsc j < best tsc (j - 3)) as Hold'.
  { intros j Hj. destruct (decide (j = k)) as [->|]; [|apply Hold; lia]. rewrite Hb.
    pose proof (best_anti tsc (k - 3) (k - w - 1) ltac:(lia)). specialize (Hlast ltac:(lia)). lia. }
  destruct (Z.ltb_spec (measured tsc k) (best tsc k)) as [Hs|Hs].
  - assert (best tsc (S k) = measured tsc k) as Eb by (cbn; lia).
    destruct (IH (Z.to_nat (3 * best tsc (S k) + 3)) ltac:(lia) (S k) 0%nat) as (n & Hn & Hc & Hl & Hrun);
      [lia|lia|lia|done|intros _; cbn [Nat.sub]; rewrite Nat.sub_0_r; lia|done|].
    exists n. split_and!; [lia|done|lia|]. intros fuel. by apply Hstep; [lia|].
  - assert (best tsc (S k) = best tsc k) as Eb by (cbn; lia).
    destruct (IH (Z.to_nat (3 * best tsc (S k) + 3 - Z.of_nat (S w))) ltac:(lia) (S k) (S w)) as (n & Hn & Hc & Hl & Hrun);
      [lia|lia|lia|cbn [Nat.sub]; lia|cbn [Nat.sub]; intros ?; apply Hlast; lia|done|].
    exists n. split_and!; [lia|done|lia|]. intros fuel. apply Hstep; [lia|]. intros fuel'.
    replace (Z.of_nat w + 1) with (Z.of_nat (S w)) by lia. apply Hrun.
Qed.

(** ** Milliseconds *)

(** Zero ticks are zero milliseconds. *)
Lemma msec_zero f : 1 ≤ f < 2 ^ 64 → HRT_GET_MSEC f 0 = dzero.
Proof.
  intros Hf. destruct (d_of_Z_pos f Hf) as (H1 & _).
  destruct (at_least_one_finite _ H1) as (m & e & E & _). unfold HRT_GET_MSEC. rewrite E. done.
Qed.

(** Two readings with the same frequency. *)
Lemma msec_pos f t :
  1 ≤ f < 2 ^ 64 → 1 ≤ t < 2 ^ 64 →
  let x := rnd (1000 * rnd (t * ONE)) in
  let y := dval (d_of_Z f) in
  is_fin (HRT_GET_MSEC f t) ∧ dval (HRT_GET_MSEC f t) = rndQ (x * ONE) y ∧
  0 ≤ dval (HRT_GET_MSEC f t) ≤ 2 ^ 1149 ∧ 0 < x * ONE / y ∧ ONE ≤ y.
Proof.
  intros Hf Ht x y. destruct (d_of_Z_pos f Hf) as (F1 & _ & F3). destruct (d_of_Z_pos t Ht) as (T1 & T2 & T3).
  destruct (dmul_1000 _ T1 T3) as (M1 & M2 & M3). destruct (ddiv_one _ _ M1 F1 M3 F3) as (D1 & D2 & D3 & D4).
  rewrite M2, T2 in D2, D4. split_and!; try done; try apply D3. apply F1.
Qed.

Lemma msec_range f t :
  1 ≤ f < 2 ^ 64 → 0 ≤ t < 2 ^ 64 → is_fin (HRT_GET_MSEC f t) ∧ 0 ≤ dval (HRT_GET_MSEC f t) ≤ 2 ^ 1149.
Proof.
  intros Hf Ht. destruct (Z.eq_dec t 0) as [->|].
  - rewrite msec_zero by done. split; [done|]. pose proof (pow2_pos 1149 ltac:(lia)). cbn [dval dzero]. lia.
  - destruct (msec_pos f t Hf ltac:(lia)) as (H1 & _ & H3 & _). done.
Qed.

Lemma msec_mono f t t' :
  1 ≤ f < 2 ^ 64 → 0 ≤ t ≤ t' → t' < 2 ^ 64 → dval (HRT_GET_MSEC f t) ≤ dval (HRT_GET_MSEC f t').
Proof.
  intros Hf Ht Ht'. destruct (Z.eq_dec t 0) as [->|].
  - rewrite msec_zero by done. destruct (msec_range f t' Hf ltac:(lia)) as [_ [H _]]. exact H.
  - destruct (msec_pos f t Hf ltac:(lia)) as (_ & -> & _ & Hq & Hy).
    destruct (msec_pos f t' Hf ltac:(lia)) as (_ & -> & _). pose proof ONE_pos.
    apply rndQ_mono; [lia|done|]. apply Z.mul_le_mono_nonneg_r; [lia|].
    apply rnd_mono. pose proof (rnd_nonneg (t * ONE) ltac:(nia)).
    pose proof (rnd_mono (t * ONE) (t' * ONE) ltac:(nia)). lia.
Qed.

(** ** The frequency *)

Lemma calibrate_loop_range tsc fuel k ns m f :
  0 ≤ m < 2 ^ 64 → calibrate_loop fuel tsc k ns m = Ok f → 0 ≤ f < 2 ^ 64.
Proof.
  revert k ns m. induction fuel as [|fuel IH]; intros k ns m Hm; cbn [calibrate_loop].
  - by destruct (ns <? 3); intros [= <-].
  - destruct (ns <? 3); [|by intros [= <-]]. fold (measured tsc k).
    destruct (Z.ltb_spec (measured tsc k) m); apply IH; [|done]. pose proof (measured_nonneg tsc k). lia.
Qed.

(** The frequency is an unsigned 64-bit number. *)
Lemma init_clock_time_range fuel file tsc f : init_clock_time fuel file tsc = Ok f → 0 ≤ f < 2 ^ 64.
Proof.
  destruct file as [| |[s| | |s m e]]; cbn [init_clock_time double_to_u64]; try done.
  - apply calibrate_loop_range. unfold HRT_MIN_START. lia.
  - intros [= <-]. lia.
  - assert (0 ≤ if 0 <=? e then Zpos m * 2 ^ e else Zpos m / 2 ^ (- e)) as Hz.
    { destruct (Z.leb_spec 0 e); [pose proof (pow2_pos e); nia|apply Z.div_pos; [lia|apply pow2_pos; lia]]. }
    revert Hz. generalize (if 0 <=? e then Zpos m * 2 ^ e else Zpos m / 2 ^ (- e)). intros z Hz.
    destruct s; [destruct (Z.eqb_spec z 0)|destruct (Z.ltb_spec z (2 ^ 64))]; intros [= <-]; lia.
Qed.

(** ** Properties *)

(** The elapsed ticks between two readings of the 64-bit counter are exact,
    also when the counter wraps around in between, and a single reading gives
    the counter itself. *)
Theorem elapsed_ticks_exact tsc d :
  0 ≤ tsc < 2 ^ 64 → 0 ≤ d < 2 ^ 64 →
  HRT_GET_TIME (HRT_GET_TIMESTAMP tsc) = tsc ∧
  HRT_GET_ELAPSED_TICKS (HRT_GET_TIMESTAMP tsc) (HRT_GET_TIMESTAMP (u64 (tsc + d))) = d.
Proof.
  intros Ht Hd. split; [by apply get_time_tsc|]. unfold HRT_GET_ELAPSED_TICKS.
  rewrite !get_time_tsc by (done || apply Z.mod_pos_bound; lia). unfold u64.
  rewrite Zminus_mod_idemp_l. replace (tsc + d - tsc) with d by lia. by apply Z.mod_small.
Qed.

Lemma elapsed_ticks_exact_witness :
  HRT_GET_ELAPSED_TICKS (HRT_GET_TIMESTAMP (2 ^ 64 - 5)) (HRT_GET_TIMESTAMP (u64 (2 ^ 64 - 5 + 12))) = 12.
Proof. apply (elapsed_ticks_exact (2 ^ 64 - 5) 12); lia. Defined.

(** C22. A frequency that is not zero gives a clock: every reading is a finite
    number of milliseconds, not negative and at most [2^75], and a later value of
    the counter never gives an earlier time, for all 64-bit values of the counter
    and of the frequency and with all roundings of the multiplication and of the
    division. *)
Theorem get_clock_time_monotone g_timerfreq tsc tsc' :
  1 ≤ g_timerfreq < 2 ^ 64 → 0 ≤ tsc ≤ tsc' → tsc' < 2 ^ 64 →
  is_fin (get_clock_time g_timerfreq tsc) ∧
  0 ≤ dval (get_clock_time g_timerfreq tsc) ≤ 2 ^ 75 * ONE ∧
  dval (get_clock_time g_timerfreq tsc) ≤ dval (get_clock_time g_timerfreq tsc').
Proof.
  intros Hf Ht Ht'. unfold get_clock_time. rewrite !get_time_tsc by lia.
  destruct (msec_range g_timerfreq tsc Hf ltac:(lia)) as [H1 H2].
  split; [done|]. split; [exact H2|by apply msec_mono].
Qed.

Lemma get_clock_time_monotone_witness :
  is_fin (get_clock_time 2400000000 7) ∧ 0 ≤ dval (get_clock_time 2400000000 7) ≤ 2 ^ 75 * ONE ∧
  dval (get_clock_time 2400000000 7) ≤ dval (get_clock_time 2400000000 (2 ^ 64 - 1)).
Proof. apply (get_clock_time_monotone 2400000000 7 (2 ^ 64 - 1)); lia. Defined.

(** C36. [HRT_CALIBRATE] makes a number [n] of measurements that the measurements
    themselves determine: it stops at the first point at which the last three have
    brought nothing smaller, after at most [3 * (2 ^ 64 - 2) + 3] of them, and
    yields the smallest of the [n] (or [2 ^ 64 - 2], its start value, if all are
    larger).  Each round of the loop makes one measurement, hence with fewer than
    [n] rounds it has no result. *)
Theorem HRT_CALIBRATE_minimum tsc :
  ∃ n, (3 ≤ n)%nat ∧ Z.of_nat n ≤ 3 * HRT_MIN_START + 3 ∧
    best tsc n = best tsc (n - 3) ∧ (∀ j, (3 ≤ j < n)%nat → best tsc j < best tsc (j - 3)) ∧
    ∀ fuel, HRT_CALIBRATE fuel tsc = if (n <=? fuel)%nat then Ok (best tsc n) else NoFuel.
Proof.
  destruct (calibrate_loop_run tsc 0 0) as (n & _ & (H3 & Hb & Ho) & Hl & Hrun); [lia..|done|lia|lia|].
  cbn [best] in *. exists n. split_and!; [done|lia|done..|]. intros fuel. specialize (Hrun fuel).
  rewrite Nat.sub_0_r in Hrun. exact Hrun.
Qed.

(** A frequency file whose first line starts with no number sets the
    frequency to 0, which nothing checks: every later reading of the clock is
    infinite or not a number. *)
Theorem zero_frequency_clock fuel tsc s t :
  init_clock_time fuel (FirstLine (S754_zero s)) tsc = Ok 0 ∧ is_finite (get_clock_time 0 t) = false.
Proof.
  split; [done|]. unfold get_clock_time, HRT_GET_MSEC. change (d_of_Z 0) with (S754_zero false).
  by destruct (dmul _ _).
Qed.
