(* ===== verification/Graph.v ===== *)
(** * The task-dependency graph (graph.h, graph.cc)

    Nodes live in a store indexed by address; [new] takes a fresh address and
    [delete] removes it, so that an access to a freed node is an access to an
    absent address and ends in [UB UseAfterFree].  An [Edge] is never modified
    after its construction and never compared by address, so the vectors
    [_entryEdges] and [_exitEdges] hold the edges themselves.

    The mutexes of the source protect single accesses; each function below is
    one sequential execution of the corresponding method. *)
From stdpp Require Import base gmap list sorting.
From Stdlib Require Import ZArith Lia.
From S2P Require Import Prelude Float64.

(** ** Data *)

Record Edge : Type := MkEdge { _source : positive; _target : positive }.

#[export] Instance Edge_eq_dec : EqDecision Edge.
Proof. solve_decision. Defined.

Definition getSource (e : Edge) : positive := _source e.
Definition getTarget (e : Edge) : positive := _target e.

Inductive NodeType : Type :=
  | ROOT_TASK
  | IMP_TASK
  | WS_TASK
  | CHUNK_TASK
  | EXP_TASK
  | BARRIER
  | TASKWAIT.

#[export] Instance NodeType_eq_dec : EqDecision NodeType.
Proof. solve_decision. Defined.

(** [_loopCounter] and [_threadId] are not initialised by the constructor:
    [None] is the indeterminate value.  A null [_prevCritical] or
    [_papiValsArr] is [None]. *)
Record Node : Type := MkNode {
  _id : Z;
  _type : NodeType;
  _totalTime : double;
  _visited : bool;
  _level : Z;
  _finishTime : double;
  _lastTime : double;
  _lower : Z;
  _upper : Z;
  _loopCounter : option Z;
  _threadId : option Z;
  _isCritical : bool;
  _pathLength : Z;
  _pathTime : double;
  _prevCritical : option positive;
  _numPapiEvents : Z;
  _papiValsArr : option (list Z);
  _entryEdges : list Edge;
  _exitEdges : list Edge }.

Abbreviation heap := (gmap positive Node).

(** The constructor [Node::Node]. *)
Definition new_Node (id : Z) (type : NodeType) (total_time : double) : Node :=
  {| _id := id; _type := type; _totalTime := total_time; _visited := false; _level := -1;
     _finishTime := dzero; _lastTime := dzero; _lower := 0; _upper := 0;
     _loopCounter := None; _threadId := None; _isCritical := false; _pathLength := 0;
     _pathTime := dzero; _prevCritical := None; _numPapiEvents := 0; _papiValsArr := None;
     _entryEdges := []; _exitEdges := [] |}.

(** ** Setters *)

Definition setLevel (level : Z) (n : Node) : Node :=
  {| _id := _id n; _type := _type n; _totalTime := _totalTime n; _visited := _visited n;
     _level := level; _finishTime := _finishTime n; _lastTime := _lastTime n;
     _lower := _lower n; _upper := _upper n; _loopCounter := _loopCounter n;
     _threadId := _threadId n; _isCritical := _isCritical n; _pathLength := _pathLength n;
     _pathTime := _pathTime n; _prevCritical := _prevCritical n;
     _numPapiEvents := _numPapiEvents n; _papiValsArr := _papiValsArr n;
     _entryEdges := _entryEdges n; _exitEdges := _exitEdges n |}.

Definition setVisited (visited : bool) (n : Node) : Node :=
  {| _id := _id n; _type := _type n; _totalTime := _totalTime n; _visited := visited;
     _level := _level n; _finishTime := _finishTime n; _lastTime := _lastTime n;
     _lower := _lower n; _upper := _upper n; _loopCounter := _loopCounter n;
     _threadId := _threadId n; _isCritical := _isCritical n; _pathLength := _pathLength n;
     _pathTime := _pathTime n; _prevCritical := _prevCritical n;
     _numPapiEvents := _numPapiEvents n; _papiValsArr := _papiValsArr n;
     _entryEdges := _entryEdges n; _exitEdges := _exitEdges n |}.

Definition setLastTime (last_time : double) (n : Node) : Node :=
  {| _id := _id n; _type := _type n; _totalTime := _totalTime n; _visited := _visited n;
     _level := _level n; _finishTime := _finishTime n; _lastTime := last_time;
     _lower := _lower n; _upper := _upper n; _loopCounter := _loopCounter n;
     _threadId := _threadId n; _isCritical := _isCritical n; _pathLength := _pathLength n;
     _pathTime := _pathTime n; _prevCritical := _prevCritical n;
     _numPapiEvents := _numPapiEvents n; _papiValsArr := _papiValsArr n;
     _entryEdges := _entryEdges n; _exitEdges := _exitEdges n |}.

Definition setIsCritical (is_critical : bool) (n : Node) : Node :=
  {| _id := _id n; _type := _type n; _totalTime := _totalTime n; _visited := _visited n;
     _level := _level n; _finishTime := _finishTime n; _lastTime := _lastTime n;
     _lower := _lower n; _upper := _upper n; _loopCounter := _loopCounter n;
     _threadId := _threadId n; _isCritical := is_critical; _pathLength := _pathLength n;
     _pathTime := _pathTime n; _prevCritical := _prevCritical n;
     _numPapiEvents := _numPapiEvents n; _papiValsArr := _papiValsArr n;
     _entryEdges := _entryEdges n; _exitEdges := _exitEdges n |}.

Definition setPrevCritical (prev : option positive) (n : Node) : Node :=
  {| _id := _id n; _type := _type n; _totalTime := _totalTime n; _visited := _visited n;
     _level := _level n; _finishTime := _finishTime n; _lastTime := _lastTime n;
     _lower := _lower n; _upper := _upper n; _loopCounter := _loopCounter n;
     _threadId := _threadId n; _isCritical := _isCritical n; _pathLength := _pathLength n;
     _pathTime := _pathTime n; _prevCritical := prev; _numPapiEvents := _numPapiEvents n;
     _papiValsArr := _papiValsArr n; _entryEdges := _entryEdges n; _exitEdges := _exitEdges n |}.

Definition setPathLength (path_length : Z) (n : Node) : Node :=
  {| _id := _id n; _type := _type n; _totalTime := _totalTime n; _visited := _visited n;
     _level := _level n; _finishTime := _finishTime n; _lastTime := _lastTime n;
     _lower := _lower n; _upper := _upper n; _loopCounter := _loopCounter n;
     _threadId := _threadId n; _isCritical := _isCritical n; _pathLength := path_length;
     _pathTime := _pathTime n; _prevCritical := _prevCritical n;
     _numPapiEvents := _numPapiEvents n; _papiValsArr := _papiValsArr n;
     _entryEdges := _entryEdges n; _exitEdges := _exitEdges n |}.

Definition setPathTime (path_time : double) (n : Node) : Node :=
  {| _id := _id n; _type := _type n; _totalTime := _totalTime n; _visited := _visited n;
     _level := _level n; _finishTime := _finishTime n; _lastTime := _lastTime n;
     _lower := _lower n; _upper := _upper n; _loopCounter := _loopCounter n;
     _threadId := _threadId n; _isCritical := _isCritical n; _pathLength := _pathLength n;
     _pathTime := path_time; _prevCritical := _prevCritical n;
     _numPapiEvents := _numPapiEvents n; _papiValsArr := _papiValsArr n;
     _entryEdges := _entryEdges n; _exitEdges := _exitEdges n |}.

Definition setLowerUpper (lower upper : Z) (n : Node) : Node :=
  {| _id := _id n; _type := _type n; _totalTime := _totalTime n; _visited := _visited n;
     _level := _level n; _finishTime := _finishTime n; _lastTime := _lastTime n;
     _lower := lower; _upper := upper; _loopCounter := _loopCounter n; _threadId := _threadId n;
     _isCritical := _isCritical n; _pathLength := _pathLength n; _pathTime := _pathTime n;
     _prevCritical := _prevCritical n; _numPapiEvents := _numPapiEvents n;
     _papiValsArr := _papiValsArr n; _entryEdges := _entryEdges n; _exitEdges := _exitEdges n |}.

Definition setLoopCounter (loop_cnt : Z) (n : Node) : Node :=
  {| _id := _id n; _type := _type n; _totalTime := _totalTime n; _visited := _visited n;
     _level := _level n; _finishTime := _finishTime n; _lastTime := _lastTime n;
     _lower := _lower n; _upper := _upper n; _loopCounter := Some loop_cnt;
     _threadId := _threadId n; _isCritical := _isCritical n; _pathLength := _pathLength n;
     _pathTime := _pathTime n; _prevCritical := _prevCritical n;
     _numPapiEvents := _numPapiEvents n; _papiValsArr := _papiValsArr n;
     _entryEdges := _entryEdges n; _exitEdges := _exitEdges n |}.

Definition setThreadId (thread_id : Z) (n : Node) : Node :=
  {| _id := _id n; _type := _type n; _totalTime := _totalTime n; _visited := _visited n;
     _level := _level n; _finishTime := _finishTime n; _lastTime := _lastTime n;
     _lower := _lower n; _upper := _upper n; _loopCounter := _loopCounter n;
     _threadId := Some thread_id; _isCritical := _isCritical n; _pathLength := _pathLength n;
     _pathTime := _pathTime n; _prevCritical := _prevCritical n;
     _numPapiEvents := _numPapiEvents n; _papiValsArr := _papiValsArr n;
     _entryEdges := _entryEdges n; _exitEdges := _exitEdges n |}.

(** [addTime]: accumulates the time since the last mark and moves the mark. *)
Definition addTime (curr_time : double) (n : Node) : Node :=
  {| _id := _id n; _type := _type n;
     _totalTime := dadd (_totalTime n) (dsub curr_time (_lastTime n)); _visited := _visited n;
     _level := _level n; _finishTime := _finishTime n; _lastTime := curr_time;
     _lower := _lower n; _upper := _upper n; _loopCounter := _loopCounter n;
     _threadId := _threadId n; _isCritical := _isCritical n; _pathLength := _pathLength n;
     _pathTime := _pathTime n; _prevCritical := _prevCritical n;
     _numPapiEvents := _numPapiEvents n; _papiValsArr := _papiValsArr n;
     _entryEdges := _entryEdges n; _exitEdges := _exitEdges n |}.

Definition setEntries (es : list Edge) (n : Node) : Node :=
  {| _id := _id n; _type := _type n; _totalTime := _totalTime n; _visited := _visited n;
     _level := _level n; _finishTime := _finishTime n; _lastTime := _lastTime n;
     _lower := _lower n; _upper := _upper n; _loopCounter := _loopCounter n;
     _threadId := _threadId n; _isCritical := _isCritical n; _pathLength := _pathLength n;
     _pathTime := _pathTime n; _prevCritical := _prevCritical n;
     _numPapiEvents := _numPapiEvents n; _papiValsArr := _papiValsArr n; _entryEdges := es;
     _exitEdges := _exitEdges n |}.

Definition setExits (es : list Edge) (n : Node) : Node :=
  {| _id := _id n; _type := _type n; _totalTime := _totalTime n; _visited := _visited n;
     _level := _level n; _finishTime := _finishTime n; _lastTime := _lastTime n;
     _lower := _lower n; _upper := _upper n; _loopCounter := _loopCounter n;
     _threadId := _threadId n; _isCritical := _isCritical n; _pathLength := _pathLength n;
     _pathTime := _pathTime n; _prevCritical := _prevCritical n;
     _numPapiEvents := _numPapiEvents n; _papiValsArr := _papiValsArr n;
     _entryEdges := _entryEdges n; _exitEdges := es |}.

Definition setPapi (num : Z) (vals : option (list Z)) (n : Node) : Node :=
  {| _id := _id n; _type := _type n; _totalTime := _totalTime n; _visited := _visited n;
     _level := _level n; _finishTime := _finishTime n; _lastTime := _lastTime n;
     _lower := _lower n; _upper := _upper n; _loopCounter := _loopCounter n;
     _threadId := _threadId n; _isCritical := _isCritical n; _pathLength := _pathLength n;
     _pathTime := _pathTime n; _prevCritical := _prevCritical n; _numPapiEvents := num;
     _papiValsArr := vals; _entryEdges := _entryEdges n; _exitEdges := _exitEdges n |}.

Definition pushExit (e : Edge) (n : Node) : Node := setExits (_exitEdges n ++ [e]) n.
Definition pushEntry (e : Edge) (n : Node) : Node := setEntries (_entryEdges n ++ [e]) n.

(** ** Adjacency *)

(** The nodes an [AdjacencyIterator] from [beginAdjIter] to [endAdjIter]
    yields, in order: the sources of the entry edges or the targets of the
    exit edges. *)
Definition AdjacencyIterator (n : Node) (entry_iter : bool) : list positive :=
  if entry_iter then getSource <$> _entryEdges n else getTarget <$> _exitEdges n.

(** The search loop of [isConnectedWith], which stops at the first hit. *)
Fixpoint has_target (es : list Edge) (target : positive) : bool :=
  match es with
  | [] => false
  | e :: es' => if decide (getTarget e = target) then true else has_target es' target
  end.

Definition isConnectedWith (h : heap) (self target : positive) : res bool :=
  n ← lookup_obj h self;
  Ok (has_target (_exitEdges n) target).

Fixpoint find_target (es : list Edge) (target : positive) : option Edge :=
  match es with
  | [] => None
  | e :: es' => if decide (getTarget e = target) then Some e else find_target es' target
  end.

Definition getConnection (h : heap) (self target : positive) : res (option Edge) :=
  n ← lookup_obj h self;
  Ok (find_target (_exitEdges n) target).

Definition maxPredFinishTime (h : heap) (self : positive) : res double :=
  n ← lookup_obj h self;
  res_foldl (fun max_finish_time source =>
    source_node ← lookup_obj h source;
    Ok (dmax (_finishTime source_node) max_finish_time))
    dzero (AdjacencyIterator n true).

(** ** Connecting and disconnecting *)

Definition connectNodes (h : heap) (source target : positive) : res heap :=
  c ← isConnectedWith h source target;
  if (c : bool) then Ok h
  else
    let new_edge := MkEdge source target in
    s ← lookup_obj h source;
    let h := <[source := pushExit new_edge s]> h in
    t ← lookup_obj h target;
    Ok (<[target := pushEntry new_edge t]> h).

(** [erase] of the first element that satisfies the test, followed by [break]. *)
Fixpoint erase_first (p : Edge → bool) (es : list Edge) : list Edge :=
  match es with
  | [] => []
  | e :: es' => if p e then es' else e :: erase_first p es'
  end.

Definition eraseExit (target : positive) (n : Node) : Node :=
  setExits (erase_first (fun e => bool_decide (getTarget e = target)) (_exitEdges n)) n.
Definition eraseEntry (source : positive) (n : Node) : Node :=
  setEntries (erase_first (fun e => bool_decide (getSource e = source)) (_entryEdges n)) n.

Definition disconnectNodes (h : heap) (source target : positive) : res heap :=
  s ← lookup_obj h source;
  let h := <[source := eraseExit target s]> h in
  t ← lookup_obj h target;
  Ok (<[target := eraseEntry source t]> h).

(** ** The node table [_graphNodes]

    A [std::map<int64_t, Node*>], which is iterated in increasing key order. *)

Abbreviation node_map := (gmap Z positive).

Definition addNode (g : node_map) (id : Z) (node : positive) : node_map := <[id := node]> g.

Definition removeNode (g : node_map) (id : Z) : node_map := delete id g.

Definition key_le (p q : Z * positive) : Prop := (p.1 ≤ q.1)%Z.

#[export] Instance key_le_dec : RelDecision key_le := fun p q => Z_le_dec p.1 q.1.

Definition nodes_in_order (g : node_map) : list (Z * positive) :=
  merge_sort key_le (map_to_list g).

(** [delete node]. *)
Definition delete_Node (h : heap) (l : positive) : res heap :=
  match h !! l with
  | Some _ => Ok (delete l h)
  | None => UB DoubleFree
  end.

(** [Graph::~Graph]. *)
Definition delete_Graph (h : heap) (g : node_map) : res heap :=
  res_foldl (fun h p => delete_Node h p.2) h (nodes_in_order g).

(** [Node::nextId]: [fetch_add(1)] on [std::atomic<int64_t>], which wraps. *)
Definition nextId (next_id : Z) : Z * Z := (next_id, i64 (next_id + 1)).

(** ** The graph a store represents *)

Definition exits (h : heap) (u : positive) : list Edge := from_option _exitEdges [] (h !! u).
Definition entries (h : heap) (v : positive) : list Edge := from_option _entryEdges [] (h !! v).

(** [u -> v] is an edge. *)
Definition edge (h : heap) (u v : positive) : Prop := MkEdge u v ∈ exits h u.

(** Well-formedness: an edge is recorded in the exit vector of its source
    exactly when it is in the entry vector of its target, and no edge is
    recorded twice. *)
Record wf (h : heap) : Prop := {
  wf_src : ∀ u e, e ∈ exits h u → _source e = u;
  wf_tgt : ∀ v e, e ∈ entries h v → _target e = v;
  wf_sym : ∀ e, e ∈ exits h (_source e) ↔ e ∈ entries h (_target e);
  wf_nodup_out : ∀ u, NoDup (exits h u);
  wf_nodup_in : ∀ v, NoDup (entries h v) }.

(** ** Lookups *)

Lemma exits_live h u e : e ∈ exits h u → is_Some (h !! u).
Proof. unfold exits. destruct (h !! u); simpl; [eauto|]. by rewrite elem_of_nil. Qed.

Lemma entries_live h v e : e ∈ entries h v → is_Some (h !! v).
Proof. unfold entries. destruct (h !! v); simpl; [eauto|]. by rewrite elem_of_nil. Qed.

Lemma edge_live_l h u v : edge h u v → is_Some (h !! u).
Proof. apply exits_live. Qed.

Lemma edge_entries h u v : wf h → edge h u v ↔ MkEdge u v ∈ entries h v.
Proof. intros W. apply (wf_sym _ W (MkEdge u v)). Qed.

Lemma edge_live_r h u v : wf h → edge h u v → is_Some (h !! v).
Proof. intros W H%edge_entries; [|done]. by eapply entries_live. Qed.

Lemma elem_exits h u e : wf h → e ∈ exits h u ↔ e = MkEdge u (_target e) ∧ edge h u (_target e).
Proof.
  intros W. split.
  - intros He. pose proof (wf_src _ W _ _ He). destruct e; simpl in *; subst. done.
  - intros [E H]. rewrite E. done.
Qed.

Lemma has_target_spec es v : has_target es v = true ↔ v ∈ getTarget <$> es.
Proof.
  induction es as [|e es IH]; simpl; [split; [done|by intros ?%elem_of_nil]|].
  rewrite elem_of_cons, <- IH. case_decide; subst; [by split; [left|]|].
  split; [by right|]. intros [?|?]; [by subst|done].
Qed.

Lemma has_target_edge h u n v :
  wf h → h !! u = Some n → has_target (_exitEdges n) v = true ↔ edge h u v.
Proof.
  intros W Hn. rewrite has_target_spec, list_elem_of_fmap. unfold edge, exits. rewrite Hn. simpl.
  split.
  - intros (e & -> & He). assert (e ∈ exits h u) as He' by (unfold exits; by rewrite Hn).
    apply (wf_src _ W) in He'. destruct e; simpl in *; by subst.
  - intros He. exists (MkEdge u v). done.
Qed.

Lemma insert_alter (f : Node → Node) (h : heap) u n :
  h !! u = Some n → <[u := f n]> h = alter f u h.
Proof.
  intros H. apply map_eq. intros i. rewrite lookup_insert, lookup_alter.
  case_decide; subst; [by rewrite H|done].
Qed.

(** Updates that leave the edge vectors alone. *)
Lemma exits_alter_same f h k w :
  (∀ n, _exitEdges (f n) = _exitEdges n) → exits (alter f k h) w = exits h w.
Proof.
  intros Hf. unfold exits. rewrite lookup_alter. case_decide; subst; [|done].
  destruct (h !! w); simpl; auto.
Qed.

Lemma entries_alter_same f h k w :
  (∀ n, _entryEdges (f n) = _entryEdges n) → entries (alter f k h) w = entries h w.
Proof.
  intros Hf. unfold entries. rewrite lookup_alter. case_decide; subst; [|done].
  destruct (h !! w); simpl; auto.
Qed.

(** Well-formedness and edges depend on the edge vectors only. *)
Lemma wf_ext h h' :
  (∀ w, exits h' w = exits h w) → (∀ w, entries h' w = entries h w) → wf h → wf h'.
Proof.
  intros He Hn [W1 W2 W3 W4 W5]. split; intros *; rewrite ?He, ?Hn; auto.
Qed.

Lemma edge_ext h h' u v : (∀ w, exits h' w = exits h w) → edge h' u v ↔ edge h u v.
Proof. intros He. unfold edge. by rewrite He. Qed.

(** ** Adding an edge *)

Definition add_edge (u v : positive) (h : heap) : heap :=
  alter (pushEntry (MkEdge u v)) v (alter (pushExit (MkEdge u v)) u h).

Lemma exits_add_edge h u v w :
  is_Some (h !! u) →
  exits (add_edge u v h) w = exits h w ++ (if decide (w = u) then [MkEdge u v] else []).
Proof.
  intros [n Hn]. unfold add_edge. rewrite exits_alter_same by done.
  unfold exits. rewrite lookup_alter. repeat case_decide; subst; try done.
  - by rewrite Hn.
  - by rewrite app_nil_r.
Qed.

Lemma entries_add_edge h u v w :
  is_Some (h !! v) →
  entries (add_edge u v h) w = entries h w ++ (if decide (w = v) then [MkEdge u v] else []).
Proof.
  intros [n Hn].
  assert (∀ x, entries (add_edge u v h) x =
    if decide (v = x) then from_option _entryEdges [] (pushEntry (MkEdge u v) <$> alter (pushExit (MkEdge u v)) u h !! v)
    else entries (alter (pushExit (MkEdge u v)) u h) x) as ->.
  { intros x. unfold entries, add_edge. rewrite lookup_alter. by case_decide; subst. }
  repeat case_decide; subst; try done.
  - rewrite lookup_alter. unfold entries. rewrite Hn. case_decide; subst; by rewrite ?Hn.
  - rewrite entries_alter_same by done. by rewrite app_nil_r.
Qed.

Lemma connectNodes_eq h u v nu :
  h !! u = Some nu → is_Some (h !! v) →
  connectNodes h u v = Ok (if has_target (_exitEdges nu) v then h else add_edge u v h).
Proof.
  intros Hu [nv Hv]. unfold connectNodes, isConnectedWith. repeat run_step.
  destruct (has_target _ _); [done|]. repeat run_step.
  rewrite (insert_alter (pushExit (MkEdge u v)) h u nu) by done.
  assert (is_Some (alter (pushExit (MkEdge u v)) u h !! v)) as [t Ht].
  { rewrite lookup_alter. case_decide; subst; rewrite Hv; eauto. }
  run_step. by rewrite (insert_alter (pushEntry (MkEdge u v)) _ v t).
Qed.

Lemma edge_add_edge h u v a b :
  is_Some (h !! u) → edge (add_edge u v h) a b ↔ edge h a b ∨ (a = u ∧ b = v).
Proof.
  intros Hu. unfold edge. rewrite exits_add_edge, elem_of_app by done.
  case_decide; subst; rewrite ?list_elem_of_singleton, ?elem_of_nil; naive_solver.
Qed.

Lemma wf_add_edge h u v :
  wf h → is_Some (h !! u) → is_Some (h !! v) → ¬ edge h u v → wf (add_edge u v h).
Proof.
  intros W Hu Hv Hn. pose proof Hn as Hn'. rewrite edge_entries in Hn' by done.
  destruct W as [W1 W2 W3 W4 W5]. split.
  - intros w e. rewrite exits_add_edge by done. rewrite elem_of_app. intros [?|H]; [by apply W1|].
    case_decide; subst; [apply list_elem_of_singleton in H as ->; done|by apply elem_of_nil in H].
  - intros w e. rewrite entries_add_edge by done. rewrite elem_of_app. intros [?|H]; [by apply W2|].
    case_decide; subst; [apply list_elem_of_singleton in H as ->; done|by apply elem_of_nil in H].
  - intros [s t]. rewrite exits_add_edge, entries_add_edge, !elem_of_app by done. simpl.
    rewrite (W3 (MkEdge s t)). simpl.
    repeat case_decide; subst; rewrite ?list_elem_of_singleton, ?elem_of_nil; naive_solver.
  - intros w. rewrite exits_add_edge by done. case_decide; subst; [|by rewrite app_nil_r].
    apply NoDup_app; split_and!; [done| |apply NoDup_singleton].
    intros e He ->%list_elem_of_singleton. done.
  - intros w. rewrite entries_add_edge by done. case_decide; subst; [|by rewrite app_nil_r].
    apply NoDup_app; split_and!; [done| |apply NoDup_singleton].
    intros e He ->%list_elem_of_singleton. done.
Qed.

(** What [connectNodes] does on a well-formed store. *)
Lemma connectNodes_run h u v :
  wf h → is_Some (h !! u) → is_Some (h !! v) →
  ∃ h', connectNodes h u v = Ok h' ∧ wf h' ∧ (h' = h ∧ edge h u v ∨ h' = add_edge u v h ∧ ¬ edge h u v).
Proof.
  intros W [nu Hu] Hv. rewrite (connectNodes_eq h u v nu) by done.
  pose proof (has_target_edge h u nu v W Hu) as Ht.
  destruct (has_target _ _); eexists; (split; [done|]).
  - split; [done|]. left. split; [done|]. by apply Ht.
  - assert (¬ edge h u v) by (intros He; by apply Ht in He).
    split; [apply wf_add_edge; eauto|]. by right.
Qed.

(** ** Removing an edge *)

Definition del_edge (u v : positive) (h : heap) : heap :=
  alter (eraseEntry u) v (alter (eraseExit v) u h).

Lemma disconnectNodes_eq h u v :
  is_Some (h !! u) → is_Some (h !! v) → disconnectNodes h u v = Ok (del_edge u v h).
Proof.
  intros [nu Hu] [nv Hv]. unfold disconnectNodes. repeat run_step.
  rewrite (insert_alter (eraseExit v) h u nu) by done.
  assert (is_Some (alter (eraseExit v) u h !! v)) as [t Ht].
  { rewrite lookup_alter. case_decide; subst; rewrite Hv; eauto. }
  run_step. by rewrite (insert_alter (eraseEntry u) _ v t).
Qed.

Lemma exits_del_edge h u v w :
  exits (del_edge u v h) w =
    if decide (w = u) then erase_first (fun e => bool_decide (getTarget e = v)) (exits h u)
    else exits h w.
Proof.
  unfold del_edge. rewrite exits_alter_same by done. unfold exits. rewrite lookup_alter.
  repeat case_decide; subst; try done. by destruct (h !! _).
Qed.

Lemma entries_del_edge h u v w :
  entries (del_edge u v h) w =
    if decide (w = v) then erase_first (fun e => bool_decide (getSource e = u)) (entries h v)
    else entries h w.
Proof.
  assert (entries (del_edge u v h) w =
    if decide (w = v) then erase_first (fun e => bool_decide (getSource e = u))
      (entries (alter (eraseExit v) u h) v) else entries (alter (eraseExit v) u h) w) as ->.
  { unfold del_edge, entries at 1. rewrite lookup_alter.
    repeat case_decide; subst; try done. unfold entries. by destruct (alter _ _ _ !! _). }
  by rewrite !entries_alter_same.
Qed.

Lemma erase_first_notin p es : (∀ e, e ∈ es → p e = false) → erase_first p es = es.
Proof.
  induction es as [|e es IH]; intros H; simpl; [done|].
  rewrite (H e) by (by left). f_equal. apply IH. intros. apply H. by right.
Qed.

Lemma erase_first_elem p es x y :
  NoDup es → (∀ e, e ∈ es → p e = true ↔ e = x) →
  y ∈ erase_first p es ↔ y ∈ es ∧ y ≠ x.
Proof.
  induction es as [|e es IH]; intros Hnd H; simpl; [set_solver|].
  apply NoDup_cons in Hnd as [He Hnd].
  assert (Hp : p e = true ↔ e = x) by (apply H; by left).
  destruct (p e).
  - assert (e = x) as -> by (by apply Hp). set_solver.
  - assert (e ≠ x) by (intros E; by apply Hp in E).
    rewrite !elem_of_cons, IH by (set_solver || done). naive_solver.
Qed.

Lemma filter_ne_all (x : Edge) (es : list Edge) : (x ∉ es) → filter (.≠ x) es = es.
Proof.
  induction es as [|e es IH]; [done|]. intros [Hne Hx]%not_elem_of_cons. rewrite filter_cons_True by done.
  by rewrite IH.
Qed.

Lemma erase_first_filter p es x :
  NoDup es → (∀ e, e ∈ es → p e = true ↔ e = x) → erase_first p es = filter (.≠ x) es.
Proof.
  induction es as [|e es IH]; intros Hnd H; [done|]. apply NoDup_cons in Hnd as [He Hnd]. simpl.
  assert (Hp : p e = true ↔ e = x) by (apply H; by left). destruct (p e).
  - assert (e = x) as -> by (by apply Hp). rewrite filter_cons_False by (intros Hne; by apply Hne).
    by rewrite filter_ne_all.
  - rewrite filter_cons_True by (intros E; by apply Hp in E). f_equal. apply IH; [done|]. intros e' He'. apply H. by right.
Qed.

Lemma erase_first_NoDup p es : NoDup es → NoDup (erase_first p es).
Proof.
  intros Hnd. eapply sublist_NoDup; [done|].
  clear Hnd. induction es as [|e es IH]; simpl; [done|]. destruct (p e).
  - by apply sublist_cons.
  - by apply sublist_skip.
Qed.

(** Every vector loses that edge and keeps its order. *)
Lemma exits_del_filter h u v w : wf h → exits (del_edge u v h) w = filter (.≠ MkEdge u v) (exits h w).
Proof.
  intros W. rewrite exits_del_edge. case_decide; subst.
  - apply erase_first_filter; [apply (wf_nodup_out _ W)|].
    intros [s t] He%(wf_src _ W). simpl in *. subst s. rewrite bool_decide_eq_true. naive_solver.
  - rewrite filter_ne_all; [done|]. by intros He%(wf_src _ W).
Qed.

Lemma entries_del_filter h u v w : wf h → entries (del_edge u v h) w = filter (.≠ MkEdge u v) (entries h w).
Proof.
  intros W. rewrite entries_del_edge. case_decide; subst.
  - apply erase_first_filter; [apply (wf_nodup_in _ W)|].
    intros [s t] He%(wf_tgt _ W). simpl in *. subst t. rewrite bool_decide_eq_true. naive_solver.
  - rewrite filter_ne_all; [done|]. by intros He%(wf_tgt _ W).
Qed.

Lemma exits_del_elem h u v w e :
  wf h → e ∈ exits (del_edge u v h) w ↔ e ∈ exits h w ∧ e ≠ MkEdge u v.
Proof. intros W. rewrite exits_del_filter, list_elem_of_filter by done. tauto. Qed.

Lemma entries_del_elem h u v w e :
  wf h → e ∈ entries (del_edge u v h) w ↔ e ∈ entries h w ∧ e ≠ MkEdge u v.
Proof. intros W. rewrite entries_del_filter, list_elem_of_filter by done. tauto. Qed.

Lemma wf_del_edge h u v : wf h → wf (del_edge u v h).
Proof.
  intros W. split.
  - intros w e [H _]%exits_del_elem; [|done]. by apply (wf_src _ W).
  - intros w e [H _]%entries_del_elem; [|done]. by apply (wf_tgt _ W).
  - intros e. rewrite exits_del_elem, entries_del_elem by done. by rewrite (wf_sym _ W).
  - intros w. rewrite exits_del_edge. case_decide; [apply erase_first_NoDup|]; apply (wf_nodup_out _ W).
  - intros w. rewrite entries_del_edge. case_decide; [apply erase_first_NoDup|]; apply (wf_nodup_in _ W).
Qed.

Lemma edge_del_edge h u v a b :
  wf h → edge (del_edge u v h) a b ↔ edge h a b ∧ ¬ (a = u ∧ b = v).
Proof. intros W. unfold edge. rewrite exits_del_elem by done. naive_solver. Qed.

Lemma erase_first_last p es e :
  (∀ x, x ∈ es → p x = false) → p e = true → erase_first p (es ++ [e]) = es.
Proof.
  induction es as [|x es IH]; intros H He; simpl; [by rewrite He|].
  rewrite (H x) by (by left). f_equal. apply IH; [|done]. intros. apply H. by right.
Qed.

Lemma setExits_id n : setExits (_exitEdges n) n = n.
Proof. by destruct n. Qed.

Lemma setEntries_id n : setEntries (_entryEdges n) n = n.
Proof. by destruct n. Qed.

Lemma eraseExit_pushExit h u v n :
  wf h → h !! u = Some n → ¬ edge h u v → eraseExit v (pushExit (MkEdge u v) n) = n.
Proof.
  intros W Hn Hne. unfold eraseExit. simpl.
  rewrite erase_first_last; [by destruct n| |by apply bool_decide_eq_true].
  intros e He. apply bool_decide_eq_false. intros E. apply Hne.
  assert (e ∈ exits h u) as He' by (unfold exits; by rewrite Hn).
  pose proof (wf_src _ W _ _ He'). destruct e; simpl in *; subst. done.
Qed.

Lemma eraseEntry_pushEntry h u v n :
  wf h → h !! v = Some n → ¬ edge h u v → eraseEntry u (pushEntry (MkEdge u v) n) = n.
Proof.
  intros W Hn Hne. unfold eraseEntry. simpl.
  rewrite erase_first_last; [by destruct n| |by apply bool_decide_eq_true].
  intros e He. apply bool_decide_eq_false. intros E. apply Hne, edge_entries; [done|].
  assert (e ∈ entries h v) as He' by (unfold entries; by rewrite Hn).
  pose proof (wf_tgt _ W _ _ He'). destruct e; simpl in *; subst. done.
Qed.

Lemma eraseExit_pushEntry v e n : eraseExit v (pushEntry e n) = pushEntry e (eraseExit v n).
Proof. done. Qed.

Lemma del_add_edge h u v :
  wf h → is_Some (h !! u) → is_Some (h !! v) → ¬ edge h u v → del_edge u v (add_edge u v h) = h.
Proof.
  intros W [nu Hu] [nv Hv] Hne. apply map_eq. intros w. unfold del_edge, add_edge.
  rewrite !lookup_alter. repeat case_decide; subst; try done; simplify_eq;
    rewrite ?Hu, ?Hv; simpl; f_equal.
  - rewrite eraseExit_pushEntry. rewrite (eraseExit_pushExit h) by done.
    by rewrite (eraseEntry_pushEntry h).
  - by apply (eraseEntry_pushEntry h).
  - by apply (eraseExit_pushExit h).
Qed.

(** ** The node table *)

(** The table holds exactly the live nodes, each under its own id. *)
Definition table_ok (h : heap) (g : node_map) : Prop :=
  ∀ id l, g !! id = Some l ↔ ∃ n, h !! l = Some n ∧ _id n = id.

Lemma nodes_in_order_perm g : nodes_in_order g ≡ₚ map_to_list g.
Proof. apply merge_sort_Permutation. Qed.

Lemma elem_of_nodes_in_order g id l : (id, l) ∈ nodes_in_order g ↔ g !! id = Some l.
Proof. rewrite nodes_in_order_perm. apply elem_of_map_to_list. Qed.

#[export] Instance key_le_trans : Transitive key_le.
Proof. unfold key_le. intros p q r. lia. Qed.

#[export] Instance key_le_total : Total key_le.
Proof. unfold key_le. intros p q. lia. Qed.

Lemma nodes_in_order_sorted g : StronglySorted key_le (nodes_in_order g).
Proof. apply StronglySorted_merge_sort; apply _. Qed.

(** Under [table_ok] the iteration meets every live node exactly once. *)
Lemma nodes_in_order_live h g l :
  table_ok h g → l ∈ (nodes_in_order g).*2 ↔ is_Some (h !! l).
Proof.
  intros T. rewrite list_elem_of_fmap. split.
  - intros ([id l'] & -> & H%elem_of_nodes_in_order%T). destruct H as (n & ? & _). eauto.
  - intros [n Hn]. exists (_id n, l). split; [done|]. apply elem_of_nodes_in_order, T. eauto.
Qed.

Lemma nodes_in_order_NoDup h g : table_ok h g → NoDup (nodes_in_order g).*2.
Proof.
  intros T. apply NoDup_fmap_2_strong.
  - intros [i l] [j l'] Hi%elem_of_nodes_in_order%T Hj%elem_of_nodes_in_order%T. simpl. intros ->.
    destruct Hi as (n & Hn & <-), Hj as (n' & Hn' & <-). congruence.
  - rewrite nodes_in_order_perm. apply NoDup_map_to_list.
Qed.

Lemma delete_nodes_all (ps : list (Z * positive)) h :
  NoDup ps.*2 → (∀ l, l ∈ ps.*2 ↔ is_Some (h !! l)) →
  res_foldl (fun h p => delete_Node h p.2) h ps = Ok ∅.
Proof.
  revert h. induction ps as [|[i l] ps IH]; intros h Hnd Hl; simpl in *.
  - f_equal. apply map_empty. intros k. apply eq_None_not_Some. rewrite <- Hl. apply not_elem_of_nil.
  - apply NoDup_cons in Hnd as [Hn Hnd].
    assert (is_Some (h !! l)) as [n En] by (apply Hl; by left).
    assert (delete_Node h l = Ok (delete l h)) as -> by (unfold delete_Node; by rewrite En).
    simpl. apply IH; [done|].
    intros k. destruct (decide (k = l)) as [->|Hk].
    + rewrite lookup_delete_eq. split; [done|]. by intros [? ?].
    + rewrite lookup_delete_ne by done. rewrite <- Hl. rewrite elem_of_cons. naive_solver.
Qed.

Lemma table_ok_add h g l n :
  table_ok h g → h !! l = None → g !! _id n = None →
  table_ok (<[l := n]> h) (addNode g (_id n) l).
Proof.
  intros T Hl Hg id l'. unfold addNode. rewrite !lookup_insert.
  repeat case_decide; subst.
  - split; [eauto|done].
  - split; [intros [= ->]; done|]. intros (n' & Hn' & E).
    assert (g !! _id n = Some l') by (apply T; eauto). congruence.
  - split.
    + intros (? & ? & ?)%T. congruence.
    + intros (? & [= <-] & E). done.
  - apply T.
Qed.

Lemma table_ok_remove h g l n :
  table_ok h g → h !! l = Some n → table_ok (delete l h) (removeNode g (_id n)).
Proof.
  intros T Hl id l'. unfold removeNode. rewrite !lookup_delete.
  assert (Hg : g !! _id n = Some l) by (apply T; eauto).
  repeat case_decide; subst.
  - split; [done|]. by intros (? & ? & _).
  - split; [done|]. intros (n' & Hn' & E).
    assert (g !! _id n = Some l') by (apply T; eauto). congruence.
  - split; [|by intros (? & ? & _)]. intros (n' & Hn' & E)%T. congruence.
  - apply T.
Qed.

(** The ids recorded do not change under updates that keep the id. *)
Lemma table_ok_alter h g f l :
  (∀ n, _id (f n) = _id n) → table_ok h g → table_ok (alter f l h) g.
Proof.
  intros Hf T id l'. rewrite (T id l'). rewrite lookup_alter. case_decide; subst; [|done].
  destruct (h !! l') as [n|]; simpl; [|naive_solver].
  split; intros (n' & [= <-] & <-); eauto.
Qed.

(** Updates of a node's other fields keep the graph and the table. *)
Lemma wf_alter_same f h k :
  (∀ n, _exitEdges (f n) = _exitEdges n) → (∀ n, _entryEdges (f n) = _entryEdges n) →
  wf h → wf (alter f k h).
Proof.
  intros H1 H2. apply wf_ext; intros w; [by apply exits_alter_same|by apply entries_alter_same].
Qed.

Lemma is_Some_alter {A} (f : A → A) (h : gmap positive A) k w :
  is_Some (alter f k h !! w) ↔ is_Some (h !! w).
Proof. rewrite lookup_alter. case_decide; subst; [|done]. apply fmap_is_Some. Qed.

Lemma is_Some_add_edge h u v w : is_Some (add_edge u v h !! w) ↔ is_Some (h !! w).
Proof. unfold add_edge. by rewrite !is_Some_alter. Qed.

Lemma is_Some_del_edge h u v w : is_Some (del_edge u v h !! w) ↔ is_Some (h !! w).
Proof. unfold del_edge. by rewrite !is_Some_alter. Qed.

Lemma table_ok_add_edge h g u v : table_ok h g → table_ok (add_edge u v h) g.
Proof. intros. by do 2 (apply table_ok_alter; [done|]). Qed.

Lemma table_ok_del_edge h g u v : table_ok h g → table_ok (del_edge u v h) g.
Proof. intros. by do 2 (apply table_ok_alter; [done|]). Qed.

(** Adding a node without edges under a fresh address. *)
Lemma exits_insert_fresh h l n w :
  h !! l = None → _exitEdges n = [] → exits (<[l := n]> h) w = exits h w.
Proof.
  intros Hl Hn. unfold exits. rewrite lookup_insert. case_decide; subst; [|done].
  by rewrite Hl.
Qed.

Lemma entries_insert_fresh h l n w :
  h !! l = None → _entryEdges n = [] → entries (<[l := n]> h) w = entries h w.
Proof.
  intros Hl Hn. unfold entries. rewrite lookup_insert. case_decide; subst; [|done].
  by rewrite Hl.
Qed.

Lemma wf_insert_fresh h l n :
  h !! l = None → _exitEdges n = [] → _entryEdges n = [] → wf h → wf (<[l := n]> h).
Proof.
  intros. apply (wf_ext h); [..|done]; intros.
  - by apply exits_insert_fresh.
  - by apply entries_insert_fresh.
Qed.

(** Deleting a node that has no edges left. *)
Lemma exits_delete h l w : exits h l = [] → exits (delete l h) w = exits h w.
Proof.
  unfold exits. intros Hl. rewrite lookup_delete. case_decide; subst; [|done].
  by rewrite Hl.
Qed.

Lemma entries_delete h l w : entries h l = [] → entries (delete l h) w = entries h w.
Proof.
  unfold entries. intros Hl. rewrite lookup_delete. case_decide; subst; [|done].
  by rewrite Hl.
Qed.

Lemma wf_delete h l : exits h l = [] → entries h l = [] → wf h → wf (delete l h).
Proof.
  intros. apply (wf_ext h); [..|done]; intros.
  - by apply exits_delete.
  - by apply entries_delete.
Qed.

(** ** Overlays

    A pass over the graph sets one group of fields of some nodes and leaves the
    rest of the store alone.  [overlay f m h] is the store [h] where the node at
    [l] has been updated with [f a] for every binding [l := a] of [m]. *)

Definition overlay {A} (f : A → Node → Node) (m : gmap positive A) (h : heap) : heap :=
  map_imap (fun l n => Some (match m !! l with Some a => f a n | None => n end)) h.

Lemma lookup_overlay {A} (f : A → Node → Node) m h l :
  overlay f m h !! l = (fun n => match m !! l with Some a => f a n | None => n end) <$> h !! l.
Proof. unfold overlay. rewrite map_lookup_imap. by destruct (h !! l). Qed.

Lemma overlay_empty {A} (f : A → Node → Node) h : overlay f ∅ h = h.
Proof.
  apply map_eq. intros l. rewrite lookup_overlay, lookup_empty. by destruct (h !! l).
Qed.

Lemma overlay_insert {A} (f : A → Node → Node) m h l n a :
  (∀ a b n, f a (f b n) = f a n) → overlay f m h !! l = Some n →
  <[l := f a n]> (overlay f m h) = overlay f (<[l := a]> m) h.
Proof.
  intros Hf Hn. apply map_eq. intros k. rewrite lookup_insert, !lookup_overlay, lookup_insert.
  case_decide; subst; [|done]. rewrite lookup_overlay in Hn.
  destruct (h !! k) as [n0|]; simplify_eq/=. destruct (m !! k); [by rewrite Hf|done].
Qed.

Lemma is_Some_overlay {A} (f : A → Node → Node) m h l :
  is_Some (overlay f m h !! l) ↔ is_Some (h !! l).
Proof. rewrite lookup_overlay. apply fmap_is_Some. Qed.

Lemma exits_overlay {A} (f : A → Node → Node) m h w :
  (∀ a n, _exitEdges (f a n) = _exitEdges n) → exits (overlay f m h) w = exits h w.
Proof.
  intros Hf. unfold exits. rewrite lookup_overlay. destruct (h !! w); [|done].
  simpl. destruct (m !! w); [apply Hf|done].
Qed.

Lemma entries_overlay {A} (f : A → Node → Node) m h w :
  (∀ a n, _entryEdges (f a n) = _entryEdges n) → entries (overlay f m h) w = entries h w.
Proof.
  intros Hf. unfold entries. rewrite lookup_overlay. destruct (h !! w); [|done].
  simpl. destruct (m !! w); [apply Hf|done].
Qed.

(** Setting a flag with [f] at the nodes of a set. *)
Definition flag (f : Node → Node) (V : gset positive) (h : heap) : heap :=
  overlay (fun _ => f) (gset_to_gmap tt V) h.

Lemma lookup_flag f V h l :
  flag f V h !! l = (fun n => if decide (l ∈ V) then f n else n) <$> h !! l.
Proof.
  unfold flag. rewrite lookup_overlay, lookup_gset_to_gmap.
  destruct (h !! l); [|done]. simpl. by case_decide; [rewrite option_guard_True|rewrite option_guard_False].
Qed.

Lemma flag_empty f h : flag f ∅ h = h.
Proof. apply map_eq. intros l. rewrite lookup_flag. by destruct (h !! l). Qed.

Lemma is_Some_flag f V h l : is_Some (flag f V h !! l) ↔ is_Some (h !! l).
Proof. rewrite lookup_flag. apply fmap_is_Some. Qed.

Lemma flag_insert f V h l n :
  (∀ n, f (f n) = f n) → flag f V h !! l = Some n → <[l := f n]> (flag f V h) = flag f ({[l]} ∪ V) h.
Proof.
  intros Hf Hn. unfold flag. rewrite gset_to_gmap_union_singleton.
  apply (overlay_insert (fun _ : unit => f)); done.
Qed.

(** A property of all nodes of a concrete store, by evaluation. *)
Lemma heap_forall (P : Node → Prop) `{!∀ n, Decision (P n)} (h : heap) :
  bool_decide (map_Forall (fun _ n => P n) h) = true → ∀ l n, h !! l = Some n → P n.
Proof. intros Hb%bool_decide_eq_true l n Hn. by apply (Hb l n). Qed.

Lemma table_ok_eval h g :
  bool_decide (map_Forall (fun id l => _id <$> h !! l = Some id) g ∧
    map_Forall (fun l n => g !! _id n = Some l) h) = true → table_ok h g.
Proof.
  intros [Hg Hh]%bool_decide_eq_true id l. split.
  - intros Hl. specialize (Hg id l Hl). by apply fmap_Some in Hg as (n & Hn & ->); eauto.
  - intros (n & Hn & <-). by apply Hh.
Qed.

(** ** Properties *)

(** C18. [connectNodes] on two live nodes of a well-formed graph always returns;
    the result is well-formed, its edges are the old ones plus [u -> v], no
    other node changes, and connecting a second time changes nothing. *)
Theorem connectNodes_correct h u v :
  wf h → is_Some (h !! u) → is_Some (h !! v) →
  ∃ h', connectNodes h u v = Ok h' ∧ wf h' ∧
    (∀ a b, edge h' a b ↔ edge h a b ∨ (a = u ∧ b = v)) ∧
    (∀ w, w ≠ u → w ≠ v → h' !! w = h !! w) ∧
    connectNodes h' u v = Ok h'.
Proof.
  intros W Hu Hv. destruct (connectNodes_run h u v W Hu Hv) as (h' & E & W' & HC).
  exists h'. split; [done|]. split; [done|].
  assert (He : ∀ a b, edge h' a b ↔ edge h a b ∨ (a = u ∧ b = v)).
  { intros a b. destruct HC as [[-> ?]|[-> ?]]; [|by apply edge_add_edge].
    split; [tauto|]. by intros [?|[-> ->]]. }
  split; [done|]. split.
  - intros w Hwu Hwv. destruct HC as [[-> ?]|[-> ?]]; [done|].
    unfold add_edge. by rewrite !lookup_alter_ne by done.
  - assert (is_Some (h' !! u)) as [nu' Hu'].
    { destruct HC as [[-> _]|[-> _]]; [done|by apply is_Some_add_edge]. }
    assert (is_Some (h' !! v)).
    { destruct HC as [[-> _]|[-> _]]; [done|by apply is_Some_add_edge]. }
    rewrite (connectNodes_eq h' u v nu') by done.
    rewrite (proj2 (has_target_edge h' u nu' v W' Hu')); [done|]. apply He. by right.
Qed.

Definition two_nodes : heap :=
  <[1%positive := new_Node 0 ROOT_TASK dzero]> (<[2%positive := new_Node 1 IMP_TASK dzero]> ∅).

Lemma two_nodes_wf : wf two_nodes.
Proof.
  unfold two_nodes.
  do 2 (apply wf_insert_fresh; [reflexivity..|]).
  split; intros *; try (intros H; by apply elem_of_nil in H); try constructor.
  all: intros H; by apply elem_of_nil in H.
Qed.

Lemma connectNodes_correct_witness :
  ∃ h', connectNodes two_nodes 1 2 = Ok h' ∧ edge h' 1 2.
Proof.
  destruct (connectNodes_correct two_nodes 1 2) as (h' & E & _ & He & _).
  - exact two_nodes_wf.
  - by eexists.
  - by eexists.
  - exists h'. split; [exact E|]. apply He. by right.
Defined.

(** C24. [disconnectNodes] on two live nodes of a well-formed graph always
    returns; the result is well-formed and its edges are the old ones without
    [u -> v]; every exit and entry vector is the old one without that edge, in the
    same order; no other node changes.  On the graph that [connectNodes] leaves for
    two nodes that were not connected, it gives back the old graph. *)
Theorem disconnectNodes_correct h u v :
  wf h → is_Some (h !! u) → is_Some (h !! v) →
  ∃ h', disconnectNodes h u v = Ok h' ∧ wf h' ∧
    (∀ a b, edge h' a b ↔ edge h a b ∧ ¬ (a = u ∧ b = v)) ∧
    (∀ w, exits h' w = filter (.≠ MkEdge u v) (exits h w) ∧ entries h' w = filter (.≠ MkEdge u v) (entries h w)) ∧
    (∀ w, w ≠ u → w ≠ v → h' !! w = h !! w) ∧
    (¬ edge h u v → ∃ h1, connectNodes h u v = Ok h1 ∧ disconnectNodes h1 u v = Ok h).
Proof.
  intros W Hu Hv. exists (del_edge u v h).
  split; [by apply disconnectNodes_eq|]. split; [by apply wf_del_edge|].
  split; [intros; by apply edge_del_edge|].
  split; [intros w; by rewrite exits_del_filter, entries_del_filter|]. split.
  - intros w Hwu Hwv. unfold del_edge. by rewrite !lookup_alter_ne by done.
  - intros Hne. destruct (connectNodes_run h u v W Hu Hv) as (h' & -> & _ & [[-> ?]|[-> _]]); [done|].
    eexists. split; [done|]. rewrite disconnectNodes_eq by (by apply is_Some_add_edge). by rewrite del_add_edge.
Qed.

Lemma disconnectNodes_correct_witness :
  ∃ h1, connectNodes two_nodes 1 2 = Ok h1 ∧ edge h1 1 2 ∧ disconnectNodes h1 1 2 = Ok two_nodes.
Proof.
  destruct (disconnectNodes_correct two_nodes 1 2) as (h' & _ & _ & _ & _ & _ & H).
  - exact two_nodes_wf.
  - by eexists.
  - by eexists.
  - destruct H as (h1 & E1 & E2); [by intros H%elem_of_nil|]. exists h1. split; [exact E1|]. split; [|exact E2].
    vm_compute in E1. injection E1 as <-. by left.
Defined.

(** [Graph::~Graph] frees every node exactly once: on a table that holds
    the live nodes under their ids there is no double free and nothing is
    leaked. *)
Theorem delete_Graph_frees_all h g : table_ok h g → delete_Graph h g = Ok ∅.
Proof.
  intros T. unfold delete_Graph. apply delete_nodes_all.
  - by eapply nodes_in_order_NoDup.
  - intros l. by apply nodes_in_order_live.
Qed.

Lemma delete_Graph_frees_all_witness :
  delete_Graph two_nodes (addNode (addNode ∅ 1 2) 0 1) = Ok ∅.
Proof.
  apply delete_Graph_frees_all.
  apply (table_ok_add (<[2%positive := new_Node 1 IMP_TASK dzero]> ∅) _ 1 (new_Node 0 ROOT_TASK dzero));
    [|reflexivity..].
  apply (table_ok_add ∅ ∅ 2 (new_Node 1 IMP_TASK dzero)); [|reflexivity..].
  intros id l. split; [intros H; discriminate H|]. intros (n & H & _). discriminate H.
Defined.

#[export] Hint Resolve wf_add_edge wf_del_edge wf_insert_fresh wf_delete
  table_ok_add_edge table_ok_del_edge : tdg.
