(* ===== verification/EdgeStore.v ===== *)
(** * The graph with its [Edge] objects

    In src/graph.h the vectors of a node hold pointers, and the two vectors of an
    edge share one [Edge] object.  [Graph] keeps the edges themselves in the
    vectors.  This file has the operations of graph.cc on the shared objects and
    shows that they do what those of [Graph] do, that no vector ever holds a
    dangling pointer, and what becomes of the objects: nothing frees them. *)
From stdpp Require Import base numbers gmap list sorting.
From Stdlib Require Import ZArith Lia.
From S2P Require Import Prelude Float64 Graph.

(** ** Objects *)

(** A node: its fields (the vectors in [no_fields] are not used), and the vectors
    of pointers. *)
Record node_obj : Type := MkNodeObj {
  no_fields : Node;
  no_entries : list positive;
  no_exits : list positive }.

(** The nodes and the edges, and the addresses that [new] takes next. *)
Record store : Type := MkStore {
  st_nodes : gmap positive node_obj;
  st_edges : gmap positive Edge;
  st_next_node : positive;
  st_next_edge : positive }.

Definition set_st_nodes (ns : gmap positive node_obj) (st : store) : store :=
  MkStore ns (st_edges st) (st_next_node st) (st_next_edge st).

Definition empty_store : store := MkStore ∅ ∅ 1 1.

(** [new Node] and [new Edge]. *)
Definition new_node_obj (id : Z) (ty : NodeType) (st : store) : store :=
  MkStore (<[st_next_node st := MkNodeObj (new_Node id ty dzero) [] []]> (st_nodes st)) (st_edges st)
    (Pos.succ (st_next_node st)) (st_next_edge st).

Definition new_edge_obj (source target : positive) (st : store) : store :=
  MkStore (st_nodes st) (<[st_next_edge st := MkEdge source target]> (st_edges st))
    (st_next_node st) (Pos.succ (st_next_edge st)).

(** ** Operations *)

(** The loops over a vector of pointers: the search of [isConnectedWith], that of
    [getConnection], and [erase] of the first edge that satisfies the test. *)
Fixpoint has_target_ptr (es : gmap positive Edge) (ps : list positive) (target : positive) : res bool :=
  match ps with
  | [] => Ok false
  | p :: ps' => e ← lookup_obj es p; if decide (getTarget e = target) then Ok true else has_target_ptr es ps' target
  end.

Fixpoint find_target_ptr (es : gmap positive Edge) (ps : list positive) (target : positive) : res (option positive) :=
  match ps with
  | [] => Ok None
  | p :: ps' => e ← lookup_obj es p; if decide (getTarget e = target) then Ok (Some p) else find_target_ptr es ps' target
  end.

Fixpoint erase_ptr (es : gmap positive Edge) (test : Edge → bool) (ps : list positive) : res (list positive) :=
  match ps with
  | [] => Ok []
  | p :: ps' => e ← lookup_obj es p; if test e then Ok ps' else ps'' ← erase_ptr es test ps'; Ok (p :: ps'')
  end.

Fixpoint deref (es : gmap positive Edge) (ps : list positive) : res (list Edge) :=
  match ps with
  | [] => Ok []
  | p :: ps' => e ← lookup_obj es p; l ← deref es ps'; Ok (e :: l)
  end.

Definition isConnectedWith_ptr (st : store) (self target : positive) : res bool :=
  n ← lookup_obj (st_nodes st) self; has_target_ptr (st_edges st) (no_exits n) target.

Definition getConnection_ptr (st : store) (self target : positive) : res (option positive) :=
  n ← lookup_obj (st_nodes st) self; find_target_ptr (st_edges st) (no_exits n) target.

Definition AdjacencyIterator_ptr (st : store) (self : positive) (entry_iter : bool) : res (list positive) :=
  n ← lookup_obj (st_nodes st) self;
  l ← deref (st_edges st) (if entry_iter then no_entries n else no_exits n);
  Ok ((if entry_iter then getSource else getTarget) <$> (l : list Edge)).

Definition push_exit_ptr (p : positive) (n : node_obj) : node_obj := MkNodeObj (no_fields n) (no_entries n) (no_exits n ++ [p]).
Definition push_entry_ptr (p : positive) (n : node_obj) : node_obj := MkNodeObj (no_fields n) (no_entries n ++ [p]) (no_exits n).

Definition connectNodes_ptr (st : store) (source target : positive) : res store :=
  c ← isConnectedWith_ptr st source target;
  if (c : bool) then Ok st
  else
    let new_edge := st_next_edge st in
    let st := new_edge_obj source target st in
    s ← lookup_obj (st_nodes st) source;
    let st := set_st_nodes (<[source := push_exit_ptr new_edge s]> (st_nodes st)) st in
    t ← lookup_obj (st_nodes st) target;
    Ok (set_st_nodes (<[target := push_entry_ptr new_edge t]> (st_nodes st)) st).

Definition disconnectNodes_ptr (st : store) (source target : positive) : res store :=
  s ← lookup_obj (st_nodes st) source;
  exit_edges ← erase_ptr (st_edges st) (fun e => bool_decide (getTarget e = target)) (no_exits s);
  let st := set_st_nodes (<[source := MkNodeObj (no_fields s) (no_entries s) exit_edges]> (st_nodes st)) st in
  t ← lookup_obj (st_nodes st) target;
  entry_edges ← erase_ptr (st_edges st) (fun e => bool_decide (getSource e = source)) (no_entries t);
  Ok (set_st_nodes (<[target := MkNodeObj (no_fields t) entry_edges (no_exits t)]> (st_nodes st)) st).

(** [delete node]: the destructor frees the counters and the vectors, not what the
    vectors point to. *)
Definition delete_Node_ptr (st : store) (l : positive) : res store :=
  match st_nodes st !! l with
  | Some _ => Ok (set_st_nodes (delete l (st_nodes st)) st)
  | None => UB DoubleFree
  end.

Definition delete_Graph_ptr (st : store) (g : node_map) : res store :=
  res_foldl (fun st p => delete_Node_ptr st p.2) st (nodes_in_order g).

(** ** Clients *)

(** What a client of the graph may ask for. *)
Inductive graph_op : Type :=
  | OpNew (id : Z) (ty : NodeType)
  | OpConnect (u v : positive)
  | OpDisconnect (u v : positive)
  | OpDelete (l : positive)
  | OpConnected (u v : positive)
  | OpConnection (u v : positive)
  | OpAdjacent (u : positive) (entry_iter : bool).

(** What it gets to see. *)
Inductive answer : Type :=
  | ANone
  | ABool (b : bool)
  | AEdge (e : option Edge)
  | ANodes (l : list positive).

Definition op_ptr (st : store) (op : graph_op) : res (store * answer) :=
  match op with
  | OpNew id ty => Ok (new_node_obj id ty st, ANone)
  | OpConnect u v => st ← connectNodes_ptr st u v; Ok (st, ANone)
  | OpDisconnect u v => st ← disconnectNodes_ptr st u v; Ok (st, ANone)
  | OpDelete l => st ← delete_Node_ptr st l; Ok (st, ANone)
  | OpConnected u v => b ← isConnectedWith_ptr st u v; Ok (st, ABool b)
  | OpConnection u v =>
      p ← getConnection_ptr st u v;
      match p with
      | None => Ok (st, AEdge None)
      | Some p => e ← lookup_obj (st_edges st) p; Ok (st, AEdge (Some e))
      end
  | OpAdjacent u b => l ← AdjacencyIterator_ptr st u b; Ok (st, ANodes l)
  end.

(** The same on the graphs of [Graph]: the nodes, and the next address. *)
Definition op_val (h : heap * positive) (op : graph_op) : res (heap * positive * answer) :=
  match op with
  | OpNew id ty => Ok (<[h.2 := new_Node id ty dzero]> h.1, Pos.succ h.2, ANone)
  | OpConnect u v => h' ← connectNodes h.1 u v; Ok (h', h.2, ANone)
  | OpDisconnect u v => h' ← disconnectNodes h.1 u v; Ok (h', h.2, ANone)
  | OpDelete l => h' ← delete_Node h.1 l; Ok (h', h.2, ANone)
  | OpConnected u v => b ← isConnectedWith h.1 u v; Ok (h, ABool b)
  | OpConnection u v => e ← getConnection h.1 u v; Ok (h, AEdge e)
  | OpAdjacent u b => n ← lookup_obj h.1 u; Ok (h, ANodes (AdjacencyIterator n b))
  end.

Fixpoint run_ops {A} (step : A → graph_op → res (A * answer)) (a : A) (ops : list graph_op) : res (A * list answer) :=
  match ops with
  | [] => Ok (a, [])
  | op :: ops' => '(a', x) ← step a op; '(a'', xs) ← run_ops step a' ops'; Ok (a'', x :: xs)
  end.

(** ** Relating the two *)

(** Both return related results, or both have the same undefined behaviour. *)
Definition outcome_rel {A B} (P : A → B → Prop) (r1 : res A) (r2 : res B) : Prop :=
  match r1, r2 with
  | Ok a, Ok b => P a b
  | UB u, UB w => u = w
  | _, _ => False
  end.

Lemma outcome_bind {A B C D} (P : A → B → Prop) (Q : C → D → Prop) r1 r2 (f : A → res C) (g : B → res D) :
  outcome_rel P r1 r2 → (∀ a b, P a b → outcome_rel Q (f a) (g b)) → outcome_rel Q (r1 ≫= f) (r2 ≫= g).
Proof. intros Hr Hf. destruct r1, r2; try done. by apply Hf. Qed.

Section vectors.
Context (es : gmap positive Edge).

Lemma deref_app ps qs l k : deref es ps = Ok l → deref es qs = Ok k → deref es (ps ++ qs) = Ok (l ++ k).
Proof.
  revert l. induction ps as [|p ps IH]; intros l; cbn; [by intros [= <-]|]. intros Hl Hk. run_inv.
  rewrite (lookup_obj_Some _ _ v) by done. cbn. by rewrite (IH v0).
Qed.

Lemma deref_elem ps l p : deref es ps = Ok l → p ∈ ps → ∃ e, es !! p = Some e ∧ e ∈ l.
Proof.
  revert l. induction ps as [|q ps IH]; intros l; cbn; [by intros _ ?%elem_of_nil|]. intros Hl. run_inv.
  intros [->|Hp]%elem_of_cons; [exists v; split; [done|by left]|]. destruct (IH v0) as (e & ? & ?); [done..|].
  exists e. split; [done|by right].
Qed.

Lemma deref_insert ps l p e : es !! p = None → deref es ps = Ok l → deref (<[p := e]> es) ps = Ok l.
Proof.
  intros Hp. revert l. induction ps as [|q ps IH]; intros l; cbn; [done|]. intros Hl. run_inv.
  assert (q ≠ p) by (intros ->; congruence). rewrite (lookup_obj_Some _ _ v) by (by rewrite lookup_insert_ne). cbn.
  by rewrite (IH v0).
Qed.

Lemma has_target_deref ps l t : deref es ps = Ok l → has_target_ptr es ps t = Ok (has_target l t).
Proof.
  revert l. induction ps as [|p ps IH]; intros l; cbn; [by intros [= <-]|]. intros Hl. run_inv.
  rewrite (lookup_obj_Some _ _ v) by done. cbn. case_decide; [done|]. by apply IH.
Qed.

Lemma find_target_deref ps l t : deref es ps = Ok l →
  outcome_rel (fun p e => p ≫= (es !!.) = e ∧ (is_Some p ↔ is_Some e)) (find_target_ptr es ps t) (Ok (find_target l t)).
Proof.
  revert l. induction ps as [|p ps IH]; intros l; cbn [deref find_target_ptr find_target]; [intros [= <-]; split; [done|split; by intros []]|]. intros Hl. run_inv.
  rewrite (lookup_obj_Some _ _ v) by done. cbn [mbind res_bind find_target]. case_decide; [|by apply IH].
  cbn. split; [done|]. split; eauto.
Qed.

(** At most one pointer to an edge that satisfies the test: the others stay. *)
Lemma erase_deref test ps l : deref es ps = Ok l →
  ∃ ps', erase_ptr es test ps = Ok ps' ∧ deref es ps' = Ok (erase_first test l) ∧
    (NoDup ps → NoDup ps') ∧ (∀ q, q ∈ ps' → q ∈ ps) ∧
    ((∀ p q e d, p ∈ ps → q ∈ ps → es !! p = Some e → es !! q = Some d → test e = true → test d = true → p = q) →
     NoDup ps → ∀ q e, es !! q = Some e → q ∈ ps' ↔ q ∈ ps ∧ test e = false).
Proof.
  revert l. induction ps as [|p ps IH]; intros l; cbn [deref erase_ptr].
  - intros [= <-]. exists []. split_and!; try done. intros _ _ q e _. rewrite elem_of_nil. tauto.
  - intros Hl. run_inv. rewrite (lookup_obj_Some _ _ v) by done. cbn [mbind res_bind erase_first]. destruct (test v) eqn:Ht.
    + exists ps. split_and!; [done|done|by intros [_ ?]%NoDup_cons|by right|]. intros Hone [Hp Hn]%NoDup_cons q e He.
      rewrite elem_of_cons. split.
      * intros Hq. split; [by right|]. destruct (test e) eqn:Et; [|done]. destruct Hp.
        by rewrite (Hone p q v e (list_elem_of_here _ _) (list_elem_of_further _ _ _ Hq)).
      * intros [[->|?] Hf]; [congruence|done].
    + destruct (IH v0) as (ps' & -> & Hd & Hn & Hsub & Hin); [done|]. exists (p :: ps'). cbn.
      rewrite (lookup_obj_Some _ _ v) by done. cbn. rewrite Hd. split_and!; [done|done| | |].
      * intros [Hp Hps]%NoDup_cons. constructor; [by intros ?%Hsub|auto].
      * intros q [->|?]%elem_of_cons; [by left|right; auto].
      * intros Hone [Hp Hps]%NoDup_cons q e He. rewrite !elem_of_cons, (Hin ltac:(intros * ??; apply Hone; by right) Hps q e He).
        split; [intros [->|[? ?]]; [split; [by left|congruence]|tauto]|tauto].
Qed.
End vectors.

(** [n] is the node that the object [o] stands for. *)
Record views (es : gmap positive Edge) (o : node_obj) (n : Node) : Prop := {
  vw_entries : deref es (no_entries o) = Ok (_entryEdges n);
  vw_exits : deref es (no_exits o) = Ok (_exitEdges n);
  vw_fields : n = setEntries (_entryEdges n) (setExits (_exitEdges n) (no_fields o)) }.

Definition represents (es : gmap positive Edge) (ns : gmap positive node_obj) (h : heap) : Prop :=
  ∀ l, match ns !! l, h !! l with Some o, Some n => views es o n | None, None => True | _, _ => False end.

Lemma represents_lookup es ns h l :
  represents es ns h → outcome_rel (fun o n => ns !! l = Some o ∧ h !! l = Some n ∧ views es o n) (lookup_obj ns l) (lookup_obj h l).
Proof. intros H. specialize (H l). unfold lookup_obj. destruct (ns !! l), (h !! l); done. Qed.

Lemma represents_set es ns h l o n : represents es ns h → views es o n → represents es (<[l := o]> ns) (<[l := n]> h).
Proof.
  intros H Hv x. destruct (decide (x = l)) as [->|]; [by rewrite !lookup_insert_eq|]. rewrite !lookup_insert_ne by done. apply H.
Qed.

Lemma represents_delete es ns h l : represents es ns h → represents es (delete l ns) (delete l h).
Proof. intros H x. destruct (decide (x = l)) as [->|]; [by rewrite !lookup_delete_eq|]. rewrite !lookup_delete_ne by done. apply H. Qed.

Lemma represents_edge es ns h p e : es !! p = None → represents es ns h → represents (<[p := e]> es) ns h.
Proof.
  intros Hp H l. specialize (H l). destruct (ns !! l), (h !! l); try done. destruct H as [H1 H2 H3]. split; [by apply deref_insert..|done].
Qed.

Lemma views_push_exit es o n p e : es !! p = Some e → views es o n → views es (push_exit_ptr p o) (pushExit e n).
Proof.
  intros Hp [H1 H2 H3]. split; cbn; [done| |by rewrite H3]. eapply deref_app; [done|]. cbn. by rewrite (lookup_obj_Some _ _ e).
Qed.

Lemma views_push_entry es o n p e : es !! p = Some e → views es o n → views es (push_entry_ptr p o) (pushEntry e n).
Proof.
  intros Hp [H1 H2 H3]. split; cbn; [|done|by rewrite H3]. eapply deref_app; [done|]. cbn. by rewrite (lookup_obj_Some _ _ e).
Qed.

(** ** Sharing *)

(** The pointers in the vectors of live nodes.  None dangles; an edge between two
    live nodes is one object, in the exit vector of its source and in the entry
    vector of its target; and no [Edge] that was ever made has been freed. *)
Record shared (st : store) : Prop := {
  sh_next p : is_Some (st_edges st !! p) ↔ (p < st_next_edge st)%positive;
  sh_nodes l : is_Some (st_nodes st !! l) → (l < st_next_node st)%positive;
  sh_ends p u v : st_edges st !! p = Some (MkEdge u v) → (u < st_next_node st ∧ v < st_next_node st)%positive;
  sh_exit u o p : st_nodes st !! u = Some o → p ∈ no_exits o → ∃ v, st_edges st !! p = Some (MkEdge u v);
  sh_entry v o p : st_nodes st !! v = Some o → p ∈ no_entries o → ∃ u, st_edges st !! p = Some (MkEdge u v);
  sh_both u v ou ov p : st_nodes st !! u = Some ou → st_nodes st !! v = Some ov → st_edges st !! p = Some (MkEdge u v) →
    p ∈ no_exits ou ↔ p ∈ no_entries ov;
  sh_one u o p q e : st_nodes st !! u = Some o → p ∈ no_exits o → q ∈ no_exits o →
    st_edges st !! p = Some e → st_edges st !! q = Some e → p = q;
  sh_nodup u o : st_nodes st !! u = Some o → NoDup (no_exits o) ∧ NoDup (no_entries o) }.
Arguments sh_next {_} _ _.
Arguments sh_nodes {_} _ _ _.
Arguments sh_ends {_} _ _ _ _ _.
Arguments sh_exit {_} _ _ _ _ _ _.
Arguments sh_entry {_} _ _ _ _ _ _.
Arguments sh_both {_} _ _ _ _ _ _ _ _ _.
Arguments sh_one {_} _ _ _ _ _ _ _ _ _ _ _.
Arguments sh_nodup {_} _ _ _ _.

Lemma shared_empty : shared empty_store.
Proof.
  split; cbn; intros *; rewrite ?lookup_empty; try done. split; [by intros []|lia].
Qed.

Lemma shared_new_node id ty st : shared st → shared (new_node_obj id ty st).
Proof.
  intros S. pose proof S as [H1 H2 H3 H4 H5 H6 H7 H8].
  assert (∀ u o, st_nodes (new_node_obj id ty st) !! u = Some o →
    (u = st_next_node st ∧ no_exits o = [] ∧ no_entries o = []) ∨ st_nodes st !! u = Some o) as Hl.
  { intros u o. cbn. rewrite lookup_insert_Some. intros [[<- <-]|[_ ?]]; auto. }
  split; cbn [new_node_obj st_edges st_next_edge st_next_node] in *.
  - done.
  - intros l [o [(-> & _)|Ho]%Hl]; [lia|]. specialize (H2 l ltac:(eauto)). lia.
  - intros p u v Hp%H3. lia.
  - intros u o p [(_ & -> & _)|Ho]%Hl; [by intros ?%elem_of_nil|eauto].
  - intros v o p [(_ & _ & ->)|Ho]%Hl; [by intros ?%elem_of_nil|eauto].
  - intros u v ou ov p [(-> & E & _)|Hu]%Hl [(-> & _ & E')|Hv]%Hl He.
    + by rewrite E, E'.
    + apply H3 in He. lia.
    + apply H3 in He. lia.
    + eauto.
  - intros u o p q e [(_ & -> & _)|Ho]%Hl; [by intros ?%elem_of_nil|eauto].
  - intros u o [(_ & -> & ->)|Ho]%Hl; [split; constructor|eauto].
Qed.

Lemma shared_delete l st : shared st → shared (set_st_nodes (delete l (st_nodes st)) st).
Proof.
  intros [H1 H2 H3 H4 H5 H6 H7 H8]. split; cbn; eauto.
  - intros x [o [_ ?]%lookup_delete_Some]. eauto.
  - intros u o p [_ ?]%lookup_delete_Some. eauto.
  - intros v o p [_ ?]%lookup_delete_Some. eauto.
  - intros u v ou ov p [_ ?]%lookup_delete_Some [_ ?]%lookup_delete_Some. eauto.
  - intros u o p q e [_ ?]%lookup_delete_Some. eauto.
  - intros u o [_ ?]%lookup_delete_Some. eauto.
Qed.

(** *** Connecting *)

Lemma connect_lookup (ns : gmap positive node_obj) u v p s t w o :
  ns !! u = Some s → <[u := push_exit_ptr p s]> ns !! v = Some t →
  <[v := push_entry_ptr p t]> (<[u := push_exit_ptr p s]> ns) !! w = Some o →
  ∃ o0, ns !! w = Some o0 ∧ no_exits o = no_exits o0 ++ (if decide (w = u) then [p] else []) ∧
    no_entries o = no_entries o0 ++ (if decide (w = v) then [p] else []).
Proof.
  intros Hs Ht Ho. destruct (decide (w = v)) as [->|Hv]; [rewrite lookup_insert_eq in Ho|rewrite lookup_insert_ne in Ho by done].
  - simplify_eq. destruct (decide (v = u)) as [->|Hu]; [rewrite lookup_insert_eq in Ht|rewrite lookup_insert_ne in Ht by done].
    + simplify_eq. by exists s.
    + exists t. by rewrite app_nil_r.
  - destruct (decide (w = u)) as [->|Hu]; [rewrite lookup_insert_eq in Ho|rewrite lookup_insert_ne in Ho by done].
    + simplify_eq. exists s. cbn. by rewrite app_nil_r.
    + exists o. by rewrite !app_nil_r.
Qed.

Lemma elem_of_app_if {A} (P : Prop) `{!Decision P} (l : list A) x y :
  x ∈ l ++ (if decide P then [y] else []) ↔ x ∈ l ∨ P ∧ x = y.
Proof. rewrite elem_of_app. case_decide; rewrite ?list_elem_of_singleton, ?elem_of_nil; naive_solver. Qed.

Lemma NoDup_app_if {A} (P : Prop) `{!Decision P} (l : list A) y :
  NoDup l → y ∉ l → NoDup (l ++ (if decide P then [y] else [])).
Proof.
  intros Hl Hy. case_decide; [|by rewrite app_nil_r]. apply NoDup_app. split_and!; [done| |apply NoDup_singleton].
  by intros x Hx ->%list_elem_of_singleton.
Qed.

Lemma shared_connect st u v s t :
  let p := st_next_edge st in let ns := <[u := push_exit_ptr p s]> (st_nodes st) in
  shared st → st_nodes st !! u = Some s → ns !! v = Some t →
  (∀ q, q ∈ no_exits s → st_edges st !! q ≠ Some (MkEdge u v)) →
  shared (set_st_nodes (<[v := push_entry_ptr p t]> ns) (new_edge_obj u v st)).
Proof.
  intros p ns S Hs Ht Hnew. pose proof S as [H1 H2 H3 H4 H5 H6 H7 H8].
  set (ns' := <[v := push_entry_ptr p t]> ns).
  assert (st_edges st !! p = None) as Hp by (apply eq_None_not_Some; rewrite H1; unfold p; lia).
  assert (∀ q e, st_edges st !! q = Some e → q ≠ p) as Hne by (intros q e Hq ->; congruence).
  assert (∀ w o, ns' !! w = Some o → ∃ o0, st_nodes st !! w = Some o0 ∧
    (∀ q, q ∈ no_exits o ↔ q ∈ no_exits o0 ∨ w = u ∧ q = p) ∧ (∀ q, q ∈ no_entries o ↔ q ∈ no_entries o0 ∨ w = v ∧ q = p) ∧
    (NoDup (no_exits o0) → p ∉ no_exits o0 → NoDup (no_exits o)) ∧ (NoDup (no_entries o0) → p ∉ no_entries o0 → NoDup (no_entries o))) as Hl.
  { intros w o Ho. destruct (connect_lookup _ _ _ _ _ _ _ _ Hs Ht Ho) as (o0 & Ho0 & -> & ->). exists o0.
    split_and!; [done|intros; apply elem_of_app_if|intros; apply elem_of_app_if|apply NoDup_app_if|apply NoDup_app_if]. }
  assert (∀ q e, <[p := MkEdge u v]> (st_edges st) !! q = Some e → (q = p ∧ e = MkEdge u v) ∨ st_edges st !! q = Some e) as He.
  { intros q e. rewrite lookup_insert_Some. naive_solver. }
  assert (is_Some (st_nodes st !! v)) as Hv.
  { unfold ns in Ht. rewrite lookup_insert_Some in Ht. destruct Ht as [[<- _]|[_ ?]]; eauto. }
  split; cbn [new_edge_obj set_st_nodes st_edges st_nodes st_next_edge st_next_node]; fold p ns ns'.
  - intros q. rewrite lookup_insert_is_Some, H1. fold p. destruct (decide (p = q)); lia.
  - intros l [o (o0 & ? & _)%Hl]. eauto.
  - intros q a b [[-> [= -> ->]]|?]%He; [split; eauto|eauto].
  - intros w o q (o0 & Ho & Hx & _)%Hl [Hq|[-> ->]]%Hx.
    + destruct (H4 _ _ _ Ho Hq) as [b Hb]. exists b. by rewrite lookup_insert_ne by (intros ->; by apply (Hne _ _ Hb)).
    + exists v. by rewrite lookup_insert_eq.
  - intros w o q (o0 & Ho & _ & Hx & _)%Hl [Hq|[-> ->]]%Hx.
    + destruct (H5 _ _ _ Ho Hq) as [b Hb]. exists b. by rewrite lookup_insert_ne by (intros ->; by apply (Hne _ _ Hb)).
    + exists u. by rewrite lookup_insert_eq.
  - intros a b oa ob q (oa0 & Ha & Hxa & _)%Hl (ob0 & Hb & _ & Hxb & _)%Hl [[-> [= -> ->]]|Hq]%He; rewrite Hxa, Hxb; [naive_solver|].
    pose proof (Hne _ _ Hq). rewrite (H6 _ _ _ _ _ Ha Hb Hq). naive_solver.
  - intros w o q q' e (o0 & Ho & Hx & _)%Hl Hq%Hx Hq'%Hx Eq%He Eq'%He.
    assert (∀ x, x ∈ no_exits o0 → w = u → st_edges st !! x ≠ Some (MkEdge u v)) as Hn.
    { intros x Hx0 ->. apply Hnew. by simplify_eq. }
    assert (∀ x, x ∈ no_exits o0 → x ≠ p) as Hold by (intros x Hx0; destruct (H4 _ _ _ Ho Hx0) as [b Hb]; by eapply Hne).
    destruct Hq as [Hq|[-> ->]], Hq' as [Hq'|[? ->]]; try done.
    + destruct Eq as [[-> _]|Eq]; [by destruct (Hold p Hq)|]. destruct Eq' as [[-> _]|Eq']; [by destruct (Hold p Hq')|]. eauto.
    + destruct Eq as [[-> _]|Eq]; [done|]. destruct Eq' as [[_ ->]|Eq']; [by destruct (Hn q Hq)|by destruct (Hne _ _ Eq')].
    + destruct Eq' as [[-> _]|Eq']; [done|]. destruct Eq as [[_ ->]|Eq]; [by destruct (Hn q' Hq')|by destruct (Hne _ _ Eq)].
  - intros w o (o0 & Ho & _ & _ & Hn1 & Hn2)%Hl. destruct (H8 _ _ Ho). split; [apply Hn1|apply Hn2]; try done.
    + intros Hx. destruct (H4 _ _ _ Ho Hx) as [b Hb]. by apply (Hne _ _ Hb).
    + intros Hx. destruct (H5 _ _ _ Ho Hx) as [b Hb]. by apply (Hne _ _ Hb).
Qed.

(** *** Disconnecting *)

Lemma shared_disconnect st u v s t xs ys :
  let ns := <[u := MkNodeObj (no_fields s) (no_entries s) xs]> (st_nodes st) in
  shared st → st_nodes st !! u = Some s → ns !! v = Some t → NoDup xs → NoDup ys →
  (∀ q e, st_edges st !! q = Some e → q ∈ xs ↔ q ∈ no_exits s ∧ _target e ≠ v) →
  (∀ q e, st_edges st !! q = Some e → q ∈ ys ↔ q ∈ no_entries t ∧ _source e ≠ u) →
  (∀ q, q ∈ xs → q ∈ no_exits s) → (∀ q, q ∈ ys → q ∈ no_entries t) →
  shared (set_st_nodes (<[v := MkNodeObj (no_fields t) ys (no_exits t)]> ns) st).
Proof.
  intros ns S Hs Ht Nx Ny Hx Hy Sx Sy. pose proof S as [H1 H2 H3 H4 H5 H6 H7 H8].
  set (ns' := <[v := MkNodeObj (no_fields t) ys (no_exits t)]> ns).
  assert (∃ t0, st_nodes st !! v = Some t0 ∧ no_entries t0 = no_entries t) as (t0 & Ht0 & Et0).
  { unfold ns in Ht. rewrite lookup_insert_Some in Ht. destruct Ht as [[<- <-]|[_ ?]]; eauto. }
  assert (∀ w o, ns' !! w = Some o → ∃ o0, st_nodes st !! w = Some o0 ∧
    (no_exits o = xs ∧ w = u ∨ no_exits o = no_exits o0 ∧ w ≠ u) ∧ (no_entries o = ys ∧ w = v ∨ no_entries o = no_entries o0 ∧ w ≠ v)) as Hl.
  { intros w o. unfold ns', ns in *. destruct (decide (w = v)) as [->|Hv]; [rewrite lookup_insert_eq|rewrite lookup_insert_ne by done].
    - intros [= <-]. destruct (decide (v = u)) as [->|Hu]; [rewrite lookup_insert_eq in Ht|rewrite lookup_insert_ne in Ht by done].
      + simplify_eq. exists s. cbn. auto.
      + simplify_eq. exists t. cbn. auto.
    - destruct (decide (w = u)) as [->|Hu]; [rewrite lookup_insert_eq|rewrite lookup_insert_ne by done].
      + intros [= <-]. exists s. cbn. auto.
      + intros ?. exists o. auto. }
  assert (∀ w o o0 q e, st_nodes st !! w = Some o0 → no_exits o = xs ∧ w = u ∨ no_exits o = no_exits o0 ∧ w ≠ u →
    st_edges st !! q = Some e → q ∈ no_exits o ↔ q ∈ no_exits o0 ∧ ¬ (w = u ∧ _target e = v)) as Hxs.
  { intros w o o0 q e Ho [[-> ->]|[-> ?]] He; [|naive_solver]. simplify_eq. rewrite (Hx q e He). naive_solver. }
  assert (∀ w o o0 q e, st_nodes st !! w = Some o0 → no_entries o = ys ∧ w = v ∨ no_entries o = no_entries o0 ∧ w ≠ v →
    st_edges st !! q = Some e → q ∈ no_entries o ↔ q ∈ no_entries o0 ∧ ¬ (w = v ∧ _source e = u)) as Hys.
  { intros w o o0 q e Ho [[-> ->]|[-> ?]] He; [|naive_solver]. simplify_eq. rewrite (Hy q e He), Et0. naive_solver. }
  assert (∀ w o o0 q, st_nodes st !! w = Some o0 → no_exits o = xs ∧ w = u ∨ no_exits o = no_exits o0 ∧ w ≠ u →
    q ∈ no_exits o → q ∈ no_exits o0) as Sxs by (intros w o o0 q Ho [[-> ->]|[-> ?]]; [simplify_eq|]; auto).
  assert (∀ w o o0 q, st_nodes st !! w = Some o0 → no_entries o = ys ∧ w = v ∨ no_entries o = no_entries o0 ∧ w ≠ v →
    q ∈ no_entries o → q ∈ no_entries o0) as Sys by (intros w o o0 q Ho [[-> ->]|[-> ?]]; [simplify_eq; rewrite Et0|]; auto).
  split; cbn [set_st_nodes st_edges st_nodes st_next_edge st_next_node]; fold ns ns'; try done.
  - intros l [o (o0 & ? & _)%Hl]. eauto.
  - intros w o q (o0 & Ho & Hx' & _)%Hl Hq. eauto.
  - intros w o q (o0 & Ho & _ & Hy')%Hl Hq. eauto.
  - intros a b oa ob q (oa0 & Ha & Hxa & _)%Hl (ob0 & Hb & _ & Hyb)%Hl He.
    rewrite (Hxs _ _ _ _ _ Ha Hxa He), (Hys _ _ _ _ _ Hb Hyb He), (H6 _ _ _ _ _ Ha Hb He). cbn. tauto.
  - intros w o q q' e (o0 & Ho & Hx' & _)%Hl Hq Hq'. eauto.
  - intros w o (o0 & Ho & Hx' & Hy')%Hl. destruct (H8 _ _ Ho).
    split; [by destruct Hx' as [[-> _]|[-> _]]|by destruct Hy' as [[-> _]|[-> _]]].
Qed.

(** ** The simulation *)

Record sim (st : store) (a : heap * positive) : Prop := {
  sim_graph : represents (st_edges st) (st_nodes st) a.1;
  sim_next : st_next_node st = a.2;
  sim_shared : shared st }.

(** The [Edge] objects that an operation makes. *)
Definition made_by (a : heap * positive) (op : graph_op) : nat :=
  match op with
  | OpConnect u v => match isConnectedWith a.1 u v with Ok false => 1 | _ => 0 end
  | _ => 0
  end.

(** One operation: related states, the same answer, and no [Edge] is freed. *)
Definition step_rel (st : store) (a : heap * positive) (op : graph_op) (r1 : store * answer) (r2 : heap * positive * answer) : Prop :=
  sim r1.1 r2.1 ∧ r1.2 = r2.2 ∧ st_edges st ⊆ st_edges r1.1 ∧
  size (st_edges r1.1) = size (st_edges st) + made_by a op.

Lemma isConnectedWith_sim st a u v : sim st a →
  outcome_rel (fun b b' => b = b' ∧ ∃ o n, st_nodes st !! u = Some o ∧ a.1 !! u = Some n ∧ views (st_edges st) o n ∧
    b = has_target (_exitEdges n) v) (isConnectedWith_ptr st u v) (isConnectedWith a.1 u v).
Proof.
  intros S. unfold isConnectedWith_ptr, isConnectedWith.
  eapply outcome_bind; [by eapply represents_lookup, S|]. intros o n (Ho & Hn & V). cbn beta.
  rewrite (has_target_deref _ _ (_exitEdges n)) by apply V. cbn. eauto 10.
Qed.

Lemma sim_connect st a u v : sim st a → outcome_rel (step_rel st a (OpConnect u v)) (op_ptr st (OpConnect u v)) (op_val a (OpConnect u v)).
Proof.
  intros S. pose proof S as [G Hnext Sh]. pose proof (isConnectedWith_sim st a u v S) as Hc.
  cbn [op_ptr op_val]. unfold connectNodes_ptr, connectNodes, step_rel, made_by.
  destruct (isConnectedWith_ptr st u v) as [b| | |], (isConnectedWith a.1 u v) as [b'| | |]; try done.
  cbn in Hc |- *. destruct Hc as (<- & o & n & Ho & Hn & V & Hb). destruct b.
  { cbn. split_and!; [by destruct a|done|done|lia]. }
  set (p := st_next_edge st). set (e := MkEdge u v).
  assert (st_edges st !! p = None) as Hp by (apply eq_None_not_Some; rewrite (sh_next Sh); unfold p; lia).
  pose proof (represents_edge _ _ _ p e Hp G) as G1.
  rewrite (lookup_obj_Some _ _ o), (lookup_obj_Some _ _ n) by done. cbn [mbind res_bind].
  assert (views (<[p := e]> (st_edges st)) o n) as V1 by (pose proof (G1 u) as HH; by rewrite Ho, Hn in HH).
  pose proof (represents_set _ _ _ u _ _ G1 (views_push_exit _ _ _ p e (lookup_insert_eq _ _ _) V1)) as G2.
  pose proof (represents_lookup _ _ _ v G2) as Hv. cbn in Hv |- *.
  destruct (lookup_obj _ v) as [t| | |] eqn:Et, (lookup_obj (<[u := pushExit e n]> a.1) v) as [tn| | |]; try done.
  cbn in Hv |- *. destruct Hv as (Ht & Htn & Vt). split_and!.
  - split; cbn; [|done|].
    + apply represents_set; [done|]. by apply views_push_entry; [rewrite lookup_insert_eq|].
    + eapply (shared_connect st u v o t Sh Ho Ht). intros q Hq Eq. destruct (deref_elem _ _ _ _ (vw_exits _ _ _ V) Hq) as (e' & He' & Hin).
      assert (e' = MkEdge u v) as -> by congruence.
      assert (has_target (_exitEdges n) v = true) as Ht' by (apply has_target_spec, list_elem_of_fmap; by exists (MkEdge u v)). congruence.
  - done.
  - by apply insert_subseteq.
  - rewrite map_size_insert_None by done. lia.
Qed.

(** Two edges between the same nodes are one object. *)
Lemma exit_one st u v s p q e d : shared st → st_nodes st !! u = Some s → p ∈ no_exits s → q ∈ no_exits s →
  st_edges st !! p = Some e → st_edges st !! q = Some d → _target e = v → _target d = v → p = q.
Proof.
  intros Sh Hs Hp Hq He Hd Ee Ed. destruct (sh_exit Sh _ _ _ Hs Hp) as [b Hb], (sh_exit Sh _ _ _ Hs Hq) as [b' Hb'].
  assert (b = v) as -> by (rewrite He in Hb; by simplify_eq). assert (b' = v) as -> by (rewrite Hd in Hb'; by simplify_eq).
  by apply (sh_one Sh u s p q (MkEdge u v)).
Qed.

Lemma entry_one st u v s t p q e d : shared st → st_nodes st !! u = Some s → st_nodes st !! v = Some t →
  p ∈ no_entries t → q ∈ no_entries t →
  st_edges st !! p = Some e → st_edges st !! q = Some d → _source e = u → _source d = u → p = q.
Proof.
  intros Sh Hs Ht Hp Hq He Hd Ee Ed. destruct (sh_entry Sh _ _ _ Ht Hp) as [b Hb], (sh_entry Sh _ _ _ Ht Hq) as [b' Hb'].
  assert (b = u) as -> by (rewrite He in Hb; by simplify_eq). assert (b' = u) as -> by (rewrite Hd in Hb'; by simplify_eq).
  apply (exit_one st u v s p q (MkEdge u v) (MkEdge u v)); try done;
    [by apply (sh_both Sh _ _ _ _ _ Hs Ht Hb)|by apply (sh_both Sh _ _ _ _ _ Hs Ht Hb')].
Qed.

Lemma sim_disconnect st a u v :
  sim st a → outcome_rel (step_rel st a (OpDisconnect u v)) (op_ptr st (OpDisconnect u v)) (op_val a (OpDisconnect u v)).
Proof.
  intros S. pose proof S as [G Hnext Sh].
  cbn [op_ptr op_val]. unfold disconnectNodes_ptr, disconnectNodes, step_rel, made_by.
  pose proof (represents_lookup _ _ _ u G) as Hu.
  destruct (lookup_obj (st_nodes st) u) as [s| | |], (lookup_obj a.1 u) as [sn| | |]; try done.
  cbn in Hu. destruct Hu as (Hs & Hsn & Vs). cbn [mbind res_bind].
  destruct (erase_deref (st_edges st) (fun e => bool_decide (getTarget e = v)) (no_exits s) _ (vw_exits _ _ _ Vs))
    as (xs & -> & Dx & Nx & Sx & Hx). cbn [mbind res_bind].
  assert (represents (st_edges st) (<[u := MkNodeObj (no_fields s) (no_entries s) xs]> (st_nodes st)) (<[u := eraseExit v sn]> a.1)) as G1.
  { apply represents_set; [done|]. split; [apply Vs|done|]. cbn. by rewrite (vw_fields _ _ _ Vs). }
  pose proof (represents_lookup _ _ _ v G1) as Hv. cbn [set_st_nodes st_nodes st_edges] in *.
  destruct (lookup_obj _ v) as [t| | |], (lookup_obj (<[u := eraseExit v sn]> a.1) v) as [tn| | |]; try done.
  cbn in Hv. destruct Hv as (Ht & Htn & Vt). cbn [mbind res_bind].
  destruct (erase_deref (st_edges st) (fun e => bool_decide (getSource e = u)) (no_entries t) _ (vw_entries _ _ _ Vt))
    as (ys & -> & Dy & Ny & Sy & Hy). cbn. split_and!; [split; cbn|done|done|lia].
  - apply represents_set; [done|]. split; [done|apply Vt|]. cbn. by rewrite (vw_fields _ _ _ Vt).
  - done.
  - assert (∃ t0, st_nodes st !! v = Some t0 ∧ no_entries t0 = no_entries t) as (t0 & Ht0 & Et0).
    { rewrite lookup_insert_Some in Ht. destruct Ht as [[<- <-]|[_ ?]]; eauto. }
    destruct (sh_nodup Sh _ _ Hs) as [Nxs _], (sh_nodup Sh _ _ Ht0) as [_ Nys]. rewrite Et0 in Nys.
    apply (shared_disconnect st u v s t xs ys Sh Hs Ht); [auto|auto| | |done|done].
    + intros q e He. rewrite Hx; [by rewrite bool_decide_eq_false| |done|done].
      intros *. rewrite !bool_decide_eq_true. by apply (exit_one st u).
    + intros q e He. rewrite Hy; [by rewrite bool_decide_eq_false| |done|done].
      rewrite <- Et0. intros *. rewrite !bool_decide_eq_true. by apply (entry_one st u v s).
Qed.

Lemma sim_new st a id ty : sim st a → outcome_rel (step_rel st a (OpNew id ty)) (op_ptr st (OpNew id ty)) (op_val a (OpNew id ty)).
Proof.
  intros [G Hnext Sh]. cbn. unfold step_rel. cbn. split_and!; [split; cbn|done|done|lia].
  - rewrite Hnext. apply represents_set; [done|]. by split.
  - by rewrite Hnext.
  - by apply shared_new_node.
Qed.

Lemma sim_delete st a l : sim st a → outcome_rel (step_rel st a (OpDelete l)) (op_ptr st (OpDelete l)) (op_val a (OpDelete l)).
Proof.
  intros [G Hnext Sh]. cbn [op_ptr op_val]. unfold delete_Node_ptr, delete_Node. pose proof (G l) as Hl.
  destruct (st_nodes st !! l) as [o|], (a.1 !! l) as [n|]; try done. cbn. unfold step_rel. cbn.
  split_and!; [split; cbn|done|done|lia]; [by apply represents_delete|done|by apply shared_delete].
Qed.

Lemma step_rel_same st a op x : sim st a → made_by a op = 0 → step_rel st a op (st, x) (a, x).
Proof. intros S E. unfold step_rel. cbn. rewrite E. split_and!; [done|done|done|lia]. Qed.

Lemma sim_connection st a u v :
  sim st a → outcome_rel (step_rel st a (OpConnection u v)) (op_ptr st (OpConnection u v)) (op_val a (OpConnection u v)).
Proof.
  intros S. cbn [op_ptr op_val]. unfold getConnection_ptr, getConnection. pose proof (represents_lookup _ _ _ u (sim_graph _ _ S)) as Hu.
  destruct (lookup_obj (st_nodes st) u) as [o| | |], (lookup_obj a.1 u) as [n| | |]; try done. cbn in Hu |- *. destruct Hu as (_ & _ & V).
  pose proof (find_target_deref _ _ _ v (vw_exits _ _ _ V)) as Hf. destruct (find_target_ptr _ _ v) as [p| | |]; try done.
  cbn in Hf |- *. destruct Hf as [<- Hiff]. destruct p as [p|]; cbn in *; [|by apply step_rel_same].
  destruct (proj1 Hiff ltac:(eauto)) as [e He]. rewrite (lookup_obj_Some _ _ e), He by done. by apply step_rel_same.
Qed.

Lemma sim_adjacent st a u b :
  sim st a → outcome_rel (step_rel st a (OpAdjacent u b)) (op_ptr st (OpAdjacent u b)) (op_val a (OpAdjacent u b)).
Proof.
  intros S. cbn [op_ptr op_val]. unfold AdjacencyIterator_ptr. pose proof (represents_lookup _ _ _ u (sim_graph _ _ S)) as Hu.
  destruct (lookup_obj (st_nodes st) u) as [o| | |], (lookup_obj a.1 u) as [n| | |]; try done. cbn in Hu |- *. destruct Hu as (_ & _ & V).
  destruct b; [rewrite (vw_entries _ _ _ V)|rewrite (vw_exits _ _ _ V)]; by apply step_rel_same.
Qed.

Lemma sim_step st a op : sim st a → outcome_rel (step_rel st a op) (op_ptr st op) (op_val a op).
Proof.
  intros S. destruct op; [by apply sim_new|by apply sim_connect|by apply sim_disconnect|by apply sim_delete| |by apply sim_connection|by apply sim_adjacent].
  pose proof (isConnectedWith_sim st a u v S) as Hc. cbn [op_ptr op_val].
  destruct (isConnectedWith_ptr st u v), (isConnectedWith a.1 u v); try done. cbn. destruct Hc as [<- _]. by apply step_rel_same.
Qed.

(** The [Edge] objects that a client makes. *)
Fixpoint made (a : heap * positive) (ops : list graph_op) : nat :=
  match ops with
  | [] => 0
  | op :: ops' => made_by a op + match op_val a op with Ok (a', _) => made a' ops' | _ => 0 end
  end.

Lemma sim_run st a ops : sim st a →
  outcome_rel (fun r1 r2 => sim r1.1 r2.1 ∧ r1.2 = r2.2 ∧ st_edges st ⊆ st_edges r1.1 ∧
    size (st_edges r1.1) = size (st_edges st) + made a ops) (run_ops op_ptr st ops) (run_ops op_val a ops).
Proof.
  revert st a. induction ops as [|op ops IH]; intros st a S; cbn [run_ops made]; [split_and!; [done|done|done|cbn; lia]|].
  pose proof (sim_step st a op S) as H. destruct (op_ptr st op) as [[st1 x]| | |], (op_val a op) as [[a1 y]| | |]; try done.
  cbn in H |- *. destruct H as (S1 & Ex & Hsub & Hsize). cbn in *. specialize (IH st1 a1 S1).
  destruct (run_ops op_ptr st1 ops) as [[st2 xs]| | |], (run_ops op_val a1 ops) as [[a2 ys]| | |]; try done.
  cbn in IH |- *. destruct IH as (S2 & Exs & Hsub2 & Hsize2). cbn in *. split_and!; [done|congruence|by etransitivity|lia].
Qed.

Lemma sim_empty : sim empty_store (∅, 1%positive).
Proof. split; [|done|apply shared_empty]. intros l. cbn. by rewrite !lookup_empty. Qed.

(** ** Properties *)

(** C19. The graph on shared [Edge] objects refines the graph of [Graph].  Whatever
    nodes and edges a client makes, removes and asks for, it gets the same
    answers, or the same undefined behaviour, as when each vector held the edges
    themselves; and at every point no vector holds a dangling pointer, the edge
    between two live nodes is a single object, in the exit vector of the source
    and the entry vector of the target, once in each. *)
Theorem edge_pointers_refine ops :
  match run_ops op_ptr empty_store ops, run_ops op_val (∅, 1%positive) ops with
  | Ok (st, xs), Ok (h, nl, ys) =>
      xs = ys ∧ represents (st_edges st) (st_nodes st) h ∧ st_next_node st = nl ∧ shared st
  | UB u, UB w => u = w
  | _, _ => False
  end.
Proof.
  pose proof (sim_run _ _ ops sim_empty) as H.
  destruct (run_ops op_ptr _ _) as [[st xs]| | |], (run_ops op_val _ _) as [[[h nl] ys]| | |]; try done.
  destruct H as ([? ? ?] & ? & _). done.
Qed.

(** The table holds the live nodes under their ids. *)
Definition table_ptr (st : store) (g : node_map) : Prop :=
  ∀ id l, g !! id = Some l ↔ ∃ o, st_nodes st !! l = Some o ∧ _id (no_fields o) = id.

Lemma delete_Graph_sim st a ps : sim st a →
  outcome_rel (fun st' h' => sim st' (h', a.2) ∧ st_edges st' = st_edges st)
    (res_foldl (fun st p => delete_Node_ptr st p.2) st ps) (res_foldl (fun h (p : Z * positive) => delete_Node h p.2) a.1 ps).
Proof.
  revert st a. induction ps as [|p ps IH]; intros st a S; cbn [res_foldl]; [by destruct a|].
  pose proof (sim_delete st a p.2 S) as H. cbn [op_ptr op_val] in H. revert H. unfold delete_Node_ptr, delete_Node.
  destruct (st_nodes st !! p.2), (a.1 !! p.2); try done. cbn. intros (S1 & _). cbn in S1. exact (IH _ _ S1).
Qed.

(** C20. The destructor of the graph frees every node once and no [Edge].  After
    any use of the graph, with the live nodes in the table, [Graph::~Graph]
    returns, no node is left, and every [Edge] object that [connectNodes] has ever
    made is still allocated, also those that [disconnectNodes] has taken out of
    the vectors: one object for each connection of two nodes that were not
    connected. *)
Theorem delete_Graph_leaks_edges ops st xs g :
  run_ops op_ptr empty_store ops = Ok (st, xs) → table_ptr st g →
  ∃ st', delete_Graph_ptr st g = Ok st' ∧ st_nodes st' = ∅ ∧ st_edges st' = st_edges st ∧
    size (st_edges st') = made (∅, 1%positive) ops.
Proof.
  intros Hrun Ht. pose proof (sim_run _ _ ops sim_empty) as H. rewrite Hrun in H.
  destruct (run_ops op_val _ _) as [[a ys]| | |]; try done. destruct H as (S & _ & _ & Hsize). cbn in S, Hsize.
  assert (table_ok a.1 g) as Hok.
  { intros id l. rewrite (Ht id l). pose proof (sim_graph _ _ S l) as Hl.
    destruct (st_nodes st !! l) as [o|], (a.1 !! l) as [n|]; try done; [|split; by intros (? & ? & _)].
    pose proof (vw_fields _ _ _ Hl) as E. split; intros (? & [= <-] & <-); [exists n|exists o]; (split; [done|by rewrite E]). }
  pose proof (delete_Graph_sim st a (nodes_in_order g) S) as Hd.
  assert (delete_Graph a.1 g = Ok ∅) as Hall by (apply delete_nodes_all; [by eapply nodes_in_order_NoDup|intros; by apply nodes_in_order_live]).
  unfold delete_Graph in Hall. rewrite Hall in Hd. unfold delete_Graph_ptr.
  destruct (res_foldl _ st _) as [st'| | |]; try done. destruct Hd as [S' Ee]. exists st'.
  split_and!; [done| |done|by rewrite Ee, Hsize]. apply map_eq. intros l. rewrite lookup_empty.
  pose proof (sim_graph _ _ S' l) as Hl. cbn in Hl. rewrite lookup_empty in Hl. by destruct (st_nodes st' !! l).
Qed.

Lemma table_ptr_eval st g :
  bool_decide (map_Forall (fun id l => (fun o => _id (no_fields o)) <$> st_nodes st !! l = Some id) g ∧
    map_Forall (fun l o => g !! _id (no_fields o) = Some l) (st_nodes st)) = true → table_ptr st g.
Proof.
  intros [Hg Hh]%bool_decide_eq_true id l. split.
  - intros Hl. specialize (Hg id l Hl). apply fmap_Some in Hg as (o & ? & ->). eauto.
  - intros (o & Ho & <-). by apply (Hh l o).
Qed.

(** A connection is made, asked for again, removed and made again: two objects. *)
Definition leak_ops : list graph_op :=
  [OpNew 1 ROOT_TASK; OpNew 2 IMP_TASK; OpConnect 1 2; OpConnect 1 2; OpDisconnect 1 2; OpConnected 1 2; OpConnect 1 2].

Definition leak_store : store :=
  match run_ops op_ptr empty_store leak_ops with Ok (st, _) => st | _ => empty_store end.

Lemma delete_Graph_leaks_edges_witness : ∃ st',
  delete_Graph_ptr leak_store (<[1%Z := 1%positive]> (<[2%Z := 2%positive]> ∅)) = Ok st' ∧ st_nodes st' = ∅ ∧
  size (st_edges st') = 2.
Proof.
  destruct (delete_Graph_leaks_edges leak_ops leak_store
    [ANone; ANone; ANone; ANone; ANone; ABool false; ANone] (<[1%Z := 1%positive]> (<[2%Z := 2%positive]> ∅))) as (st' & E & En & _ & Es).
  - by vm_compute.
  - apply table_ptr_eval. by vm_compute.
  - exists st'. split; [exact E|]. split; [exact En|]. rewrite Es. by vm_compute.
Defined.
