(* ===== verification/Locks.v ===== *)
(** * The locks of the graph (graph.h, graph.cc, callbacks.cc)

    The other files run each operation on the graph as a whole.  Here the
    operations are cut at their lock operations: a thread holds the rest of the
    operation it is in and the operations it has still to do, and a scheduler
    picks the thread that makes the next step.  The mutexes are
    [_exitsMutex] and [_entriesMutex] of each node, [_addMutex] of the graph
    and [_barrier_mutex] of each parallel region, under which a callback calls
    the others. *)
From stdpp Require Import base numbers gmap list sorting relations.
From Stdlib Require Import ZArith Lia.
From S2P Require Import Prelude Float64 Graph.

(** ** Mutexes *)

Inductive mutex : Type :=
  | MBarrier (r : positive)
  | MAdd
  | MExits (n : positive)
  | MEntries (n : positive).

#[export] Instance mutex_eq_dec : EqDecision mutex.
Proof. solve_decision. Defined.

#[export] Instance mutex_countable : Countable mutex.
Proof.
  refine (inj_countable'
    (fun m => match m with
      | MBarrier r => inl (inl r) | MAdd => inl (inr tt)
      | MExits n => inr (inl n) | MEntries n => inr (inr n) end)
    (fun x => match x with
      | inl (inl r) => MBarrier r | inl (inr _) => MAdd
      | inr (inl n) => MExits n | inr (inr n) => MEntries n end) _).
  by intros [].
Defined.

(** ** Operations and their steps *)

(** What a callback does to the shared graph. *)
Inductive gop : Type :=
  | OConnect (source target : positive)
  | ODisconnect (source target : positive)
  | OAdd (id : Z) (node : positive)
  | ORemove (id : Z)
  | OLockBarrier (r : positive)
  | OUnlockBarrier (r : positive).

Inductive instr : Type :=
  | ILock (m : mutex)
  | IUnlock (m : mutex)
  | IScan (source target : positive)       (** the loop of [isConnectedWith] *)
  | IPushExit (source target : positive)
  | IPushEntry (source target : positive)
  | IEraseExit (source target : positive)
  | IEraseEntry (source target : positive)
  | IInsert (id : Z) (node : positive)
  | IErase (id : Z).

(** [connectNodes] after [isConnectedWith] has returned false. *)
Definition connect_tail (source target : positive) : list instr :=
  [ILock (MExits source); ILock (MEntries target); IPushExit source target; IPushEntry source target;
   IUnlock (MEntries target); IUnlock (MExits source)].

(** The rest of [isConnectedWith] and of [connectNodes] after the loop. *)
Definition after_scan (found : bool) (source target : positive) : list instr :=
  IUnlock (MExits source) :: (if found then [] else connect_tail source target).

Definition expand (op : gop) : list instr :=
  match op with
  | OConnect u v => [ILock (MExits u); IScan u v]
  | ODisconnect u v =>
      [ILock (MExits u); IEraseExit u v; IUnlock (MExits u);
       ILock (MEntries v); IEraseEntry u v; IUnlock (MEntries v)]
  | OAdd id l => [ILock MAdd; IInsert id l; IUnlock MAdd]
  | ORemove id => [ILock MAdd; IErase id; IUnlock MAdd]
  | OLockBarrier r => [ILock (MBarrier r)]
  | OUnlockBarrier r => [IUnlock (MBarrier r)]
  end.

(** ** Threads and the scheduler *)

Record thread : Type := MkThr { thr_cur : list instr; thr_todo : list gop }.

Record cstate : Type := MkC {
  c_heap : heap;
  c_table : node_map;
  c_owner : gmap mutex nat;
  c_threads : list thread }.

(** The effect of an instruction of thread [i]: the new shared state and what
    the thread does before the rest of its operation. *)
Inductive effect : Type :=
  | EOk (h : heap) (g : node_map) (o : gmap mutex nat) (front : list instr)
  | EBlocked
  | EFault (u : ub).

Definition on_node (h : heap) (l : positive) (k : Node → effect) : effect :=
  match h !! l with Some n => k n | None => EFault UseAfterFree end.

(** Locking a mutex that one already holds, and unlocking one that one does not
    hold, are undefined. *)
Definition exec_instr (i : nat) (ins : instr) (h : heap) (g : node_map) (o : gmap mutex nat) : effect :=
  match ins with
  | ILock m =>
      match o !! m with
      | None => EOk h g (<[m := i]> o) []
      | Some j => if decide (j = i) then EFault LockMisuse else EBlocked
      end
  | IUnlock m => if decide (o !! m = Some i) then EOk h g (delete m o) [] else EFault LockMisuse
  | IScan u v => on_node h u (fun n => EOk h g o (after_scan (has_target (_exitEdges n) v) u v))
  | IPushExit u v => on_node h u (fun n => EOk (<[u := pushExit (MkEdge u v) n]> h) g o [])
  | IPushEntry u v => on_node h v (fun n => EOk (<[v := pushEntry (MkEdge u v) n]> h) g o [])
  | IEraseExit u v => on_node h u (fun n => EOk (<[u := eraseExit v n]> h) g o [])
  | IEraseEntry u v => on_node h v (fun n => EOk (<[v := eraseEntry u n]> h) g o [])
  | IInsert id l => EOk h (addNode g id l) o []
  | IErase id => EOk h (removeNode g id) o []
  end.

Inductive outcome : Type :=
  | Finished
  | Blocked
  | Stepped (s : cstate)
  | Faulted (u : ub).

(** The next step of thread [i]. *)
Definition exec_thread (i : nat) (s : cstate) : outcome :=
  match c_threads s !! i with
  | None => Finished
  | Some t =>
      match thr_cur t with
      | [] =>
          match thr_todo t with
          | [] => Finished
          | op :: ops =>
              Stepped (MkC (c_heap s) (c_table s) (c_owner s) (<[i := MkThr (expand op) ops]> (c_threads s)))
          end
      | ins :: k =>
          match exec_instr i ins (c_heap s) (c_table s) (c_owner s) with
          | EOk h g o front => Stepped (MkC h g o (<[i := MkThr (front ++ k) (thr_todo t)]> (c_threads s)))
          | EBlocked => Blocked
          | EFault u => Faulted u
          end
      end
  end.

Definition cstep (s s' : cstate) : Prop := ∃ i, exec_thread i s = Stepped s'.

(** All threads are done. *)
Definition all_done (s : cstate) : Prop := ∀ i, exec_thread i s = Finished.

(** The start: nobody holds a lock, every thread is between two operations. *)
Definition start (h : heap) (g : node_map) (progs : list (list gop)) : cstate :=
  MkC h g ∅ (MkThr [] <$> progs).

(** A scheduler as a list of thread numbers, for examples; a choice that cannot
    step is skipped. *)
Fixpoint schedule (sched : list nat) (s : cstate) : cstate :=
  match sched with
  | [] => s
  | i :: sched' => schedule sched' (match exec_thread i s with Stepped s' => s' | _ => s end)
  end.

(** ** The locking discipline *)

(** Locks are taken in the order of their rank. *)
Definition rank (m : mutex) : nat :=
  match m with MBarrier _ => 0 | MAdd => 1 | MExits _ => 2 | MEntries _ => 3 end.

Definition below (H : gset mutex) (m : mutex) : Prop := ∀ m', m' ∈ H → rank m' < rank m.

(** [disc H cur K]: a thread that holds [H] keeps the discipline along [cur] and
    ends it holding a set with [K]. *)
Fixpoint disc (H : gset mutex) (cur : list instr) (K : gset mutex → Prop) : Prop :=
  match cur with
  | [] => K H
  | ILock m :: k => below H m ∧ disc ({[m]} ∪ H) k K
  | IUnlock m :: k => m ∈ H ∧ disc (H ∖ {[m]}) k K
  | IScan u v :: k => k = [] ∧ MExits u ∈ H ∧ below (H ∖ {[MExits u]}) (MExits u) ∧ K (H ∖ {[MExits u]})
  | IPushExit u _ :: k | IEraseExit u _ :: k => MExits u ∈ H ∧ disc H k K
  | IPushEntry _ v :: k | IEraseEntry _ v :: k => MEntries v ∈ H ∧ disc H k K
  | IInsert _ _ :: k | IErase _ :: k => MAdd ∈ H ∧ disc H k K
  end.

(** Between two operations a thread holds at most one barrier mutex, and its
    program closes every section it opens. *)
Definition section_set (B : option positive) : gset mutex :=
  match B with None => ∅ | Some r => {[MBarrier r]} end.

Fixpoint ops_ok (B : option positive) (ops : list gop) : Prop :=
  match ops with
  | [] => B = None
  | OLockBarrier r :: ops' => B = None ∧ ops_ok (Some r) ops'
  | OUnlockBarrier r :: ops' => B = Some r ∧ ops_ok None ops'
  | _ :: ops' => ops_ok B ops'
  end.

Definition boundary (ops : list gop) (H : gset mutex) : Prop := ∃ B, H = section_set B ∧ ops_ok B ops.

Definition held (o : gmap mutex nat) (i : nat) : gset mutex := dom (filter (fun p => p.2 = i) o).

(** The nodes that the operations of a thread mention. *)
Definition instr_live (h : heap) (ins : instr) : Prop :=
  match ins with
  | IScan u v | IPushExit u v | IPushEntry u v | IEraseExit u v | IEraseEntry u v =>
      is_Some (h !! u) ∧ is_Some (h !! v)
  | _ => True
  end.

Definition op_live (h : heap) (op : gop) : Prop :=
  match op with
  | OConnect u v | ODisconnect u v => is_Some (h !! u) ∧ is_Some (h !! v)
  | _ => True
  end.

Record thread_ok (h : heap) (o : gmap mutex nat) (i : nat) (t : thread) : Prop := {
  to_disc : disc (held o i) (thr_cur t) (boundary (thr_todo t));
  to_cur : Forall (instr_live h) (thr_cur t);
  to_todo : Forall (op_live h) (thr_todo t) }.

Record locks_ok (s : cstate) : Prop := {
  lk_threads : ∀ i t, c_threads s !! i = Some t → thread_ok (c_heap s) (c_owner s) i t;
  lk_owner : ∀ m i, c_owner s !! m = Some i → is_Some (c_threads s !! i) }.

(** ** Held sets *)

Lemma elem_held o i m : m ∈ held o i ↔ o !! m = Some i.
Proof.
  unfold held. rewrite elem_of_dom. split.
  - intros [j Hj]. apply map_lookup_filter_Some in Hj as [Hj E]. simpl in E. by subst.
  - intros Hm. exists i. by apply map_lookup_filter_Some.
Qed.

Lemma held_lock o m i j :
  o !! m = None → held (<[m := i]> o) j = if decide (j = i) then {[m]} ∪ held o j else held o j.
Proof.
  intros Hm. apply set_eq. intros m'. rewrite elem_held, lookup_insert_Some.
  case_decide; rewrite ?elem_of_union, ?elem_of_singleton, elem_held; naive_solver.
Qed.

Lemma held_unlock o m i j :
  o !! m = Some i → held (delete m o) j = if decide (j = i) then held o j ∖ {[m]} else held o j.
Proof.
  intros Hm. apply set_eq. intros m'. rewrite elem_held, lookup_delete_Some.
  case_decide; rewrite ?elem_of_difference, ?elem_of_singleton, elem_held; naive_solver.
Qed.

Lemma held_empty i : held ∅ i = ∅.
Proof. apply set_eq. intros m. rewrite elem_held. set_solver. Qed.

(** ** The discipline along the operations *)

Lemma below_section B m : 0 < rank m → below (section_set B) m.
Proof. intros Hm m' Hm'. destruct B; simpl in Hm'; [apply elem_of_singleton in Hm' as ->|set_solver]. done. Qed.

Lemma below_add H m m' : below H m' → rank m < rank m' → below ({[m]} ∪ H) m'.
Proof. intros HH Hr x [->%elem_of_singleton|Hx]%elem_of_union; [done|by apply HH]. Qed.

Lemma unlock_lock H m (K : gset mutex → Prop) : below H m → K H → K (({[m]} ∪ H) ∖ {[m]}).
Proof.
  intros Hb. assert (({[m]} ∪ H) ∖ {[m]} = H) as ->; [|done].
  assert (m ∉ H) by (intros Hm; specialize (Hb m Hm); lia). set_solver.
Qed.

Lemma disc_tail H u v K : below H (MExits u) → K H → disc H (connect_tail u v) K.
Proof.
  intros Hb HK. cbn [disc connect_tail].
  assert (below ({[MExits u]} ∪ H) (MEntries v)) as Hb'.
  { apply below_add; [|simpl; lia]. intros m Hm. specialize (Hb m Hm). simpl in *. lia. }
  split_and!; try done; try set_solver. apply (unlock_lock _ _ (fun X => K (X ∖ {[MExits u]}))); [done|].
  by apply unlock_lock.
Qed.

Lemma disc_after_scan H b u v k K : disc H (IScan u v :: k) K → disc H (after_scan b u v ++ k) K.
Proof.
  intros (-> & Hm & Hb & HK). rewrite app_nil_r. unfold after_scan. cbn [disc]. split; [done|].
  destruct b; [done|by apply disc_tail].
Qed.

(** A critical section of one instruction. *)
Lemma disc_section H m ins k K :
  below H m → (∀ H' k', m ∈ H' → disc H' k' K → disc H' (ins :: k') K) →
  disc H k K → disc H (ILock m :: ins :: IUnlock m :: k) K.
Proof.
  intros Hb Hi HK. split; [done|]. apply Hi; [set_solver|]. split; [set_solver|].
  by apply (unlock_lock _ _ (fun X => disc X k K)).
Qed.

Lemma disc_expand op ops H : boundary (op :: ops) H → disc H (expand op) (boundary ops).
Proof.
  intros (B & -> & Hok).
  assert (∀ m, 0 < rank m → below (section_set B) m) as Hb by (intros; by apply below_section).
  assert (ops_ok B ops → boundary ops (section_set B)) as HK by (intros; by exists B).
  destruct op as [u v|u v|id l|id|r|r]; cbn [expand ops_ok] in *.
  - split; [apply Hb; simpl; lia|]. split; [done|]. split; [set_solver|].
    split; [|apply unlock_lock; [apply Hb; simpl; lia|by apply HK]].
    apply (unlock_lock _ _ (fun X => below X (MExits u))); apply Hb; simpl; lia.
  - apply disc_section; [apply Hb; simpl; lia|done|].
    apply disc_section; [apply Hb; simpl; lia|done|by apply HK].
  - apply disc_section; [apply Hb; simpl; lia|done|by apply HK].
  - apply disc_section; [apply Hb; simpl; lia|done|by apply HK].
  - destruct Hok as [-> Hok]. split; [intros m Hm; simpl in Hm; set_solver|]. exists (Some r).
    split; [|done]. simpl. set_solver.
  - destruct Hok as [-> Hok]. split; [simpl; set_solver|]. exists None. split; [|done]. simpl. set_solver.
Qed.

(** ** Steps keep the discipline *)

Definition heap_grows (h h' : heap) : Prop := ∀ l, is_Some (h !! l) → is_Some (h' !! l).

Lemma grows_insert h l n n' : h !! l = Some n → heap_grows h (<[l := n']> h).
Proof. intros Hn x Hx. destruct (decide (x = l)) as [->|]; [by rewrite lookup_insert_eq|by rewrite lookup_insert_ne]. Qed.

Lemma instr_live_grows h h' ins : heap_grows h h' → instr_live h ins → instr_live h' ins.
Proof. intros G. destruct ins; simpl; try done; intros [? ?]; split; by apply G. Qed.

Lemma op_live_grows h h' op : heap_grows h h' → op_live h op → op_live h' op.
Proof. intros G. destruct op; simpl; try done; intros [? ?]; split; by apply G. Qed.

Lemma thread_ok_grows h h' o o' i t :
  heap_grows h h' → held o' i = held o i → thread_ok h o i t → thread_ok h' o' i t.
Proof.
  intros G E [H1 H2 H3]. split; [by rewrite E| |].
  - eapply Forall_impl; [exact H2|]. intros ins. by apply instr_live_grows.
  - eapply Forall_impl; [exact H3|]. intros op. by apply op_live_grows.
Qed.

Lemma after_scan_live h b u v : instr_live h (IScan u v) → Forall (instr_live h) (after_scan b u v).
Proof. intros Hl. destruct b; repeat constructor; simpl in *; tauto. Qed.

Lemma on_node_live h l k : is_Some (h !! l) → ∃ n, h !! l = Some n ∧ on_node h l k = k n.
Proof. intros [n Hn]. exists n. unfold on_node. by rewrite Hn. Qed.

(** One instruction of a disciplined thread: it does not fault, it blocks only on
    a mutex of another thread, above all the mutexes it holds, and otherwise the
    thread stays disciplined and the others keep what they hold. *)
Lemma exec_instr_ok h g o i ins k ops :
  thread_ok h o i (MkThr (ins :: k) ops) →
  (∃ m j, ins = ILock m ∧ o !! m = Some j ∧ j ≠ i ∧ below (held o i) m ∧ exec_instr i ins h g o = EBlocked) ∨
  ∃ h' g' o' front, exec_instr i ins h g o = EOk h' g' o' front ∧
    thread_ok h' o' i (MkThr (front ++ k) ops) ∧ heap_grows h h' ∧
    (∀ j, j ≠ i → held o' j = held o j) ∧ (∀ m j, o' !! m = Some j → j = i ∨ o !! m = Some j).
Proof.
  intros [Hd [Hl Hk]%Forall_cons Ht]. cbn [thr_cur thr_todo] in *.
  assert (heap_grows h h) as Gr by (by intros l Hx).
  destruct ins as [m|m|u v|u v|u v|u v|u v|id l|id]; cbn [exec_instr].
  - destruct Hd as [Hb Hd]. destruct (o !! m) as [j|] eqn:Em.
    + assert (j ≠ i) as Hne.
      { intros ->. apply elem_held in Em. specialize (Hb m Em). lia. }
      left. exists m, j. rewrite decide_False by done. by split_and!.
    + right. do 4 eexists. split; [done|]. split; [|split; [done|split]].
      * split; [|done|done]. rewrite held_lock, decide_True by done. exact Hd.
      * intros j Hj. by rewrite held_lock, decide_False.
      * intros m' j. rewrite lookup_insert_Some. intros [[_ <-]|[_ ?]]; auto.
  - right. destruct Hd as [Hm%elem_held Hd]. rewrite decide_True by done.
    do 4 eexists. split; [done|]. split; [|split; [done|split]].
    + split; [|done|done]. rewrite (held_unlock _ _ i), decide_True by done. exact Hd.
    + intros j Hj. by rewrite (held_unlock _ _ i), decide_False.
    + intros m' j. rewrite lookup_delete_Some. intros [_ ?]; auto.
  - right. destruct (on_node_live h u (fun n => EOk h g o (after_scan (has_target (_exitEdges n) v) u v)))
      as (n & Hn & ->); [apply Hl|]. do 4 eexists. split; [done|]. split; [|split; [done|split; auto]].
    split; [by eapply disc_after_scan| |done]. apply Forall_app. split; [by apply after_scan_live|done].
  - right. destruct Hd as [_ Hd]. destruct Hl as [[n Hn] _]. unfold on_node. rewrite Hn.
    do 4 eexists. split; [done|]. pose proof (grows_insert h u n (pushExit (MkEdge u v) n) Hn) as G.
    split; [|split; [done|split; auto]]. by eapply (thread_ok_grows h _ o).
  - right. destruct Hd as [_ Hd]. destruct Hl as [_ [n Hn]]. unfold on_node. rewrite Hn.
    do 4 eexists. split; [done|]. pose proof (grows_insert h v n (pushEntry (MkEdge u v) n) Hn) as G.
    split; [|split; [done|split; auto]]. by eapply (thread_ok_grows h _ o).
  - right. destruct Hd as [_ Hd]. destruct Hl as [[n Hn] _]. unfold on_node. rewrite Hn.
    do 4 eexists. split; [done|]. pose proof (grows_insert h u n (eraseExit v n) Hn) as G.
    split; [|split; [done|split; auto]]. by eapply (thread_ok_grows h _ o).
  - right. destruct Hd as [_ Hd]. destruct Hl as [_ [n Hn]]. unfold on_node. rewrite Hn.
    do 4 eexists. split; [done|]. pose proof (grows_insert h v n (eraseEntry u n) Hn) as G.
    split; [|split; [done|split; auto]]. by eapply (thread_ok_grows h _ o).
  - right. destruct Hd as [_ Hd]. do 4 eexists. split; [done|]. split; [by split|]. split; [done|]. split; auto.
  - right. destruct Hd as [_ Hd]. do 4 eexists. split; [done|]. split; [by split|]. split; [done|]. split; auto.
Qed.

(** ** Steps of the whole system *)

Lemma exec_cases s i :
  locks_ok s →
  exec_thread i s = Finished ∨
  (∃ s', exec_thread i s = Stepped s' ∧ locks_ok s') ∨
  (∃ m j, exec_thread i s = Blocked ∧ c_owner s !! m = Some j ∧ j ≠ i ∧ below (held (c_owner s) i) m).
Proof.
  intros [Lt Lo]. unfold exec_thread. destruct (c_threads s !! i) as [t|] eqn:Et; [|by left].
  pose proof (Lt i t Et) as Ti. destruct t as [[|ins k] ops]; cbn [thr_cur thr_todo].
  - destruct ops as [|op ops]; [by left|]. right; left. eexists. split; [done|].
    destruct Ti as [Hd _ [Ho Hops]%Forall_cons]. cbn [thr_cur thr_todo] in *. split; cbn [c_heap c_table c_owner c_threads].
    + intros j t. rewrite list_lookup_insert_Some. intros [(<- & <- & _)|[_ Hj]]; [|by apply Lt].
      split; [by apply disc_expand| |done]. cbn [thr_cur].
      destruct op; repeat constructor; simpl in *; tauto.
    + intros m j Hm. rewrite lookup_lt_is_Some, length_insert, <- lookup_lt_is_Some. by eapply Lo.
  - destruct (exec_instr_ok _ (c_table s) _ _ _ _ _ Ti) as [(m & j & -> & Hm & Hj & Hb & E)|(h' & g' & o' & front & E & T' & Gr & Hh & Ho)];
      rewrite E; [right; right; by exists m, j|].
    right; left. eexists. split; [done|]. split; cbn [c_heap c_table c_owner c_threads].
    + intros j t. rewrite list_lookup_insert_Some. intros [(<- & <- & _)|[Hne Hj]]; [done|].
      eapply thread_ok_grows; [exact Gr|by apply Hh|by apply Lt].
    + intros m j Hm. rewrite lookup_lt_is_Some, length_insert, <- lookup_lt_is_Some.
      destruct (Ho m j Hm) as [->|]; [by eexists|by eapply Lo].
Qed.

Lemma locks_ok_step s s' : locks_ok s → cstep s s' → locks_ok s'.
Proof.
  intros L [i E]. destruct (exec_cases s i L) as [E'|[(s1 & E' & L')|(m & j & E' & _)]]; rewrite E' in E;
    simplify_eq. done.
Qed.

Lemma locks_ok_steps s s' : locks_ok s → rtc cstep s s' → locks_ok s'.
Proof. intros L R. induction R as [|s s1 s' Hs _ IH]; [done|]. by apply IH, (locks_ok_step s). Qed.

Lemma locks_ok_start h g progs :
  Forall (ops_ok None) progs → Forall (Forall (op_live h)) progs → locks_ok (start h g progs).
Proof.
  intros Hops Hl. split; cbn [c_heap c_table c_owner c_threads start].
  - intros i t. rewrite list_lookup_fmap. destruct (progs !! i) as [ops|] eqn:Ei; [|done]. intros [= <-].
    rewrite Forall_lookup in Hops, Hl. split; [|constructor|by eapply Hl]. cbn [thr_cur thr_todo disc].
    exists None. rewrite held_empty. split; [done|by eapply Hops].
  - done.
Qed.

(** ** Progress *)

(** A thread that holds a lock is not done. *)
Lemma holder_not_finished s m j : locks_ok s → c_owner s !! m = Some j → exec_thread j s ≠ Finished.
Proof.
  intros [Lt Lo] Hm. destruct (Lo m j Hm) as [t Et]. unfold exec_thread. rewrite Et.
  destruct t as [[|ins k] ops]; cbn [thr_cur thr_todo]; [|by destruct (exec_instr _ _ _ _ _)].
  destruct ops as [|op ops]; [|done]. destruct (Lt j _ Et) as [(B & E & HB) _ _]. cbn [thr_todo ops_ok] in HB. subst B.
  apply elem_held in Hm. rewrite E in Hm. simpl in Hm. set_solver.
Qed.

(** Behind every held mutex some thread can step: the owner, or, when it is
    blocked itself, one behind a mutex of a higher rank. *)
Lemma some_holder_steps s m j n :
  locks_ok s → c_owner s !! m = Some j → 3 - rank m < n → ∃ i s', exec_thread i s = Stepped s'.
Proof.
  intros L. revert m j. induction n as [|n IH]; intros m j Hm Hn; [lia|].
  destruct (exec_cases s j L) as [E|[(s' & E & _)|(m' & j' & E & Hm' & _ & Hb)]].
  - by destruct (holder_not_finished s m j L Hm).
  - eauto.
  - apply (IH m' j'); [done|]. apply elem_held in Hm. specialize (Hb m Hm).
    assert (rank m' ≤ 3) by (destruct m'; simpl; lia). lia.
Qed.

#[local] Instance not_finished_dec i s : Decision (exec_thread i s ≠ Finished).
Proof. destruct (exec_thread i s); [right; by intros H|left; done..]. Defined.

Lemma progress s : locks_ok s → all_done s ∨ ∃ s', cstep s s'.
Proof.
  intros L.
  destruct (decide (Exists (fun i => exec_thread i s ≠ Finished) (seq 0 (length (c_threads s))))) as [Hex|Hnex].
  - right. apply Exists_exists in Hex as (i & _ & Hi).
    destruct (exec_cases s i L) as [E|[(s' & E & _)|(m & j & E & Hm & _)]]; [done|by exists s', i|].
    destruct (some_holder_steps s m j 4 L Hm) as (i' & s' & E'); [lia|by exists s', i'].
  - left. intros i. destruct (decide (i < length (c_threads s))) as [Hi|Hi].
    + destruct (exec_thread i s) eqn:E; [done|..]; destruct Hnex; apply Exists_exists; exists i;
        (split; [apply elem_of_seq; lia|by rewrite E]).
    + unfold exec_thread. by rewrite lookup_ge_None_2 by lia.
Qed.

(** ** Termination of every schedule *)

Definition weight_instr (ins : instr) : nat := match ins with IScan _ _ => 8 | _ => 1 end.
Definition weight_op (op : gop) : nat := S (sum_list_with weight_instr (expand op)).
Definition weight_thread (t : thread) : nat :=
  sum_list_with weight_instr (thr_cur t) + sum_list_with weight_op (thr_todo t).
Definition weight (s : cstate) : nat := sum_list_with weight_thread (c_threads s).

Lemma weight_insert ts i t t' :
  ts !! i = Some t → weight_thread t' < weight_thread t →
  sum_list_with weight_thread (<[i := t']> ts) < sum_list_with weight_thread ts.
Proof.
  revert i. induction ts as [|t0 ts IH]; intros [|i] Ht Hw; simpl in *; simplify_eq; [lia|].
  specialize (IH i Ht Hw). lia.
Qed.

Lemma exec_instr_weight i ins h g o h' g' o' front :
  exec_instr i ins h g o = EOk h' g' o' front → sum_list_with weight_instr front < weight_instr ins.
Proof.
  destruct ins; simpl; unfold on_node; repeat case_match; intros [= <- <- <- <-]; try destruct (has_target _ _); simpl; lia.
Qed.

Lemma cstep_weight s s' : cstep s s' → weight s' < weight s.
Proof.
  intros [i E]. unfold exec_thread in E. destruct (c_threads s !! i) as [[cur ops]|] eqn:Et; [|done].
  cbn [thr_cur thr_todo] in E. destruct cur as [|ins k].
  - destruct ops as [|op ops]; [done|]. injection E as <-. apply (weight_insert _ i _ _ Et).
    assert (weight_op op = S (sum_list_with weight_instr (expand op))) as E by done.
    unfold weight_thread. cbn [thr_cur thr_todo sum_list_with]. lia.
  - destruct (exec_instr _ _ _ _ _) as [h' g' o' front| |] eqn:Ei; try done. injection E as <-.
    apply (weight_insert _ i _ _ Et). apply exec_instr_weight in Ei. unfold weight_thread. cbn [thr_cur thr_todo].
    rewrite sum_list_with_app. simpl. lia.
Qed.

Lemma cstep_nsteps n s s' : nsteps cstep n s s' → n + weight s' ≤ weight s.
Proof. induction 1 as [s|n s s1 s' Hs _ IH]; [done|]. apply cstep_weight in Hs. lia. Qed.

(** Every state leads to one where all threads are done. *)
Lemma can_finish s : locks_ok s → ∃ s', rtc cstep s s' ∧ all_done s'.
Proof.
  remember (weight s) as n eqn:En. revert s En. induction (lt_wf n) as [n _ IH]. intros s -> L.
  destruct (progress s L) as [?|[s1 Hs]]; [by exists s|].
  destruct (IH (weight s1) (cstep_weight _ _ Hs) s1 eq_refl (locks_ok_step _ _ L Hs)) as (s' & R & D).
  exists s'. split; [by eapply rtc_l|done].
Qed.

(** ** Data races *)

(** The mutex that protects what the next instruction of a thread reads or
    writes. *)
Definition access (ins : instr) : option mutex :=
  match ins with
  | ILock _ | IUnlock _ => None
  | IScan u _ | IPushExit u _ | IEraseExit u _ => Some (MExits u)
  | IPushEntry _ v | IEraseEntry _ v => Some (MEntries v)
  | IInsert _ _ | IErase _ => Some MAdd
  end.

Definition next_access (s : cstate) (i : nat) : option mutex :=
  t ← c_threads s !! i; ins ← head (thr_cur t); access ins.

Lemma next_access_held s i m : locks_ok s → next_access s i = Some m → c_owner s !! m = Some i.
Proof.
  intros [Lt _] Ha. unfold next_access in Ha. destruct (c_threads s !! i) as [t|] eqn:Et; [|done].
  destruct (Lt i t Et) as [Hd _ _]. destruct t as [[|ins k] ops]; [done|]. apply elem_held.
  destruct ins; simpl in *; simplify_eq; tauto.
Qed.

(** A run of a scheduler is a run. *)
Lemma schedule_rtc sched s : rtc cstep s (schedule sched s).
Proof.
  revert s. induction sched as [|i sched IH]; intros s; [done|]. simpl.
  destruct (exec_thread i s) as [| |s'|] eqn:E; try apply IH. eapply rtc_l; [by exists i|apply IH].
Qed.

(** ** What the barrier callback does to the graph *)

(** [cb_sync_region] at the start of a barrier of region [r], in a team of more
    than one thread: [task] is the task node of the thread, [barrier] the barrier
    node, which the first thread makes, and [next] the node made for after the
    barrier. *)
Definition barrier_ops (r : positive) (first : bool) (task barrier next : positive) (barrier_id next_id : Z) : list gop :=
  OLockBarrier r ::
  (if first then [OAdd barrier_id barrier; OConnect task barrier] else [OConnect task barrier]) ++
  OUnlockBarrier r :: OAdd next_id next :: OConnect barrier next ::
  (if first then [OConnect barrier next] else []).

Lemma barrier_ops_ok r first task barrier next idb idn ops :
  ops_ok None ops → ops_ok None (barrier_ops r first task barrier next idb idn ++ ops).
Proof. by destruct first. Qed.

(** ** Theorems *)

Lemma weight_op_le op : weight_op op ≤ 10.
Proof. destruct op; vm_compute; lia. Qed.

Lemma weight_start h g progs : weight (start h g progs) ≤ 10 * sum_list_with length progs.
Proof.
  unfold weight, start. cbn [c_threads]. induction progs as [|ops progs IH]; [done|].
  assert (sum_list_with weight_op ops ≤ 10 * length ops) as Hw.
  { clear. induction ops as [|op ops IHo]; [done|]. pose proof (weight_op_le op). cbn [sum_list_with length]. lia. }
  rewrite fmap_cons. cbn [sum_list_with]. unfold weight_thread at 1. cbn [thr_cur thr_todo sum_list_with]. lia.
Qed.

(** The locks never block the program.  Threads run any programs of graph
    operations whose barrier sections are closed and which name live nodes.  From
    the start, under every schedule: a state in which no thread can step is one
    where all threads are done; no run is longer than ten steps for each
    operation; the end can be reached from everywhere; and at the end no mutex is
    held. *)
Theorem graph_locks_live h g progs :
  Forall (ops_ok None) progs → Forall (Forall (op_live h)) progs →
  (∀ s, rtc cstep (start h g progs) s →
     (all_done s ∨ ∃ s', cstep s s') ∧ (∃ s', rtc cstep s s' ∧ all_done s') ∧ (all_done s → c_owner s = ∅)) ∧
  ∀ n s, nsteps cstep n (start h g progs) s → n ≤ 10 * sum_list_with length progs.
Proof.
  intros Hops Hl. pose proof (locks_ok_start h g progs Hops Hl) as L. split.
  - intros s R. apply (locks_ok_steps _ s) in L; [|done]. split_and!; [by apply progress|by apply can_finish|].
    intros D. apply map_eq. intros m. rewrite lookup_empty. destruct (c_owner s !! m) as [j|] eqn:E; [|done].
    by destruct (holder_not_finished s m j L E).
  - intros n s R%cstep_nsteps. pose proof (weight_start h g progs). lia.
Qed.

(** Three nodes: two tasks and a barrier, and the nodes after it. *)
Definition barrier_heap : heap :=
  list_to_map ((fun l => (l, new_Node (Zpos l) IMP_TASK dzero)) <$> [1; 2; 3; 4; 5]%positive).
Definition team_ops : list (list gop) :=
  [barrier_ops 1 true 1 3 4 3 4; barrier_ops 1 false 2 3 5 3 5].

Lemma graph_locks_live_witness :
  (∀ s, rtc cstep (start barrier_heap ∅ team_ops) s →
     (all_done s ∨ ∃ s', cstep s s') ∧ (∃ s', rtc cstep s s' ∧ all_done s') ∧ (all_done s → c_owner s = ∅)) ∧
  ∀ n s, nsteps cstep n (start barrier_heap ∅ team_ops) s → n ≤ 120.
Proof.
  apply (graph_locks_live barrier_heap ∅ team_ops).
  - repeat constructor.
  - repeat constructor; vm_compute; eexists; reflexivity.
Defined.

(** No step goes wrong.  In every state that the same programs reach, no
    thread locks a mutex it holds, unlocks one it does not hold or touches a node
    that is not there, and no two threads are about to touch the same vector, or
    the node table, at the same time. *)
Theorem graph_race_free h g progs s :
  Forall (ops_ok None) progs → Forall (Forall (op_live h)) progs → rtc cstep (start h g progs) s →
  (∀ i u, exec_thread i s ≠ Faulted u) ∧
  ∀ i j m, next_access s i = Some m → next_access s j = Some m → i = j.
Proof.
  intros Hops Hl R. assert (locks_ok s) as L by (eapply locks_ok_steps; [by apply locks_ok_start|done]). split.
  - intros i u E. destruct (exec_cases s i L) as [?|[(s' & ? & _)|(m & j & ? & _)]]; congruence.
  - intros i j m Hi%next_access_held Hj%next_access_held; try done. congruence.
Qed.

Definition racing : cstate := schedule [0; 0; 0; 0; 0; 1] (start barrier_heap ∅ team_ops).

Lemma graph_race_free_witness :
  (∀ i u, exec_thread i racing ≠ Faulted u) ∧
  ∀ i j m, next_access racing i = Some m → next_access racing j = Some m → i = j.
Proof.
  apply (graph_race_free barrier_heap ∅ team_ops).
  - repeat constructor.
  - repeat constructor; vm_compute; eexists; reflexivity.
  - apply schedule_rtc.
Defined.
