(* ===== verification/Concurrent.v ===== *)
(** * Connections made by several threads (graph.cc)

    What the lock-level steps of [Locks] do to the edges: the invariant of threads
    that connect nodes at the same time, with the result of every schedule, the
    race that [connectNodes] leaves open, and the refinement that runs of whole
    operations, as the other files study them, are runs of these steps. *)
From stdpp Require Import base numbers gmap list sorting relations.
From Stdlib Require Import ZArith Lia.
From S2P Require Import Prelude Float64 Graph Locks.

(** ** Concurrent connections *)

(** The connections that a thread has still to make, and those it is making or
    has still to make. *)
Definition pend_instr (ins : instr) : list (positive * positive) :=
  match ins with IScan u v | IPushExit u v => [(u, v)] | _ => [] end.
Definition own_instr (ins : instr) : list (positive * positive) :=
  match ins with IScan u v | IPushExit u v | IPushEntry u v => [(u, v)] | _ => [] end.
Definition op_pairs (op : gop) : list (positive * positive) :=
  match op with OConnect u v => [(u, v)] | _ => [] end.

Definition pend (t : thread) : list (positive * positive) :=
  (thr_cur t ≫= pend_instr) ++ (thr_todo t ≫= op_pairs).
Definition own (t : thread) : list (positive * positive) :=
  (thr_cur t ≫= own_instr) ++ (thr_todo t ≫= op_pairs).

(** No operation removes an edge. *)
Definition keeps_edges (op : gop) : Prop := match op with ODisconnect _ _ => False | _ => True end.

(** The remaining instructions of an operation that keeps the edges: after each
    access to an edge vector comes what the code has after it. *)
Fixpoint shape (cur : list instr) : Prop :=
  match cur with
  | [] => True
  | IScan _ _ :: k => k = []
  | IPushExit u v :: k => k = [IPushEntry u v; IUnlock (MEntries v); IUnlock (MExits u)]
  | IPushEntry u v :: k => k = [IUnlock (MEntries v); IUnlock (MExits u)]
  | IEraseExit _ _ :: _ | IEraseEntry _ _ :: _ => False
  | _ :: k => shape k
  end.

Lemma shape_tail ins k : shape (ins :: k) → shape k.
Proof. by destruct ins; simpl; intros H; subst. Qed.

Lemma shape_expand op : keeps_edges op → shape (expand op).
Proof. by destruct op. Qed.

Lemma shape_after_scan b u v : shape (after_scan b u v).
Proof. by destruct b. Qed.

(** ** One edge pushed *)

Lemma exits_push_exit h u n e w :
  h !! u = Some n → exits (<[u := pushExit e n]> h) w = exits h w ++ (if decide (w = u) then [e] else []).
Proof.
  intros Hn. unfold exits. destruct (decide (w = u)) as [->|]; [by rewrite lookup_insert_eq, Hn|].
  by rewrite lookup_insert_ne, app_nil_r by done.
Qed.

Lemma entries_push_exit h u n e w : h !! u = Some n → entries (<[u := pushExit e n]> h) w = entries h w.
Proof.
  intros Hn. unfold entries. destruct (decide (w = u)) as [->|]; [by rewrite lookup_insert_eq, Hn|].
  by rewrite lookup_insert_ne by done.
Qed.

Lemma entries_push_entry h u n e w :
  h !! u = Some n → entries (<[u := pushEntry e n]> h) w = entries h w ++ (if decide (w = u) then [e] else []).
Proof.
  intros Hn. unfold entries. destruct (decide (w = u)) as [->|]; [by rewrite lookup_insert_eq, Hn|].
  by rewrite lookup_insert_ne, app_nil_r by done.
Qed.

Lemma exits_push_entry h u n e w : h !! u = Some n → exits (<[u := pushEntry e n]> h) w = exits h w.
Proof.
  intros Hn. unfold exits. destruct (decide (w = u)) as [->|]; [by rewrite lookup_insert_eq, Hn|].
  by rewrite lookup_insert_ne by done.
Qed.

(** ** The invariant of concurrent connections *)

(** What a thread relies on: the edges it is about to record are not there. *)
Record fresh_pushes (h : heap) (t : thread) : Prop := {
  fp_shape : shape (thr_cur t);
  fp_todo : Forall keeps_edges (thr_todo t);
  fp_exit : ∀ u v, IPushExit u v ∈ thr_cur t → MkEdge u v ∉ exits h u;
  fp_entry : ∀ u v, IPushEntry u v ∈ thr_cur t → MkEdge u v ∉ entries h v;
  fp_pushed : ∀ u v, IPushEntry u v ∈ thr_cur t → IPushExit u v ∉ thr_cur t → MkEdge u v ∈ exits h u }.

(** What is recorded in the vectors: an edge is in the entry vector when it is in
    the exit vector, or a thread is about to record it there. *)
Record recorded (h : heap) (ts : list thread) : Prop := {
  rc_src : ∀ u e, e ∈ exits h u → _source e = u;
  rc_tgt : ∀ v e, e ∈ entries h v → _target e = v;
  rc_nodup_out : ∀ u, NoDup (exits h u);
  rc_nodup_in : ∀ v, NoDup (entries h v);
  rc_entry : ∀ u v, MkEdge u v ∈ entries h v → MkEdge u v ∈ exits h u;
  rc_exit : ∀ u v, MkEdge u v ∈ exits h u → MkEdge u v ∈ entries h v ∨
    ∃ i t, ts !! i = Some t ∧ IPushEntry u v ∈ thr_cur t ∧ IPushExit u v ∉ thr_cur t }.

(** [req]: the connections asked for.  Two threads do not own the same one. *)
Record owned (req : positive * positive → Prop) (ts : list thread) : Prop := {
  ow_disjoint : ∀ i j t t' p, ts !! i = Some t → ts !! j = Some t' → i ≠ j → p ∈ own t → p ∉ own t';
  ow_req : ∀ i t p, ts !! i = Some t → p ∈ own t → req p }.

(** [E0]: the edges at the start. *)
Record served (E0 : positive → positive → Prop) (req : positive * positive → Prop) (h : heap) (ts : list thread) : Prop := {
  sv_edges : ∀ u v, edge h u v → E0 u v ∨ req (u, v);
  sv_old : ∀ u v, E0 u v → edge h u v;
  sv_req : ∀ u v, req (u, v) → edge h u v ∨ ∃ i t, ts !! i = Some t ∧ (u, v) ∈ pend t }.

Record conc_ok (E0 : positive → positive → Prop) (req : positive * positive → Prop) (h : heap) (ts : list thread) : Prop := {
  cc_recorded : recorded h ts;
  cc_threads : ∀ i t, ts !! i = Some t → fresh_pushes h t;
  cc_owned : owned req ts;
  cc_served : served E0 req h ts }.

Lemma elem_own_cur t ins p : ins ∈ thr_cur t → p ∈ own_instr ins → p ∈ own t.
Proof. intros Hi Hp. unfold own. rewrite elem_of_app, list_elem_of_bind. eauto. Qed.

(** A thread that changes keeps its index; the others stay. *)
Lemma threads_upd (P : nat → thread → Prop) (ts : list thread) i t t' :
  ts !! i = Some t → (P i t → P i t') →
  (∃ j x, ts !! j = Some x ∧ P j x) → ∃ j x, <[i := t']> ts !! j = Some x ∧ P j x.
Proof.
  intros Ht HP (j & x & Hj & Hx). destruct (decide (j = i)) as [->|Hne].
  - simplify_eq. exists i, t'. rewrite list_lookup_insert_eq by (by eapply lookup_lt_Some). auto.
  - exists j, x. by rewrite list_lookup_insert_ne by done.
Qed.

Lemma owned_upd req ts i t t' :
  ts !! i = Some t → (∀ p, p ∈ own t' → p ∈ own t) → owned req ts → owned req (<[i := t']> ts).
Proof.
  intros Ht Hsub [Hd Hr]. split.
  - intros j k x y p. rewrite !list_lookup_insert_Some.
    intros [(<- & <- & _)|[_ Hj]] [(<- & <- & _)|[_ Hk]] Hne Hp Hp'; naive_solver.
  - intros j x p. rewrite list_lookup_insert_Some. intros [(<- & <- & _)|[_ Hj]] Hp; eauto.
Qed.

(** ** The steps of concurrent connections *)

(** A step that leaves the nodes alone. *)
Lemma conc_idle E0 req h ts i t t' :
  ts !! i = Some t → conc_ok E0 req h ts → fresh_pushes h t' → (∀ p, p ∈ own t' → p ∈ own t) →
  (∀ u v, IPushEntry u v ∈ thr_cur t → IPushExit u v ∉ thr_cur t →
     IPushEntry u v ∈ thr_cur t' ∧ IPushExit u v ∉ thr_cur t') →
  (∀ u v, (u, v) ∈ pend t → edge h u v ∨ (u, v) ∈ pend t') →
  conc_ok E0 req h (<[i := t']> ts).
Proof.
  intros Ht [Hr Hf Ho Hs] Hf' Hown Hpush Hpend. split.
  - destruct Hr as [R1 R2 R3 R4 R5 R6]. split; try done. intros u v He.
    destruct (R6 u v He) as [?|Hex]; [by left|right].
    apply (threads_upd (fun _ x => IPushEntry u v ∈ thr_cur x ∧ IPushExit u v ∉ thr_cur x) _ _ _ _ Ht); naive_solver.
  - intros j x. rewrite list_lookup_insert_Some. intros [(<- & <- & _)|[_ Hj]]; [done|by eapply Hf].
  - by eapply owned_upd.
  - destruct Hs as [S1 S2 S3]. split; [done|done|]. intros u v Hq.
    destruct (S3 u v Hq) as [?|(j & x & Hj & Hx)]; [by left|].
    destruct (decide (j = i)) as [->|Hne].
    + simplify_eq. destruct (Hpend u v Hx) as [?|Hx']; [by left|right]. exists i, t'.
      by rewrite list_lookup_insert_eq by (by eapply lookup_lt_Some).
    + right. exists j, x. by rewrite list_lookup_insert_ne by done.
Qed.

(** The edge that another thread pushes is not one of ours. *)
Lemma other_push req ts i j t x ins ins' p :
  owned req ts → ts !! i = Some t → ts !! j = Some x → i ≠ j →
  ins ∈ thr_cur t → p ∈ own_instr ins → ins' ∈ thr_cur x → p ∉ own_instr ins'.
Proof.
  intros [Hd _] Hi Hj Hne Hin Hp Hin' Hp'. by eapply (Hd i j t x p); [..|by eapply elem_own_cur|by eapply elem_own_cur].
Qed.

Lemma own_tail ins k ops p : p ∈ own (MkThr k ops) → p ∈ own (MkThr (ins :: k) ops).
Proof. unfold own. cbn [thr_cur thr_todo]. rewrite bind_cons, !elem_of_app. tauto. Qed.

(** One more edge at the end of a vector. *)
Lemma NoDup_push (P : Prop) `{!Decision P} (es : list Edge) e :
  NoDup es → (P → e ∉ es) → NoDup (es ++ if decide P then [e] else []).
Proof.
  intros Hn He. case_decide; [|by rewrite app_nil_r]. apply NoDup_app. split_and!; [done| |apply NoDup_singleton].
  intros x Hx ->%list_elem_of_singleton. by apply He.
Qed.

Lemma elem_push (P : Prop) `{!Decision P} (es : list Edge) e x :
  x ∈ es ++ (if decide P then [e] else []) ↔ x ∈ es ∨ (P ∧ x = e).
Proof. rewrite elem_of_app. case_decide; [rewrite list_elem_of_singleton|rewrite elem_of_nil]; naive_solver. Qed.

Section push_exit.
  Context (E0 : positive → positive → Prop) (req : positive * positive → Prop) (h : heap) (ts : list thread).
  Context (i : nat) (u v : positive) (ops : list gop) (n : Node).
Let k := [IPushEntry u v; IUnlock (MEntries v); IUnlock (MExits u)].
Let h' := <[u := pushExit (MkEdge u v) n]> h.
Let ts' := <[i := MkThr k ops]> ts.
  Hypothesis Ht : ts !! i = Some (MkThr (IPushExit u v :: k) ops).
  Hypothesis Hn : h !! u = Some n.
  Hypothesis Hok : conc_ok E0 req h ts.

#[local] Lemma exit_exits w e : e ∈ exits h' w ↔ e ∈ exits h w ∨ (w = u ∧ e = MkEdge u v).
Proof. subst h'. rewrite (exits_push_exit h u n) by done. apply elem_push. Qed.

#[local] Lemma exit_entries w : entries h' w = entries h w.
Proof. by apply entries_push_exit. Qed.

#[local] Lemma exit_edge a b : edge h' a b ↔ edge h a b ∨ (a = u ∧ b = v).
Proof. unfold edge. rewrite exit_exits. naive_solver. Qed.

#[local] Lemma exit_fresh_edge : MkEdge u v ∉ exits h u.
Proof. apply (fp_exit _ _ (cc_threads _ _ _ _ Hok i _ Ht)). left. Qed.

#[local] Lemma exit_recorded : recorded h' ts'.
Proof.
  destruct Hok as [[R1 R2 R3 R4 R5 R6] _ _ _]. split; intros w; rewrite ?exit_entries; auto.
  - intros e [?|[-> ->]]%exit_exits; auto.
  - unfold h'. rewrite (exits_push_exit h u n) by done. apply NoDup_push; [done|]. intros ->. apply exit_fresh_edge.
  - intros b. rewrite exit_entries, exit_exits. auto.
  - intros b Hb. rewrite exit_entries. apply exit_exits in Hb as [Hb|[-> [= ->]]].
    + destruct (R6 w b Hb) as [?|Hx]; [by left|right].
      apply (threads_upd (fun _ x => IPushEntry w b ∈ thr_cur x ∧ IPushExit w b ∉ thr_cur x) _ _ _ _ Ht); [|done].
      cbn [thr_cur]. rewrite not_elem_of_cons, elem_of_cons. naive_solver.
    + right. exists i, (MkThr k ops). unfold ts'. rewrite list_lookup_insert_eq by (by eapply lookup_lt_Some).
      cbn [thr_cur k]. split_and!; [done|left|]. unfold k. by rewrite !not_elem_of_cons, elem_of_nil; naive_solver.
Qed.

#[local] Lemma exit_threads j x : ts' !! j = Some x → fresh_pushes h' x.
Proof.
  destruct Hok as [Hr Hf Ho _]. unfold ts'. rewrite list_lookup_insert_Some. intros [(<- & <- & _)|[Hne Hj]].
  - destruct (Hf i _ Ht) as [F1 F2 F3 F4 F5]. split; cbn [thr_cur thr_todo] in *; [done|done| | |].
    + intros a b Ha. unfold k in Ha. rewrite !elem_of_cons, elem_of_nil in Ha. naive_solver.
    + intros a b Ha. rewrite exit_entries. apply F4. by right.
    + intros a b Ha _. unfold k in Ha. rewrite !elem_of_cons, elem_of_nil in Ha. rewrite exit_exits. naive_solver.
  - destruct (Hf j x Hj) as [F1 F2 F3 F4 F5]. split; [done|done| | |].
    + intros a b Ha. rewrite exit_exits. intros [He|[-> [= ->]]]; [by destruct (F3 a b Ha)|].
      eapply (other_push req ts i j _ x (IPushExit u v) (IPushExit u v) (u, v)); try done; [left|..];
        by apply list_elem_of_singleton.
    + intros a b Ha. rewrite exit_entries. by apply F4.
    + intros a b Ha Hb. rewrite exit_exits. left. by apply F5.
Qed.

#[local] Lemma exit_served : served E0 req h' ts'.
Proof.
  destruct Hok as [_ _ Ho [S1 S2 S3]]. split.
  - intros a b [?|[-> ->]]%exit_edge; [by apply S1|]. right. eapply (ow_req _ _ Ho); [exact Ht|].
    eapply elem_own_cur; [by left|by apply list_elem_of_singleton].
  - intros a b He. apply exit_edge. left. by apply S2.
  - intros a b Hq. destruct (decide ((a, b) = (u, v))) as [[= -> ->]|Hab]; [left; apply exit_edge; auto|].
    destruct (S3 a b Hq) as [?|Hx]; [left; apply exit_edge; auto|right].
    apply (threads_upd (fun _ x => (a, b) ∈ pend x) _ _ _ _ Ht); [|done].
    unfold pend. cbn [thr_cur thr_todo]. simpl. rewrite elem_of_cons. naive_solver.
Qed.

Lemma conc_exit : conc_ok E0 req h' ts'.
Proof.
  split; [apply exit_recorded|apply exit_threads| |apply exit_served].
  eapply owned_upd; [exact Ht| |apply Hok]. intros p. apply own_tail.
Qed.
End push_exit.

Section push_entry.
  Context (E0 : positive → positive → Prop) (req : positive * positive → Prop) (h : heap) (ts : list thread).
  Context (i : nat) (u v : positive) (ops : list gop) (n : Node).
Let k := [IUnlock (MEntries v); IUnlock (MExits u)].
Let h' := <[v := pushEntry (MkEdge u v) n]> h.
Let ts' := <[i := MkThr k ops]> ts.
  Hypothesis Ht : ts !! i = Some (MkThr (IPushEntry u v :: k) ops).
  Hypothesis Hn : h !! v = Some n.
  Hypothesis Hok : conc_ok E0 req h ts.

#[local] Lemma entry_entries w e : e ∈ entries h' w ↔ e ∈ entries h w ∨ (w = v ∧ e = MkEdge u v).
Proof. subst h'. rewrite (entries_push_entry h v n) by done. apply elem_push. Qed.

#[local] Lemma entry_exits w : exits h' w = exits h w.
Proof. by apply exits_push_entry. Qed.

#[local] Lemma entry_recorded : recorded h' ts'.
Proof.
  destruct Hok as [[R1 R2 R3 R4 R5 R6] Hf _ _]. pose proof (Hf i _ Ht) as [_ _ _ F4 F5].
  split; intros w; rewrite ?entry_exits; auto.
  - intros e [?|[-> ->]]%entry_entries; auto.
  - unfold h'. rewrite (entries_push_entry h v n) by done. apply NoDup_push; [done|]. intros ->. apply F4. left.
  - intros b [?|[-> [= ->]]]%entry_entries; [auto|]. apply F5; [left|].
    cbn [thr_cur]. unfold k. rewrite !not_elem_of_cons, elem_of_nil. naive_solver.
  - intros b Hb. rewrite entry_entries. destruct (R6 w b Hb) as [?|Hx]; [by left; left|].
    destruct (decide ((w, b) = (u, v))) as [[= -> ->]|Hne]; [left; auto|right].
    apply (threads_upd (fun _ x => IPushEntry w b ∈ thr_cur x ∧ IPushExit w b ∉ thr_cur x) _ _ _ _ Ht); [|done].
    cbn [thr_cur]. rewrite not_elem_of_cons, elem_of_cons. naive_solver.
Qed.

#[local] Lemma entry_threads j x : ts' !! j = Some x → fresh_pushes h' x.
Proof.
  destruct Hok as [Hr Hf Ho _]. unfold ts'. rewrite list_lookup_insert_Some. intros [(<- & <- & _)|[Hne Hj]].
  - destruct (Hf i _ Ht) as [F1 F2 F3 F4 F5]. split; cbn [thr_cur thr_todo] in *; [done|done|..];
      intros a b Ha; unfold k in Ha; rewrite !elem_of_cons, elem_of_nil in Ha; naive_solver.
  - destruct (Hf j x Hj) as [F1 F2 F3 F4 F5]. split; [done|done| | |].
    + intros a b. rewrite entry_exits. apply F3.
    + intros a b Ha. rewrite entry_entries. intros [He|[-> [= ->]]]; [by destruct (F4 a b Ha)|].
      eapply (other_push req ts i j _ x (IPushEntry u v) (IPushEntry u v) (u, v)); try done; [left|..];
        by apply list_elem_of_singleton.
    + intros a b. rewrite entry_exits. apply F5.
Qed.

#[local] Lemma entry_served : served E0 req h' ts'.
Proof.
  destruct Hok as [_ _ _ [S1 S2 S3]]. unfold edge in *.
  split; intros a b; unfold edge; rewrite entry_exits; [apply S1|apply S2|]. intros Hq.
  destruct (S3 a b Hq) as [?|Hx]; [by left|right].
  by apply (threads_upd (fun _ x => (a, b) ∈ pend x) _ _ _ _ Ht).
Qed.

Lemma conc_entry : conc_ok E0 req h' ts'.
Proof.
  split; [apply entry_recorded|apply entry_threads| |apply entry_served].
  eapply owned_upd; [exact Ht| |apply Hok]. intros p. apply own_tail.
Qed.
End push_entry.

(** The next instruction is not a push: it leaves the list of pushes as it is. *)
Lemma fresh_skip h ins k ops :
  fresh_pushes h (MkThr (ins :: k) ops) → own_instr ins = [] → fresh_pushes h (MkThr k ops).
Proof.
  intros [F1 F2 F3 F4 F5] Hi. split; cbn [thr_cur thr_todo] in *; [by eapply shape_tail|done|..]; intros a b Ha.
  - apply F3. by right.
  - apply F4. by right.
  - intros Hb. apply F5; [by right|]. apply not_elem_of_cons. split; [by intros <-|done].
Qed.

Lemma conc_skip E0 req h ts i ins k ops :
  ts !! i = Some (MkThr (ins :: k) ops) → own_instr ins = [] → conc_ok E0 req h ts →
  conc_ok E0 req h (<[i := MkThr k ops]> ts).
Proof.
  intros Ht Hi Hok. eapply conc_idle; [exact Ht|done| | | |].
  - eapply fresh_skip; [by eapply (cc_threads _ _ _ _ Hok)|done].
  - intros p. apply own_tail.
  - intros u v. cbn [thr_cur]. rewrite not_elem_of_cons, elem_of_cons. intros [<-|?]; naive_solver.
  - intros u v Hp. right. unfold pend in *. cbn [thr_cur thr_todo] in *. rewrite bind_cons in Hp.
    assert (pend_instr ins = []) as E by (by destruct ins). by rewrite E in Hp.
Qed.

Lemma conc_scan E0 req h ts i u v k ops n :
  ts !! i = Some (MkThr (IScan u v :: k) ops) → h !! u = Some n → conc_ok E0 req h ts →
  conc_ok E0 req h (<[i := MkThr (after_scan (has_target (_exitEdges n) v) u v ++ k) ops]> ts).
Proof.
  intros Ht Hn Hok. destruct (cc_threads _ _ _ _ Hok i _ Ht) as [F1 F2 _ _ _]. simpl in F1. subst k. rewrite app_nil_r.
  assert (has_target (_exitEdges n) v = true ↔ MkEdge u v ∈ exits h u) as Hs.
  { unfold exits. rewrite Hn, has_target_spec, list_elem_of_fmap. split.
    - intros (e & -> & He). pose proof (rc_src _ _ (cc_recorded _ _ _ _ Hok) u e) as E. unfold exits in E.
      rewrite Hn in E. specialize (E He). destruct e. simpl in *. by subst.
    - intros He. by exists (MkEdge u v). }
  eapply conc_idle; [exact Ht|done| | | |].
  - split; cbn [thr_cur thr_todo]; [apply shape_after_scan|done|..]; destruct (has_target _ _) eqn:E; intros a b Ha;
      unfold after_scan, connect_tail in *; rewrite !elem_of_cons, elem_of_nil in Ha.
    + naive_solver.
    + naive_solver.
    + naive_solver.
    + intros He. apply (rc_entry _ _ (cc_recorded _ _ _ _ Hok)) in He.
      assert (MkEdge u v ∈ exits h u) as He' by naive_solver. by apply Hs in He'.
    + naive_solver.
    + intros Hb. rewrite !not_elem_of_cons in Hb. naive_solver.
  - intros p. unfold own. cbn [thr_cur thr_todo]. destruct (has_target _ _); simpl; rewrite ?elem_of_cons; tauto.
  - intros a b. cbn [thr_cur]. rewrite elem_of_cons, elem_of_nil. naive_solver.
  - intros a b. unfold pend. cbn [thr_cur thr_todo]. destruct (has_target _ _) eqn:E; simpl; rewrite !elem_of_cons.
    + intros [[= -> ->]|?]; [left; by apply Hs|by right].
    + tauto.
Qed.

Lemma conc_next E0 req h ts i op ops :
  ts !! i = Some (MkThr [] (op :: ops)) → conc_ok E0 req h ts →
  conc_ok E0 req h (<[i := MkThr (expand op) ops]> ts).
Proof.
  intros Ht Hok. destruct (cc_threads _ _ _ _ Hok i _ Ht) as [_ [Ho Hops]%Forall_cons _ _ _].
  eapply conc_idle; [exact Ht|done| | | |].
  - split; cbn [thr_cur thr_todo]; [by apply shape_expand|done|..]; intros a b Ha; exfalso;
      destruct op; try done; simpl in Ha; rewrite !elem_of_cons, elem_of_nil in Ha; naive_solver.
  - intros p. unfold own. cbn [thr_cur thr_todo]. destruct op; try done; simpl; rewrite ?elem_of_cons; tauto.
  - intros a b Ha. by apply elem_of_nil in Ha.
  - intros a b Hp. right. revert Hp. unfold pend. cbn [thr_cur thr_todo].
    destruct op; try done; simpl; rewrite ?elem_of_cons; tauto.
Qed.

Lemma conc_step E0 req s s' :
  cstep s s' → conc_ok E0 req (c_heap s) (c_threads s) → conc_ok E0 req (c_heap s') (c_threads s').
Proof.
  intros [i E] Hok. unfold exec_thread in E. destruct (c_threads s !! i) as [[[|ins k] ops]|] eqn:Et; [| |done];
    cbn [thr_cur thr_todo] in E.
  - destruct ops as [|op ops]; [done|]. injection E as <-. by apply conc_next.
  - pose proof (fp_shape _ _ (cc_threads _ _ _ _ Hok i _ Et)) as Hsh.
    destruct (exec_instr _ _ _ _ _) as [h' g' o' front| |] eqn:Ei; try done. injection E as <-.
    destruct ins; simpl in Hsh; cbn [exec_instr] in Ei; unfold on_node in Ei; repeat case_match; simplify_eq;
      cbn [c_heap c_threads app]; try (by eapply conc_skip); [by eapply conc_scan|by eapply conc_exit|by eapply conc_entry].
Qed.

(** ** The start and the end *)

Definition requested (progs : list (list gop)) (p : positive * positive) : Prop :=
  ∃ i ops, progs !! i = Some ops ∧ p ∈ ops ≫= op_pairs.

Lemma conc_ok_start h g progs :
  wf h → Forall (Forall keeps_edges) progs →
  (∀ i j ops ops' p, progs !! i = Some ops → progs !! j = Some ops' → i ≠ j →
     p ∈ ops ≫= op_pairs → p ∉ ops' ≫= op_pairs) →
  conc_ok (edge h) (requested progs) (c_heap (start h g progs)) (c_threads (start h g progs)).
Proof.
  intros W Hk Hd. assert (∀ i t, c_threads (start h g progs) !! i = Some t →
    ∃ ops, t = MkThr [] ops ∧ progs !! i = Some ops) as Hstart.
  { intros i t. simpl. rewrite list_lookup_fmap. destruct (progs !! i) as [ops|]; [|done]. intros [= <-]. eauto. }
  split; [destruct W as [W1 W2 W3 W4 W5]; split; try done| |split|split].
  - intros u v He. by apply (W3 (MkEdge u v)).
  - intros u v He. left. by apply (W3 (MkEdge u v)).
  - intros i t (ops & -> & Hi)%Hstart. rewrite Forall_lookup in Hk. specialize (Hk i ops Hi).
    split; cbn [thr_cur thr_todo]; try done; intros u v He; by apply elem_of_nil in He.
  - intros i j t t' p (ops & -> & Hi)%Hstart (ops' & -> & Hj)%Hstart Hne. by eapply Hd.
  - intros i t p (ops & -> & Hi)%Hstart Hp. by exists i, ops.
  - auto.
  - auto.
  - intros u v (i & ops & Hi & Hp). right. exists i, (MkThr [] ops). simpl. by rewrite list_lookup_fmap, Hi.
Qed.

Lemma done_empty s i t : all_done s → c_threads s !! i = Some t → t = MkThr [] [].
Proof.
  intros D Et. specialize (D i). unfold exec_thread in D. rewrite Et in D. destruct t as [[|ins k] [|op ops]]; try done;
    cbn [thr_cur thr_todo] in D; by destruct (exec_instr _ _ _ _ _).
Qed.

Lemma conc_ok_done E0 req s :
  all_done s → conc_ok E0 req (c_heap s) (c_threads s) →
  wf (c_heap s) ∧ ∀ u v, edge (c_heap s) u v ↔ E0 u v ∨ req (u, v).
Proof.
  intros D [[R1 R2 R3 R4 R5 R6] _ _ [S1 S2 S3]]. split.
  - split; try done. intros [u v]. cbn [_source _target]. split; [|apply R5].
    intros He. destruct (R6 u v He) as [?|(i & t & Hi & Hp & _)]; [done|].
    rewrite (done_empty s i t D Hi) in Hp. by apply elem_of_nil in Hp.
  - intros u v. split; [apply S1|]. intros [?|Hq]; [by apply S2|].
    destruct (S3 u v Hq) as [?|(i & t & Hi & Hp)]; [done|].
    rewrite (done_empty s i t D Hi) in Hp. by apply elem_of_nil in Hp.
Qed.

(** ** Whole operations *)

(** An operation as a whole, as the other files run it. *)
Definition run_op (h : heap) (g : node_map) (op : gop) : res (heap * node_map) :=
  match op with
  | OConnect u v => h' ← connectNodes h u v; Ok (h', g)
  | ODisconnect u v => h' ← disconnectNodes h u v; Ok (h', g)
  | OAdd id l => Ok (h, addNode g id l)
  | ORemove id => Ok (h, removeNode g id)
  | OLockBarrier _ | OUnlockBarrier _ => Ok (h, g)
  end.

Definition owner_after (i : nat) (op : gop) (o : gmap mutex nat) : gmap mutex nat :=
  match op with
  | OLockBarrier r => <[MBarrier r := i]> o
  | OUnlockBarrier r => delete (MBarrier r) o
  | _ => o
  end.

(** A thread may enter a free section and leave the one it is in. *)
Definition may_run (i : nat) (op : gop) (o : gmap mutex nat) : Prop :=
  match op with
  | OLockBarrier r => o !! MBarrier r = None
  | OUnlockBarrier r => o !! MBarrier r = Some i
  | _ => True
  end.

(** Some thread runs its next operation as a whole. *)
Inductive opstep : cstate → cstate → Prop :=
  | OpStep h g o ts i op ops h' g' :
      ts !! i = Some (MkThr [] (op :: ops)) → may_run i op o → run_op h g op = Ok (h', g') →
      opstep (MkC h g o ts) (MkC h' g' (owner_after i op o) (<[i := MkThr [] ops]> ts)).

(** Thread [i] runs [cur] to its end, alone. *)
Inductive solo (i : nat) : list instr → heap → node_map → gmap mutex nat → heap → node_map → gmap mutex nat → Prop :=
  | solo_nil h g o : solo i [] h g o h g o
  | solo_cons ins k h g o h1 g1 o1 front h2 g2 o2 :
      exec_instr i ins h g o = EOk h1 g1 o1 front → solo i (front ++ k) h1 g1 o1 h2 g2 o2 →
      solo i (ins :: k) h g o h2 g2 o2.

Lemma solo_rtc i cur ops h g o ts h' g' o' :
  solo i cur h g o h' g' o' → ts !! i = Some (MkThr cur ops) →
  rtc cstep (MkC h g o ts) (MkC h' g' o' (<[i := MkThr [] ops]> ts)).
Proof.
  intros R. revert ts. induction R as [h g o|ins k h g o h1 g1 o1 front h2 g2 o2 Ei _ IH]; intros ts Ht.
  - by rewrite list_insert_id.
  - eapply rtc_l; [exists i; unfold exec_thread; cbn [c_threads]; rewrite Ht; cbn [thr_cur c_heap c_table c_owner]; by rewrite Ei|].
    cbn [thr_todo]. rewrite <- (list_insert_insert_eq ts i (MkThr [] ops) (MkThr (front ++ k) ops)). apply IH.
    apply list_lookup_insert_eq. by eapply lookup_lt_Some.
Qed.

Lemma solo_lock i m k h g o h' g' o' :
  o !! m = None → solo i k h g (<[m := i]> o) h' g' o' → solo i (ILock m :: k) h g o h' g' o'.
Proof. intros Hm. eapply (solo_cons i _ _ _ _ _ _ _ _ []). simpl. by rewrite Hm. Qed.

Lemma solo_unlock i m k h g o h' g' o' :
  o !! m = None → solo i k h g o h' g' o' → solo i (IUnlock m :: k) h g (<[m := i]> o) h' g' o'.
Proof.
  intros Hm. eapply (solo_cons i _ _ _ _ _ _ _ _ []). simpl.
  by rewrite decide_True, delete_insert_id by (done || by rewrite lookup_insert_eq).
Qed.

(** An instruction on node [l]. *)
Lemma solo_node i ins k h g o l n E front h1 h' g' o' :
  (∀ h g o, exec_instr i ins h g o = on_node h l (E h g o)) → h !! l = Some n → E h g o n = EOk h1 g o front →
  solo i (front ++ k) h1 g o h' g' o' → solo i (ins :: k) h g o h' g' o'.
Proof. intros Hi Hn HE. apply solo_cons. rewrite Hi. unfold on_node. by rewrite Hn. Qed.

(** Outside the sections only barrier mutexes are held. *)
Definition graph_free (o : gmap mutex nat) : Prop := ∀ m, 0 < rank m → o !! m = None.

Ltac free_lock := rewrite ?lookup_insert_ne by done; match goal with H : graph_free _ |- _ => apply H; simpl; lia end.

Lemma solo_connect i h g o u v h' :
  graph_free o → connectNodes h u v = Ok h' → solo i (expand (OConnect u v)) h g o h' g o.
Proof.
  intros Hf (b & Hb & Hc)%bind_Ok_inv. apply bind_Ok_inv in Hb as (n & Hn%lookup_obj_Ok & [= Hb]).
  apply solo_lock; [free_lock|]. eapply solo_node; [by intros|exact Hn|done|]. rewrite Hb.
  apply solo_unlock; [free_lock|]. destruct b; [injection Hc as <-; apply solo_nil|].
  apply bind_Ok_inv in Hc as (n' & Hn'%lookup_obj_Ok & Hc). apply bind_Ok_inv in Hc as (t & Ht%lookup_obj_Ok & [= <-]).
  apply solo_lock; [free_lock|]. apply solo_lock; [free_lock|].
  eapply solo_node; [by intros|exact Hn'|done|]. eapply solo_node; [by intros|exact Ht|done|].
  apply solo_unlock; [free_lock|]. apply solo_unlock; [free_lock|]. apply solo_nil.
Qed.

Lemma solo_disconnect i h g o u v h' :
  graph_free o → disconnectNodes h u v = Ok h' → solo i (expand (ODisconnect u v)) h g o h' g o.
Proof.
  intros Hf (n & Hn%lookup_obj_Ok & Hc)%bind_Ok_inv. apply bind_Ok_inv in Hc as (t & Ht%lookup_obj_Ok & [= <-]).
  apply solo_lock; [free_lock|]. eapply solo_node; [by intros|exact Hn|done|]. apply solo_unlock; [free_lock|].
  apply solo_lock; [free_lock|]. eapply solo_node; [by intros|exact Ht|done|]. apply solo_unlock; [free_lock|].
  apply solo_nil.
Qed.

Lemma solo_table i ins h g o g' :
  graph_free o → exec_instr i ins h g (<[MAdd := i]> o) = EOk h g' (<[MAdd := i]> o) [] →
  solo i [ILock MAdd; ins; IUnlock MAdd] h g o h g' o.
Proof.
  intros Hf Hi. apply solo_lock; [free_lock|]. eapply solo_cons; [exact Hi|]. apply solo_unlock; [free_lock|apply solo_nil].
Qed.

Lemma solo_op i op h g o h' g' :
  graph_free o → may_run i op o → run_op h g op = Ok (h', g') → solo i (expand op) h g o h' g' (owner_after i op o).
Proof.
  intros Hf Hm Hr. destruct op as [u v|u v|id l|id|r|r]; cbn [run_op expand] in *.
  - apply bind_Ok_inv in Hr as (h1 & Hc & [= <- <-]). by apply solo_connect.
  - apply bind_Ok_inv in Hr as (h1 & Hc & [= <- <-]). by apply solo_disconnect.
  - injection Hr as <- <-. by apply solo_table.
  - injection Hr as <- <-. by apply solo_table.
  - injection Hr as <- <-. apply solo_lock; [done|]. apply solo_nil.
  - injection Hr as <- <-. eapply (solo_cons i _ _ _ _ _ _ _ _ []); [|apply solo_nil]. simpl in *. by rewrite decide_True.
Qed.

Lemma graph_free_after i op o : graph_free o → graph_free (owner_after i op o).
Proof.
  intros Hf m Hm. destruct op; simpl; try (by apply Hf).
  - rewrite lookup_insert_ne by (intros <-; simpl in Hm; lia). by apply Hf.
  - rewrite lookup_delete_ne by (intros <-; simpl in Hm; lia). by apply Hf.
Qed.

Lemma opstep_csteps s s' : opstep s s' → graph_free (c_owner s) → rtc cstep s s' ∧ graph_free (c_owner s').
Proof.
  intros [h g o ts i op ops h' g' Ht Hm Hr] Hf. cbn [c_owner] in *. split; [|by apply graph_free_after].
  eapply rtc_l; [exists i; unfold exec_thread; cbn [c_threads]; rewrite Ht; by cbn [thr_cur thr_todo]|].
  cbn [c_heap c_table c_owner]. rewrite <- (list_insert_insert_eq ts i (MkThr [] ops) (MkThr (expand op) ops)).
  eapply solo_rtc; [by apply solo_op|]. apply list_lookup_insert_eq. by eapply lookup_lt_Some.
Qed.

(** ** Theorems *)

(** C9. The order of the threads does not matter for connections.  When no
    program disconnects and no two threads ask for the same edge, every schedule
    that runs to the end leaves a well-formed graph, whose edges are exactly those
    of the start and those that were asked for. *)
Theorem concurrent_connects h g progs s :
  wf h → Forall (Forall keeps_edges) progs →
  (∀ i j ops ops' p, progs !! i = Some ops → progs !! j = Some ops' → i ≠ j →
     p ∈ ops ≫= op_pairs → p ∉ ops' ≫= op_pairs) →
  rtc cstep (start h g progs) s → all_done s →
  wf (c_heap s) ∧ ∀ u v, edge (c_heap s) u v ↔ edge h u v ∨ requested progs (u, v).
Proof.
  intros W Hk Hd R D. apply conc_ok_done; [done|].
  assert (conc_ok (edge h) (requested progs) (c_heap (start h g progs)) (c_threads (start h g progs))) as C
    by (by apply conc_ok_start).
  induction R as [|s1 s2 s3 Hs _ IH]; [done|]. apply IH; [done|]. by eapply conc_step.
Qed.

(** The two threads of [team_ops] in turn. *)
Definition team_end : cstate := schedule (mjoin (repeat [0; 1] 60)) (start barrier_heap ∅ team_ops).

Lemma team_end_done : all_done team_end.
Proof. intros i. by destruct i as [|[|i]]; vm_compute. Qed.

Lemma barrier_heap_wf : wf barrier_heap.
Proof.
  assert (∀ w, exits barrier_heap w = [] ∧ entries barrier_heap w = []) as E.
  { intros w. unfold exits, entries. destruct (barrier_heap !! w) as [n|] eqn:Hw; [|done]. simpl.
    apply elem_of_list_to_map_2 in Hw. simpl in Hw.
    repeat (apply elem_of_cons in Hw as [[= -> ->]|Hw]; [done|]). by apply elem_of_nil in Hw. }
  split; intros; rewrite ?(proj1 (E _)), ?(proj2 (E _)) in *; try done; try apply NoDup_nil_2; by apply elem_of_nil in H.
Qed.

Lemma concurrent_connects_witness :
  wf (c_heap team_end) ∧ ∀ u v, edge (c_heap team_end) u v ↔ edge barrier_heap u v ∨ requested team_ops (u, v).
Proof.
  apply (concurrent_connects barrier_heap ∅ team_ops).
  - apply barrier_heap_wf.
  - repeat constructor.
  - intros [|[|i]] [|[|j]] ops ops' p Hi Hj Hne; try done; simpl in Hi, Hj; simplify_eq; simpl; set_solver.
  - apply schedule_rtc.
  - apply team_end_done.
Defined.

(** C35. Two threads that ask for the same edge can record it twice:
    [connectNodes] lets go of the lock between the test and the insertion, so
    both may find the edge missing.  After the schedule below both threads are
    done and the exit vector of the source holds the edge twice. *)
Theorem connect_race_duplicates :
  let s := schedule [0; 0; 0; 0; 1; 1; 1; 1; 0; 0; 0; 0; 0; 0; 1; 1; 1; 1; 1; 1]
             (start barrier_heap ∅ [[OConnect 1 2]; [OConnect 1 2]]) in
  all_done s ∧ exits (c_heap s) 1 = [MkEdge 1 2; MkEdge 1 2] ∧ ¬ wf (c_heap s).
Proof.
  split_and!.
  - intros i. by destruct i as [|[|i]]; vm_compute.
  - by vm_compute.
  - intros [_ _ _ N _]. specialize (N 1%positive). vm_compute in N. apply NoDup_cons in N as [N _]. apply N. left.
Qed.

(** Runs of whole operations are schedules.  Whatever a sequence of
    operations that run one after the other, as the other files study them, does
    to the nodes and the table, there is an interleaving of the lock-level steps
    that does the same. *)
Theorem whole_operations_refine h g progs s :
  rtc opstep (start h g progs) s → rtc cstep (start h g progs) s.
Proof.
  assert (graph_free (c_owner (start h g progs))) as Hf by (by intros m).
  intros R. induction R as [|s1 s2 s3 Hs _ IH]; [done|].
  destruct (opstep_csteps s1 s2 Hs Hf) as [R' Hf']. etrans; [exact R'|by apply IH].
Qed.

Lemma whole_operations_refine_witness :
  ∃ s, rtc opstep (start barrier_heap ∅ [[OConnect 1 2]]) s ∧ rtc cstep (start barrier_heap ∅ [[OConnect 1 2]]) s ∧
    exits (c_heap s) 1 = [MkEdge 1 2].
Proof.
  set (h' := add_edge 1 2 barrier_heap). exists (MkC h' ∅ ∅ [MkThr [] []]).
  assert (rtc opstep (start barrier_heap ∅ [[OConnect 1 2]]) (MkC h' ∅ ∅ [MkThr [] []])) as R.
  { apply rtc_once. by apply (OpStep barrier_heap ∅ ∅ [MkThr [] [OConnect 1 2]] 0 (OConnect 1 2) [] h' ∅). }
  split; [exact R|]. split; [apply (whole_operations_refine barrier_heap ∅ [[OConnect 1 2]] _ R)|].
  by vm_compute.
Defined.
