(* ===== verification/Dag.v ===== *)
(** * Directed acyclic graphs: the reference algorithms

    The mathematics the metrics rest on, independent of the store: reachability
    and acyclicity of a relation given by successor lists, depth-first search
    over a set of visited vertices, and the evaluation of a recursive equation
    along a topological order. *)
From stdpp Require Import base gmap list sorting relations.
From Stdlib Require Import ZArith Lia.
From S2P Require Import Prelude.

(** No vertex lies on a cycle. *)
Definition acyclic {A} (E : relation A) : Prop := ∀ x, ¬ tc E x x.

(** [l] lists the source of every edge before its target. *)
Definition topo_sorted {A} (E : relation A) (l : list A) : Prop :=
  ∀ l1 x l2, l = l1 ++ x :: l2 → ∀ y, E y x → y ∈ l1.

(** ** Depth-first search *)

Section dfs.
Context (succ : positive → list positive).

(** The edge relation of the successor lists. *)
Definition succ_rel (x y : positive) : Prop := y ∈ succ x.

(** Visits [n]: marks it, visits the unmarked successors in order, and puts
    [n] in front of the vertices finished so far. *)
Fixpoint dfs (fuel : nat) (V : gset positive) (tl : list positive) (n : positive)
  : option (gset positive * list positive) :=
  match fuel with
  | O => None
  | S fuel =>
      '(V, tl) ← foldl (fun acc a =>
          '(V, tl) ← acc; if decide (a ∈ V) then Some (V, tl) else dfs fuel V tl a)
        (Some ({[n]} ∪ V, tl)) (succ n);
      Some (V, n :: tl)
  end.

Definition dfs_all (fuel : nat) (acc : option (gset positive * list positive))
    (ns : list positive) : option (gset positive * list positive) :=
  foldl (fun acc a => '(V, tl) ← acc; if decide (a ∈ V) then Some (V, tl) else dfs fuel V tl a)
    acc ns.

(** What a search from the vertices [ns], started with the visited set [V] and
    the finished list [tl], guarantees of its result. *)
Definition dfs_post (V : gset positive) (tl ns : list positive)
    (V' : gset positive) (tl' : list positive) : Prop :=
  ∃ new, tl' = new ++ tl ∧ V' = V ∪ list_to_set new ∧ NoDup new ∧
    (∀ x, x ∈ new → x ∉ V) ∧ (∀ a, a ∈ ns → a ∈ V') ∧
    (∀ x, x ∈ new → ∃ a, a ∈ ns ∧ rtc succ_rel a x) ∧
    (∀ l1 x l2 y, new = l1 ++ x :: l2 → succ_rel x y → y ∈ l2 ∨ y ∈ V ∨ rtc succ_rel y x).

Lemma dfs_S fuel V tl n :
  dfs (S fuel) V tl n =
    ('(V, tl) ← dfs_all fuel (Some ({[n]} ∪ V, tl)) (succ n); Some (V, n :: tl)).
Proof. done. Qed.

Lemma dfs_all_None fuel ns : dfs_all fuel None ns = None.
Proof. unfold dfs_all. induction ns; simpl; auto. Qed.

Lemma dfs_post_nil V tl : dfs_post V tl [] V tl.
Proof.
  exists []. split_and!; try done; [set_solver|constructor|set_solver..|].
  intros l1 x l2 y H. by destruct l1.
Qed.

(** A visited first vertex is skipped. *)
Lemma dfs_post_skip V tl a ns V' tl' :
  a ∈ V → dfs_post V tl ns V' tl' → dfs_post V tl (a :: ns) V' tl'.
Proof.
  intros Ha (new & -> & -> & Hnd & Hdis & Hin & Hreach & Hord). exists new.
  split_and!; try done.
  - intros b [->|Hb]%elem_of_cons; [set_solver|by apply Hin].
  - intros x Hx. destruct (Hreach x Hx) as (b & ? & ?). exists b. split; [by right|done].
Qed.

(** Two searches one after the other. *)
Lemma dfs_post_app V tl ns1 V1 tl1 ns2 V2 tl2 :
  dfs_post V tl ns1 V1 tl1 → dfs_post V1 tl1 ns2 V2 tl2 → dfs_post V tl (ns1 ++ ns2) V2 tl2.
Proof.
  intros (n1 & -> & -> & Hnd1 & Hdis1 & Hin1 & Hr1 & Ho1)
    (n2 & -> & -> & Hnd2 & Hdis2 & Hin2 & Hr2 & Ho2).
  exists (n2 ++ n1). split_and!.
  - by rewrite app_assoc.
  - rewrite list_to_set_app_L. set_solver.
  - apply NoDup_app. split_and!; [done| |done]. intros x Hx Hx1. apply (Hdis2 x Hx). set_solver.
  - intros x [Hx|Hx]%elem_of_app Hv; [apply (Hdis2 x Hx); set_solver|by apply (Hdis1 x Hx)].
  - intros a [Ha|Ha]%elem_of_app; [apply Hin1 in Ha; set_solver|by apply Hin2].
  - intros x [Hx|Hx]%elem_of_app.
    + destruct (Hr2 x Hx) as (a & ? & ?). exists a. split; [apply elem_of_app; by right|done].
    + destruct (Hr1 x Hx) as (a & ? & ?). exists a. split; [apply elem_of_app; by left|done].
  - intros l1 x l2 y Hsplit Hxy.
    destruct (app_eq_inv _ _ _ _ Hsplit) as [(k & -> & Hk)|(k & -> & Hk)].
    + destruct k as [|z k]; simpl in Hk.
      * destruct (Ho1 [] x l2 y) as [?|[?|?]]; auto.
      * injection Hk as <- ->. destruct (Ho2 l1 x k y) as [?|[Hv|?]]; auto.
        { left. apply elem_of_app. by left. }
        apply elem_of_union in Hv as [?|?%elem_of_list_to_set]; auto.
        left. apply elem_of_app. by right.
    + destruct (Ho1 k x l2 y) as [?|[?|?]]; auto.
Qed.

(** Finishing a vertex after the search of its successors. *)
Lemma dfs_post_push V tl n V' tl' :
  n ∉ V → dfs_post ({[n]} ∪ V) tl (succ n) V' tl' → dfs_post V tl [n] V' (n :: tl').
Proof.
  intros Hn (new & -> & -> & Hnd & Hdis & Hin & Hr & Ho). exists (n :: new).
  assert (Hreach : ∀ x, x ∈ n :: new → rtc succ_rel n x).
  { intros x [->|Hx]%elem_of_cons; [done|]. destruct (Hr x Hx) as (a & Ha & ?).
    by apply rtc_l with a. }
  split_and!; try done.
  - simpl. set_solver.
  - apply NoDup_cons. split; [|done]. intros H%Hdis. set_solver.
  - intros x [->|Hx]%elem_of_cons; [done|]. apply Hdis in Hx. set_solver.
  - intros a ->%list_elem_of_singleton. set_solver.
  - intros x Hx. exists n. split; [by left|by apply Hreach].
  - intros l1 x l2 y Hsplit Hxy. destruct l1 as [|z l1]; simpl in Hsplit; injection Hsplit as -> ->.
    + specialize (Hin y Hxy). rewrite !elem_of_union, elem_of_singleton, elem_of_list_to_set in Hin.
      destruct Hin as [[->|?]|?]; [by do 2 right|by right; left|by left].
    + destruct (Ho l1 x l2 y eq_refl Hxy) as [?|[Hv|?]]; auto.
      apply elem_of_union in Hv as [->%elem_of_singleton|?]; auto.
      right. right. apply Hreach. right. apply elem_of_app. right. by left.
Qed.

Lemma dfs_all_sound_gen fuel V tl ns V' tl' :
  (∀ V tl n V' tl', n ∉ V → dfs fuel V tl n = Some (V', tl') → dfs_post V tl [n] V' tl') →
  dfs_all fuel (Some (V, tl)) ns = Some (V', tl') → dfs_post V tl ns V' tl'.
Proof.
  intros IH. revert V tl. induction ns as [|a ns IHns]; intros V tl; simpl.
  - intros [= <- <-]. apply dfs_post_nil.
  - unfold dfs_all in *. simpl. case_decide as Hd.
    + intros H%IHns. by apply dfs_post_skip.
    + destruct (dfs fuel V tl a) as [[V1 tl1]|] eqn:E.
      * intros H%IHns. apply (dfs_post_app V tl [a] V1 tl1 ns); [|done]. by apply (IH V tl a).
      * intros H. pose proof (dfs_all_None fuel ns) as Hn. unfold dfs_all in Hn. congruence.
Qed.

Lemma dfs_sound fuel V tl n V' tl' :
  n ∉ V → dfs fuel V tl n = Some (V', tl') → dfs_post V tl [n] V' tl'.
Proof.
  revert V tl n V' tl'. induction fuel as [|fuel IH]; intros V tl n V' tl' Hn; [done|].
  rewrite dfs_S. destruct (dfs_all _ _ _) as [[V1 tl1]|] eqn:E; [|done].
  simpl. intros [= <- <-]. apply dfs_post_push; [done|]. by apply (dfs_all_sound_gen fuel).
Qed.

Lemma dfs_all_sound fuel V tl ns V' tl' :
  dfs_all fuel (Some (V, tl)) ns = Some (V', tl') → dfs_post V tl ns V' tl'.
Proof. apply dfs_all_sound_gen. intros. by eapply dfs_sound. Qed.

(** Fuel: the depth of the search is bounded by the unvisited vertices. *)
Section total.
Context (U : gset positive) (Hclosed : ∀ x y, x ∈ U → succ_rel x y → y ∈ U).

Lemma dfs_all_total_gen fuel V tl ns :
  (∀ V tl n, n ∈ U → n ∉ V → size (U ∖ V) ≤ fuel → is_Some (dfs fuel V tl n)) →
  (∀ a, a ∈ ns → a ∈ U) → size (U ∖ V) ≤ fuel → is_Some (dfs_all fuel (Some (V, tl)) ns).
Proof.
  intros IH. revert V tl. induction ns as [|a ns IHns]; intros V tl Hns Hsz; [by eexists|].
  unfold dfs_all in *. simpl. case_decide as Hd.
  - apply IHns; [|done]. intros. apply Hns. by right.
  - destruct (IH V tl a) as [[V1 tl1] E]; [apply Hns; by left|done..|]. rewrite E.
    apply IHns; [intros; apply Hns; by right|].
    apply dfs_sound in E as (new & _ & -> & _); [|done].
    transitivity (size (U ∖ V)); [|done]. apply subseteq_size. set_solver.
Qed.

Lemma dfs_total fuel V tl n :
  n ∈ U → n ∉ V → size (U ∖ V) ≤ fuel → is_Some (dfs fuel V tl n).
Proof.
  revert V tl n. induction fuel as [|fuel IH]; intros V tl n HU HV Hsz.
  - assert (n ∈ U ∖ V) as Hin by set_solver.
    assert (U ∖ V ≡ ∅) by (apply size_empty_inv; lia). set_solver.
  - rewrite dfs_S. destruct (dfs_all_total_gen fuel ({[n]} ∪ V) tl (succ n)) as [[V1 tl1] ->].
    + apply IH.
    + intros a Ha. by apply (Hclosed n).
    + assert (size (U ∖ ({[n]} ∪ V)) < size (U ∖ V)); [|lia].
      apply subset_size. set_solver.
    + by eexists.
Qed.

Lemma dfs_all_total fuel tl ns :
  (∀ a, a ∈ ns → a ∈ U) → size U ≤ fuel → is_Some (dfs_all fuel (Some (∅, tl)) ns).
Proof.
  intros Hns Hsz. apply dfs_all_total_gen; [intros; by apply dfs_total|done|].
  by rewrite difference_empty_L.
Qed.
End total.

(** From every vertex, on an acyclic graph, the search lists the vertices in
    topological order, each once. *)
Lemma dfs_all_topo fuel ns V' tl' :
  acyclic succ_rel → (∀ x y, x ∈ ns → succ_rel x y → y ∈ ns) →
  (∀ x y, x ∈ ns → succ_rel y x → y ∈ ns) →
  dfs_all fuel (Some (∅, [])) ns = Some (V', tl') →
  NoDup tl' ∧ (∀ x, x ∈ tl' ↔ x ∈ ns) ∧ V' = list_to_set ns ∧ topo_sorted succ_rel tl'.
Proof.
  intros Hac Hcl Hcl' E. apply dfs_all_sound in E as (new & -> & -> & Hnd & _ & Hin & Hr & Ho).
  rewrite app_nil_r in *. assert (Hns : ∀ x, x ∈ new ↔ x ∈ ns).
  { intros x. split; [|intros Hx%Hin; set_solver].
    intros (a & Ha & Hax)%Hr. induction Hax as [|a b c Hab _ IH]; [done|].
    apply IH. by apply (Hcl a). }
  split_and!; try done; [set_solver|].
  intros l1 x l2 -> y Hyx.
  assert (y ∈ l1 ++ x :: l2) as Hy.
  { apply Hns, (Hcl' x); [|done]. apply Hns, elem_of_app. right. by left. }
  apply elem_of_app in Hy as [?|[->|Hy]%elem_of_cons]; [done| |].
  - destruct (Hac x). by apply tc_once.
  - apply list_elem_of_split in Hy as (a & b & ->).
    destruct (Ho (l1 ++ x :: a) y b x) as [Hb|[?|Hb]]; [by rewrite <- app_assoc|done| |set_solver|].
    + apply NoDup_app in Hnd as (_ & _ & [Hx _]%NoDup_cons). set_solver.
    + destruct (Hac x). eapply tc_rtc_l; [exact Hb|]. by apply tc_once.
Qed.
End dfs.

(** ** Evaluation of an equation along a topological order *)

Section eval.
Context {A : Type} (F : gmap positive A → positive → A).

Definition eval_order (m : gmap positive A) (l : list positive) : gmap positive A :=
  foldl (fun m x => <[x := F m x]> m) m l.

Lemma eval_order_notin m l x : x ∉ l → eval_order m l !! x = m !! x.
Proof.
  revert m. induction l as [|y l IH]; intros m Hx; [done|].
  simpl. unfold eval_order in IH. rewrite IH by set_solver. by rewrite lookup_insert_ne by set_solver.
Qed.

Lemma eval_order_app m l1 l2 : eval_order m (l1 ++ l2) = eval_order (eval_order m l1) l2.
Proof. apply foldl_app. Qed.

Lemma eval_order_dom l x : x ∈ l → is_Some (eval_order ∅ l !! x).
Proof.
  unfold eval_order. generalize (∅ : gmap positive A). induction l as [|y l IH]; intros m; [set_solver|].
  intros Hx. simpl. destruct (decide (x ∈ l)); [by apply IH|].
  assert (x = y) as -> by set_solver. pose proof (eval_order_notin (<[y := F m y]> m) l y) as E.
  unfold eval_order in E. rewrite E, lookup_insert_eq by done. eauto.
Qed.
(** [F] reads the values of the predecessors only. *)
Context (preds : positive → list positive).
Context (F_local : ∀ m m' x, (∀ s, s ∈ preds x → m !! s = m' !! s) → F m x = F m' x).

(** At the end every listed vertex satisfies the equation. *)
Lemma eval_order_solves l x :
  NoDup l → topo_sorted (fun y x => y ∈ preds x) l → x ∈ l →
  eval_order ∅ l !! x = Some (F (eval_order ∅ l) x).
Proof.
  intros Hnd Ht (l1 & l2 & ->)%list_elem_of_split.
  rewrite (eval_order_app ∅ l1 (x :: l2)). simpl.
  apply NoDup_app in Hnd as (Hnd1 & Hdis & [Hx Hnd2]%NoDup_cons).
  set (m1 := eval_order ∅ l1).
  rewrite eval_order_notin, lookup_insert_eq by done. f_equal. apply F_local.
  intros s Hs. assert (s ∈ l1) as Hs1 by (by eapply Ht).
  specialize (Hdis s Hs1). rewrite eval_order_notin by set_solver.
  rewrite lookup_insert_ne; [done|]. set_solver.
Qed.

End eval.

(** ** Maxima *)

Lemma foldl_Zmax_spec {B} (f : B → Z) (b : Z) (l : list B) (r := foldl (fun m s => Z.max (f s) m) b l) :
  (b ≤ r)%Z ∧ (∀ s, s ∈ l → (f s ≤ r)%Z) ∧ (r = b ∨ ∃ s, s ∈ l ∧ r = f s).
Proof.
  subst r. revert b. induction l as [|s l IH]; intros b; simpl.
  - split_and!; [lia|set_solver|by left].
  - destruct (IH (Z.max (f s) b)) as (H1 & H2 & H3). split_and!; [lia| |].
    + intros x [->|Hx]%elem_of_cons; [lia|by apply H2].
    + destruct H3 as [H3|(x & Hx & H3)].
      * rewrite H3. destruct (Z.max_spec (f s) b) as [[_ ->]|[_ ->]]; [by left|].
        right. exists s. split; [by left|done].
      * right. exists x. split; [by right|done].
Qed.

(** ** Longest paths *)

(** A solution of [L x = max (0, L s + 1)] over the predecessors is the number
    of edges of a longest path that ends in [x]. *)
Lemma longest_path (E : relation positive) (L : positive → Z) :
  (∀ x, (0 ≤ L x)%Z) → (∀ s x, E s x → (L s + 1 ≤ L x)%Z) →
  (∀ x, L x = 0%Z ∨ ∃ s, E s x ∧ L x = (L s + 1)%Z) →
  ∀ x, (∀ n y, nsteps E n y x → (Z.of_nat n ≤ L x)%Z) ∧ ∃ y, nsteps E (Z.to_nat (L x)) y x.
Proof.
  intros H0 Hge Hex x. split.
  - intros n y Hn. revert H0 Hge. clear Hex. intros H0 Hge.
    assert (L y + Z.of_nat n ≤ L x)%Z; [|specialize (H0 y); lia].
    induction Hn as [z|n y z x Hyz _ IH]; [lia|]. specialize (Hge _ _ Hyz). lia.
  - assert (∀ k x, L x = Z.of_nat k → ∃ y, nsteps E k y x) as Hk.
    { clear x. induction k as [|k IH]; intros x Hx; [exists x; constructor|].
      destruct (Hex x) as [?|(s & Hs & Hl)]; [lia|].
      destruct (IH s ltac:(lia)) as [y Hy]. exists y. by apply nsteps_r with s. }
    apply Hk. specialize (H0 x). lia.
Qed.

(** A list in topological order is closed under predecessors. *)
Lemma topo_sorted_index {A} (E : relation A) (l : list A) x y :
  topo_sorted E l → E y x → x ∈ l → y ∈ l.
Proof.
  intros Ht He (l1 & l2 & ->)%list_elem_of_split. apply elem_of_app. left. by eapply Ht.
Qed.

(** A relation along which a rank grows is acyclic. *)
Lemma acyclic_rank {A} (E : relation A) (r : A → Z) :
  (∀ x y, E x y → (r x < r y)%Z) → acyclic E.
Proof.
  intros Hr x Hx. assert (r x < r x)%Z; [|lia].
  assert (∀ a b, tc E a b → (r a < r b)%Z) as Ht; [|by apply Ht].
  intros a b H. induction H as [a b H|a b c H _ IH]; [by apply Hr|]. specialize (Hr _ _ H). lia.
Qed.

(** ** Labels

    Lists of numbers in lexicographic order, a prefix coming first.  A graph
    whose edges increase the labels of its nodes has no cycle. *)

Inductive lex : list nat → list nat → Prop :=
  | lex_nil x l : lex [] (x :: l)
  | lex_head x y l l' : x < y → lex (x :: l) (y :: l')
  | lex_tail x l l' : lex l l' → lex (x :: l) (x :: l').

Lemma lex_irrefl l : ¬ lex l l.
Proof. induction l as [|x l IH]; inversion 1; subst; [lia|done]. Qed.

Lemma lex_trans l1 l2 l3 : lex l1 l2 → lex l2 l3 → lex l1 l3.
Proof.
  intros H. revert l3. induction H as [x l|x y l l' Hxy|x l l' H IH]; intros l3 H3;
    inversion H3; subst; try (by constructor).
  - apply lex_head. lia.
  - apply lex_tail. by apply IH.
Qed.

Lemma lex_app p l l' : lex l l' → lex (p ++ l) (p ++ l').
Proof. intros H. induction p; simpl; [done|by constructor]. Qed.

Lemma lex_prefix p x l : lex p (p ++ x :: l).
Proof. rewrite <- (app_nil_r p) at 1. apply lex_app. constructor. Qed.

(** The two shapes of labels that the edges of a task graph compare. *)
Lemma lex_step p x y l l' : x < y → lex (p ++ x :: l) (p ++ y :: l').
Proof. intros. by apply lex_app, lex_head. Qed.

Lemma acyclic_order {A B} (E : relation A) (R : relation B) (f : A → B) :
  (∀ b, ¬ R b b) → (∀ a b c, R a b → R b c → R a c) → (∀ x y, E x y → R (f x) (f y)) → acyclic E.
Proof.
  intros Hi Ht HE x Hx. apply (Hi (f x)).
  assert (∀ y z, tc E y z → R (f y) (f z)) as H; [|by apply H].
  induction 1; eauto.
Qed.

#[export] Hint Resolve lex_prefix lex_step : tdg.
