(* ===== verification/TopoSort.v ===== *)
(** * Topological sorting of the graph (Graph::visitNode, Graph::topoSort)

    [visitNode] is the recursive depth-first search of graph.cc: it sets the
    [_visited] flag of the nodes in the store and pushes finished nodes to the
    front of the list.  [topoSort] runs it over the node table, computes the
    [_level] of every node along the list, and then moves the nodes of each
    level together with the iterator manipulation of the source. *)
From stdpp Require Import base numbers gmap list sorting relations.
From Stdlib Require Import ZArith Lia.
From S2P Require Import Prelude Float64 Graph Dag.

(** ** The program *)

(** [Graph::visitNode].  The fuel bounds the depth of the recursion. *)
Fixpoint visitNode (fuel : nat) (st : heap * list positive) (curr_node : positive)
  : res (heap * list positive) :=
  match fuel with
  | O => NoFuel
  | S fuel =>
      let '(h, topo_list) := st in
      n ← lookup_obj h curr_node;
      let h := <[curr_node := setVisited true n]> h in
      '(h, topo_list) ← res_foldl (fun st adj_node =>
          a ← lookup_obj st.1 adj_node;
          if _visited a then Ok st else visitNode fuel st adj_node)
        (h, topo_list) (AdjacencyIterator n false);
      Ok (h, curr_node :: topo_list)
  end.

(** The first loop of [topoSort]: search from every unmarked node of the table. *)
Definition visit_all (fuel : nat) (st : heap * list positive) (nodes : list positive)
  : res (heap * list positive) :=
  res_foldl (fun st curr_node =>
    c ← lookup_obj st.1 curr_node;
    if _visited c then Ok st else visitNode fuel st curr_node) st nodes.

(** The level of a node from the levels of the sources of its entry edges. *)
Definition max_entry_level (h : heap) (n : Node) : res Z :=
  res_foldl (fun max_curr_level source =>
    s ← lookup_obj h source;
    l ← int_add (_level s) 1;
    Ok (Z.max l max_curr_level)) 0%Z (AdjacencyIterator n true).

(** The second loop: levels along the list, and their maximum. *)
Definition compute_levels (h : heap) (topo_list : list positive) : res (heap * Z) :=
  res_foldl (fun st curr_node =>
    let '(h, max_level) := st in
    n ← lookup_obj h curr_node;
    max_curr_level ← max_entry_level h n;
    Ok (<[curr_node := setLevel max_curr_level n]> h, Z.max max_level max_curr_level))
    (h, (-1)%Z) topo_list.

(** The third loop works on a [std::list] with the iterators [start_iter] and
    [l_iter].  The list is kept as the elements before [start_iter] and the
    elements from [start_iter] on. *)

(** The first inner [while]: [start_iter] moves past the nodes of level [i]. *)
Fixpoint skip_level (h : heap) (i : Z) (before from_start : list positive)
  : res (list positive * list positive) :=
  match from_start with
  | [] => Ok (before, [])
  | l :: rest =>
      n ← lookup_obj h l;
      if decide (_level n = i) then skip_level h i (before ++ [l]) rest
      else Ok (before, from_start)
  end.

(** The inner [while] over [l_iter]: [passed] holds the elements from
    [start_iter] up to [l_iter], [todo] those from [l_iter] on; a node of level
    [i] is erased and inserted before [start_iter]. *)
Fixpoint sweep_level (h : heap) (i : Z) (before passed todo : list positive)
  : res (list positive * list positive) :=
  match todo with
  | [] => Ok (before, passed)
  | l :: rest =>
      n ← lookup_obj h l;
      if decide (_level n = i) then sweep_level h i (before ++ [l]) passed rest
      else sweep_level h i before (passed ++ [l]) rest
  end.

Fixpoint group_levels (h : heap) (levels : list Z) (before from_start : list positive)
  : res (list positive) :=
  match levels with
  | [] => Ok (before ++ from_start)
  | i :: levels =>
      '(before, from_start) ← skip_level h i before from_start;
      match from_start with
      | [] => Ok before
      | l :: rest =>
          '(before, from_start) ← sweep_level h i before [l] rest;
          group_levels h levels before from_start
      end
  end.

(** [Graph::topoSort] on an empty list. *)
Definition topoSort_fuel (fuel : nat) (h : heap) (g : node_map) : res (heap * list positive) :=
  '(h, topo_list) ← visit_all fuel (h, []) (nodes_in_order g).*2;
  '(h, max_level) ← compute_levels h topo_list;
  topo_list ← group_levels h (seqZ 0 max_level) [] topo_list;
  Ok (h, topo_list).

(** The recursion of [visitNode] never nests deeper than there are nodes. *)
Definition topoSort (h : heap) (g : node_map) : res (heap * list positive) :=
  topoSort_fuel (size h) h g.

(** ** The search refines the reference search *)

Abbreviation mark := (flag (setVisited true)).

(** Successors and predecessors as the store records them. *)
Definition succs (h : heap) (l : positive) : list positive := getTarget <$> exits h l.
Definition preds (h : heap) (l : positive) : list positive := getSource <$> entries h l.

Lemma mark_insert V h l n :
  mark V h !! l = Some n → <[l := setVisited true n]> (mark V h) = mark ({[l]} ∪ V) h.
Proof. by apply flag_insert. Qed.

Lemma mark_adj V h l n b :
  mark V h !! l = Some n →
  AdjacencyIterator n b = if b then preds h l else succs h l.
Proof.
  intros Hn. rewrite lookup_flag in Hn. unfold preds, succs, exits, entries.
  destruct (h !! l) as [n0|]; simplify_eq/=. case_decide; by destruct b.
Qed.

Lemma succ_rel_edge h u v : wf h → succ_rel (succs h) u v ↔ edge h u v.
Proof.
  intros W. unfold succ_rel, succs. rewrite list_elem_of_fmap. split.
  - intros (e & -> & He). by apply elem_exits in He as [_ ?].
  - intros He. exists (MkEdge u v). done.
Qed.

Lemma elem_of_preds h u v : wf h → u ∈ preds h v ↔ edge h u v.
Proof.
  intros W. unfold preds. rewrite list_elem_of_fmap, edge_entries by done. split.
  - intros (e & -> & He). pose proof (wf_tgt _ W _ _ He). destruct e; simpl in *; by subst.
  - intros He. exists (MkEdge u v). done.
Qed.

(** The reference result as an outcome of the program. *)
Definition dfs_res (h : heap) (o : option (gset positive * list positive))
  : res (heap * list positive) :=
  match o with Some (V, tl) => Ok (mark V h, tl) | None => NoFuel end.

Section refinement.
Context (h : heap) (W : wf h).
Context (Hfresh : ∀ l n, h !! l = Some n → _visited n = false).

Lemma mark_visited V l n : mark V h !! l = Some n → _visited n = bool_decide (l ∈ V).
Proof.
  rewrite lookup_flag. destruct (h !! l) as [n0|] eqn:E; simpl; intros [= <-].
  case_decide; [by rewrite bool_decide_true|]. rewrite bool_decide_false by done. by eapply Hfresh.
Qed.

Lemma visit_all_dfs fuel V tl ns :
  (∀ V tl n, is_Some (h !! n) → visitNode fuel (mark V h, tl) n = dfs_res h (dfs (succs h) fuel V tl n)) →
  (∀ a, a ∈ ns → is_Some (h !! a)) →
  visit_all fuel (mark V h, tl) ns = dfs_res h (dfs_all (succs h) fuel (Some (V, tl)) ns).
Proof.
  intros IH. revert V tl. induction ns as [|a ns IHns]; intros V tl Hns; [done|].
  unfold visit_all, dfs_all in *. simpl.
  assert (is_Some (mark V h !! a)) as [n Hn].
  { apply is_Some_flag, Hns. by left. }
  run_step. rewrite (mark_visited V a n) by done. case_decide as Hd.
  - rewrite bool_decide_true by done. simpl. apply IHns. intros. apply Hns. by right.
  - rewrite bool_decide_false by done. rewrite IH by (apply Hns; by left).
    destruct (dfs (succs h) fuel V tl a) as [[V1 tl1]|]; simpl.
    + apply IHns. intros. apply Hns. by right.
    + pose proof (dfs_all_None (succs h) fuel ns) as E. unfold dfs_all in E. by rewrite E.
Qed.

Lemma visitNode_dfs fuel V tl n :
  is_Some (h !! n) → visitNode fuel (mark V h, tl) n = dfs_res h (dfs (succs h) fuel V tl n).
Proof.
  revert V tl n. induction fuel as [|fuel IH]; intros V tl n Hn; [done|].
  rewrite dfs_S. cbn [visitNode].
  assert (is_Some (mark V h !! n)) as [nd Hnd] by (by apply is_Some_flag).
  run_step. rewrite (mark_insert V h n nd), (mark_adj V h n nd) by done.
  pose proof (visit_all_dfs fuel ({[n]} ∪ V) tl (succs h n) IH) as E.
  unfold visit_all in E. cbn [fst snd] in *. rewrite E.
  - by destruct (dfs_all _ _ _ _) as [[V1 tl1]|].
  - intros a Ha. apply (edge_live_r h n); [done|]. by apply succ_rel_edge.
Qed.
End refinement.

(** A graph as the callbacks leave it: no pass has run yet. *)
Definition unsorted (h : heap) : Prop :=
  ∀ l n, h !! l = Some n → _visited n = false ∧ _level n = (-1)%Z.

Lemma live_closed h x y : wf h → x ∈ dom h → succ_rel (succs h) x y → y ∈ dom h.
Proof. intros W _ H%succ_rel_edge; [|done]. apply elem_of_dom. by eapply edge_live_r. Qed.

(** The first loop terminates on every well-formed graph, cyclic or not. *)
Lemma visit_all_run h g :
  wf h → table_ok h g → unsorted h →
  ∃ V tl, visit_all (size h) (h, []) (nodes_in_order g).*2 = Ok (mark V h, tl) ∧
    dfs_all (succs h) (size h) (Some (∅, [])) (nodes_in_order g).*2 = Some (V, tl).
Proof.
  intros W T Hu.
  assert (Hl : ∀ a, a ∈ (nodes_in_order g).*2 → is_Some (h !! a)).
  { intros a. by apply nodes_in_order_live. }
  destruct (dfs_all_total (succs h) (dom h)) with (fuel := size h) (tl := @nil positive)
    (ns := (nodes_in_order g).*2) as [[V tl] E].
  - intros x y. by apply live_closed.
  - intros a Ha%Hl. by apply elem_of_dom.
  - by rewrite size_dom.
  - exists V, tl. split; [|done].
    assert (Hf : ∀ l n, h !! l = Some n → _visited n = false).
    { intros l n Hn. by destruct (Hu l n Hn). }
    pose proof (visit_all_dfs h Hf (size h) ∅ [] (nodes_in_order g).*2) as Hv.
    rewrite flag_empty, E in Hv. apply Hv; [|done]. intros. by apply visitNode_dfs.
Qed.

Lemma dfs_all_nodes h g V tl :
  wf h → table_ok h g → dfs_all (succs h) (size h) (Some (∅, [])) (nodes_in_order g).*2 = Some (V, tl) →
  NoDup tl ∧ (∀ x, x ∈ tl ↔ is_Some (h !! x)) ∧ V = dom h.
Proof.
  intros W T (new & -> & -> & Hnd & _ & Hin & Hr & _)%dfs_all_sound. rewrite app_nil_r.
  assert (Hns : ∀ x, x ∈ new ↔ is_Some (h !! x)).
  { intros x. split.
    - intros (a & Ha%(nodes_in_order_live h) & Hax)%Hr; [|done].
      induction Hax as [|a b c Hab _ IH]; [done|]. apply IH.
      apply succ_rel_edge in Hab; [|done]. by eapply edge_live_r.
    - intros Hx%(nodes_in_order_live h g); [|done]. apply Hin in Hx. set_solver. }
  split_and!; try done. apply set_eq. intros x. rewrite elem_of_dom, <- Hns. set_solver.
Qed.

Lemma topo_sorted_ext {A} (E E' : relation A) l :
  (∀ x y, E x y ↔ E' x y) → topo_sorted E l → topo_sorted E' l.
Proof. intros H Ht l1 x l2 Hl y Hy%H. by eapply Ht. Qed.

Lemma dfs_all_edges_sorted h g V tl :
  wf h → table_ok h g → acyclic (edge h) →
  dfs_all (succs h) (size h) (Some (∅, [])) (nodes_in_order g).*2 = Some (V, tl) →
  topo_sorted (edge h) tl.
Proof.
  intros W T Hac E.
  apply (topo_sorted_ext (succ_rel (succs h))); [intros; by apply succ_rel_edge|].
  eapply dfs_all_topo; [| | |exact E].
  - intros x Hx. apply (Hac x). eapply tc_congruence with (f := id); [|exact Hx].
    intros a b. by apply succ_rel_edge.
  - intros x y _ Hxy%succ_rel_edge; [|done]. apply (nodes_in_order_live h); [done|]. by eapply edge_live_r.
  - intros x y _ Hxy%succ_rel_edge; [|done]. apply (nodes_in_order_live h); [done|]. by eapply edge_live_l.
Qed.

(** ** Levels *)

Definition lev (m : gmap positive Z) (s : positive) : Z := default (-1)%Z (m !! s).

(** The level of [x] from the levels [m]. *)
Definition level_of (h : heap) (m : gmap positive Z) (x : positive) : Z :=
  foldl (fun acc s => Z.max (lev m s + 1) acc) 0%Z (preds h x).

Lemma level_of_local h m m' x :
  (∀ s, s ∈ preds h x → m !! s = m' !! s) → level_of h m x = level_of h m' x.
Proof.
  unfold level_of. generalize 0%Z. induction (preds h x) as [|s l IH]; intros z H; [done|].
  simpl. assert (lev m s = lev m' s) as -> by (unfold lev; rewrite H; [done|by left]).
  apply IH. intros. apply H. by right.
Qed.

Section levels.
Context (h : heap) (Hlive : ∀ x s, s ∈ preds h x → is_Some (h !! s)).
Context (Hunset : ∀ l n, h !! l = Some n → _level n = (-1)%Z).

Abbreviation lv m := (overlay setLevel m h).

Lemma lookup_lv_level m s n : lv m !! s = Some n → _level n = lev m s.
Proof.
  rewrite lookup_overlay. unfold lev. destruct (h !! s) as [n0|] eqn:E; simpl; intros [= <-].
  destruct (m !! s); simpl; [done|by eapply Hunset].
Qed.

Lemma max_entry_level_run m x n (k : Z) :
  lv m !! x = Some n → (∀ y v, m !! y = Some v → -1 ≤ v < k)%Z → (0 ≤ k ≤ INT_MAX)%Z →
  max_entry_level (lv m) n = Ok (level_of h m x) ∧ (0 ≤ level_of h m x ≤ k)%Z.
Proof.
  intros Hn Hm Hk.
  assert (AdjacencyIterator n true = preds h x) as E.
  { unfold preds. rewrite <- (entries_overlay setLevel m h x) by done. unfold entries. by rewrite Hn. }
  unfold max_entry_level, level_of. rewrite E. clear E Hn n.
  assert (Hl : ∀ s, s ∈ preds h x → is_Some (h !! s)) by (intros s; apply Hlive).
  assert (∀ z, (0 ≤ z ≤ k)%Z →
    res_foldl (fun max_curr_level source =>
      s ← lookup_obj (lv m) source; l ← int_add (_level s) 1; Ok (Z.max l max_curr_level)) z (preds h x) =
    Ok (foldl (fun acc s => Z.max (lev m s + 1) acc) z (preds h x)) ∧
    (0 ≤ foldl (fun acc s => Z.max (lev m s + 1) acc) z (preds h x) ≤ k)%Z) as HH; [|apply HH; lia].
  induction (preds h x) as [|s l IH]; intros z Hz; [done|]. simpl.
  assert (is_Some (lv m !! s)) as [ns Hs] by (apply is_Some_overlay, Hl; by left).
  run_step. rewrite (lookup_lv_level m s ns Hs).
  assert (-1 ≤ lev m s < k)%Z.
  { unfold lev. destruct (m !! s) eqn:Es; simpl; [by eapply Hm|lia]. }
  unfold INT_MAX, INT_MIN in *. rewrite int_add_Ok by (unfold INT_MAX, INT_MIN; lia). simpl.
  apply IH; [|lia]. intros. apply Hl. by right.
Qed.

Lemma compute_levels_run m ml l (k : Z) :
  (∀ x, x ∈ l → is_Some (h !! x)) → (∀ y v, m !! y = Some v → -1 ≤ v < k)%Z →
  (0 ≤ k)%Z → (k + Z.of_nat (length l) ≤ INT_MAX)%Z → NoDup l →
  ∃ ml', res_foldl (fun st curr_node =>
      let '(h, max_level) := st in
      n ← lookup_obj h curr_node;
      max_curr_level ← max_entry_level h n;
      Ok (<[curr_node := setLevel max_curr_level n]> h, Z.max max_level max_curr_level))
      (lv m, ml) l = Ok (lv (eval_order (level_of h) m l), ml') ∧
    (ml ≤ ml')%Z ∧ (∀ x v, x ∈ l → eval_order (level_of h) m l !! x = Some v → 0 ≤ v ≤ ml')%Z ∧
    (ml' ≤ Z.max ml (k + Z.of_nat (length l)))%Z.
Proof.
  revert m ml k. induction l as [|x l IH]; intros m ml k Hl Hm Hk Hb Hnd.
  - exists ml. split_and!; [done|lia|set_solver|lia].
  - apply NoDup_cons in Hnd as [Hx Hnd]. cbn [length] in Hb. simpl res_foldl.
    assert (is_Some (lv m !! x)) as [n Hn] by (apply is_Some_overlay, Hl; by left).
    run_step. destruct (max_entry_level_run m x n k) as [-> Hr]; [done..|lia|].
    cbn [mbind res_bind]. rewrite (overlay_insert setLevel) by done.
    destruct (IH (<[x := level_of h m x]> m) (Z.max ml (level_of h m x)) (k + 1)%Z)
      as (ml' & E & H1 & H2 & H3); [set_solver| |lia..|done|].
    { intros y v. rewrite lookup_insert. case_decide; [intros [= <-]; lia|].
      intros Hv%Hm. lia. }
    exists ml'. split; [exact E|]. split; [lia|]. split; [|cbn [length]; lia].
    intros y v [->|Hy]%elem_of_cons Hv; [|by eapply H2]. simpl in Hv.
    rewrite eval_order_notin, lookup_insert_eq in Hv by done. injection Hv as <-. lia.
Qed.
End levels.

(** ** Grouping by level *)

Section grouping.
Context (h : heap).

Definition node_level (x : positive) : Z := from_option _level (-1)%Z (h !! x).

(** The reference: for each level in turn, the nodes of that level in the order
    of the list. *)
Definition by_level (levels : list Z) (l : list positive) : list positive :=
  levels ≫= (fun i => filter (fun x => node_level x = i) l).

Lemma skip_level_run i before l :
  (∀ x, x ∈ l → is_Some (h !! x)) →
  ∃ p r, l = p ++ r ∧ skip_level h i before l = Ok (before ++ p, r) ∧
    (∀ x, x ∈ p → node_level x = i) ∧ (∀ y t, r = y :: t → node_level y ≠ i).
Proof.
  revert before. induction l as [|x l IH]; intros before Hl.
  - exists [], []. split_and!; [done|by rewrite app_nil_r|set_solver|done].
  - destruct (Hl x) as [n Hn]; [by left|]. simpl. run_step.
    assert (node_level x = _level n) as Hx by (unfold node_level; by rewrite Hn).
    case_decide as Hd.
    + destruct (IH (before ++ [x])) as (p & r & -> & E & Hp & Hr); [set_solver|].
      exists (x :: p), r. split_and!; [done|by rewrite E, <- app_assoc| |done].
      intros y [->|Hy]%elem_of_cons; [congruence|by apply Hp].
    + exists [], (x :: l). split_and!; [done|by rewrite app_nil_r|set_solver|].
      intros y t [= <- <-]. congruence.
Qed.

Lemma sweep_level_run i before passed l :
  (∀ x, x ∈ l → is_Some (h !! x)) →
  sweep_level h i before passed l =
    Ok (before ++ filter (fun x => node_level x = i) l, passed ++ filter (fun x => node_level x ≠ i) l).
Proof.
  revert before passed. induction l as [|x l IH]; intros before passed Hl.
  - simpl. by rewrite !app_nil_r.
  - destruct (Hl x) as [n Hn]; [by left|]. simpl. run_step.
    assert (node_level x = _level n) as Hx by (unfold node_level; by rewrite Hn).
    rewrite !filter_cons, Hx. case_decide as Hd.
    + rewrite IH by set_solver. rewrite decide_False by tauto. by rewrite <- app_assoc.
    + rewrite IH by set_solver. rewrite decide_True by done. by rewrite <- app_assoc.
Qed.

Lemma filter_none {A} (P : A → Prop) `{!∀ x, Decision (P x)} (l : list A) : (∀ x, x ∈ l → ¬ P x) → filter P l = [].
Proof.
  induction l as [|x l IH]; intros Hl; [done|]. rewrite filter_cons, decide_False by (apply Hl; by left).
  apply IH. intros. apply Hl. by right.
Qed.

Lemma by_level_ext levels l l' :
  (∀ i, i ∈ levels → filter (fun x => node_level x = i) l = filter (fun x => node_level x = i) l') →
  by_level levels l = by_level levels l'.
Proof.
  intros H. unfold by_level. induction levels as [|i levels IH]; [done|].
  simpl. rewrite H by (by left). f_equal. apply IH. intros. apply H. by right.
Qed.

Lemma by_level_nil levels : by_level levels [] = [].
Proof. unfold by_level. by induction levels. Qed.

(** The iterator loop computes the reference grouping. *)
Lemma group_levels_run a (n : nat) before l :
  (∀ x, x ∈ l → is_Some (h !! x)) → (∀ x, x ∈ l → a ≤ node_level x ≤ a + Z.of_nat n)%Z →
  group_levels h (seqZ a (Z.of_nat n)) before l = Ok (before ++ by_level (seqZ a (Z.of_nat n + 1)) l).
Proof.
  revert a before l. induction n as [|n IH]; intros a before l Hl Hb.
  - simpl. unfold seqZ, by_level. simpl. rewrite Z.add_0_l, app_nil_r, filter_all; [done|].
    intros x Hx%Hb. lia.
  - rewrite (seqZ_cons a (Z.of_nat (S n))), (seqZ_cons a (Z.of_nat (S n) + 1)) by lia.
    replace (Z.pred (Z.of_nat (S n))) with (Z.of_nat n) by lia.
    replace (Z.pred (Z.of_nat (S n) + 1)) with (Z.of_nat n + 1)%Z by lia.
    cbn [group_levels]. destruct (skip_level_run a before l Hl) as (p & r & -> & -> & Hp & Hr).
    unfold by_level at 1. cbn [mbind list_bind res_bind]. fold (by_level (seqZ (Z.succ a) (Z.of_nat n + 1)) (p ++ r)).
    rewrite filter_app, (filter_all _ p) by done.
    destruct r as [|x t].
    + rewrite filter_nil, !app_nil_r. 
      rewrite (by_level_ext _ p []), by_level_nil, app_nil_r; [done|].
      intros i (Hi & _)%elem_of_seqZ. apply filter_none. intros y Hy%Hp. lia.
    + rewrite sweep_level_run by set_solver. cbn [mbind res_bind].
      assert (node_level x ≠ a) as Hx by (by eapply Hr).
      assert (Hrest : ∀ y, y ∈ [x] ++ filter (fun y => node_level y ≠ a) t →
        y ∈ p ++ x :: t ∧ node_level y ≠ a).
      { intros y. rewrite elem_of_app, list_elem_of_singleton, list_elem_of_filter. set_solver. }
      rewrite IH.
      * f_equal. rewrite <- !app_assoc. do 2 f_equal. rewrite filter_cons, decide_False by done. f_equal.
        apply by_level_ext. intros i (Hi & _)%elem_of_seqZ. rewrite !filter_app, (filter_none _ p).
        -- simpl. rewrite !filter_cons, list_filter_filter. case_decide; simpl; f_equal;
             apply list_filter_iff; lia.
        -- intros y Hy%Hp. lia.
      * intros y [Hy _]%Hrest. by apply Hl.
      * intros y [Hy ?]%Hrest. apply Hb in Hy. lia.
Qed.

Lemma by_level_elem a n l x :
  x ∈ by_level (seqZ a n) l ↔ x ∈ l ∧ (a ≤ node_level x < a + n)%Z.
Proof.
  unfold by_level. rewrite list_elem_of_bind. split.
  - intros (i & Hx & Hi). apply list_elem_of_filter in Hx as [<- Hx].
    apply elem_of_seqZ in Hi. done.
  - intros [Hx Hl]. exists (node_level x). split; [by apply list_elem_of_filter|by apply elem_of_seqZ].
Qed.

Definition level_le (x y : positive) : Prop := (node_level x ≤ node_level y)%Z.

Lemma by_level_sorted a (n : nat) l : StronglySorted level_le (by_level (seqZ a (Z.of_nat n)) l).
Proof.
  revert a. induction n as [|n IH]; intros a; [constructor|].
  rewrite seqZ_cons by lia. replace (Z.pred (Z.of_nat (S n))) with (Z.of_nat n) by lia.
  unfold by_level. cbn [mbind list_bind]. fold (by_level (seqZ (Z.succ a) (Z.of_nat n)) l).
  assert (Hb : ∀ y, y ∈ by_level (seqZ (Z.succ a) (Z.of_nat n)) l → (a < node_level y)%Z).
  { intros y [_ ?]%by_level_elem. lia. }
  assert (Hf : ∀ y, y ∈ filter (fun x => node_level x = a) l → node_level y = a).
  { intros y [? _]%list_elem_of_filter. done. }
  induction (filter _ l) as [|x k IHk]; [apply IH|]. simpl. constructor.
  - apply IHk. intros. apply Hf. by right.
  - apply Forall_forall. intros y Hy. unfold level_le. rewrite (Hf x) by (by left).
    apply elem_of_app in Hy as [Hy|Hy%Hb]; [|lia]. rewrite (Hf y); [done|by right].
Qed.

Lemma by_level_NoDup a (n : nat) l : NoDup l → NoDup (by_level (seqZ a (Z.of_nat n)) l).
Proof.
  intros Hnd. revert a. induction n as [|n IH]; intros a; [constructor|].
  rewrite seqZ_cons by lia. replace (Z.pred (Z.of_nat (S n))) with (Z.of_nat n) by lia.
  unfold by_level. cbn [mbind list_bind]. fold (by_level (seqZ (Z.succ a) (Z.of_nat n)) l).
  apply NoDup_app. split_and!; [by apply NoDup_filter| |apply IH].
  intros x [Hx _]%list_elem_of_filter [_ ?]%by_level_elem. lia.
Qed.
End grouping.

(** ** The whole sort *)

Lemma preds_mark V h x : preds (mark V h) x = preds h x.
Proof. unfold preds, flag. by rewrite entries_overlay. Qed.

Lemma level_of_mark V h m x : level_of (mark V h) m x = level_of h m x.
Proof. unfold level_of. by rewrite preds_mark. Qed.

Lemma eval_order_ext {A} (F F' : gmap positive A → positive → A) m l :
  (∀ m x, F m x = F' m x) → eval_order F m l = eval_order F' m l.
Proof.
  intros HF. revert m. induction l as [|x l IH]; intros m; [done|].
  unfold eval_order in *. simpl. rewrite HF. apply IH.
Qed.

(** The levels and the store after the second loop over [tl]. *)
Definition levels_on (h : heap) (tl : list positive) : gmap positive Z :=
  eval_order (level_of h) ∅ tl.
Definition levelled (h : heap) (tl : list positive) : heap :=
  overlay setLevel (levels_on h tl) (mark (dom h) h).

Lemma lookup_levelled h tl x n :
  (∀ x, x ∈ tl ↔ is_Some (h !! x)) → h !! x = Some n →
  levelled h tl !! x = Some (setLevel (lev (levels_on h tl) x) (setVisited true n)).
Proof.
  intros Hl Hn. unfold levelled. rewrite lookup_overlay, lookup_flag, Hn. simpl.
  rewrite decide_True by (apply elem_of_dom; eauto).
  destruct (eval_order_dom (level_of h) tl x) as [v Hv]; [apply Hl; eauto|].
  unfold levels_on, lev. by rewrite Hv.
Qed.

Lemma is_Some_levelled h tl x : is_Some (levelled h tl !! x) ↔ is_Some (h !! x).
Proof. unfold levelled. by rewrite is_Some_overlay, is_Some_flag. Qed.

Lemma node_level_levelled h tl x :
  (∀ x, x ∈ tl ↔ is_Some (h !! x)) → is_Some (h !! x) →
  node_level (levelled h tl) x = lev (levels_on h tl) x.
Proof. intros Hl [n Hn]. unfold node_level. by rewrite (lookup_levelled h tl x n). Qed.

(** What [topoSort] returns on any well-formed graph, cyclic or not. *)
Lemma topoSort_run h g :
  wf h → table_ok h g → unsorted h → (Z.of_nat (size h) ≤ INT_MAX)%Z →
  ∃ tl l, topoSort h g = Ok (levelled h tl, l) ∧ NoDup tl ∧ (∀ x, x ∈ tl ↔ is_Some (h !! x)) ∧
    NoDup l ∧ (∀ x, x ∈ l ↔ is_Some (h !! x)) ∧ StronglySorted (level_le (levelled h tl)) l ∧
    (acyclic (edge h) → topo_sorted (edge h) tl) ∧
    (∃ ml : nat, l = by_level (levelled h tl) (seqZ 0 (Z.of_nat ml)) tl).
Proof.
  intros W T Hu Hsz. destruct (visit_all_run h g W T Hu) as (V & tl & Ev & Ed).
  destruct (dfs_all_nodes h g V tl W T Ed) as (Hnd & Hl & ->).
  pose proof (fun Hac => dfs_all_edges_sorted h g (dom h) tl W T Hac Ed) as Htopo. clear Ed.
  assert (Hlen : length tl = size h).
  { rewrite <- size_dom, <- (size_list_to_set (C := gset positive) tl Hnd). f_equal.
    apply set_eq. intros x. rewrite elem_of_list_to_set, elem_of_dom. apply Hl. }
  destruct (compute_levels_run (mark (dom h) h)) with (m := ∅ : gmap positive Z) (ml := (-1)%Z)
    (l := tl) (k := 0%Z) as (ml & Ec & _ & Hml & Hmax).
  { intros x s Hs. rewrite preds_mark in Hs. apply is_Some_flag.
    apply elem_of_preds in Hs; [|done]. by eapply edge_live_l. }
  { intros x n. rewrite lookup_flag. destruct (h !! x) as [n0|] eqn:E; simpl; intros [= <-].
    destruct (Hu x n0 E). by case_decide. }
  { intros x. rewrite is_Some_flag. apply Hl. }
  { done. } { lia. } { rewrite Hlen. lia. } { done. }
  rewrite overlay_empty in Ec.
  rewrite (eval_order_ext _ (level_of h)) in Ec, Hml by (intros; apply level_of_mark).
  change (overlay _ _ _) with (levelled h tl) in Ec. fold (levels_on h tl) in Hml.
  assert (Hb : ∀ x, x ∈ tl → (0 ≤ node_level (levelled h tl) x ≤ 0 + Z.of_nat (Z.to_nat ml))%Z).
  { intros x Hx. rewrite node_level_levelled by (done || by apply Hl).
    destruct (eval_order_dom (level_of h) tl x Hx) as [v Hv].
    pose proof (Hml x v Hx Hv). unfold lev, levels_on. rewrite Hv. simpl. lia. }
  exists tl, (by_level (levelled h tl) (seqZ 0 (Z.of_nat (S (Z.to_nat ml)))) tl). split_and!; try done.
  - unfold topoSort, topoSort_fuel. rewrite Ev. cbn [mbind res_bind].
    unfold compute_levels. rewrite Ec. cbn [mbind res_bind].
    assert (seqZ 0 ml = seqZ 0 (Z.of_nat (Z.to_nat ml))) as ->.
    { unfold seqZ. by rewrite Nat2Z.id. }
    rewrite group_levels_run; [|intros x Hx; by apply is_Some_levelled, Hl|done].
    simpl. do 4 f_equal. lia.
  - by apply by_level_NoDup.
  - intros x. rewrite by_level_elem, Hl. split; [tauto|]. intros Hx. split; [done|].
    apply Hl, Hb in Hx. lia.
  - apply by_level_sorted.
  - by eexists.
Qed.

(** Along a topological order the levels solve their equation. *)
Lemma levels_on_solves h tl x :
  wf h → NoDup tl → topo_sorted (edge h) tl → x ∈ tl →
  levels_on h tl !! x = Some (level_of h (levels_on h tl) x).
Proof.
  intros W Hnd Ht Hx. apply (eval_order_solves (level_of h) (preds h)); try done.
  - intros. by apply level_of_local.
  - apply (topo_sorted_ext (edge h)); [|done]. intros. by rewrite elem_of_preds.
Qed.

Section on_dag.
Context (h : heap) (W : wf h) (tl : list positive).
Context (Hnd : NoDup tl) (Hl : ∀ x, x ∈ tl ↔ is_Some (h !! x)) (Ht : topo_sorted (edge h) tl).

Abbreviation L := (lev (levels_on h tl)).

Lemma level_eq x : is_Some (h !! x) → L x = level_of h (levels_on h tl) x.
Proof. intros Hx%Hl. unfold lev at 1. by rewrite levels_on_solves. Qed.

Lemma level_edge s x : edge h s x → (L s + 1 ≤ L x)%Z.
Proof.
  intros He. rewrite (level_eq x) by (by eapply edge_live_r).
  destruct (foldl_Zmax_spec (fun s => L s + 1)%Z 0%Z (preds h x)) as (_ & H & _).
  apply H. by apply elem_of_preds.
Qed.

Lemma level_longest x :
  is_Some (h !! x) →
  (∀ n y, nsteps (edge h) n y x → (Z.of_nat n ≤ L x)%Z) ∧ ∃ y, nsteps (edge h) (Z.to_nat (L x)) y x.
Proof.
  intros Hx. set (L' := fun x => Z.max 0 (L x)).
  assert (HL : ∀ x, is_Some (h !! x) → L' x = L x).
  { intros y Hy. unfold L'. rewrite (level_eq y Hy).
    destruct (foldl_Zmax_spec (fun s => L s + 1)%Z 0%Z (preds h y)) as (H & _ & _).
    unfold level_of. lia. }
  rewrite <- (HL x Hx). apply longest_path.
  - intros y. unfold L'. lia.
  - intros s y He. rewrite (HL s), (HL y) by eauto using edge_live_l, edge_live_r.
    by apply level_edge.
  - intros y. destruct (decide (is_Some (h !! y))) as [Hy|Hy].
    + rewrite (HL y Hy), (level_eq y Hy).
      destruct (foldl_Zmax_spec (fun s => L s + 1)%Z 0%Z (preds h y)) as (_ & _ & [H|(s & Hs & H)]); [by left|].
      right. exists s. apply elem_of_preds in Hs; [|done].
      rewrite (HL s) by (by eapply edge_live_l). done.
    + left. unfold L', lev, levels_on. rewrite (eval_order_notin _ ∅ tl y); [done|]. by rewrite Hl.
Qed.

(** A list of the nodes sorted by level is in topological order. *)
Lemma level_sorted_topo l :
  (∀ x, x ∈ l ↔ is_Some (h !! x)) → StronglySorted (level_le (levelled h tl)) l →
  topo_sorted (edge h) l.
Proof.
  intros Hl' Hs l1 x l2 -> y He.
  pose proof (edge_live_l _ _ _ He) as Hy. pose proof (edge_live_r _ _ _ W He) as Hx.
  pose proof (level_edge y x He) as Hlt.
  pose proof (proj2 (Hl' y) Hy) as Hin. apply elem_of_app in Hin as [?|Hin]; [done|].
  apply elem_of_cons in Hin as [->|Hin]; [lia|].
  apply StronglySorted_app in Hs as (_ & _ & Hs). inversion_clear Hs as [|? ? _ Hall].
  rewrite Forall_forall in Hall. specialize (Hall y Hin). unfold level_le in Hall.
  rewrite !node_level_levelled in Hall by done. lia.
Qed.
End on_dag.

(** ** A concrete graph *)

(** A four-node example: a root, two parallel tasks and their sink. *)
Definition diamond_nodes : heap :=
  <[1%positive := new_Node 0 ROOT_TASK (d_of_Z 1)]> (
  <[2%positive := new_Node 2 IMP_TASK (d_of_Z 2)]> (
  <[3%positive := new_Node 3 IMP_TASK (d_of_Z 3)]> (
  <[4%positive := new_Node 1 IMP_TASK (d_of_Z 4)]> ∅))).

Definition diamond : heap :=
  add_edge 3 4 (add_edge 2 4 (add_edge 1 3 (add_edge 1 2 diamond_nodes))).

Definition diamond_table : node_map :=
  addNode (addNode (addNode (addNode ∅ 1 4) 3 3) 2 2) 0 1.

Lemma diamond_edge a b :
  edge diamond a b ↔ (a, b) ∈ [(1, 2); (1, 3); (2, 4); (3, 4)]%positive.
Proof.
  unfold diamond. rewrite !edge_add_edge by (by eexists).
  assert (¬ edge diamond_nodes a b) as Hn.
  { unfold edge, diamond_nodes. rewrite !exits_insert_fresh by done. apply not_elem_of_nil. }
  rewrite !elem_of_cons, elem_of_nil. split.
  - intros [[[[?|[-> ->]]|[-> ->]]|[-> ->]]|[-> ->]]; [done|tauto..].
  - intros [[= -> ->]|[[= -> ->]|[[= -> ->]|[[= -> ->]|[]]]]]; tauto.
Qed.

Lemma diamond_wf : wf diamond.
Proof.
  unfold diamond. apply wf_add_edge; [apply wf_add_edge; [apply wf_add_edge; [apply wf_add_edge|..]|..]|..].
  all: try (by eexists).
  - unfold diamond_nodes. do 4 (apply wf_insert_fresh; [reflexivity..|]).
    split; intros *; try (intros H; by apply elem_of_nil in H); try constructor.
    all: intros H; by apply elem_of_nil in H.
  - intros H. by apply elem_of_nil in H.
  - intros [H|[_ H]]%edge_add_edge; [by apply elem_of_nil in H|done|by eexists].
  - rewrite !edge_add_edge by (by eexists). intros [[H|[H _]]|[H _]]; [by apply elem_of_nil in H|done..].
  - rewrite !edge_add_edge by (by eexists). intros [[[H|[H _]]|[H _]]|[H _]]; [by apply elem_of_nil in H|done..].
Qed.

Lemma diamond_table_ok : table_ok diamond diamond_table.
Proof.
  unfold diamond, diamond_table. do 4 apply table_ok_add_edge. unfold diamond_nodes.
  apply (table_ok_add _ _ 1 (new_Node 0 ROOT_TASK (d_of_Z 1))); [|reflexivity..].
  apply (table_ok_add _ _ 2 (new_Node 2 IMP_TASK (d_of_Z 2))); [|reflexivity..].
  apply (table_ok_add _ _ 3 (new_Node 3 IMP_TASK (d_of_Z 3))); [|reflexivity..].
  apply (table_ok_add ∅ ∅ 4 (new_Node 1 IMP_TASK (d_of_Z 4))); [|reflexivity..].
  intros id l. split; [intros H; discriminate H|]. intros (n & H & _). discriminate H.
Qed.

Lemma diamond_acyclic : acyclic (edge diamond).
Proof.
  apply (acyclic_rank _ Zpos). intros a b H%diamond_edge.
  rewrite !elem_of_cons, elem_of_nil in H.
  destruct H as [[= -> ->]|[[= -> ->]|[[= -> ->]|[[= -> ->]|[]]]]]; lia.
Qed.

Lemma diamond_unsorted : unsorted diamond.
Proof.
  unfold unsorted.
  apply (heap_forall (fun n => _visited n = false ∧ _level n = (-1)%Z)). vm_compute. reflexivity.
Qed.

(** ** Properties *)

(** [Graph::visitNode] refines the reference depth-first search: run on a
    store in which exactly the nodes of [V] are marked, it returns the list of
    [dfs], leaves exactly the nodes of its visited set marked, changes nothing
    else, and runs out of fuel exactly when [dfs] does. *)
Theorem visitNode_refines h fuel V tl n :
  wf h → (∀ l n, h !! l = Some n → _visited n = false) → is_Some (h !! n) →
  visitNode fuel (mark V h, tl) n =
    match dfs (succs h) fuel V tl n with
    | Some (V', tl') => Ok (mark V' h, tl')
    | None => NoFuel
    end.
Proof. intros W Hf Hn. by apply visitNode_dfs. Qed.

Lemma visitNode_refines_witness :
  visitNode 4 (mark ∅ diamond, []) 1 = Ok (mark {[1; 2; 3; 4]}%positive diamond, [1; 3; 2; 4]%positive).
Proof.
  rewrite (visitNode_refines diamond 4 ∅ [] 1).
  - vm_compute. reflexivity.
  - exact diamond_wf.
  - intros l n H. apply (diamond_unsorted l n H).
  - by eexists.
Defined.

(** C16. [topoSort] terminates on every well-formed graph with fewer than 2^31
    nodes, with or without cycles, and returns every node of the graph exactly
    once, in non-decreasing order of the level it computed. *)
Theorem topoSort_terminates h g :
  wf h → table_ok h g → unsorted h → (Z.of_nat (size h) ≤ INT_MAX)%Z →
  ∃ h' l, topoSort h g = Ok (h', l) ∧ NoDup l ∧ (∀ x, x ∈ l ↔ is_Some (h !! x)) ∧
    StronglySorted (level_le h') l.
Proof.
  intros W T Hu Hsz. destruct (topoSort_run h g W T Hu Hsz) as (tl & l & E & _ & _ & ? & ? & ? & _).
  by exists (levelled h tl), l.
Qed.

Lemma topoSort_terminates_witness :
  ∃ h' l, topoSort diamond diamond_table = Ok (h', l) ∧ NoDup l.
Proof.
  destruct (topoSort_terminates diamond diamond_table) as (h' & l & E & H & _).
  - exact diamond_wf.
  - exact diamond_table_ok.
  - exact diamond_unsorted.
  - vm_compute. intros H. discriminate H.
  - exists h', l. split; [exact E|exact H].
Defined.

(** C6. On an acyclic graph [topoSort] returns a topological order: the source
    of every edge comes before its target. *)
Theorem topoSort_topological h g :
  wf h → table_ok h g → unsorted h → (Z.of_nat (size h) ≤ INT_MAX)%Z → acyclic (edge h) →
  ∃ h' l, topoSort h g = Ok (h', l) ∧ NoDup l ∧ (∀ x, x ∈ l ↔ is_Some (h !! x)) ∧
    topo_sorted (edge h) l.
Proof.
  intros W T Hu Hsz Hac.
  destruct (topoSort_run h g W T Hu Hsz) as (tl & l & E & Hnd & Hl & ? & ? & ? & Ht & _).
  exists (levelled h tl), l. split_and!; try done. apply (level_sorted_topo h W tl); auto.
Qed.

Lemma topoSort_topological_witness :
  ∃ h' l, topoSort diamond diamond_table = Ok (h', l) ∧ topo_sorted (edge diamond) l.
Proof.
  destruct (topoSort_topological diamond diamond_table) as (h' & l & E & _ & _ & H).
  - exact diamond_wf.
  - exact diamond_table_ok.
  - exact diamond_unsorted.
  - vm_compute. intros H. discriminate H.
  - exact diamond_acyclic.
  - exists h', l. split; [exact E|exact H].
Defined.

(** C14. On an acyclic graph the [_level] that [topoSort] stores in a node is
    the number of edges of a longest path that ends in the node; the node is
    marked visited and nothing else in it changes. *)
Theorem topoSort_level_longest_path h g x n :
  wf h → table_ok h g → unsorted h → (Z.of_nat (size h) ≤ INT_MAX)%Z → acyclic (edge h) →
  h !! x = Some n →
  ∃ h' l lv, topoSort h g = Ok (h', l) ∧ h' !! x = Some (setLevel lv (setVisited true n)) ∧
    (∀ k y, nsteps (edge h) k y x → (Z.of_nat k ≤ lv)%Z) ∧
    ∃ y, nsteps (edge h) (Z.to_nat lv) y x.
Proof.
  intros W T Hu Hsz Hac Hn.
  destruct (topoSort_run h g W T Hu Hsz) as (tl & l & E & Hnd & Hl & _ & _ & _ & Ht & _).
  exists (levelled h tl), l, (lev (levels_on h tl) x). split; [done|].
  split; [by apply lookup_levelled|]. apply level_longest; eauto.
Qed.

Lemma topoSort_level_longest_path_witness :
  ∃ h' l lv n, topoSort diamond diamond_table = Ok (h', l) ∧
    diamond !! 4%positive = Some n ∧ h' !! 4%positive = Some (setLevel lv (setVisited true n)).
Proof.
  destruct (diamond !! 4%positive) as [n|] eqn:Hn; [|vm_compute in Hn; discriminate Hn].
  destruct (topoSort_level_longest_path diamond diamond_table 4 n) as (h' & l & lv & E & H & _).
  - exact diamond_wf.
  - exact diamond_table_ok.
  - exact diamond_unsorted.
  - vm_compute. intros H. discriminate H.
  - exact diamond_acyclic.
  - exact Hn.
  - exists h', l, lv, n. split; [exact E|]. split; [reflexivity|exact H].
Defined.

(** The sort of the example, evaluated. *)
Example topoSort_diamond :
  (topoSort diamond diamond_table ≫= fun '(h, l) => Ok (l, map (node_level h) l)) =
    Ok ([1; 3; 2; 4]%positive, [0; 1; 1; 2]%Z).
Proof. vm_compute. reflexivity. Qed.

(** C17. The iterator loop that moves the nodes of a level together computes a
    stable grouping: on a list whose levels lie in [0 .. max_level] the result
    is, for each level in turn, the nodes of that level in their old order. *)
Theorem group_levels_stable h l (max_level : nat) :
  (∀ x, x ∈ l → is_Some (h !! x)) → (∀ x, x ∈ l → 0 ≤ node_level h x ≤ Z.of_nat max_level)%Z →
  group_levels h (seqZ 0 (Z.of_nat max_level)) [] l =
    Ok (seqZ 0 (Z.of_nat max_level + 1) ≫= fun i => filter (fun x => node_level h x = i) l).
Proof. intros Hl Hb. by rewrite group_levels_run. Qed.

Lemma group_levels_stable_witness :
  group_levels (levelled diamond [1; 3; 2; 4]%positive) (seqZ 0 (Z.of_nat 2)) [] [4; 2; 1; 3]%positive
    = Ok [1; 2; 3; 4]%positive.
Proof.
  rewrite (group_levels_stable (levelled diamond [1; 3; 2; 4]%positive) [4; 2; 1; 3]%positive 2).
  - vm_compute. reflexivity.
  - intros x Hx. apply is_Some_levelled. rewrite !elem_of_cons, elem_of_nil in Hx.
    destruct Hx as [->|[->|[->|[->|[]]]]]; by eexists.
  - intros x Hx. rewrite !elem_of_cons, elem_of_nil in Hx.
    destruct Hx as [->|[->|[->|[->|[]]]]]; vm_compute; split; intros H; discriminate H.
Defined.
