(* ===== verification/CriticalPath.v ===== *)
(** * The critical-path metric (CriticalPathMetric, metrics.h and metrics.cc)

    [computeCriticalPath] sorts the graph, computes for every node the longest
    accumulated time and the longest number of edges of a path that ends there,
    records the predecessor that realises the time, and marks the nodes of the
    best path.  Times are binary64 numbers and are accumulated in the order the
    program adds them. *)
From stdpp Require Import base numbers gmap list sorting relations.
From Stdlib Require Import ZArith Lia.
From S2P Require Import Prelude Float64 Graph Dag TopoSort.

(** ** The program *)

(** One iteration of the loop over the entry edges of [curr_node]. *)
Definition relax_entry (curr_node : positive) (st : heap * double * Z) (source : positive)
  : res (heap * double * Z) :=
  let '(h, max_curr_path_time, max_curr_path_len) := st in
  source_node ← lookup_obj h source;
  path_inc ← int_add (_pathLength source_node) 1;
  let max_curr_path_len :=
    if (max_curr_path_len <? path_inc)%Z then path_inc else max_curr_path_len in
  c ← lookup_obj h curr_node;
  let time_inc := dadd (_pathTime source_node) (_totalTime c) in
  if dltb max_curr_path_time time_inc then
    Ok (<[curr_node := setPrevCritical (Some source) c]> h, time_inc, max_curr_path_len)
  else Ok (h, max_curr_path_time, max_curr_path_len).

(** The state of the scan: the store, the two lengths and [last_critical_node]. *)
Record cp_state : Type := MkCp {
  cp_heap : heap;
  cp_time_len : double;
  cp_len : Z;
  cp_last : option positive }.

(** One iteration of the loop over the sorted list. *)
Definition scan_node (st : cp_state) (curr_node : positive) : res cp_state :=
  c ← lookup_obj (cp_heap st) curr_node;
  '(h, max_curr_path_time, max_curr_path_len) ←
    res_foldl (relax_entry curr_node) (cp_heap st, _totalTime c, 0%Z) (AdjacencyIterator c true);
  c ← lookup_obj h curr_node;
  let h := <[curr_node := setPathTime max_curr_path_time (setPathLength max_curr_path_len c)]> h in
  let len := if (cp_len st <? max_curr_path_len)%Z then max_curr_path_len else cp_len st in
  if dltb (cp_time_len st) max_curr_path_time then
    Ok {| cp_heap := h; cp_time_len := max_curr_path_time; cp_len := len; cp_last := Some curr_node |}
  else
    Ok {| cp_heap := h; cp_time_len := cp_time_len st; cp_len := len; cp_last := cp_last st |}.

(** The loop that marks the critical nodes, following [_prevCritical]; the
    fuel bounds the number of iterations. *)
Fixpoint mark_critical (fuel : nat) (h : heap) (last : option positive) (total : double)
  : res (heap * double) :=
  match last with
  | None => Ok (h, total)
  | Some l =>
      match fuel with
      | O => NoFuel
      | S fuel =>
          n ← lookup_obj h l;
          let h := <[l := setIsCritical true n]> h in
          mark_critical fuel h (_prevCritical n) (dadd total (_totalTime n))
      end
  end.

(** The fields of the metric object; [_critical_path_len] is not initialised by
    the constructor. *)
Record CriticalPathMetric : Type := MkCriticalPathMetric {
  _critical_path_time_len : double;
  _critical_path_len : option Z }.

Definition new_CriticalPathMetric : CriticalPathMetric :=
  {| _critical_path_time_len := d_of_Z (-1); _critical_path_len := None |}.

(** [computeCriticalPath]; also returns the total time it reports on [cerr]. *)
Definition computeCriticalPath (h : heap) (g : node_map) : res (heap * CriticalPathMetric * double) :=
  '(h, topo_list) ← topoSort h g;
  st ← res_foldl scan_node
    {| cp_heap := h; cp_time_len := dzero; cp_len := 0; cp_last := None |} topo_list;
  '(h, total) ← mark_critical (size h) (cp_heap st) (cp_last st) dzero;
  Ok (h, {| _critical_path_time_len := cp_time_len st; _critical_path_len := Some (cp_len st) |}, total).

(** [getMetric]: computes on the first call only. *)
Definition CriticalPathMetric_getMetric (h : heap) (g : node_map) (m : CriticalPathMetric)
  : res (heap * CriticalPathMetric * double) :=
  if dltb (_critical_path_time_len m) dzero then
    '(h, m, _) ← computeCriticalPath h g;
    Ok (h, m, _critical_path_time_len m)
  else Ok (h, m, _critical_path_time_len m).

(** ** The values the scan computes *)

(** Path time, path length and predecessor of a node. *)
Abbreviation cpv := (double * Z * option positive)%type.

Definition setCp (v : cpv) (n : Node) : Node :=
  setPathTime v.1.1 (setPathLength v.1.2 (setPrevCritical v.2 n)).

(** A graph on which no critical path has been computed. *)
Definition unscanned (h : heap) : Prop :=
  ∀ l n, h !! l = Some n → _pathLength n = 0%Z ∧ _pathTime n = dzero ∧ _prevCritical n = None.

Definition total_time (h : heap) (x : positive) : double := from_option _totalTime dzero (h !! x).

(** Time and length of a node that has been scanned, or the initial ones. *)
Definition cp_time (m : gmap positive cpv) (s : positive) : double :=
  from_option (fun v => v.1.1) dzero (m !! s).
Definition cp_length (m : gmap positive cpv) (s : positive) : Z :=
  from_option (fun v => v.1.2) 0%Z (m !! s).

Definition relax (m : gmap positive cpv) (tx : double) (acc : cpv) (s : positive) : cpv :=
  let l := if (acc.1.2 <? cp_length m s + 1)%Z then (cp_length m s + 1)%Z else acc.1.2 in
  let time_inc := dadd (cp_time m s) tx in
  if dltb acc.1.1 time_inc then (time_inc, l, Some s) else (acc.1.1, l, acc.2).

Definition cp_of (h : heap) (m : gmap positive cpv) (x : positive) : cpv :=
  foldl (relax m (total_time h x)) (total_time h x, 0%Z, None) (preds h x).

Lemma cp_of_local h m m' x :
  (∀ s, s ∈ preds h x → m !! s = m' !! s) → cp_of h m x = cp_of h m' x.
Proof.
  unfold cp_of. generalize (total_time h x, 0%Z, @None positive).
  induction (preds h x) as [|s l IH]; intros z H; [done|]. simpl.
  assert (relax m (total_time h x) z s = relax m' (total_time h x) z s) as ->.
  { unfold relax, cp_time, cp_length. by rewrite H by (by left). }
  apply IH. intros. apply H. by right.
Qed.

Section scan.
Context (h : heap) (Hlive : ∀ x s, s ∈ preds h x → is_Some (h !! s)) (Hun : unscanned h).

Abbreviation ov m := (overlay setCp m h).

Lemma lookup_ov m x n :
  ov m !! x = Some n →
  _pathTime n = cp_time m x ∧ _pathLength n = cp_length m x ∧ _totalTime n = total_time h x ∧
  (m !! x = None → _prevCritical n = None) ∧ AdjacencyIterator n true = preds h x.
Proof.
  rewrite lookup_overlay. unfold cp_time, cp_length, total_time, preds, entries.
  destruct (h !! x) as [n0|] eqn:E; simpl; intros [= <-]. destruct (Hun x n0 E) as (? & ? & ?).
  destruct (m !! x) as [v|]; simpl; split_and!; try done.
Qed.

Lemma lookup_ov_prev m x c p s :
  ov m !! x = Some c → is_Some (h !! s) →
  ∃ sn, <[x := setPrevCritical p c]> (ov m) !! s = Some sn ∧
    _pathTime sn = cp_time m s ∧ _pathLength sn = cp_length m s.
Proof.
  intros Hc Hs. rewrite lookup_insert. case_decide as Hd.
  - subst. destruct (lookup_ov m s c Hc) as (? & ? & _). eexists; split; [done|]. done.
  - apply (is_Some_overlay setCp m) in Hs as [sn Hsn]. destruct (lookup_ov m s sn Hsn) as (? & ? & _).
    eauto.
Qed.

Lemma relax_entry_run m x c s (k : Z) (acc : cpv) :
  ov m !! x = Some c → is_Some (h !! s) →
  (∀ y v, m !! y = Some v → 0 ≤ v.1.2 < k)%Z → (0 < k ≤ INT_MAX)%Z → (0 ≤ acc.1.2 ≤ k)%Z →
  let acc' := relax m (total_time h x) acc s in
  relax_entry x (<[x := setPrevCritical acc.2 c]> (ov m), acc.1.1, acc.1.2) s =
    Ok (<[x := setPrevCritical acc'.2 c]> (ov m), acc'.1.1, acc'.1.2) ∧ (0 ≤ acc'.1.2 ≤ k)%Z.
Proof.
  intros Hc Hs Hm Hk Hacc. destruct acc as [[t len] p]. cbn [fst snd] in *.
  destruct (lookup_ov_prev m x c p s) as (sn & Hsn & Ht & Hpl); [done..|].
  unfold relax_entry. run_step. rewrite Hpl, Ht.
  assert (0 ≤ cp_length m s < k)%Z.
  { unfold cp_length. destruct (m !! s) as [v|] eqn:Ev; simpl; [by apply (Hm s)|lia]. }
  rewrite int_add_Ok by (unfold INT_MAX, INT_MIN in *; lia). cbn [mbind res_bind].
  rewrite (lookup_obj_Some _ x (setPrevCritical p c)) by (by rewrite lookup_insert_eq).
  cbn [mbind res_bind]. change (_totalTime (setPrevCritical p c)) with (_totalTime c).
  destruct (lookup_ov m x c Hc) as (_ & _ & Htt & _). rewrite Htt.
  unfold relax. cbn [fst snd].
  destruct (Z.ltb_spec len (cp_length m s + 1)), (dltb t _); cbn [fst snd];
    rewrite ?insert_insert_eq; (split; [done|lia]).
Qed.

Lemma relax_entries_run m x c l (k : Z) (acc : cpv) :
  ov m !! x = Some c → (∀ s, s ∈ l → is_Some (h !! s)) →
  (∀ y v, m !! y = Some v → 0 ≤ v.1.2 < k)%Z → (0 < k ≤ INT_MAX)%Z → (0 ≤ acc.1.2 ≤ k)%Z →
  let acc' := foldl (relax m (total_time h x)) acc l in
  res_foldl (relax_entry x) (<[x := setPrevCritical acc.2 c]> (ov m), acc.1.1, acc.1.2) l =
    Ok (<[x := setPrevCritical acc'.2 c]> (ov m), acc'.1.1, acc'.1.2) ∧ (0 ≤ acc'.1.2 ≤ k)%Z.
Proof.
  intros Hc Hl Hm Hk. revert acc. induction l as [|s l IH]; intros acc Hacc; [done|].
  cbn [res_foldl foldl].
  destruct (relax_entry_run m x c s k acc) as [-> Hb]; [done|apply Hl; by left|done..|].
  cbn [mbind res_bind]. apply IH; [|done]. intros. apply Hl. by right.
Qed.

Lemma scan_node_run m x (k : Z) t len last :
  is_Some (h !! x) → m !! x = None → (∀ y v, m !! y = Some v → 0 ≤ v.1.2 < k)%Z →
  (0 < k ≤ INT_MAX)%Z →
  let v := cp_of h m x in
  scan_node {| cp_heap := ov m; cp_time_len := t; cp_len := len; cp_last := last |} x =
    Ok {| cp_heap := ov (<[x := v]> m);
          cp_time_len := if dltb t v.1.1 then v.1.1 else t;
          cp_len := Z.max len v.1.2;
          cp_last := if dltb t v.1.1 then Some x else last |} ∧ (0 ≤ v.1.2 ≤ k)%Z.
Proof.
  intros Hx Hmx Hm Hk. apply (is_Some_overlay setCp m) in Hx as [c Hc].
  destruct (lookup_ov m x c Hc) as (_ & _ & Htt & Hprev & Hadj).
  unfold scan_node. cbn [cp_heap cp_time_len cp_len cp_last]. run_step. rewrite Hadj, Htt.
  destruct (relax_entries_run m x c (preds h x) k (total_time h x, 0%Z, None)) as [E Hb];
    [done|apply Hlive|done..|simpl; lia|].
  fold (cp_of h m x) in E, Hb. cbn [fst snd] in E.
  assert (<[x := setPrevCritical None c]> (ov m) = ov m) as Hid.
  { rewrite <- (Hprev Hmx). rewrite insert_id; [done|]. rewrite Hc. f_equal. by destruct c. }
  rewrite Hid in E. rewrite E. cbn [mbind res_bind].
  rewrite (lookup_obj_Some _ x (setPrevCritical (cp_of h m x).2 c)) by (by rewrite lookup_insert_eq).
  cbn [mbind res_bind]. rewrite insert_insert_eq.
  change (setPathTime _ _) with (setCp (cp_of h m x) c).
  rewrite (overlay_insert setCp) by done. split; [|done].
  assert ((if (len <? (cp_of h m x).1.2)%Z then (cp_of h m x).1.2 else len) = Z.max len (cp_of h m x).1.2) as ->.
  { destruct (Z.ltb_spec len (cp_of h m x).1.2); lia. }
  by destruct (dltb t _).
Qed.
End scan.

(** ** What the recorded values mean *)

(** All node times are finite numbers. *)
Definition finite_times (h : heap) : Prop := ∀ l n, h !! l = Some n → is_fin (_totalTime n).

Definition nums (m : gmap positive cpv) : Prop := ∀ y v, m !! y = Some v → is_num v.1.1.

Lemma total_time_fin h x : finite_times h → is_fin (total_time h x).
Proof.
  intros Hf. unfold total_time. destruct (h !! x) eqn:E; simpl; [by eapply Hf|apply dzero_fin].
Qed.

Lemma cp_time_num m s : nums m → is_num (cp_time m s).
Proof.
  intros Hm. unfold cp_time. destruct (m !! s) eqn:E; simpl; [by eapply Hm|done].
Qed.

(** The accumulated time [T] after the entries [l], started at [t0]. *)
Lemma relax_time m tx l (acc : cpv) :
  nums m → is_fin tx → is_num acc.1.1 → (dval tx ≤ dval acc.1.1)%Z →
  let acc' := foldl (relax m tx) acc l in
  is_num acc'.1.1 ∧ (dval acc.1.1 ≤ dval acc'.1.1)%Z ∧
  (∀ s, s ∈ l → dval (dadd (cp_time m s) tx) ≤ dval acc'.1.1)%Z ∧
  (acc'.1.1 = acc.1.1 ∧ acc'.2 = acc.2 ∨
   ∃ s, s ∈ l ∧ acc'.2 = Some s ∧ acc'.1.1 = dadd (cp_time m s) tx ∧ is_Some (m !! s)).
Proof.
  intros Hm Htx. revert acc. induction l as [|s l IH]; intros acc Hn Hge; cbn [foldl].
  - split_and!; [done|lia|set_solver|by left].
  - assert (Hi : is_num (dadd (cp_time m s) tx)) by (apply dadd_num; [by apply cp_time_num|done]).
    assert (Hr : is_num (relax m tx acc s).1.1 ∧ (dval acc.1.1 ≤ dval (relax m tx acc s).1.1)%Z ∧
      (dval (dadd (cp_time m s) tx) ≤ dval (relax m tx acc s).1.1)%Z ∧
      ((relax m tx acc s).1.1 = acc.1.1 ∧ (relax m tx acc s).2 = acc.2 ∨
       (relax m tx acc s).2 = Some s ∧ (relax m tx acc s).1.1 = dadd (cp_time m s) tx ∧ is_Some (m !! s))).
    { unfold relax. rewrite dltb_val by done.
      destruct (Z.ltb_spec (dval acc.1.1) (dval (dadd (cp_time m s) tx))) as [Hlt|Hle]; cbn [fst snd].
      - split_and!; [done|lia|lia|]. right. split_and!; [done|done|].
        unfold cp_time in *. destruct (m !! s) eqn:E; [by eexists|]. cbn [from_option] in Hlt.
        rewrite dadd_0_l in Hlt by done. lia.
      - split_and!; [done|lia|lia|]. by left. }
    destruct Hr as (R1 & R2 & R3 & R4).
    destruct (IH (relax m tx acc s) R1 ltac:(lia)) as (I1 & I2 & I3 & I4).
    split_and!; [done|lia| |].
    + intros y [->|Hy]%elem_of_cons; [lia|by apply I3].
    + destruct I4 as [[E1 E2]|(y & Hy & ? & ? & ?)].
      * rewrite E1, E2. destruct R4 as [?|(? & ? & ?)]; [by left|].
        right. exists s. split; [by left|done].
      * right. exists y. split; [by right|done].
Qed.

Lemma relax_length m tx l (acc : cpv) :
  let acc' := foldl (relax m tx) acc l in
  (acc.1.2 ≤ acc'.1.2)%Z ∧ (∀ s, s ∈ l → cp_length m s + 1 ≤ acc'.1.2)%Z ∧
  (acc'.1.2 = acc.1.2 ∨ ∃ s, s ∈ l ∧ acc'.1.2 = (cp_length m s + 1)%Z).
Proof.
  revert acc. induction l as [|s l IH]; intros acc; cbn [foldl].
  - split_and!; [lia|set_solver|by left].
  - assert (Hr : (relax m tx acc s).1.2 = Z.max acc.1.2 (cp_length m s + 1)).
    { unfold relax. destruct (Z.ltb_spec acc.1.2 (cp_length m s + 1)), (dltb _ _); simpl; lia. }
    destruct (IH (relax m tx acc s)) as (I1 & I2 & I3). rewrite Hr in *. split_and!; [lia| |].
    + intros y [->|Hy]%elem_of_cons; [lia|by apply I2].
    + destruct I3 as [->|(y & Hy & E)]; [|right; exists y; split; [by right|done]].
      destruct (Z.max_spec acc.1.2 (cp_length m s + 1)) as [[_ ->]|[_ ->]]; [|by left].
      right. exists s. split; [by left|done].
Qed.

Section values.
Context (h : heap) (Hf : finite_times h).

Lemma cp_of_time m x :
  nums m →
  let v := cp_of h m x in
  is_num v.1.1 ∧ (dval (total_time h x) ≤ dval v.1.1)%Z ∧
  (∀ s, s ∈ preds h x → dval (dadd (cp_time m s) (total_time h x)) ≤ dval v.1.1)%Z ∧
  (v.1.1 = total_time h x ∧ v.2 = None ∨
   ∃ s, s ∈ preds h x ∧ v.2 = Some s ∧ v.1.1 = dadd (cp_time m s) (total_time h x) ∧ is_Some (m !! s)).
Proof.
  intros Hm v. pose proof (total_time_fin h x Hf) as Hx.
  destruct (relax_time m (total_time h x) (preds h x) (total_time h x, 0%Z, None)) as (H1 & H2 & H3 & H4);
    [done|done|by apply is_fin_num|done|].
  split_and!; done.
Qed.

Lemma eval_nums m l : nums m → nums (eval_order (cp_of h) m l).
Proof.
  revert m. induction l as [|x l IH]; intros m Hm; [done|]. apply IH.
  intros y v. rewrite lookup_insert. case_decide; [|apply Hm]. intros [= <-]. by apply cp_of_time.
Qed.

(** Predecessors recorded along a list come earlier in the list. *)
Lemma eval_prev_earlier l1 x l2 v s :
  NoDup (l1 ++ x :: l2) → eval_order (cp_of h) ∅ (l1 ++ x :: l2) !! x = Some v → v.2 = Some s →
  s ∈ l1 ∧ s ∈ preds h x.
Proof.
  intros (_ & Hdis & [Hx _]%NoDup_cons)%NoDup_app. rewrite eval_order_app. simpl.
  set (m := eval_order (cp_of h) ∅ l1).
  rewrite (eval_order_notin (cp_of h)), lookup_insert_eq by done. intros [= <-] Hs.
  assert (Hm : nums m) by (by apply eval_nums).
  destruct (cp_of_time m x Hm) as (_ & _ & _ & [[_ ?]|(s' & Hs' & E & _ & Hin)]); [congruence|].
  assert (s' = s) as -> by congruence. split; [|done].
  destruct (decide (s ∈ l1)); [done|]. unfold m in Hin. rewrite eval_order_notin in Hin by done.
  by destruct Hin.
Qed.
End values.

(** ** The scan *)

Section scan_list.
Context (h : heap) (Hlive : ∀ x s, s ∈ preds h x → is_Some (h !! s)) (Hun : unscanned h).
Context (Hf : finite_times h).

(** The accumulators [_critical_path_time_len], [_critical_path_len] and
    [last_critical_node] after the nodes [l] with the values [m]. *)
Definition acc_ok (m : gmap positive cpv) (l : list positive) (st st' : cp_state) : Prop :=
  is_num (cp_time_len st') ∧ (dval (cp_time_len st) ≤ dval (cp_time_len st'))%Z ∧
  (∀ x, x ∈ l → dval (cp_time m x) ≤ dval (cp_time_len st'))%Z ∧
  (cp_time_len st' = cp_time_len st ∧ cp_last st' = cp_last st ∨
   ∃ x, x ∈ l ∧ cp_last st' = Some x ∧ cp_time_len st' = cp_time m x ∧
     (dval (cp_time_len st) < dval (cp_time_len st'))%Z) ∧
  (cp_len st ≤ cp_len st')%Z ∧ (∀ x, x ∈ l → cp_length m x ≤ cp_len st')%Z ∧
  (cp_len st' = cp_len st ∨ ∃ x, x ∈ l ∧ cp_len st' = cp_length m x).

Lemma cp_at_head m x l :
  x ∉ l → eval_order (cp_of h) m (x :: l) !! x = Some (cp_of h m x).
Proof. intros Hx. simpl. by rewrite (eval_order_notin (cp_of h)), lookup_insert_eq. Qed.

Lemma acc_ok_cons m x l st st1 st2 :
  x ∉ l → nums m → is_num (cp_time_len st) →
  cp_time_len st1 = (if dltb (cp_time_len st) (cp_of h m x).1.1 then (cp_of h m x).1.1 else cp_time_len st) →
  cp_len st1 = Z.max (cp_len st) (cp_of h m x).1.2 →
  cp_last st1 = (if dltb (cp_time_len st) (cp_of h m x).1.1 then Some x else cp_last st) →
  acc_ok (eval_order (cp_of h) m (x :: l)) l st1 st2 →
  acc_ok (eval_order (cp_of h) m (x :: l)) (x :: l) st st2.
Proof.
  intros Hx Hm Hn Et El Elast (A1 & A2 & A3 & A4 & A5 & A6 & A7).
  destruct (cp_of_time h Hf m x Hm) as (Hv & _). pose proof (cp_at_head m x l Hx) as Hat.
  set (m' := eval_order (cp_of h) m (x :: l)) in *.
  assert (Ht : cp_time m' x = (cp_of h m x).1.1) by (unfold cp_time; by rewrite Hat).
  assert (Hl : cp_length m' x = (cp_of h m x).1.2) by (unfold cp_length; by rewrite Hat).
  rewrite dltb_val in Et, Elast by done.
  destruct (Z.ltb_spec (dval (cp_time_len st)) (dval (cp_of h m x).1.1)) as [Hlt|Hge].
  all: rewrite Et, El, Elast in *; unfold acc_ok; split_and!; try done; try lia.
  all: try (intros y [->|Hy]%elem_of_cons; [rewrite ?Ht, ?Hl; lia|by auto]).
  - destruct A4 as [[E1 E2]|(y & Hy & E1 & E2 & E3)]; right.
    + exists x. rewrite E1, Ht. split_and!; [by left|done..].
    + exists y. split_and!; [by right|done..|lia].
  - destruct A7 as [->|(y & Hy & E)]; [|right; exists y; split; [by right|done]].
    destruct (Z.max_spec (cp_len st) (cp_of h m x).1.2) as [[_ ->]|[_ ->]]; [|by left].
    right. exists x. split; [by left|done].
  - destruct A4 as [[E1 E2]|(y & Hy & E1 & E2 & E3)]; [by left|].
    right. exists y. split_and!; [by right|done..].
  - destruct A7 as [->|(y & Hy & E)]; [|right; exists y; split; [by right|done]].
    destruct (Z.max_spec (cp_len st) (cp_of h m x).1.2) as [[_ ->]|[_ ->]]; [|by left].
    right. exists x. split; [by left|done].
Qed.

Lemma scan_run l m (k : Z) st :
  NoDup l → (∀ x, x ∈ l → is_Some (h !! x) ∧ m !! x = None) → nums m →
  (∀ y v, m !! y = Some v → 0 ≤ v.1.2 < k)%Z → (0 < k)%Z → (k + Z.of_nat (length l) ≤ INT_MAX)%Z →
  cp_heap st = overlay setCp m h → is_num (cp_time_len st) →
  ∃ st', res_foldl scan_node st l = Ok st' ∧
    cp_heap st' = overlay setCp (eval_order (cp_of h) m l) h ∧
    acc_ok (eval_order (cp_of h) m l) l st st'.
Proof.
  revert m k st. induction l as [|x l IH]; intros m k st Hnd Hl Hm Hb Hk Hsz Hh Hn.
  - exists st. split_and!; [done|done|]. unfold acc_ok.
    split_and!; try done; try (intros ? ?%elem_of_nil; done); by left.
  - apply NoDup_cons in Hnd as [Hx Hnd]. cbn [length] in Hsz.
    destruct (Hl x) as [Hlx Hmx]; [by left|].
    destruct (scan_node_run h Hlive Hun m x k (cp_time_len st) (cp_len st) (cp_last st)) as [E Hv];
      [done..|lia|].
    rewrite <- Hh in E. destruct st as [sh tm len last]; cbn [cp_heap cp_time_len cp_len cp_last] in *.
    cbn [res_foldl]. rewrite E. cbn [mbind res_bind].
    destruct (cp_of_time h Hf m x Hm) as (Hvn & _).
    match type of E with _ = Ok ?s => set (st1 := s) in * end.
    destruct (IH (<[x := cp_of h m x]> m) (k + 1)%Z st1) as (st' & E' & Hh' & Hacc);
      [done| | | |lia|lia|reflexivity| |].
    + intros y Hy. destruct (Hl y) as [? ?]; [by right|]. split; [done|].
      rewrite lookup_insert_ne; [done|]. intros ->. done.
    + intros y v. rewrite lookup_insert. case_decide; [by intros [= <-]|apply Hm].
    + intros y v. rewrite lookup_insert. case_decide; [intros [= <-]; lia|]. intros Hy%Hb. lia.
    + cbn [st1 cp_time_len]. by destruct (dltb _ _).
    + exists st'. split; [exact E'|]. split; [exact Hh'|].
      by apply (acc_ok_cons m x l _ st1).
Qed.
End scan_list.

(** ** Marking the critical nodes *)

(** [p] is the chain of recorded predecessors from [x] on. *)
Inductive chain (m : gmap positive cpv) : positive → list positive → Prop :=
  | chain_end x v : m !! x = Some v → v.2 = None → chain m x [x]
  | chain_step x v s p : m !! x = Some v → v.2 = Some s → chain m s p → chain m x (x :: p).

Lemma chain_exists h l x :
  finite_times h → NoDup l → x ∈ l →
  ∃ p, chain (eval_order (cp_of h) ∅ l) x p ∧ NoDup p ∧ (∀ y, y ∈ p → y ∈ l).
Proof.
  intros Hf Hnd (l1 & l2 & Hsplit)%list_elem_of_split.
  assert (∃ p, chain (eval_order (cp_of h) ∅ l) x p ∧ NoDup p ∧ (∀ y, y ∈ p → y ∈ l1 ∨ y = x)) as HH.
  { revert x l1 l2 Hsplit.
    assert (∀ k l1 x l2, length l1 < k → l = l1 ++ x :: l2 →
      ∃ p, chain (eval_order (cp_of h) ∅ l) x p ∧ NoDup p ∧ (∀ y, y ∈ p → y ∈ l1 ∨ y = x)) as HI.
    { induction k as [|k IH]; intros l1 x l2 Hk Hs; [lia|].
      destruct (eval_order_dom (cp_of h) l x) as [v Hv]; [subst; apply elem_of_app; right; by left|].
      destruct (v.2) as [s|] eqn:E.
      - destruct (eval_prev_earlier h Hf l1 x l2 v s) as [Hin _]; [by subst..|].
        apply list_elem_of_split in Hin as (a & b & ->).
        destruct (IH a s (b ++ x :: l2)) as (p & Hp & Hndp & Hsub);
          [rewrite length_app in Hk; simpl in Hk; lia|subst l; by rewrite <- app_assoc|].
        assert (∀ y, y ∈ p → y ∈ a ++ s :: b) as Hsub'.
        { intros y [?| ->]%Hsub; apply elem_of_app; [by left|right; by left]. }
        exists (x :: p). split_and!; [by eapply chain_step| |].
        + apply NoDup_cons. split; [|done]. intros Hx%Hsub'.
          subst l. apply NoDup_app in Hnd as (_ & Hdis & _). apply (Hdis x); [done|by left].
        + intros y [->|Hy]%elem_of_cons; [by right|left; by apply Hsub'].
      - exists [x]. split_and!; [by eapply chain_end|apply NoDup_singleton|].
        intros y ->%list_elem_of_singleton. by right. }
    intros x l1 l2 Hs. by apply (HI (S (length l1)) l1 x l2); [lia|]. }
  destruct HH as (p & ? & ? & Hsub). exists p. split_and!; [done..|].
  intros y [?| ->]%Hsub; subst l; apply elem_of_app; [by left|right; by left].
Qed.

Abbreviation crit := (flag (setIsCritical true)).

Lemma mark_critical_run h m x p :
  (∀ y, y ∈ p → is_Some (h !! y)) → chain m x p → ∀ fuel V tot, length p ≤ fuel →
  mark_critical fuel (crit V (overlay setCp m h)) (Some x) tot =
    Ok (crit (list_to_set p ∪ V) (overlay setCp m h), foldl dadd tot (map (total_time h) p)).
Proof.
  intros Hl Hc. induction Hc as [x v Hv E|x v s p Hv E Hc IH]; intros fuel V tot Hfuel;
    (destruct fuel as [|fuel]; [simpl in Hfuel; lia|]); cbn [mark_critical].
  all: assert (is_Some (h !! x)) as [n Hn] by (apply Hl; by left).
  all: assert (crit V (overlay setCp m h) !! x =
         Some (if decide (x ∈ V) then setIsCritical true (setCp v n) else setCp v n)) as Hx
       by (by rewrite lookup_flag, lookup_overlay, Hn; simpl; rewrite Hv).
  all: rewrite (lookup_obj_Some _ _ _ Hx); cbn [mbind res_bind].
  all: rewrite (flag_insert (setIsCritical true)) by done.
  all: assert (total_time h x = _totalTime (if decide (x ∈ V) then setIsCritical true (setCp v n) else setCp v n))
       as Ht by (unfold total_time; rewrite Hn; by case_decide).
  all: assert (_prevCritical (if decide (x ∈ V) then setIsCritical true (setCp v n) else setCp v n) = v.2)
       as -> by (by case_decide).
  all: rewrite E, <- Ht.
  - destruct fuel; simpl; by rewrite union_empty_r_L.
  - rewrite IH; [|intros; apply Hl; by right|simpl in Hfuel; lia]. simpl. do 3 f_equal. set_solver.
Qed.

(** ** The whole computation *)

Lemma total_time_levelled h tl x : total_time (levelled h tl) x = total_time h x.
Proof.
  unfold total_time, levelled. rewrite lookup_overlay, lookup_flag.
  destruct (h !! x); [|done]. simpl. by destruct (levels_on _ _ !! x), (decide _).
Qed.

Lemma preds_levelled h tl x : preds (levelled h tl) x = preds h x.
Proof.
  unfold levelled, preds. rewrite entries_overlay by done. unfold flag. by rewrite entries_overlay.
Qed.

Lemma cp_of_levelled h tl m x : cp_of (levelled h tl) m x = cp_of h m x.
Proof. unfold cp_of. by rewrite preds_levelled, total_time_levelled. Qed.

Lemma levelled_inv h tl x n' :
  levelled h tl !! x = Some n' → ∃ n, h !! x = Some n ∧ _totalTime n' = _totalTime n ∧
    _pathLength n' = _pathLength n ∧ _pathTime n' = _pathTime n ∧ _prevCritical n' = _prevCritical n ∧
    _isCritical n' = _isCritical n.
Proof.
  unfold levelled. rewrite lookup_overlay, lookup_flag.
  destruct (h !! x) as [n|]; simpl; intros [= <-]. exists n.
  by destruct (levels_on _ _ !! x), (decide _).
Qed.

Definition cp_init (h : heap) : cp_state :=
  {| cp_heap := h; cp_time_len := dzero; cp_len := 0; cp_last := None |}.

Definition cp_values (h : heap) (l : list positive) : gmap positive cpv :=
  eval_order (cp_of h) ∅ l.

(** The precondition of the metric: a graph fresh from the callbacks. *)
Record cp_ready (h : heap) (g : node_map) : Prop := {
  ready_wf : wf h;
  ready_table : table_ok h g;
  ready_unsorted : unsorted h;
  ready_unscanned : unscanned h;
  ready_finite : finite_times h;
  ready_size : (Z.of_nat (size h) < INT_MAX)%Z }.

Lemma NoDup_length_dom (h : heap) l :
  NoDup l → (∀ x, x ∈ l ↔ is_Some (h !! x)) → length l = size h.
Proof.
  intros Hnd Hl. rewrite <- size_dom, <- (size_list_to_set (C := gset positive) l Hnd). f_equal.
  apply set_eq. intros x. rewrite elem_of_list_to_set, elem_of_dom. apply Hl.
Qed.

(** The marking loop after a scan of all nodes. *)
Lemma mark_after_scan h h0 l st :
  finite_times h → NoDup l → (∀ x, x ∈ l ↔ is_Some (h0 !! x)) →
  cp_heap st = overlay setCp (cp_values h l) h0 → acc_ok (cp_values h l) l (cp_init h0) st →
  ∃ p total, mark_critical (size h0) (cp_heap st) (cp_last st) dzero =
      Ok (crit (list_to_set p) (overlay setCp (cp_values h l) h0), total) ∧
    match cp_last st with None => p = [] | Some x => chain (cp_values h l) x p end.
Proof.
  intros Hf Hnd Hl Hh Hacc. destruct (cp_last st) as [x|] eqn:Elast.
  - assert (x ∈ l) as Hx.
    { destruct Hacc as (_ & _ & _ & [[_ E]|(y & Hy & E & _)] & _); simpl in E; congruence. }
    destruct (chain_exists h l x Hf Hnd Hx) as (p & Hc & Hndp & Hsub).
    eexists p, _. split; [|done]. rewrite Hh, <- (flag_empty (setIsCritical true) (overlay _ _ _)) at 1.
    rewrite (mark_critical_run h0 (cp_values h l) x p); [by rewrite union_empty_r_L| |done|].
    + intros y Hy. by apply Hl, Hsub.
    + rewrite <- (NoDup_length_dom h0 l) by done. apply submseteq_length, NoDup_submseteq; done.
  - exists [], dzero. split; [|done]. rewrite Hh. simpl. rewrite flag_empty. by destruct (size h0).
Qed.

Lemma computeCriticalPath_run h g :
  cp_ready h g →
  ∃ tl l st p total,
    computeCriticalPath h g =
      Ok (crit (list_to_set p) (overlay setCp (cp_values h l) (levelled h tl)),
          {| _critical_path_time_len := cp_time_len st; _critical_path_len := Some (cp_len st) |}, total) ∧
    NoDup l ∧ (∀ x, x ∈ l ↔ is_Some (h !! x)) ∧ (acyclic (edge h) → topo_sorted (edge h) l) ∧
    acc_ok (cp_values h l) l (cp_init h) st ∧
    match cp_last st with None => p = [] | Some x => chain (cp_values h l) x p end.
Proof.
  intros [W T Hu Hun Hf Hsz].
  destruct (topoSort_run h g W T Hu ltac:(lia)) as (tl & l & Et & Hndt & Hlt & Hnd & Hl & Hs & Htopo & _).
  pose proof (NoDup_length_dom h l Hnd Hl) as Hlen.
  set (h0 := levelled h tl) in *.
  assert (Hf0 : finite_times h0).
  { intros x n' (n & Hn & -> & _)%levelled_inv. by eapply Hf. }
  assert (Hun0 : unscanned h0).
  { intros x n' (n & Hn & _ & -> & -> & -> & _)%levelled_inv. by eapply Hun. }
  assert (Hlive : ∀ x s, s ∈ preds h0 x → is_Some (h0 !! s)).
  { intros x s. unfold h0. rewrite preds_levelled, is_Some_levelled. intros He%elem_of_preds; [|done].
    by eapply edge_live_l. }
  assert (Hev : eval_order (cp_of h0) ∅ l = cp_values h l).
  { apply eval_order_ext. intros. apply cp_of_levelled. }
  destruct (scan_run h0 Hlive Hun0 Hf0 l ∅ 1 (cp_init h0)) as (st & Es & Hh & Hacc);
    [done| |done|done|lia|lia|by rewrite overlay_empty|done|].
  { intros x Hx. split; [by apply is_Some_levelled, Hl|done]. }
  rewrite Hev in Hh, Hacc.
  destruct (mark_after_scan h h0 l st) as (p & total & Em & Hp); [done..| |done|done|].
  { intros x. unfold h0. by rewrite is_Some_levelled. }
  exists tl, l, st, p, total. split_and!; try done.
  - unfold computeCriticalPath. rewrite Et. cbn [mbind res_bind]. fold (cp_init h0). rewrite Es.
    cbn [mbind res_bind]. by rewrite Em.
  - intros Hac. apply (level_sorted_topo h W tl); auto.
Qed.

(** ** Paths *)

(** [path_time h p x d]: [p] lists the nodes of a path that ends in [x], last
    node first, and [d] is the time accumulated along it from its first node
    on, with the roundings of binary64 addition. *)
Inductive path_time (h : heap) : list positive → positive → double → Prop :=
  | path_single x n : h !! x = Some n → path_time h [x] x (_totalTime n)
  | path_step p s d x n :
      path_time h p s d → edge h s x → h !! x = Some n → path_time h (x :: p) x (dadd d (_totalTime n)).

Lemma path_time_live h p x d : path_time h p x d → is_Some (h !! x).
Proof. inversion 1; eauto. Qed.

Lemma path_time_num h p x d : finite_times h → path_time h p x d → is_num d.
Proof.
  intros Hf. induction 1 as [x n Hn|p s d x n _ IH _ Hn].
  - by eapply is_fin_num, Hf.
  - apply dadd_num; [done|by eapply Hf].
Qed.

Section on_dag.
Context (h : heap) (W : wf h) (Hf : finite_times h).
Context (l : list positive) (Hnd : NoDup l) (Hl : ∀ x, x ∈ l ↔ is_Some (h !! x)).
Context (Ht : topo_sorted (edge h) l).

Abbreviation m := (cp_values h l).

Lemma cp_values_nums : nums m.
Proof. by apply eval_nums. Qed.

Lemma cp_values_solves x : x ∈ l → m !! x = Some (cp_of h m x).
Proof.
  intros Hx. apply (eval_order_solves (cp_of h) (preds h)); try done.
  - intros. by apply cp_of_local.
  - apply (topo_sorted_ext (edge h)); [|done]. intros. by rewrite elem_of_preds.
Qed.

Lemma cp_time_eq x : x ∈ l → cp_time m x = (cp_of h m x).1.1.
Proof. intros Hx. unfold cp_time at 1. by rewrite cp_values_solves. Qed.

Lemma cp_length_eq x : x ∈ l → cp_length m x = (cp_of h m x).1.2.
Proof. intros Hx. unfold cp_length at 1. by rewrite cp_values_solves. Qed.

(** No path into a node takes longer than the recorded time. *)
Lemma cp_time_upper p x d : path_time h p x d → (dval d ≤ dval (cp_time m x))%Z.
Proof.
  induction 1 as [x n Hn|p s d x n Hp IH He Hn].
  - rewrite cp_time_eq by (apply Hl; eauto).
    destruct (cp_of_time h Hf m x cp_values_nums) as (_ & H & _).
    unfold total_time in H. by rewrite Hn in H.
  - rewrite cp_time_eq by (apply Hl; eauto).
    destruct (cp_of_time h Hf m x cp_values_nums) as (_ & _ & H & _).
    transitivity (dval (dadd (cp_time m s) (_totalTime n))).
    + apply dadd_mono_l; [by eapply path_time_num|apply cp_time_num, cp_values_nums|by eapply Hf|done].
    + specialize (H s). unfold total_time in H. rewrite Hn in H. by apply H, elem_of_preds.
Qed.

(** The recorded predecessors form a path that takes the recorded time. *)
Lemma chain_path_time x p : chain m x p → x ∈ l → path_time h p x (cp_time m x).
Proof.
  induction 1 as [x v Hv E|x v s p Hv E Hc IH]; intros Hx;
    destruct (cp_of_time h Hf m x cp_values_nums) as (_ & _ & _ & Hcase);
    rewrite cp_time_eq by done;
    assert (v = cp_of h m x) as -> by (rewrite (cp_values_solves x Hx) in Hv; congruence);
    pose proof (proj1 (Hl x) Hx) as [n Hn];
    assert (total_time h x = _totalTime n) as Htt by (unfold total_time; by rewrite Hn).
  - destruct Hcase as [[-> _]|(s & _ & ? & _)]; [|congruence]. rewrite Htt. by constructor.
  - destruct Hcase as [[_ ?]|(s' & Hs' & ? & -> & _)]; [congruence|]. assert (s' = s) as -> by congruence.
    apply elem_of_preds in Hs'; [|done]. rewrite Htt. econstructor; [|done..].
    apply IH, Hl. by eapply edge_live_l.
Qed.

Lemma cp_time_attained x : x ∈ l → ∃ p, path_time h p x (cp_time m x).
Proof.
  intros Hx. destruct (chain_exists h l x Hf Hnd Hx) as (p & Hc & _).
  exists p. by apply chain_path_time.
Qed.

Lemma cp_length_edge s x : edge h s x → (cp_length m s + 1 ≤ cp_length m x)%Z.
Proof.
  intros He. rewrite (cp_length_eq x) by (apply Hl; by eapply edge_live_r).
  destruct (relax_length m (total_time h x) (preds h x) (total_time h x, 0%Z, None)) as (_ & H & _).
  apply H. by apply elem_of_preds.
Qed.

Lemma cp_length_nonneg x : (0 ≤ cp_length m x)%Z.
Proof.
  destruct (decide (x ∈ l)) as [Hx|Hx].
  - rewrite (cp_length_eq x Hx).
    by destruct (relax_length m (total_time h x) (preds h x) (total_time h x, 0%Z, None)) as (H & _).
  - unfold cp_length, cp_values. rewrite (eval_order_notin (cp_of h)) by done. done.
Qed.

(** The recorded length is the number of edges of a longest path. *)
Lemma cp_length_longest x :
  (∀ k y, nsteps (edge h) k y x → (Z.of_nat k ≤ cp_length m x)%Z) ∧
  ∃ y, nsteps (edge h) (Z.to_nat (cp_length m x)) y x.
Proof.
  apply longest_path; [apply cp_length_nonneg|apply cp_length_edge|].
  intros y. destruct (decide (y ∈ l)) as [Hy|Hy].
  - rewrite (cp_length_eq y Hy).
    destruct (relax_length m (total_time h y) (preds h y) (total_time h y, 0%Z, None))
      as (_ & _ & [H|(s & Hs & H)]); [by left|right].
    exists s. split; [by apply elem_of_preds|done].
  - left. unfold cp_length, cp_values. by rewrite (eval_order_notin (cp_of h)) by done.
Qed.
End on_dag.

(** ** A second run *)

Lemma visit_all_visited fuel h ns :
  (∀ x, x ∈ ns → ∃ n, h !! x = Some n ∧ _visited n = true) → visit_all fuel (h, []) ns = Ok (h, []).
Proof.
  unfold visit_all. induction ns as [|x ns IH]; intros Hv; [done|].
  destruct (Hv x) as (n & Hn & E); [by left|]. cbn [res_foldl fst]. run_step. rewrite E.
  cbn [mbind res_bind]. apply IH. intros. apply Hv. by right.
Qed.

Lemma computeCriticalPath_visited h g :
  table_ok h g → (∀ x n, h !! x = Some n → _visited n = true) →
  computeCriticalPath h g =
    Ok (h, {| _critical_path_time_len := dzero; _critical_path_len := Some 0%Z |}, dzero).
Proof.
  intros T Hv. unfold computeCriticalPath, topoSort, topoSort_fuel.
  rewrite visit_all_visited.
  - simpl. by destruct (size h).
  - intros x [n Hn]%(nodes_in_order_live h); [|done]. eauto.
Qed.

(** The result of a run still has the same table and only visited nodes. *)
Lemma cp_result_table h g V m tl : table_ok h g → table_ok (crit V (overlay setCp m (levelled h tl))) g.
Proof.
  intros T id l. rewrite (T id l). unfold levelled. rewrite lookup_flag, !lookup_overlay, lookup_flag.
  destruct (h !! l) as [n|]; simpl; [|naive_solver].
  assert (∀ n', _id n' = _id n → (∃ n0, Some n = Some n0 ∧ _id n0 = id) ↔ ∃ n0, Some n' = Some n0 ∧ _id n0 = id) as HH.
  { intros n' E. split; intros (? & [= <-] & <-); eexists; (split; [done|congruence]). }
  apply HH. by destruct (decide (l ∈ V)), (m !! l), (levels_on h tl !! l), (decide (l ∈ dom h)).
Qed.

Lemma cp_result_visited h V m tl x n' :
  crit V (overlay setCp m (levelled h tl)) !! x = Some n' → _visited n' = true.
Proof.
  unfold levelled. rewrite lookup_flag, !lookup_overlay, lookup_flag.
  destruct (h !! x) as [n|] eqn:Hn; simpl; intros [= <-].
  rewrite (decide_True (P := x ∈ dom h)) by (apply elem_of_dom; eauto).
  by destruct (decide (x ∈ V)), (m !! x), (levels_on h tl !! x).
Qed.

Lemma cp_result_values V m h x n v :
  crit V (overlay setCp m h) !! x = Some n → m !! x = Some v → _pathTime n = v.1.1 ∧ _pathLength n = v.1.2.
Proof.
  rewrite lookup_flag, lookup_overlay. destruct (h !! x); simpl; intros [= <-] Hv.
  rewrite Hv. by case_decide.
Qed.

(** ** The diamond graph again *)

Lemma diamond_ready : cp_ready diamond diamond_table.
Proof.
  split.
  - exact diamond_wf.
  - exact diamond_table_ok.
  - exact diamond_unsorted.
  - unfold unscanned.
    apply (heap_forall (fun n => _pathLength n = 0%Z ∧ _pathTime n = dzero ∧ _prevCritical n = None)).
    vm_compute. reflexivity.
  - unfold finite_times. apply (heap_forall (fun n => is_fin (_totalTime n))). vm_compute. reflexivity.
  - vm_compute. reflexivity.
Qed.

Lemma diamond_not_critical x n : diamond !! x = Some n → _isCritical n = false.
Proof. revert x n. apply (heap_forall (fun n => _isCritical n = false)). vm_compute. reflexivity. Qed.

(** The metric of the example, evaluated: the nodes take 1, 2, 3 and 4 units. *)
Example computeCriticalPath_diamond :
  (computeCriticalPath diamond diamond_table ≫= fun '(h, m, total) =>
    Ok (m, total, map (fun x => _isCritical <$> (h : heap) !! x) [1; 2; 3; 4]%positive)) =
  Ok ({| _critical_path_time_len := d_of_Z 8; _critical_path_len := Some 2%Z |}, d_of_Z 8,
      [Some true; Some false; Some true; Some true]).
Proof. vm_compute. reflexivity. Qed.

(** ** Properties *)

(** [computeCriticalPath] terminates on every well-formed graph with finite
    times, cyclic or not: the marking loop follows [_prevCritical] links that
    only lead to nodes earlier in the sorted list, so it never runs in circles. *)
Theorem computeCriticalPath_terminates h g :
  cp_ready h g → ∃ h' m total, computeCriticalPath h g = Ok (h', m, total).
Proof.
  intros R. destruct (computeCriticalPath_run h g R) as (tl & l & st & p & total & E & _). eauto.
Qed.

Lemma computeCriticalPath_terminates_witness :
  ∃ h' m total, computeCriticalPath diamond diamond_table = Ok (h', m, total).
Proof.
  apply (computeCriticalPath_terminates diamond diamond_table). exact diamond_ready.
Defined.

(** C5. The critical-path time is the maximum over all paths of the graph: no
    path accumulates more, and, unless it is zero, some path accumulates
    exactly this time. *)
Theorem critical_path_time_maximal h g :
  cp_ready h g → acyclic (edge h) →
  ∃ h' m total, computeCriticalPath h g = Ok (h', m, total) ∧
    (∀ p x d, path_time h p x d → dval d ≤ dval (_critical_path_time_len m))%Z ∧
    (_critical_path_time_len m = dzero ∨ ∃ p x, path_time h p x (_critical_path_time_len m)).
Proof.
  intros R Hac. destruct (computeCriticalPath_run h g R)
    as (tl & l & st & p & total & E & Hnd & Hl & Ht & (_ & _ & A3 & A4 & _) & _).
  destruct R as [W _ _ _ Hf _]. do 3 eexists. split; [exact E|]. cbn [_critical_path_time_len]. split.
  - intros q x d Hp. transitivity (dval (cp_time (cp_values h l) x)); [by apply cp_time_upper with q; auto|].
    apply A3, Hl. by eapply path_time_live.
  - destruct A4 as [[A4 _]|(x & Hx & _ & -> & _)]; [by left|right].
    destruct (cp_time_attained h W Hf l Hnd Hl (Ht Hac) x Hx) as [q Hq]. eauto.
Qed.

Lemma critical_path_time_maximal_witness :
  ∃ h' m total, computeCriticalPath diamond diamond_table = Ok (h', m, total) ∧
    ∀ p x d, path_time diamond p x d → (dval d ≤ dval (_critical_path_time_len m))%Z.
Proof.
  destruct (critical_path_time_maximal diamond diamond_table diamond_ready diamond_acyclic)
    as (h' & m & total & E & H & _).
  exists h', m, total. split; [exact E|exact H].
Defined.

(** The [_pathTime] left in a node is the maximum over the paths that end
    in the node, and the [_pathLength] is the number of edges of a longest such
    path. *)
Theorem node_path_time_maximal h g x :
  cp_ready h g → acyclic (edge h) → is_Some (h !! x) →
  ∃ h' m total n, computeCriticalPath h g = Ok (h', m, total) ∧ h' !! x = Some n ∧
    (∃ p, path_time h p x (_pathTime n)) ∧
    (∀ p d, path_time h p x d → dval d ≤ dval (_pathTime n))%Z ∧
    (∀ k y, nsteps (edge h) k y x → Z.of_nat k ≤ _pathLength n)%Z ∧
    (∃ y, nsteps (edge h) (Z.to_nat (_pathLength n)) y x).
Proof.
  intros R Hac Hx. destruct (computeCriticalPath_run h g R)
    as (tl & l & st & p & total & E & Hnd & Hl & Ht & _).
  destruct R as [W _ _ _ Hf _]. specialize (Ht Hac).
  pose proof (cp_values_solves h W l Hnd Ht x (proj2 (Hl x) Hx)) as Hv.
  assert (is_Some (crit (list_to_set p) (overlay setCp (cp_values h l) (levelled h tl)) !! x)) as [n Hn].
  { by apply is_Some_flag, is_Some_overlay, is_Some_levelled. }
  do 4 eexists. split; [exact E|]. split; [exact Hn|].
  destruct (cp_result_values _ _ _ _ _ _ Hn Hv) as [-> ->].
  rewrite <- (cp_time_eq h W l Hnd Ht), <- (cp_length_eq h W l Hnd Ht) by (by apply Hl).
  split_and!; [apply cp_time_attained; auto; by apply Hl|intros; by eapply cp_time_upper|by apply cp_length_longest..].
Qed.

Lemma node_path_time_maximal_witness :
  ∃ h' m total n, computeCriticalPath diamond diamond_table = Ok (h', m, total) ∧ h' !! 4%positive = Some n ∧
    ∃ p, path_time diamond p 4 (_pathTime n).
Proof.
  destruct (node_path_time_maximal diamond diamond_table 4 diamond_ready diamond_acyclic)
    as (h' & m & total & n & E & H & P & _); [by eexists|].
  exists h', m, total, n. split; [exact E|]. split; [exact H|exact P].
Defined.

(** C15. The reported critical-path length is the number of edges of a longest
    path of the graph: no path has more edges, and some path has this many. *)
Theorem critical_path_len_longest h g :
  cp_ready h g → acyclic (edge h) →
  ∃ h' m total len, computeCriticalPath h g = Ok (h', m, total) ∧ _critical_path_len m = Some len ∧
    (∀ k y x, nsteps (edge h) k y x → Z.of_nat k ≤ len)%Z ∧
    (∃ y x, nsteps (edge h) (Z.to_nat len) y x).
Proof.
  intros R Hac. destruct (computeCriticalPath_run h g R)
    as (tl & l & st & p & total & E & Hnd & Hl & Ht & (_ & _ & _ & _ & A5 & A6 & A7) & _).
  destruct R as [W _ _ _ Hf _]. specialize (Ht Hac).
  do 3 eexists. exists (cp_len st). split; [exact E|]. split; [done|].
  cbn [cp_init cp_len] in A5, A6, A7. split.
  - intros k y x Hk. destruct (cp_length_longest h W l Hnd Hl Ht x) as [H _]. specialize (H k y Hk).
    destruct (decide (x ∈ l)) as [Hx|Hx]; [specialize (A6 x Hx); lia|].
    unfold cp_length, cp_values in H. rewrite (eval_order_notin (cp_of h)) in H by done.
    change (Z.of_nat k ≤ 0)%Z in H. lia.
  - destruct A7 as [->|(x & _ & ->)]; [exists 1%positive, 1%positive; constructor|].
    destruct (cp_length_longest h W l Hnd Hl Ht x) as [_ [y Hy]]. eauto.
Qed.

Lemma critical_path_len_longest_witness :
  ∃ h' m total len, computeCriticalPath diamond diamond_table = Ok (h', m, total) ∧ _critical_path_len m = Some len ∧
    ∃ y x, nsteps (edge diamond) (Z.to_nat len) y x.
Proof.
  destruct (critical_path_len_longest diamond diamond_table diamond_ready diamond_acyclic)
    as (h' & m & total & len & E & H & _ & P).
  exists h', m, total, len. split; [exact E|]. split; [exact H|exact P].
Defined.

(** C13. The nodes marked critical are exactly the nodes of one path that
    accumulates the reported critical-path time; when that time is zero no node
    is marked. *)
Theorem critical_nodes_form_path h g :
  cp_ready h g → acyclic (edge h) → (∀ x n, h !! x = Some n → _isCritical n = false) →
  ∃ h' m total p, computeCriticalPath h g = Ok (h', m, total) ∧
    (∀ x n, h' !! x = Some n → _isCritical n = bool_decide (x ∈ p)) ∧
    (p = [] ∧ _critical_path_time_len m = dzero ∨ ∃ x, path_time h p x (_critical_path_time_len m)).
Proof.
  intros R Hac Hnc. destruct (computeCriticalPath_run h g R)
    as (tl & l & st & p & total & E & Hnd & Hl & Ht & (_ & _ & _ & A4 & _) & Hp).
  destruct R as [W _ _ _ Hf _]. specialize (Ht Hac).
  do 3 eexists. exists p. split; [exact E|]. split.
  - intros x n. rewrite lookup_flag, lookup_overlay.
    destruct (levelled h tl !! x) as [n0|] eqn:Hn0; simpl; intros [= <-].
    apply levelled_inv in Hn0 as (n1 & Hn1%Hnc & _ & _ & _ & _ & E1).
    destruct (decide (x ∈ (list_to_set p : gset positive))) as [Hd|Hd]; rewrite elem_of_list_to_set in Hd.
    + by rewrite bool_decide_true.
    + rewrite bool_decide_false by done. destruct (cp_values h l !! x); simpl; congruence.
  - cbn [_critical_path_time_len]. destruct A4 as [[-> Elast]|(x & Hx & Elast & -> & _)]; rewrite Elast in Hp.
    + left. by split.
    + right. exists x. by apply chain_path_time.
Qed.

Lemma critical_nodes_form_path_witness :
  ∃ h' m total (p : list positive), computeCriticalPath diamond diamond_table = Ok (h', m, total) ∧
    ∀ x n, h' !! x = Some n → _isCritical n = bool_decide (x ∈ p).
Proof.
  destruct (critical_nodes_form_path diamond diamond_table diamond_ready diamond_acyclic diamond_not_critical)
    as (h' & m & total & p & E & H & _).
  exists h', m, total, p. split; [exact E|exact H].
Defined.

(** C32. A second critical-path metric on the same graph reports zero: the first
    run leaves every [_visited] flag set, so the second sort returns an empty
    list. *)
Theorem second_critical_path_is_zero h g :
  cp_ready h g →
  ∃ h' m total, computeCriticalPath h g = Ok (h', m, total) ∧
    computeCriticalPath h' g =
      Ok (h', {| _critical_path_time_len := dzero; _critical_path_len := Some 0%Z |}, dzero).
Proof.
  intros R. destruct (computeCriticalPath_run h g R) as (tl & l & st & p & total & E & _).
  do 3 eexists. split; [exact E|]. apply computeCriticalPath_visited.
  - apply cp_result_table, R.
  - intros x n. apply cp_result_visited.
Qed.

Lemma second_critical_path_is_zero_witness :
  ∃ h' m total, computeCriticalPath diamond diamond_table = Ok (h', m, total) ∧
    computeCriticalPath h' diamond_table =
      Ok (h', {| _critical_path_time_len := dzero; _critical_path_len := Some 0%Z |}, dzero).
Proof.
  apply (second_critical_path_is_zero diamond diamond_table). exact diamond_ready.
Defined.

(** [getMetric] computes once: the first call computes the critical path and
    a second call on the same object returns the same value and leaves the
    store and the object alone. *)
Theorem getMetric_cached h g :
  cp_ready h g →
  ∃ h' m v, CriticalPathMetric_getMetric h g new_CriticalPathMetric = Ok (h', m, v) ∧
    v = _critical_path_time_len m ∧ CriticalPathMetric_getMetric h' g m = Ok (h', m, v).
Proof.
  intros R. destruct (computeCriticalPath_run h g R)
    as (tl & l & st & p & total & E & _ & _ & _ & (A1 & A2 & _) & _).
  unfold CriticalPathMetric_getMetric at 1. replace (dltb _ dzero) with true by reflexivity.
  rewrite E. cbn [mbind res_bind]. do 3 eexists. split; [done|]. split; [done|].
  unfold CriticalPathMetric_getMetric. cbn [_critical_path_time_len].
  rewrite dltb_val by (done || by apply is_fin_num, dzero_fin). simpl in A2.
  destruct (Z.ltb_spec (dval (cp_time_len st)) (dval dzero)); [simpl in *; lia|done].
Qed.

Lemma getMetric_cached_witness :
  ∃ h' m v, CriticalPathMetric_getMetric diamond diamond_table new_CriticalPathMetric = Ok (h', m, v) ∧
    CriticalPathMetric_getMetric h' diamond_table m = Ok (h', m, v).
Proof.
  destruct (getMetric_cached diamond diamond_table diamond_ready) as (h' & m & v & E & _ & H).
  exists h', m, v. split; [exact E|exact H].
Defined.
