(* ===== verification/Stats.v ===== *)
(** * Task-time statistics (compute_stats of graph.cc, TotalTimeMetric)

    [compute_stats] reduces a vector of times to their sum, average, standard
    deviation and median, and sorts the vector in place; the metric prints the
    order statistics of the sorted vector.  [std::sort] is not stable, so its
    result is determined up to the order of equivalent elements only: it is an
    interface, [StdSort], whose law is the guarantee of the C++ standard. *)
From stdpp Require Import base numbers gmap list sorting.
From Stdlib Require Import ZArith Lia SpecFloat.
From S2P Require Import Prelude Float64 Graph.

(** ** [std::sort] on doubles *)

Definition incomparable (x y : double) : bool := negb (dltb x y) && negb (dltb y x).

(** The precondition of [std::sort]: [<] is a strict weak order on the elements.
    It fails when a NaN meets two different numbers. *)
Definition strict_weak (arr : list double) : bool :=
  forallb (fun x => negb (dltb x x) &&
    forallb (fun y => forallb (fun z =>
      implb (dltb x y && dltb y z) (dltb x z) &&
      implb (incomparable x y && incomparable y z) (incomparable x z)) arr) arr) arr.

(** Not after: what a sorted vector satisfies. *)
Definition not_after (x y : double) : Prop := dltb y x = false.

#[export] Instance not_after_dec : RelDecision not_after.
Proof. intros x y. unfold not_after. apply _. Defined.

Class StdSort : Type := {
  std_sort : list double → list double;
  std_sort_perm : ∀ arr, strict_weak arr = true → std_sort arr ≡ₚ arr;
  std_sort_sorted : ∀ arr, strict_weak arr = true → StronglySorted not_after (std_sort arr) }.

Section program.
Context `{StdSort}.

(** ** The program *)

(** The outputs of [compute_stats]; [st_arr] is the sorted vector. *)
Record stats : Type := MkStats {
  st_arr : list double;
  st_total : double;
  st_avg : double;
  st_stddev : double;
  st_median : double }.

(** [arr[i]], undefined outside the vector. *)
Definition vec_at (arr : list double) (i : nat) : res double :=
  match arr !! i with Some x => Ok x | None => UB OutOfRange end.

(** The loops index the vector with an [unsigned int], up to its size modulo
    [2^32]. *)
Definition compute_stats (arr : list double) : res stats :=
  let arr_size := u32 (Z.of_nat (length arr)) in
  let scanned := take (Z.to_nat arr_size) arr in
  let total := foldl dadd dzero scanned in
  let avg := ddiv total (d_of_Z arr_size) in
  let variance := foldl (fun variance x =>
    let diff := dsub x avg in dadd variance (dmul diff diff)) dzero scanned in
  let variance := ddiv variance (d_of_Z arr_size) in
  let stddev := dsqrt variance in
  if strict_weak arr then
    let arr := std_sort arr in
    median ← vec_at arr (length arr / 2);
    median ← (if decide (length arr mod 2 = 0) then
        prev ← vec_at arr (length arr / 2 - 1);
        Ok (ddiv (dadd median prev) (d_of_Z 2))
      else Ok median);
    Ok (MkStats arr total avg stddev median)
  else UB BadOrder.

(** The metric object.  The constructor leaves the average, the deviation and
    the median indeterminate. *)
Record TotalTimeMetric : Type := MkTotalTimeMetric {
  _nodes_total_time : double;
  _nodes_avg_time : option double;
  _nodes_time_stddev : option double;
  _nodes_med_time : option double;
  _node_times_arr : list double;
  _numChunks : Z;
  _totalChunkTimes : double;
  _numExplicitTasks : Z;
  _totalExplicitTimes : double }.

Definition new_TotalTimeMetric : TotalTimeMetric :=
  MkTotalTimeMetric (d_of_Z (-1)) None None None [] 0 dzero 0 dzero.

(** The body of the loop over the nodes. *)
Definition count_node (h : heap) (m : TotalTimeMetric) (p : Z * positive) : res TotalTimeMetric :=
  curr_node ← lookup_obj h p.2;
  let t := _totalTime curr_node in
  let m := MkTotalTimeMetric (_nodes_total_time m) (_nodes_avg_time m) (_nodes_time_stddev m)
    (_nodes_med_time m) (_node_times_arr m ++ [t]) (_numChunks m) (_totalChunkTimes m)
    (_numExplicitTasks m) (_totalExplicitTimes m) in
  let m := if decide (_type curr_node = CHUNK_TASK) then
    MkTotalTimeMetric (_nodes_total_time m) (_nodes_avg_time m) (_nodes_time_stddev m)
      (_nodes_med_time m) (_node_times_arr m) (u32 (_numChunks m + 1)) (dadd (_totalChunkTimes m) t)
      (_numExplicitTasks m) (_totalExplicitTimes m) else m in
  Ok (if decide (_type curr_node = EXP_TASK) then
    MkTotalTimeMetric (_nodes_total_time m) (_nodes_avg_time m) (_nodes_time_stddev m)
      (_nodes_med_time m) (_node_times_arr m) (_numChunks m) (_totalChunkTimes m)
      (u32 (_numExplicitTasks m + 1)) (dadd (_totalExplicitTimes m) t) else m).

Definition TotalTimeMetric_init (h : heap) (g : node_map) (m : TotalTimeMetric) : res TotalTimeMetric :=
  let m := MkTotalTimeMetric dzero (_nodes_avg_time m) (_nodes_time_stddev m) (_nodes_med_time m)
    (_node_times_arr m) (_numChunks m) (_totalChunkTimes m) (_numExplicitTasks m)
    (_totalExplicitTimes m) in
  m ← res_foldl (count_node h) m (nodes_in_order g);
  if decide (0 < length (_node_times_arr m)) then
    st ← compute_stats (_node_times_arr m);
    Ok (MkTotalTimeMetric (st_total st) (Some (st_avg st)) (Some (st_stddev st)) (Some (st_median st))
      (st_arr st) (_numChunks m) (_totalChunkTimes m) (_numExplicitTasks m) (_totalExplicitTimes m))
  else Ok m.

Definition TotalTimeMetric_getMetric (m : TotalTimeMetric) : double := _nodes_total_time m.
End program.

(** ** An implementation of the interface *)

Lemma SFcompare_antisym x y : SFcompare y x = CompOpp <$> SFcompare x y.
Proof.
  destruct x as [[]|[]| |[] m e], y as [[]|[]| |[] m' e']; try done; simpl;
    rewrite (Z.compare_antisym e' e); destruct (e' ?= e)%Z; simpl; try done;
    fold (m ?= m')%positive (m' ?= m)%positive; by rewrite (Pos.compare_antisym m' m), ?CompOpp_involutive.
Qed.

#[export] Instance not_after_total : Total not_after.
Proof.
  intros x y. unfold not_after, dltb, SFltb. rewrite (SFcompare_antisym x y).
  destruct (SFcompare x y) as [[]|]; simpl; auto.
Qed.

Lemma Sorted_local {A} (R : relation A) l :
  (∀ x y z, x ∈ l → y ∈ l → z ∈ l → R x y → R y z → R x z) → Sorted R l → StronglySorted R l.
Proof.
  intros T Hs. induction l as [|x l IH]; [constructor|].
  apply Sorted_inv in Hs as [Hs Hd]. assert (StronglySorted R l) as HS.
  { apply IH; [|done]. intros a b c ???. by apply T; right. }
  constructor; [done|]. destruct l as [|y l]; [constructor|].
  apply HdRel_inv in Hd. constructor; [done|]. apply StronglySorted_inv in HS as [_ HS].
  rewrite Forall_forall in HS |- *. intros z Hz.
  apply (T x y z); [by left|by right; left|by do 2 right|done|by apply HS].
Qed.

Lemma strict_weak_trans arr x y z :
  strict_weak arr = true → x ∈ arr → y ∈ arr → z ∈ arr → not_after x y → not_after y z → not_after x z.
Proof.
  intros W Hx Hy Hz. unfold not_after.
  assert (∀ a b c, a ∈ arr → b ∈ arr → c ∈ arr → implb (dltb a b && dltb b c) (dltb a c) &&
    implb (incomparable a b && incomparable b c) (incomparable a c) = true) as T.
  { intros a b c Ha Hb Hc. unfold strict_weak in W. rewrite forallb_forall in W.
    specialize (W a (proj1 (list_elem_of_In _ _) Ha)). apply andb_true_iff in W as [_ W].
    rewrite forallb_forall in W. specialize (W b (proj1 (list_elem_of_In _ _) Hb)).
    rewrite forallb_forall in W. apply (W c). by apply list_elem_of_In. }
  intros H1 H2. destruct (dltb z x) eqn:H3; [exfalso|done].
  pose proof (T z x y Hz Hx Hy) as A. pose proof (T y z x Hy Hz Hx) as B.
  pose proof (T x y z Hx Hy Hz) as C. unfold incomparable in *.
  rewrite H1, H2, H3 in *. by destruct (dltb x y), (dltb y z), (dltb x z).
Qed.

(** Merge sort meets the specification of [std::sort]. *)
#[export, program] Instance merge_StdSort : StdSort := { std_sort := merge_sort not_after }.
Next Obligation. intros. apply merge_sort_Permutation. Qed.
Next Obligation.
  intros arr W. apply Sorted_local; [|apply Sorted_merge_sort, _].
  intros x y z. rewrite !(merge_sort_Permutation _ _). by apply strict_weak_trans.
Qed.

(** Numbers can be sorted. *)
Lemma strict_weak_num arr : Forall is_num arr → strict_weak arr = true.
Proof.
  intros Hn. rewrite Forall_forall in Hn. unfold strict_weak, incomparable.
  apply forallb_forall. intros x Hx%list_elem_of_In%Hn. rewrite dltb_val by done.
  rewrite Z.ltb_irrefl. simpl. apply forallb_forall. intros y Hy%list_elem_of_In%Hn.
  apply forallb_forall. intros z Hz%list_elem_of_In%Hn. rewrite !dltb_val by done.
  destruct (Z.ltb_spec (dval x) (dval y)), (Z.ltb_spec (dval y) (dval z)),
    (Z.ltb_spec (dval x) (dval z)), (Z.ltb_spec (dval y) (dval x)), (Z.ltb_spec (dval z) (dval y)),
    (Z.ltb_spec (dval z) (dval x)); simpl; try done; lia.
Qed.

(** ** Order statistics *)

(** [q] has rank [k] among [arr]: at least [k + 1] elements are not after it
    and at least [length arr - k] are not before it. *)
Definition has_rank (arr : list double) (k : nat) (q : double) : Prop :=
  q ∈ arr ∧ k < length (filter (fun x => not_after x q) arr) ∧
  length arr ≤ k + length (filter (fun x => not_after q x) arr).

Lemma has_rank_perm arr arr' k q : arr ≡ₚ arr' → has_rank arr k q → has_rank arr' k q.
Proof. intros Hp (? & ? & ?). unfold has_rank. rewrite <- !Hp. done. Qed.

Lemma not_after_refl x : not_after x x.
Proof. by destruct (not_after_total x x). Qed.

Lemma sorted_rank arr k q : StronglySorted not_after arr → arr !! k = Some q → has_rank arr k q.
Proof.
  intros Hs Hk. pose proof (lookup_lt_Some _ _ _ Hk).
  assert (Hq : q ∈ arr) by (by eapply list_elem_of_lookup_2).
  rewrite <- (take_drop_middle _ _ _ Hk) in Hs.
  split; [done|]. apply StronglySorted_app in Hs as (Hm & _ & Hs).
  apply StronglySorted_inv in Hs as [_ Hs]. split.
  - rewrite <- (take_drop_middle _ _ _ Hk). rewrite filter_app, length_app.
    rewrite filter_cons_True by apply not_after_refl.
    rewrite filter_all; [rewrite length_take; cbn [length]; lia|]. intros x Hx. apply Hm; [done|by left].
  - rewrite <- (take_drop_middle _ _ _ Hk) at 2. rewrite filter_app, length_app.
    rewrite filter_cons_True by apply not_after_refl.
    rewrite (filter_all _ (drop _ _)) by (by apply Forall_forall). cbn [length]. rewrite length_drop. lia.
Qed.

(** ** Sums of times *)

Lemma foldl_dadd_num l x : is_num x → Forall is_fin l → is_num (foldl dadd x l).
Proof.
  revert x. induction l as [|y l IH]; intros x Hx Hl; [done|]. apply Forall_cons in Hl as [Hy Hl].
  apply IH; [by apply dadd_num|done].
Qed.

Definition nonneg_time (x : double) : Prop := is_fin x ∧ (0 ≤ dval x)%Z.

Lemma foldl_dadd_ge l x :
  is_num x → Forall nonneg_time l → (dval x ≤ dval (foldl dadd x l))%Z.
Proof.
  revert x. induction l as [|y l IH]; intros x Hx Hl; [done|].
  apply Forall_cons in Hl as [[Hy H0] Hl]. simpl.
  etransitivity; [by apply (dadd_ge_l x y)|]. by apply IH; [apply dadd_num|].
Qed.

Lemma dadd_ge_r x y : is_num x → (0 ≤ dval x)%Z → is_fin y → (dval y ≤ dval (dadd x y))%Z.
Proof.
  intros Hx H0 Hy. rewrite <- (dadd_0_l y) at 1 by done.
  by apply dadd_mono_l; [apply is_fin_num, dzero_fin|..].
Qed.

Lemma foldl_dadd_ge_elem l x y :
  is_num x → (0 ≤ dval x)%Z → Forall nonneg_time l → y ∈ l → (dval y ≤ dval (foldl dadd x l))%Z.
Proof.
  revert x. induction l as [|z l IH]; intros x Hx H0 Hl Hy; [by apply elem_of_nil in Hy|].
  apply Forall_cons in Hl as [[Hz Hz0] Hl]. simpl.
  assert (is_num (dadd x z)) by (by apply dadd_num).
  apply elem_of_cons in Hy as [->|Hy].
  - etransitivity; [by apply (dadd_ge_r x z)|]. by apply foldl_dadd_ge.
  - apply IH; try done. etransitivity; [exact H0|]. by apply dadd_ge_l.
Qed.

(** ** Running [compute_stats] *)

Section run.
Context `{StdSort}.

Lemma vec_at_Ok arr i : i < length arr → ∃ x, vec_at arr i = Ok x ∧ arr !! i = Some x.
Proof.
  intros Hi. destruct (lookup_lt_is_Some_2 arr i Hi) as [x Hx]. exists x. unfold vec_at. by rewrite Hx.
Qed.

Lemma half_lt n : 0 < n → n / 2 < n.
Proof. intros. apply Nat.div_lt; lia. Qed.

Lemma compute_stats_run arr :
  strict_weak arr = true → arr ≠ [] → (Z.of_nat (length arr) < 2 ^ 32)%Z →
  ∃ st, compute_stats arr = Ok st ∧ st_arr st = std_sort arr ∧ st_total st = foldl dadd dzero arr ∧
    st_avg st = ddiv (foldl dadd dzero arr) (d_of_Z (Z.of_nat (length arr))) ∧
    ∃ hi, std_sort arr !! (length arr / 2) = Some hi ∧
      (length arr mod 2 ≠ 0 → st_median st = hi) ∧
      (length arr mod 2 = 0 → ∃ lo, std_sort arr !! (length arr / 2 - 1) = Some lo ∧
         st_median st = ddiv (dadd hi lo) (d_of_Z 2)).
Proof.
  intros W Hne Hlen. pose proof (std_sort_perm arr W) as Hp.
  assert (0 < length arr) as H0 by (destruct arr; [done|simpl; lia]).
  pose proof (half_lt _ H0). unfold compute_stats.
  rewrite u32_small by lia. rewrite Nat2Z.id, firstn_all, W.
  assert (length (std_sort arr) = length arr) as El by (by rewrite Hp).
  destruct (vec_at_Ok (std_sort arr) (length arr / 2)) as (hi & Ehi & Hhi); [lia|].
  rewrite El, Ehi. cbn [mbind res_bind]. case_decide as Hm.
  - destruct (vec_at_Ok (std_sort arr) (length arr / 2 - 1)) as (lo & Elo & Hlo); [lia|].
    rewrite Elo. cbn [mbind res_bind]. eexists. split_and!; [done..|].
    exists hi. split; [done|]. split; [done|]. intros _. by exists lo.
  - cbn [mbind res_bind]. eexists. split_and!; [done..|]. exists hi. by split.
Qed.

Lemma run_stats_arr arr st : compute_stats arr = Ok st → st_arr st = std_sort arr.
Proof. unfold compute_stats. destruct (strict_weak arr); [|done]. intros E. by run_inv. Qed.

Lemma run_stats_total arr st :
  compute_stats arr = Ok st → (Z.of_nat (length arr) < 2 ^ 32)%Z → st_total st = foldl dadd dzero arr.
Proof.
  intros E Hlen. unfold compute_stats in E. rewrite u32_small, Nat2Z.id, firstn_all in E by lia.
  destruct (strict_weak arr); [|done]. by run_inv.
Qed.

(** The element at an index of the sorted vector has that rank among the times. *)
Lemma std_sort_rank arr k q : strict_weak arr = true → std_sort arr !! k = Some q → has_rank arr k q.
Proof.
  intros W Hk. eapply has_rank_perm; [by apply std_sort_perm|].
  by apply sorted_rank; [apply std_sort_sorted|].
Qed.

(** ** Running [TotalTimeMetric::init] *)

Definition times_of (h : heap) (ls : list positive) : list double :=
  (fun l => from_option _totalTime dzero (h !! l)) <$> ls.

Definition of_type (h : heap) (ty : NodeType) (l : positive) : Prop :=
  _type <$> h !! l = Some ty.
#[export] Instance of_type_dec h ty l : Decision (of_type h ty l).
Proof. unfold of_type. apply _. Defined.

(** [m'] is [m] after the nodes [ls] have been counted. *)
Record counted (h : heap) (ls : list positive) (m m' : TotalTimeMetric) : Prop := {
  ct_arr : _node_times_arr m' = _node_times_arr m ++ times_of h ls;
  ct_chunks : _numChunks m = u32 (_numChunks m) →
    _numChunks m' = u32 (_numChunks m + Z.of_nat (length (filter (of_type h CHUNK_TASK) ls)));
  ct_explicit : _numExplicitTasks m = u32 (_numExplicitTasks m) →
    _numExplicitTasks m' = u32 (_numExplicitTasks m + Z.of_nat (length (filter (of_type h EXP_TASK) ls)));
  ct_chunk_time : _totalChunkTimes m' =
    foldl dadd (_totalChunkTimes m) (times_of h (filter (of_type h CHUNK_TASK) ls));
  ct_explicit_time : _totalExplicitTimes m' =
    foldl dadd (_totalExplicitTimes m) (times_of h (filter (of_type h EXP_TASK) ls));
  ct_total : _nodes_total_time m' = _nodes_total_time m;
  ct_avg : _nodes_avg_time m' = _nodes_avg_time m;
  ct_stddev : _nodes_time_stddev m' = _nodes_time_stddev m;
  ct_med : _nodes_med_time m' = _nodes_med_time m }.

Lemma counted_nil h m : counted h [] m m.
Proof. split; try done; simpl; [by rewrite app_nil_r|by rewrite Z.add_0_r..]. Qed.

Lemma of_type_node h ty l n : h !! l = Some n → of_type h ty l ↔ _type n = ty.
Proof. intros Hn. unfold of_type. rewrite Hn. simpl. split; congruence. Qed.

Lemma count_node_one h id l n m :
  h !! l = Some n → ∃ m', count_node h m (id, l) = Ok m' ∧ counted h [l] m m'.
Proof.
  intros Hn. unfold count_node. simpl. rewrite (lookup_obj_Some _ _ _ Hn). simpl.
  eexists; split; [done|].
  pose proof (of_type_node h CHUNK_TASK l n Hn). pose proof (of_type_node h EXP_TASK l n Hn).
  split; rewrite ?filter_cons; repeat case_decide; simpl; rewrite ?Hn, ?Z.add_0_r;
    try tauto; try congruence; done.
Qed.

Lemma counted_trans h l ls m m1 m' : counted h [l] m m1 → counted h ls m1 m' → counted h (l :: ls) m m'.
Proof.
  intros [A1 A2 A3 A4 A5 A6 A7 A8 A9] [B1 B2 B3 B4 B5 B6 B7 B8 B9].
  split; [|intros Hu|intros Hu|..]; try congruence.
  - rewrite B1, A1. by rewrite <- app_assoc.
  - specialize (A2 Hu). rewrite B2 by (by rewrite A2, u32_u32). rewrite A2, u32_add. f_equal.
    rewrite !filter_cons. case_decide; simpl; lia.
  - specialize (A3 Hu). rewrite B3 by (by rewrite A3, u32_u32). rewrite A3, u32_add. f_equal.
    rewrite !filter_cons. case_decide; simpl; lia.
  - rewrite B4, A4, !filter_cons. by case_decide.
  - rewrite B5, A5, !filter_cons. by case_decide.
Qed.

Lemma count_nodes_run h ps m :
  (∀ l, l ∈ ps.*2 → is_Some (h !! l)) →
  ∃ m', res_foldl (count_node h) m ps = Ok m' ∧ counted h ps.*2 m m'.
Proof.
  revert m. induction ps as [|[id l] ps IH]; intros m Hlive.
  { exists m. split; [done|apply counted_nil]. }
  destruct (Hlive l) as [n Hn]; [by left|].
  destruct (count_node_one h id l n m Hn) as (m1 & E1 & C1). simpl res_foldl. rewrite E1. simpl.
  destruct (IH m1) as (m' & E2 & C2); [intros; apply Hlive; by right|].
  exists m'. split; [done|]. by eapply counted_trans.
Qed.
End run.

(** ** The nodes of the table and the nodes of the store *)

Lemma table_perm h g : table_ok h g → (nodes_in_order g).*2 ≡ₚ (map_to_list h).*1.
Proof.
  intros T. apply NoDup_Permutation; [by eapply nodes_in_order_NoDup|apply NoDup_fst_map_to_list|].
  intros l. rewrite (nodes_in_order_live h g l T). rewrite list_elem_of_fmap. split.
  - intros [n Hn]. exists (l, n). split; [done|]. by apply elem_of_map_to_list.
  - intros ([l' n] & -> & Hn%elem_of_map_to_list). by exists n.
Qed.

(** All times, and the times of the nodes of a type. *)
Definition all_times (h : heap) : list double := (fun p => _totalTime p.2) <$> map_to_list h.

Definition num_of_type (ty : NodeType) (h : heap) : nat :=
  size (filter (fun p : positive * Node => _type p.2 = ty) h).

Lemma times_of_all h : times_of h (map_to_list h).*1 = all_times h.
Proof.
  unfold times_of, all_times. rewrite <- list_fmap_compose. apply list_fmap_ext.
  intros i [l n] Hi%list_elem_of_lookup_2%elem_of_map_to_list. simpl. by rewrite Hi.
Qed.

Lemma times_of_table h g : table_ok h g → times_of h (nodes_in_order g).*2 ≡ₚ all_times h.
Proof. intros T. rewrite <- times_of_all. unfold times_of. by rewrite (table_perm h g T). Qed.

Lemma filter_fst (h : heap) (P : positive → Prop) (Q : positive * Node → Prop)
    `{!∀ x, Decision (P x), !∀ x, Decision (Q x)} l :
  (∀ p, p ∈ l → P p.1 ↔ Q p) → length (filter P l.*1) = length (filter Q l).
Proof.
  induction l as [|p l IH]; intros HPQ; [done|]. simpl fmap. rewrite !filter_cons.
  pose proof (HPQ p ltac:(by left)).
  assert (length (filter P l.*1) = length (filter Q l)) by (apply IH; intros; apply HPQ; by right).
  repeat case_decide; simpl; try tauto; by f_equal.
Qed.

Lemma count_of_type h g ty :
  table_ok h g → length (filter (of_type h ty) (nodes_in_order g).*2) = num_of_type ty h.
Proof.
  intros T. rewrite (table_perm h g T). unfold num_of_type.
  rewrite map_filter_alt, map_size_list_to_map.
  - apply (filter_fst h). intros [l n] Hn%elem_of_map_to_list. simpl. by apply of_type_node.
  - eapply sublist_NoDup; [apply (NoDup_fst_map_to_list h)|]. apply fmap_sublist, sublist_filter.
Qed.

Lemma map_size_filter_le (h : heap) ty : num_of_type ty h ≤ size h.
Proof. unfold num_of_type. apply map_subseteq_size, map_filter_subseteq. Qed.

Lemma is_num_times h : (∀ l n, h !! l = Some n → is_num (_totalTime n)) → Forall is_num (all_times h).
Proof.
  intros Hn. unfold all_times. rewrite Forall_fmap, Forall_forall.
  intros [l n] Hl%elem_of_map_to_list. by eapply Hn.
Qed.

Lemma strict_weak_table h g :
  table_ok h g → (∀ l n, h !! l = Some n → is_num (_totalTime n)) →
  strict_weak (times_of h (nodes_in_order g).*2) = true.
Proof. intros T Hn. apply strict_weak_num. rewrite (times_of_table h g T). by apply is_num_times. Qed.

Lemma length_all_times h : length (all_times h) = size h.
Proof. unfold all_times. by rewrite length_fmap, length_map_to_list. Qed.

(** The metric after [init] on a graph with nodes. *)
Lemma TotalTimeMetric_init_run `{StdSort} h g :
  table_ok h g → (∀ l n, h !! l = Some n → is_num (_totalTime n)) →
  h ≠ ∅ → (Z.of_nat (size h) < 2 ^ 32)%Z →
  ∃ m st, TotalTimeMetric_init h g new_TotalTimeMetric = Ok m ∧
    compute_stats (times_of h (nodes_in_order g).*2) = Ok st ∧
    _node_times_arr m = st_arr st ∧ _nodes_total_time m = st_total st ∧
    _nodes_avg_time m = Some (st_avg st) ∧ _nodes_time_stddev m = Some (st_stddev st) ∧
    _nodes_med_time m = Some (st_median st) ∧
    _numChunks m = Z.of_nat (num_of_type CHUNK_TASK h) ∧
    _numExplicitTasks m = Z.of_nat (num_of_type EXP_TASK h) ∧
    _totalChunkTimes m = foldl dadd dzero (times_of h (filter (of_type h CHUNK_TASK) (nodes_in_order g).*2)) ∧
    _totalExplicitTimes m = foldl dadd dzero (times_of h (filter (of_type h EXP_TASK) (nodes_in_order g).*2)).
Proof.
  intros T Hn Hne Hsz. unfold TotalTimeMetric_init.
  destruct (count_nodes_run h (nodes_in_order g) (MkTotalTimeMetric dzero None None None [] 0 dzero 0 dzero))
    as (m & E & C); [intros l; apply (nodes_in_order_live h g l T)|].
  simpl. rewrite E. cbn [mbind res_bind].
  pose proof (ct_arr _ _ _ _ C) as Ea. simpl in Ea. rewrite Ea.
  pose proof (times_of_table h g T) as Hp.
  assert (length (times_of h (nodes_in_order g).*2) = size h) as El by (by rewrite Hp, length_all_times).
  assert (size h ≠ 0) by (by apply map_size_non_empty_iff).
  rewrite decide_True by lia.
  destruct (compute_stats_run (times_of h (nodes_in_order g).*2)) as (st & Est & _);
    [by apply strict_weak_table|intros E0; rewrite E0 in El; simpl in El; lia|by rewrite El|].
  rewrite Est. cbn [mbind res_bind]. eexists _, st. split; [done|]. simpl.
  assert (∀ ty, u32 (0 + Z.of_nat (num_of_type ty h)) = Z.of_nat (num_of_type ty h)) as Hu.
  { intros ty. apply u32_small. pose proof (map_size_filter_le h ty). lia. }
  rewrite (ct_chunks _ _ _ _ C), (ct_explicit _ _ _ _ C), (ct_chunk_time _ _ _ _ C),
    (ct_explicit_time _ _ _ _ C) by done. simpl. rewrite !(count_of_type h g _ T). auto 15.
Qed.

(** A graph of three tasks: two chunks and an explicit task. *)
Definition three_tasks : heap := {[
  1%positive := new_Node 1 CHUNK_TASK (d_of_Z 4);
  2%positive := new_Node 2 EXP_TASK (d_of_Z 1);
  3%positive := new_Node 3 CHUNK_TASK (d_of_Z 2) ]}.
Definition three_table : node_map := {[ 1%Z := 1%positive; 2%Z := 2%positive; 3%Z := 3%positive ]}.

Lemma three_table_ok : table_ok three_tasks three_table.
Proof. apply table_ok_eval. vm_compute. reflexivity. Qed.

Lemma three_fin l n : three_tasks !! l = Some n → is_fin (_totalTime n) ∧ (0 ≤ dval (_totalTime n))%Z.
Proof.
  revert l n. apply (heap_forall (fun n => is_fin (_totalTime n) ∧ (0 ≤ dval (_totalTime n))%Z)).
  vm_compute. reflexivity.
Qed.

Lemma three_num l n : three_tasks !! l = Some n → is_num (_totalTime n).
Proof. intros H. by apply is_fin_num, (three_fin l). Qed.

(** ** Properties *)

(** C27. For a vector of numbers of any length but 0, [compute_stats] stays
    within bounds, leaves a sorted permutation of the vector, and its median
    has the middle rank: the element of rank [n/2] when [n] is odd, half the
    sum of the elements of ranks [n/2] and [n/2 - 1] when it is even.  This
    holds for every [std::sort] that keeps its contract. *)
Theorem compute_stats_median `{StdSort} arr :
  Forall is_num arr → arr ≠ [] → (Z.of_nat (length arr) < 2 ^ 32)%Z →
  ∃ st hi, compute_stats arr = Ok st ∧ st_arr st ≡ₚ arr ∧ StronglySorted not_after (st_arr st) ∧
    has_rank arr (length arr / 2) hi ∧
    (length arr mod 2 ≠ 0 → st_median st = hi) ∧
    (length arr mod 2 = 0 → ∃ lo, has_rank arr (length arr / 2 - 1) lo ∧
       st_median st = ddiv (dadd hi lo) (d_of_Z 2)).
Proof.
  intros Hn Hne Hlen. pose proof (strict_weak_num arr Hn) as W.
  destruct (compute_stats_run arr W Hne Hlen) as (st & E & Ea & _ & _ & hi & Hhi & Hodd & Heven).
  exists st, hi. rewrite Ea. split_and!; try done; [by apply std_sort_perm|by apply std_sort_sorted
    |by apply std_sort_rank|].
  intros Hm. destruct (Heven Hm) as (lo & Hlo & ?). exists lo. split; [by apply std_sort_rank|done].
Qed.

Lemma compute_stats_median_witness :
  ∃ st hi, compute_stats (d_of_Z <$> [4; 1; 2; 8]%Z) = Ok st ∧
    has_rank (d_of_Z <$> [4; 1; 2; 8]%Z) 2 hi ∧ hi = d_of_Z 4 ∧ st_median st = d_of_Z 3.
Proof.
  destruct (compute_stats_median (d_of_Z <$> [4; 1; 2; 8]%Z)) as (st & hi & E & _ & _ & Hr & _ & He).
  - repeat constructor.
  - discriminate.
  - reflexivity.
  - exists st, hi. split; [exact E|]. split; [exact Hr|].
    vm_compute in E. injection E as <-. split; [|vm_compute; reflexivity].
    destruct Hr as (Hin & H1 & H2). vm_compute in Hin.
    repeat (apply elem_of_cons in Hin as [->|Hin]; [vm_compute in H1, H2; try lia; reflexivity|]).
    by apply elem_of_nil in Hin.
Defined.

(** C26. [TotalTimeMetric::init] on a graph whose times are numbers: the vector
    is a sorted permutation of the times of all nodes, and the two counters
    are the numbers of chunks and of explicit tasks. *)
Theorem TotalTimeMetric_init_correct `{StdSort} h g :
  table_ok h g → (∀ l n, h !! l = Some n → is_num (_totalTime n)) →
  h ≠ ∅ → (Z.of_nat (size h) < 2 ^ 32)%Z →
  ∃ m, TotalTimeMetric_init h g new_TotalTimeMetric = Ok m ∧
    _node_times_arr m ≡ₚ all_times h ∧ StronglySorted not_after (_node_times_arr m) ∧
    _numChunks m = Z.of_nat (num_of_type CHUNK_TASK h) ∧
    _numExplicitTasks m = Z.of_nat (num_of_type EXP_TASK h) ∧
    is_Some (_nodes_avg_time m) ∧ is_Some (_nodes_time_stddev m) ∧ is_Some (_nodes_med_time m).
Proof.
  intros T Hn Hne Hsz. pose proof (strict_weak_table h g T Hn) as W.
  destruct (TotalTimeMetric_init_run h g T Hn Hne Hsz)
    as (m & st & E & Es & Ea & _ & E1 & E2 & E3 & E4 & E5 & _). exists m.
  apply run_stats_arr in Es. rewrite E1, E2, E3, E4, E5, Ea, Es.
  split_and!; eauto; [|by apply std_sort_sorted]. by rewrite std_sort_perm, times_of_table.
Qed.

Lemma TotalTimeMetric_init_correct_witness :
  ∃ m, TotalTimeMetric_init three_tasks three_table new_TotalTimeMetric = Ok m ∧
    _numChunks m = 2%Z ∧ _numExplicitTasks m = 1%Z.
Proof.
  destruct (TotalTimeMetric_init_correct three_tasks three_table) as (m & E & _ & _ & E1 & E2 & _).
  - exact three_table_ok.
  - exact three_num.
  - discriminate.
  - reflexivity.
  - exists m. split; [exact E|]. split; [exact E1|exact E2].
Defined.

(** With finite times that are not negative the reported total is at least
    the time of every node, whatever the rounding, and so are the sums over
    the chunks and over the explicit tasks for the nodes of their type. *)
Theorem total_time_bounds `{StdSort} h g l n :
  table_ok h g → (∀ l n, h !! l = Some n → is_fin (_totalTime n) ∧ (0 ≤ dval (_totalTime n))%Z) →
  (Z.of_nat (size h) < 2 ^ 32)%Z → h !! l = Some n →
  ∃ m, TotalTimeMetric_init h g new_TotalTimeMetric = Ok m ∧
    (dval (_totalTime n) ≤ dval (TotalTimeMetric_getMetric m))%Z ∧
    (_type n = CHUNK_TASK → dval (_totalTime n) ≤ dval (_totalChunkTimes m))%Z ∧
    (_type n = EXP_TASK → dval (_totalTime n) ≤ dval (_totalExplicitTimes m))%Z.
Proof.
  intros T Hf Hsz Hn.
  destruct (TotalTimeMetric_init_run h g T) as (m & st & E & Es & _ & Et & _ & _ & _ & _ & _ & Ec & Ee);
    [intros x nx Hx; by apply is_fin_num, (Hf x)|by intros ->|done|].
  assert (∀ ls, (∀ x, x ∈ ls → is_Some (h !! x)) → l ∈ ls →
    dval (_totalTime n) ≤ dval (foldl dadd dzero (times_of h ls)))%Z as Hsum.
  { intros ls Hls Hl. apply foldl_dadd_ge_elem; [done..| |].
    - apply Forall_fmap, Forall_forall. intros x Hx. destruct (Hls x Hx) as [nx Hnx]. simpl.
      rewrite Hnx. by apply (Hf x).
    - apply list_elem_of_fmap. exists l. by rewrite Hn. }
  assert (∀ x, x ∈ (nodes_in_order g).*2 ↔ is_Some (h !! x)) as Hlive
    by (intros; by apply nodes_in_order_live).
  exists m. split; [done|]. unfold TotalTimeMetric_getMetric. rewrite Et, Ec, Ee.
  rewrite (run_stats_total _ _ Es) by (rewrite (times_of_table h g T), length_all_times; lia).
  split_and!; [|intros Ty..]; apply Hsum; intros;
    rewrite ?list_elem_of_filter in *; rewrite ?Hlive in *; try tauto; eauto;
    split; eauto; by eapply of_type_node.
Qed.

Lemma total_time_bounds_witness :
  ∃ m, TotalTimeMetric_init three_tasks three_table new_TotalTimeMetric = Ok m ∧
    (dval (d_of_Z 4) ≤ dval (TotalTimeMetric_getMetric m))%Z.
Proof.
  destruct (total_time_bounds three_tasks three_table 1 (new_Node 1 CHUNK_TASK (d_of_Z 4))) as (m & E & H & _).
  - exact three_table_ok.
  - exact three_fin.
  - reflexivity.
  - reflexivity.
  - exists m. split; [exact E|exact H].
Defined.
