(* ===== verification/Output.v ===== *)
(** * Reports and files (printDotFile of graph.cc, printMetric of metrics.cc)

    A stream is the list of the values inserted into it, in order: strings,
    integers and doubles; the digits that the library prints for a number are
    not modelled, and an empty string leaves no trace.  Opening a file may
    fail, which the program answers with [exit(-2)]: whether it does is the
    argument [can_open].  The code is the one built with PAPI. *)
From stdpp Require Import base numbers gmap list sorting strings.
From Stdlib Require Import ZArith Lia Ascii.
From S2P Require Import Prelude Float64 Graph Dag TopoSort CriticalPath Stats.

(** ** Streams *)

Inductive item : Type :=
  | Str (s : string)
  | Int (z : Z)
  | Dbl (d : double).

#[export] Instance item_eq_dec : EqDecision item.
Proof. solve_decision. Defined.

Abbreviation stream := (list item).

Definition endl : item := Str (String "010" EmptyString).

(** The double quote, and a string between two of them. *)
Definition quote : string := String "034" EmptyString.
Definition quoted (s : string) : string := quote +:+ s +:+ quote.

(** Reading an indeterminate field. *)
Definition initialized {A} (x : option A) : res A :=
  match x with Some a => Ok a | None => UB Uninitialized end.

(** ** Nodes *)

Definition _typeStrings (t : NodeType) : string :=
  match t with
  | ROOT_TASK => "ROOT_TASK"
  | IMP_TASK => "IMP_TASK"
  | WS_TASK => "WS_TASK"
  | CHUNK_TASK => "CHUNK_TASK"
  | EXP_TASK => "EXP_TASK"
  | BARRIER => "BARRIER"
  | TASKWAIT => "TASKWAIT"
  end.

Definition _fillColors (t : NodeType) : string :=
  match t with
  | ROOT_TASK => "dimgray"
  | IMP_TASK => "darkgoldenrod1"
  | WS_TASK => "darkolivegreen3"
  | CHUNK_TASK => "bisque"
  | EXP_TASK => "deepskyblue"
  | BARRIER => "firebrick1"
  | TASKWAIT => "crimson"
  end.

Definition idToStr (n : Node) : res stream :=
  if decide (_type n = CHUNK_TASK) then
    lc ← initialized (_loopCounter n);
    Ok [Int lc; Str " ["; Int (_lower n); Str ", "; Int (_upper n); Str "]"]
  else Ok [Int (_id n)].

(** The loop over the counters: [i] runs up to [_numPapiEvents]. *)
Fixpoint papi_items (sep_str : string) (vals : option (list Z)) (i n : nat) : res stream :=
  match n with
  | O => Ok []
  | S n' =>
      arr ← non_null vals;
      v ← (match arr !! i with Some v => Ok v | None => UB OutOfRange end);
      rest ← papi_items sep_str vals (S i) n';
      Ok (Str sep_str :: Int v :: rest)
  end.

Definition papiValsToStr (n : Node) (sep_str : string) : res stream :=
  papi_items sep_str (_papiValsArr n) 0 (Z.to_nat (_numPapiEvents n)).

Definition node_open : string := " [style=" +:+ quoted "filled" +:+ " label=" +:+ quote.

Definition printToStream (n : Node) : res stream :=
  let sep_str := " * " in
  ids ← idToStr n;
  vals ← papiValsToStr n sep_str;
  Ok ([Int (_id n); Str node_open; Dbl (_totalTime n); Str sep_str] ++ ids ++ vals ++
    [Str (quote +:+ " type=" +:+ quote); Str (_typeStrings (_type n)); Str quote] ++
    (if _isCritical n then [Str (" shape=" +:+ quoted "doublecircle")] else []) ++
    [Str (" fillcolor=" +:+ quote); Str (_fillColors (_type n)); Str (quote +:+ "];"); endl]).

(** ** The dot file *)

(** The loop over the exit edges of a node. *)
Definition print_edge (h : heap) (curr_node : Node) (out : stream) (adj : positive) : res stream :=
  adj_node ← lookup_obj h adj;
  Ok (out ++ [Int (_id curr_node); Str " -> "; Int (_id adj_node); Str ";"; endl]).

Definition print_edges (h : heap) (curr_node : Node) : res stream :=
  res_foldl (print_edge h curr_node) [] (AdjacencyIterator curr_node false).

Definition print_node (h : heap) (out : stream) (p : Z * positive) : res stream :=
  curr_node ← lookup_obj h p.2;
  line ← printToStream curr_node;
  edges ← print_edges h curr_node;
  Ok (out ++ line ++ edges).

(** [Graph::printDotFile]; the result is what the file holds. *)
Definition printDotFile (can_open : string → bool) (h : heap) (g : node_map) (file_name : string)
  : res stream :=
  if can_open file_name then
    out ← res_foldl (print_node h) [Str "digraph {"; endl] (nodes_in_order g);
    Ok (out ++ [Str "}"; endl])
  else Exit (-2).

(** ** The log file *)

Definition log_node (h : heap) (out : stream) (p : Z * positive) : res stream :=
  curr_node ← lookup_obj h p.2;
  if decide (_type curr_node = CHUNK_TASK) then
    th ← initialized (_threadId curr_node);
    lc ← initialized (_loopCounter curr_node);
    vals ← papiValsToStr curr_node " ";
    Ok (out ++ [Int (_id curr_node); Str "  "; Dbl (_totalTime curr_node); Str "  "; Int th; Str "  ";
      Int lc; Str "  ["; Int (_lower curr_node); Str ","; Int (_upper curr_node); Str "] "] ++
      vals ++ [endl])
  else Ok out.

Definition LogFileMetric_printMetric (can_open : string → bool) (h : heap) (g : node_map)
    (logFilename : string) : res stream :=
  if can_open logFilename then res_foldl (log_node h) [] (nodes_in_order g) else Exit (-2).

(** ** The reports on standard output *)

Definition CriticalPathMetric_printMetric (h : heap) (g : node_map) (m : CriticalPathMetric)
  : res (heap * CriticalPathMetric * stream) :=
  '(h, m, _) ← CriticalPathMetric_getMetric h g m;
  len ← initialized (_critical_path_len m);
  Ok (h, m, [Str "Longest (critical) path (time ms): "; Dbl (_critical_path_time_len m); endl;
    Str "Longest (critical) path (length): "; Int len; endl]).

Definition TotalTimeMetric_printMetric (m : TotalTimeMetric) : res stream :=
  let arr := _node_times_arr m in
  let n := length arr in
  avg ← initialized (_nodes_avg_time m);
  stddev ← initialized (_nodes_time_stddev m);
  med ← initialized (_nodes_med_time m);
  quartiles ← (if decide (0 < n) then
      a ← vec_at arr 0;
      b ← vec_at arr (n - 1);
      q1 ← vec_at arr (n / 4);
      q2 ← vec_at arr (n / 2);
      q3 ← vec_at arr (n * 3 / 4);
      Ok [Str "Min task time: "; Dbl a; endl; Str "Max task time: "; Dbl b; endl;
        Str "1st quartile: "; Dbl q1; endl; Str "2nd quartile (median): "; Dbl q2; endl;
        Str "3rd quartile: "; Dbl q3; endl]
    else Ok []);
  Ok ([Str "Total time (ms): "; Dbl (_nodes_total_time m); endl;
    Str "Total tasks: "; Int (Z.of_nat n); endl;
    Str "Total chunks time: "; Dbl (_totalChunkTimes m); endl;
    Str "Total chunks: "; Int (_numChunks m); endl;
    Str "Total explicit time: "; Dbl (_totalExplicitTimes m); endl;
    Str "Total explicit tasks: "; Int (_numExplicitTasks m); endl;
    Str "Average time per task: "; Dbl avg; endl;
    Str "Task time stddev: "; Dbl stddev; endl;
    Str "Median time: "; Dbl med; endl] ++ quartiles).

(** ** Reading the files back *)

(** The nodes and the edges that a dot file declares. *)
Fixpoint dot_nodes (out : stream) : list Z :=
  match out with
  | Int a :: ((Str s :: _) as out') => if decide (s = node_open) then a :: dot_nodes out' else dot_nodes out'
  | _ :: out' => dot_nodes out'
  | [] => []
  end.

Fixpoint dot_edges (out : stream) : list (Z * Z) :=
  match out with
  | Int a :: ((Str s :: Int b :: _) as out') =>
      if decide (s = " -> ") then (a, b) :: dot_edges out' else dot_edges out'
  | _ :: out' => dot_edges out'
  | [] => []
  end.

(** One record of the log file. *)
Record chunk_record : Type := MkChunkRecord {
  cr_id : Z; cr_time : double; cr_thread : Z; cr_loop : Z; cr_lower : Z; cr_upper : Z; cr_papi : list Z }.

(** The counters up to the end of the line. *)
Fixpoint log_vals (out : stream) : list Z :=
  match out with
  | Str s :: ((Int v :: out') as rest) => if decide (s = " ") then v :: log_vals out' else []
  | _ => []
  end.

Fixpoint log_records (out : stream) : list chunk_record :=
  match out with
  | Int a :: (Str _ :: Dbl t :: Str _ :: Int th :: Str _ :: Int lc :: Str _ :: Int lo :: Str _ :: Int up ::
      Str _ :: vals) as out' => MkChunkRecord a t th lc lo up (log_vals vals) :: log_records out'
  | _ :: out' => log_records out'
  | [] => []
  end.

(** ** Nodes that can be printed *)

(** The counters that [papiValsToStr] reads. *)
Definition papi_vals (n : Node) : list Z :=
  take (Z.to_nat (_numPapiEvents n)) (default [] (_papiValsArr n)).

(** A chunk has its loop number and its thread, and the counter array is as
    long as [_numPapiEvents] says. *)
Record printable (n : Node) : Prop := {
  pn_loop : _type n = CHUNK_TASK → is_Some (_loopCounter n);
  pn_thread : _type n = CHUNK_TASK → is_Some (_threadId n);
  pn_papi : Z.to_nat (_numPapiEvents n) ≤ length (default [] (_papiValsArr n)) }.

Definition val_items (sep_str : string) (vs : list Z) : stream := vs ≫= fun v => [Str sep_str; Int v].

Lemma papi_items_run sep_str arr i n :
  i + n ≤ length arr → papi_items sep_str (Some arr) i n = Ok (val_items sep_str (take n (drop i arr))).
Proof.
  revert i. induction n as [|n IH]; intros i Hi; [done|]. simpl papi_items.
  destruct (lookup_lt_is_Some_2 arr i) as [v Hv]; [lia|].
  cbn [mbind res_bind non_null]. rewrite Hv. simpl. rewrite IH by lia. simpl.
  by rewrite (drop_S _ _ _ Hv).
Qed.

Lemma papiValsToStr_run n sep_str :
  printable n → papiValsToStr n sep_str = Ok (val_items sep_str (papi_vals n)).
Proof.
  intros [_ _ Hp]. unfold papiValsToStr, papi_vals. destruct (_papiValsArr n) as [arr|]; simpl in *.
  - by rewrite papi_items_run.
  - destruct (Z.to_nat (_numPapiEvents n)); [done|lia].
Qed.

Definition id_items (n : Node) : stream :=
  if decide (_type n = CHUNK_TASK) then
    [Int (default 0%Z (_loopCounter n)); Str " ["; Int (_lower n); Str ", "; Int (_upper n); Str "]"]
  else [Int (_id n)].

Definition node_tail (n : Node) : stream :=
  [Str (_typeStrings (_type n)); Str quote] ++
  (if _isCritical n then [Str (" shape=" +:+ quoted "doublecircle")] else []) ++
  [Str (" fillcolor=" +:+ quote); Str (_fillColors (_type n)); Str (quote +:+ "];"); endl].

(** The line of a node in the dot file. *)
Definition node_line (n : Node) : stream :=
  [Int (_id n); Str node_open; Dbl (_totalTime n); Str " * "] ++ id_items n ++
  val_items " * " (papi_vals n) ++ Str (quote +:+ " type=" +:+ quote) :: node_tail n.

Lemma printToStream_run n : printable n → printToStream n = Ok (node_line n).
Proof.
  intros P. unfold printToStream, idToStr, node_line, id_items. rewrite (papiValsToStr_run n _ P).
  case_decide as Hc; [|done]. destruct (pn_loop n P Hc) as [lc ->]. done.
Qed.

(** ** What the reader sees of a line *)

Lemma dot_nodes_vals vs s rest :
  s ≠ node_open → dot_nodes (val_items " * " vs ++ Str s :: rest) = dot_nodes rest.
Proof.
  intros Hs. induction vs as [|v vs IH]; [done|]. simpl.
  destruct vs as [|v' vs]; simpl in *; [by rewrite decide_False|done].
Qed.

Lemma dot_edges_vals vs s rest :
  s ≠ " -> " → dot_edges (val_items " * " vs ++ Str s :: rest) = dot_edges rest.
Proof.
  intros Hs. induction vs as [|v vs IH]; [done|]. simpl.
  destruct vs as [|v' vs]; simpl in *; [|done]. destruct rest as [|[] rest]; try done.
  by rewrite decide_False.
Qed.

Lemma dot_nodes_tail n rest : dot_nodes (node_tail n ++ rest) = dot_nodes rest.
Proof. unfold node_tail. by destruct (_isCritical n). Qed.

Lemma dot_edges_tail n rest : dot_edges (node_tail n ++ rest) = dot_edges rest.
Proof. unfold node_tail. by destruct (_isCritical n). Qed.

Lemma val_items_head sep vs s rest :
  ∃ s' out, val_items sep vs ++ Str s :: rest = Str s' :: out ∧ (s' = sep ∨ s' = s).
Proof. destruct vs; simpl; eauto. Qed.

Lemma node_line_app n rest :
  node_line n ++ rest = [Int (_id n); Str node_open; Dbl (_totalTime n); Str " * "] ++ id_items n ++
    val_items " * " (papi_vals n) ++ Str (quote +:+ " type=" +:+ quote) :: (node_tail n ++ rest).
Proof. unfold node_line. by rewrite <- !app_assoc. Qed.

Lemma dot_nodes_line n rest : dot_nodes (node_line n ++ rest) = _id n :: dot_nodes rest.
Proof.
  rewrite node_line_app, <- (dot_nodes_tail n rest). generalize (node_tail n ++ rest). intros tl.
  pose proof (dot_nodes_vals (papi_vals n) (quote +:+ " type=" +:+ quote) tl ltac:(done)) as E.
  unfold id_items. case_decide; simpl; f_equal; [done|].
  destruct (val_items_head " * " (papi_vals n) (quote +:+ " type=" +:+ quote) tl)
    as (s' & out & Eo & [->| ->]); rewrite Eo in *; exact E.
Qed.

Lemma dot_edges_line n rest : dot_edges (node_line n ++ rest) = dot_edges rest.
Proof.
  rewrite node_line_app, <- (dot_edges_tail n rest). generalize (node_tail n ++ rest). intros tl.
  pose proof (dot_edges_vals (papi_vals n) (quote +:+ " type=" +:+ quote) tl ltac:(done)) as E.
  unfold id_items. case_decide; simpl;
  destruct (val_items_head " * " (papi_vals n) (quote +:+ " type=" +:+ quote) tl)
    as (s' & out & Eo & [->| ->]); rewrite Eo in *; destruct out as [|[] ?]; exact E.
Qed.

(** ** Running [printDotFile] *)

Definition id_of (h : heap) (l : positive) : Z := from_option _id 0%Z (h !! l).

Definition edge_lines (h : heap) (id : Z) (ts : list positive) : stream :=
  ts ≫= fun t => [Int id; Str " -> "; Int (id_of h t); Str ";"; endl].

Lemma print_edge_loop h n ts out :
  (∀ t, t ∈ ts → is_Some (h !! t)) →
  res_foldl (print_edge h n) out ts = Ok (out ++ edge_lines h (_id n) ts).
Proof.
  revert out. induction ts as [|t ts IH]; intros out Hts; simpl; [by rewrite app_nil_r|].
  destruct (Hts t) as [nt Hnt]; [by left|]. unfold print_edge at 2. run_step.
  rewrite IH by (intros; apply Hts; by right).
  rewrite <- app_assoc. unfold edge_lines, id_of. simpl. by rewrite Hnt.
Qed.

Lemma print_edges_run h n :
  (∀ t, t ∈ getTarget <$> _exitEdges n → is_Some (h !! t)) →
  print_edges h n = Ok (edge_lines h (_id n) (getTarget <$> _exitEdges n)).
Proof. apply print_edge_loop. Qed.

Lemma dot_nodes_edges h id ts rest : dot_nodes (edge_lines h id ts ++ rest) = dot_nodes rest.
Proof. induction ts as [|t ts IH]; [done|]. simpl. done. Qed.

Lemma dot_edges_edges h id ts rest :
  dot_edges (edge_lines h id ts ++ rest) = ((id,.) ∘ id_of h <$> ts) ++ dot_edges rest.
Proof. induction ts as [|t ts IH]; [done|]. simpl. by rewrite IH. Qed.

(** The block of a node: its line and the lines of its exit edges. *)
Definition node_block (h : heap) (l : positive) : stream :=
  match h !! l with
  | Some n => node_line n ++ edge_lines h (_id n) (getTarget <$> _exitEdges n)
  | None => []
  end.

Section dot.
Context (h : heap) (g : node_map) (W : wf h) (T : table_ok h g)
  (P : ∀ l n, h !! l = Some n → printable n).

Lemma targets_live l n t : h !! l = Some n → t ∈ getTarget <$> _exitEdges n → is_Some (h !! t).
Proof.
  intros Hn Ht. apply list_elem_of_fmap in Ht as (e & -> & He).
  assert (e ∈ exits h l) as He' by (unfold exits; by rewrite Hn).
  pose proof (wf_src _ W _ _ He') as Es. rewrite <- Es in He'. apply (wf_sym _ W) in He'.
  by eapply entries_live.
Qed.

Lemma print_nodes_run ps out :
  (∀ l, l ∈ ps.*2 → is_Some (h !! l)) →
  res_foldl (print_node h) out ps = Ok (out ++ (ps.*2 ≫= node_block h)).
Proof.
  revert out. induction ps as [|[id l] ps IH]; intros out Hl; simpl; [by rewrite app_nil_r|].
  destruct (Hl l) as [n Hn]; [by left|]. unfold print_node at 2. cbn [snd]. run_step.
  rewrite (printToStream_run n) by (by eapply P). cbn [mbind res_bind].
  rewrite print_edges_run by (intros t; by eapply targets_live). cbn [mbind res_bind].
  rewrite IH by (intros; apply Hl; by right). unfold node_block at 2. rewrite Hn.
  by rewrite <- app_assoc.
Qed.

Lemma printDotFile_run can_open file_name :
  can_open file_name = true →
  printDotFile can_open h g file_name =
    Ok ([Str "digraph {"; endl] ++ ((nodes_in_order g).*2 ≫= node_block h) ++ [Str "}"; endl]).
Proof.
  intros Ho. unfold printDotFile. rewrite Ho, print_nodes_run by (intros l; by apply nodes_in_order_live).
  cbn [mbind res_bind]. by rewrite <- app_assoc.
Qed.

Lemma dot_nodes_blocks ls rest :
  (∀ l, l ∈ ls → is_Some (h !! l)) → dot_nodes ((ls ≫= node_block h) ++ rest) = (id_of h <$> ls) ++ dot_nodes rest.
Proof.
  induction ls as [|l ls IH]; intros Hl; [done|]. destruct (Hl l) as [n Hn]; [by left|].
  rewrite bind_cons, fmap_cons. unfold node_block at 1, id_of at 1.
  rewrite Hn, <- !app_assoc, dot_nodes_line, dot_nodes_edges, IH; [done|]. intros; apply Hl; by right.
Qed.

(** The edges of a node, as pairs of ids. *)
Definition edges_from (l : positive) : list (Z * Z) := (id_of h l,.) ∘ id_of h <$> (getTarget <$> exits h l).

Lemma dot_edges_blocks ls rest :
  (∀ l, l ∈ ls → is_Some (h !! l)) → dot_edges ((ls ≫= node_block h) ++ rest) = (ls ≫= edges_from) ++ dot_edges rest.
Proof.
  induction ls as [|l ls IH]; intros Hl; [done|]. destruct (Hl l) as [n Hn]; [by left|].
  rewrite !bind_cons. unfold node_block at 1, edges_from at 1, exits, id_of at 1.
  rewrite Hn, <- !app_assoc, dot_edges_line, dot_edges_edges, IH; [done|]. intros; apply Hl; by right.
Qed.

Lemma id_of_inj l l' : is_Some (h !! l) → is_Some (h !! l') → id_of h l = id_of h l' → l = l'.
Proof.
  intros [n Hn] [n' Hn']. unfold id_of. rewrite Hn, Hn'. simpl. intros E.
  assert (g !! _id n = Some l) by (apply T; eauto).
  assert (g !! _id n' = Some l') by (apply T; eauto). congruence.
Qed.

Lemma elem_edges_from l a b :
  (a, b) ∈ edges_from l ↔ ∃ v, a = id_of h l ∧ b = id_of h v ∧ edge h l v.
Proof.
  unfold edges_from. rewrite list_elem_of_fmap. setoid_rewrite list_elem_of_fmap. split.
  - intros (v & [= -> ->] & e & -> & He). exists (_target e). split_and!; try done.
    by apply elem_exits in He as [_ ?].
  - intros (v & -> & -> & He). exists v. split; [done|]. by exists (MkEdge l v).
Qed.

Lemma NoDup_edges_from l : NoDup (edges_from l).
Proof.
  unfold edges_from. apply NoDup_fmap_2_strong.
  - intros x y Hx Hy [= E]. apply list_elem_of_fmap in Hx as (e & -> & He), Hy as (e' & -> & He').
    apply elem_exits in He as [_ He], He' as [_ He']; try done.
    apply (id_of_inj _ _) in E; [done|by eapply edge_live_r..].
  - apply NoDup_fmap_2_strong; [|apply W]. intros e e' He He' Et.
    apply elem_exits in He as [E _], He' as [E' _]; try done.
    rewrite E, E'. unfold getTarget in Et. by rewrite Et.
Qed.

Lemma NoDup_all_edges ls : (∀ l, l ∈ ls → is_Some (h !! l)) → NoDup ls → NoDup (ls ≫= edges_from).
Proof.
  induction ls as [|l ls IH]; intros Hl Hnd; simpl; [constructor|].
  apply NoDup_cons in Hnd as [Hx Hnd]. apply NoDup_app. split_and!.
  - apply NoDup_edges_from.
  - intros [a b] Hab (l' & Hl' & Hin)%list_elem_of_bind. apply elem_edges_from in Hab as (v & -> & _).
    apply elem_edges_from in Hl' as (v' & E & _). apply id_of_inj in E; [by subst| |].
    + apply Hl. by left.
    + apply Hl. by right.
  - apply IH; [|done]. intros; apply Hl; by right.
Qed.
End dot.

(** ** Running the log file *)

Definition record_of (n : Node) : chunk_record :=
  MkChunkRecord (_id n) (_totalTime n) (default 0%Z (_threadId n)) (default 0%Z (_loopCounter n))
    (_lower n) (_upper n) (papi_vals n).

Definition log_head (n : Node) : stream :=
  [Int (_id n); Str "  "; Dbl (_totalTime n); Str "  "; Int (default 0%Z (_threadId n)); Str "  ";
   Int (default 0%Z (_loopCounter n)); Str "  ["; Int (_lower n); Str ","; Int (_upper n); Str "] "].

(** The line of a chunk, nothing for other nodes. *)
Definition log_line (h : heap) (l : positive) : stream :=
  match h !! l with
  | Some n => if decide (_type n = CHUNK_TASK) then log_head n ++ val_items " " (papi_vals n) ++ [endl] else []
  | None => []
  end.

Lemma log_nodes_run h ps out :
  (∀ l, l ∈ ps.*2 → is_Some (h !! l)) → (∀ l n, h !! l = Some n → printable n) →
  res_foldl (log_node h) out ps = Ok (out ++ (ps.*2 ≫= log_line h)).
Proof.
  intros Hl P. revert out. induction ps as [|[id l] ps IH]; intros out; [simpl; by rewrite app_nil_r|].
  destruct (Hl l) as [n Hn]; [by left|]. rewrite fmap_cons, bind_cons. simpl res_foldl. unfold log_node at 2. cbn [snd]. run_step.
  pose proof (P l n Hn) as Pn. 
  unfold log_line at 1. rewrite Hn. case_decide as Hc.
  - unfold log_head. destruct (pn_thread n Pn Hc) as [th Eth], (pn_loop n Pn Hc) as [lc Elc].
    rewrite Eth, Elc, (papiValsToStr_run n) by done. cbn [mbind res_bind initialized default].
    rewrite IH by (intros; apply Hl; by right). by rewrite <- !app_assoc.
  - cbn [mbind res_bind]. rewrite IH by (intros; apply Hl; by right). done.
Qed.

Definition no_time_first (out : stream) : Prop := ∀ d r, out ≠ Dbl d :: r.

Lemma log_vals_items vs rest : log_vals (val_items " " vs ++ endl :: rest) = vs.
Proof. induction vs as [|v vs IH]; simpl; [by destruct rest as [|[] ?]|by rewrite IH]. Qed.

Lemma log_records_items vs rest :
  no_time_first rest → log_records (val_items " " vs ++ endl :: rest) = log_records rest.
Proof.
  intros Hr. induction vs as [|v vs IH]; [done|]. simpl.
  destruct vs as [|v' vs]; simpl in *; [|done].
  destruct rest as [|[] rest]; try done. by destruct (Hr d rest).
Qed.

Lemma log_records_line n rest :
  no_time_first rest →
  log_records (log_head n ++ val_items " " (papi_vals n) ++ endl :: rest) = record_of n :: log_records rest.
Proof.
  intros Hr. pose proof (log_records_items (papi_vals n) rest Hr) as E.
  unfold record_of. rewrite <- (log_vals_items (papi_vals n) rest) at 2. unfold log_head.
  destruct (val_items_head " " (papi_vals n) (String "010" EmptyString) rest) as (s' & out & Eo & _).
  fold endl in Eo. rewrite Eo in *. simpl in *. by rewrite E.
Qed.

Lemma log_lines_no_time h ls : no_time_first (ls ≫= log_line h).
Proof.
  induction ls as [|l ls IH]; intros d r; [done|]. rewrite bind_cons. unfold log_line at 1.
  destruct (h !! l); [case_decide|]; try done; apply IH.
Qed.

Lemma log_records_lines h ls :
  log_records (ls ≫= log_line h) =
  omap (fun l => n ← h !! l; if decide (_type n = CHUNK_TASK) then Some (record_of n) else None) ls.
Proof.
  induction ls as [|l ls IH]; [done|]. rewrite bind_cons. cbn [omap list_omap].
  unfold log_line at 1. destruct (h !! l) as [n|]; [|done]. cbn [mbind option_bind].
  case_decide; [|done]. rewrite <- !app_assoc, <- IH. apply log_records_line, log_lines_no_time.
Qed.

(** ** The ids in the table's order *)

Lemma id_of_table h g : table_ok h g → id_of h <$> (nodes_in_order g).*2 = (nodes_in_order g).*1.
Proof.
  intros T. rewrite <- list_fmap_compose. apply list_fmap_ext.
  intros i [id l] Hi%list_elem_of_lookup_2%elem_of_nodes_in_order. simpl.
  apply T in Hi as (n & Hn & Eid). unfold id_of. by rewrite Hn.
Qed.

Lemma table_ids_increasing g : StronglySorted Z.lt (nodes_in_order g).*1.
Proof.
  assert (NoDup (nodes_in_order g).*1) as Hnd
    by (rewrite (nodes_in_order_perm g); apply NoDup_fst_map_to_list).
  pose proof (nodes_in_order_sorted g) as Hs. induction Hs as [|p ps _ IH Hp]; [constructor|].
  simpl in *. apply NoDup_cons in Hnd as [Hx Hnd]. constructor; [by apply IH|].
  apply Forall_fmap. rewrite Forall_forall in Hp |- *. intros q Hq. simpl.
  pose proof (Hp q Hq) as Hle. unfold key_le in Hle.
  assert (p.1 ≠ q.1) by (intros E; apply Hx; rewrite E; by apply list_elem_of_fmap_2). lia.
Qed.

(** ** Order statistics in the report *)

Lemma TotalTimeMetric_print_run m avg stddev med :
  _nodes_avg_time m = Some avg → _nodes_time_stddev m = Some stddev → _nodes_med_time m = Some med →
  _node_times_arr m ≠ [] →
  ∃ pre a b q1 q2 q3 (arr := _node_times_arr m),
    TotalTimeMetric_printMetric m = Ok (pre ++ [Str "Min task time: "; Dbl a; endl;
      Str "Max task time: "; Dbl b; endl; Str "1st quartile: "; Dbl q1; endl;
      Str "2nd quartile (median): "; Dbl q2; endl; Str "3rd quartile: "; Dbl q3; endl]) ∧
    arr !! 0 = Some a ∧ arr !! (length arr - 1) = Some b ∧ arr !! (length arr / 4) = Some q1 ∧
    arr !! (length arr / 2) = Some q2 ∧ arr !! (length arr * 3 / 4) = Some q3.
Proof.
  intros E1 E2 E3 Hne. unfold TotalTimeMetric_printMetric. rewrite E1, E2, E3. cbn [initialized mbind res_bind].
  set (arr := _node_times_arr m) in *.
  assert (0 < length arr) by (destruct arr; [done|simpl; lia]).
  assert (length arr / 4 < length arr ∧ length arr / 2 < length arr ∧ length arr * 3 / 4 < length arr) as (? & ? & ?).
  { split_and!; apply Nat.Div0.div_lt_upper_bound; lia. }
  rewrite decide_True by done.
  destruct (vec_at_Ok arr 0) as (a & -> & ?); [done|]. destruct (vec_at_Ok arr (length arr - 1)) as (b & -> & ?); [lia|].
  destruct (vec_at_Ok arr (length arr / 4)) as (q1 & -> & ?); [lia|].
  destruct (vec_at_Ok arr (length arr / 2)) as (q2 & -> & ?); [lia|].
  destruct (vec_at_Ok arr (length arr * 3 / 4)) as (q3 & -> & ?); [lia|].
  eexists _, a, b, q1, q2, q3. split_and!; done.
Qed.

(** ** Sample graphs *)

Definition sample_chunk (id lower upper : Z) : Node :=
  setPapi 1 (Some [7%Z]) (setThreadId 3 (setLoopCounter 2 (setLowerUpper lower upper
    (new_Node id CHUNK_TASK (d_of_Z 4))))).

Definition chunk_heap : heap := {[
  1%positive := sample_chunk 5 0 4;
  2%positive := new_Node 2 IMP_TASK (d_of_Z 1);
  3%positive := sample_chunk 3 5 9 ]}.
Definition chunk_table : node_map := {[ 5%Z := 1%positive; 2%Z := 2%positive; 3%Z := 3%positive ]}.

Lemma printable_alt n :
  printable n ↔ (_type n = CHUNK_TASK → is_Some (_loopCounter n) ∧ is_Some (_threadId n)) ∧
    Z.to_nat (_numPapiEvents n) ≤ length (default [] (_papiValsArr n)).
Proof. split; [intros [? ? ?]; auto|]. intros [H ?]. split; [apply H..|done]. Qed.

#[export] Instance printable_dec n : Decision (printable n).
Proof.
  refine (cast_if (decide ((_type n = CHUNK_TASK → is_Some (_loopCounter n) ∧ is_Some (_threadId n)) ∧
    Z.to_nat (_numPapiEvents n) ≤ length (default [] (_papiValsArr n))))); by rewrite printable_alt.
Defined.

Lemma chunk_heap_printable l n : chunk_heap !! l = Some n → printable n.
Proof. revert l n. apply (heap_forall printable). vm_compute. reflexivity. Qed.

Lemma diamond_printable l n : diamond !! l = Some n → printable n.
Proof. revert l n. apply (heap_forall printable). vm_compute. reflexivity. Qed.

Lemma chunk_table_ok : table_ok chunk_heap chunk_table.
Proof. apply table_ok_eval. vm_compute. reflexivity. Qed.

(** ** Properties *)

(** C12. The dot file describes the graph: reading it back gives every node once,
    by id in increasing order, and exactly the edges of the graph, each once.
    The only failure is a file that cannot be opened. *)
Theorem printDotFile_roundtrip can_open h g file_name :
  wf h → table_ok h g → (∀ l n, h !! l = Some n → printable n) →
  (can_open file_name = false → printDotFile can_open h g file_name = Exit (-2)) ∧
  (can_open file_name = true →
    ∃ out, printDotFile can_open h g file_name = Ok out ∧
      (∀ id, id ∈ dot_nodes out ↔ ∃ l n, h !! l = Some n ∧ _id n = id) ∧
      StronglySorted Z.lt (dot_nodes out) ∧
      (∀ a b, (a, b) ∈ dot_edges out ↔ ∃ u v, edge h u v ∧ id_of h u = a ∧ id_of h v = b) ∧
      NoDup (dot_edges out)).
Proof.
  intros W T P. split; intros Ho; [unfold printDotFile; by rewrite Ho|].
  assert (∀ l, l ∈ (nodes_in_order g).*2 ↔ is_Some (h !! l)) as Hl by (intros; by apply nodes_in_order_live).
  eexists. split; [by apply printDotFile_run|]. cbn [app dot_nodes dot_edges].
  rewrite dot_nodes_blocks, dot_edges_blocks by (intros; by apply Hl). simpl. rewrite !app_nil_r.
  rewrite (id_of_table h g T). split_and!; [| |intros a b; split|].
  - intros id. rewrite list_elem_of_fmap. split.
    + intros ([id' l] & -> & Hin%elem_of_nodes_in_order). exists l. by apply T.
    + intros (l & n & Hn & Eid). exists (id, l). split; [done|]. apply elem_of_nodes_in_order, T. eauto.
  - apply table_ids_increasing.
  - intros (u & Hu & _)%list_elem_of_bind. apply elem_edges_from in Hu as (v & -> & -> & He); [|done]. eauto.
  - intros (u & v & He & <- & <-). apply list_elem_of_bind. exists u. split; [by apply elem_edges_from; eauto|].
    apply Hl. by eapply edge_live_l.
  - by apply (NoDup_all_edges h g); [..|intros; by apply Hl|eapply nodes_in_order_NoDup].
Qed.

Lemma printDotFile_roundtrip_witness :
  ∃ out, printDotFile (fun _ => true) diamond diamond_table "tdg.dot" = Ok out ∧
    StronglySorted Z.lt (dot_nodes out) ∧ NoDup (dot_edges out) ∧ (0%Z, 2%Z) ∈ dot_edges out.
Proof.
  destruct (printDotFile_roundtrip (fun _ => true) diamond diamond_table "tdg.dot") as [_ H].
  - exact diamond_wf.
  - exact diamond_table_ok.
  - exact diamond_printable.
  - destruct H as (out & E & _ & H1 & H2 & H3); [reflexivity|].
    exists out. split; [exact E|]. split; [exact H1|]. split; [exact H3|].
    apply H2. exists 1%positive, 2%positive. split; [|split; vm_compute; reflexivity].
    apply list_elem_of_In. vm_compute. left. reflexivity.
Defined.

(** C28. The log file holds one record per chunk, in increasing order of the
    chunk's id, with its time, thread, loop number, bounds and counters, and
    nothing for the other nodes. *)
Theorem log_file_roundtrip can_open h g file_name :
  table_ok h g → (∀ l n, h !! l = Some n → printable n) → can_open file_name = true →
  ∃ out, LogFileMetric_printMetric can_open h g file_name = Ok out ∧
    log_records out = omap (fun l => n ← h !! l;
      if decide (_type n = CHUNK_TASK) then Some (record_of n) else None) (nodes_in_order g).*2 ∧
    length (log_records out) = num_of_type CHUNK_TASK h.
Proof.
  intros T P Ho. unfold LogFileMetric_printMetric. rewrite Ho.
  rewrite log_nodes_run by (try done; intros l; by apply nodes_in_order_live).
  eexists. split; [done|]. cbn [app]. rewrite log_records_lines. split; [done|].
  rewrite <- (count_of_type h g) by done. induction (nodes_in_order g).*2 as [|l ls IH]; [done|].
  rewrite filter_cons. cbn [omap list_omap].
  case_decide as Hc; unfold of_type in Hc; destruct (h !! l) as [n|]; cbn in Hc |- *; try done.
  - injection Hc as ->. simpl. by f_equal.
  - by rewrite decide_False by congruence.
Qed.

Lemma log_file_roundtrip_witness :
  ∃ out, LogFileMetric_printMetric (fun _ => true) chunk_heap chunk_table "chunks.log" = Ok out ∧
    log_records out = [MkChunkRecord 3 (d_of_Z 4) 3 2 5 9 [7%Z]; MkChunkRecord 5 (d_of_Z 4) 3 2 0 4 [7%Z]].
Proof.
  destruct (log_file_roundtrip (fun _ => true) chunk_heap chunk_table "chunks.log") as (out & E & H & _).
  - exact chunk_table_ok.
  - exact chunk_heap_printable.
  - reflexivity.
  - exists out. split; [exact E|]. rewrite H. vm_compute. reflexivity.
Defined.

(** C25. The report of the time metric: on a graph with nodes whose times are
    numbers, [printMetric] after [init] never leaves the vector, and the
    minimum, the maximum and the quartiles that it prints are times of the
    graph of rank 0, [n-1], [n/4], [n/2] and [3n/4]. *)
Theorem TotalTimeMetric_report `{StdSort} h g :
  table_ok h g → (∀ l n, h !! l = Some n → is_num (_totalTime n)) →
  h ≠ ∅ → (Z.of_nat (size h) < 2 ^ 32)%Z →
  ∃ m pre a b q1 q2 q3 (n := size h),
    TotalTimeMetric_init h g new_TotalTimeMetric = Ok m ∧
    TotalTimeMetric_printMetric m = Ok (pre ++ [Str "Min task time: "; Dbl a; endl;
      Str "Max task time: "; Dbl b; endl; Str "1st quartile: "; Dbl q1; endl;
      Str "2nd quartile (median): "; Dbl q2; endl; Str "3rd quartile: "; Dbl q3; endl]) ∧
    has_rank (all_times h) 0 a ∧ has_rank (all_times h) (n - 1) b ∧ has_rank (all_times h) (n / 4) q1 ∧
    has_rank (all_times h) (n / 2) q2 ∧ has_rank (all_times h) (n * 3 / 4) q3.
Proof.
  intros T Hn Hne Hsz. pose proof (strict_weak_table h g T Hn) as W.
  destruct (TotalTimeMetric_init_run h g T Hn Hne Hsz) as (m & st & E & Es & Ea & _ & E1 & E2 & E3 & _).
  apply run_stats_arr in Es. pose proof (times_of_table h g T) as Hp.
  assert (length (_node_times_arr m) = size h) as El
    by (by rewrite Ea, Es, std_sort_perm, Hp, length_all_times).
  destruct (TotalTimeMetric_print_run m _ _ _ E1 E2 E3) as (pre & a & b & q1 & q2 & q3 & Ep & Hs).
  { intros E0. rewrite E0 in El. symmetry in El. by apply map_size_empty_iff in El. }
  exists m, pre, a, b, q1, q2, q3. split; [done|]. split; [done|]. cbv zeta in Hs. rewrite El, Ea, Es in Hs.
  destruct Hs as (?&?&?&?&?). split_and!; eapply has_rank_perm; try exact Hp; by apply std_sort_rank.
Qed.

Lemma TotalTimeMetric_report_witness :
  ∃ m out, TotalTimeMetric_init three_tasks three_table new_TotalTimeMetric = Ok m ∧
    TotalTimeMetric_printMetric m = Ok out.
Proof.
  destruct (TotalTimeMetric_report three_tasks three_table) as (m & pre & a & b & q1 & q2 & q3 & E & Ep & _).
  - exact three_table_ok.
  - exact three_num.
  - discriminate.
  - reflexivity.
  - eexists m, _. split; [exact E|exact Ep].
Defined.

(** On a graph without nodes [init] never computes the statistics, and the
    report reads the average, which nothing has initialised. *)
Theorem TotalTimeMetric_empty_graph `{StdSort} h :
  ∃ m, TotalTimeMetric_init h ∅ new_TotalTimeMetric = Ok m ∧
    TotalTimeMetric_getMetric m = dzero ∧ TotalTimeMetric_printMetric m = UB Uninitialized.
Proof. by eexists. Qed.
