(* ===== verification/FreqTool.v ===== *)
(** * The frequency utility (timer/query_cpu_freq.cc)

    A program of its own: it compares the ticks of sleeps of one, two and three
    seconds, and when they agree measures the frequency and writes it to the file
    [.cpu_freq], from which [init_clock_time] reads it.  The counter before and
    after each sleep is an input. *)
From stdpp Require Import base numbers list strings.
From Stdlib Require Import ZArith Lia SpecFloat.
From S2P Require Import Prelude Float64 FloatDiv Timer Output.

Local Open Scope Z_scope.

(** ** The program *)

Definition dabs (x : double) : double := SFabs x.

(** The literal [0.05]. *)
Definition d_0_05 : double := S754_finite false 7205759403792794 (-57).

(** [fabs((double)s - (double)t/n) > (s*0.05)]. *)
Definition bogus (s t n : Z) : bool :=
  dltb (dmul (d_of_Z s) d_0_05) (dabs (dsub (d_of_Z s) (ddiv (d_of_Z t) (d_of_Z n)))).

Definition bogus_line : stream :=
  [Str "# The high performance timer gives bogus results on this system!"; endl].

(** The counter before and after sleep [k]. *)
Definition sleep_ticks (tsc : nat → Z * Z) (k : nat) : Z :=
  HRT_GET_ELAPSED_TICKS (HRT_GET_TIMESTAMP (tsc k).1) (HRT_GET_TIMESTAMP (tsc k).2).

Definition sanity_check (print : bool) (tsc : nat → Z * Z) : bool * stream :=
  let sanity := true in
  let out := if print then [Str "# Sanity check of the timer"; endl] else [] in
  let s := sleep_ticks tsc 0 in
  let out := out ++ (if print then [Str "# sleep(1) needed "; Int s; Str " ticks"; endl] else []) in
  let s2 := sleep_ticks tsc 1 in
  let out := out ++ (if print then [Str "# sleep(2)/2 needed "; Int (s2 / 2); Str " ticks"; endl] else []) in
  let '(sanity, out) := if bogus s s2 2 then (false, out ++ bogus_line) else (sanity, out) in
  let s := s2 / 2 in
  let s3 := sleep_ticks tsc 2 in
  let out := out ++ (if print then [Str "# sleep(3)/3 needed "; Int (s3 / 3); Str " ticks"; endl] else []) in
  let '(sanity, out) := if bogus s s3 3 then (false, out ++ bogus_line) else (sanity, out) in
  (sanity, out).

(** How the process ends: its status, standard output and the contents of
    [.cpu_freq], if it was opened. *)
Record ended : Type := MkEnded { status : Z; cout : stream; freq_out : option stream }.

(** The first three sleeps are those of [sanity_check]. *)
Definition main (fuel : nat) (can_open : bool) (tsc : nat → Z * Z) : res ended :=
  let '(sane, out) := sanity_check true tsc in
  if sane then
    let out := out ++ [Str "# initializing x86-64 timer (takes some seconds)"; endl] in
    g_timerfreq ← HRT_CALIBRATE fuel (fun k => tsc (3 + k)%nat);
    Ok (MkEnded 0 out (if can_open then Some [Int g_timerfreq; endl] else None))
  else Ok (MkEnded 1 out None).

(** What [fgets] and [strtod] find in the file: the first line holds the digits
    of the number, of which [strtod] gives the nearest double. *)
Definition file_view (f : option stream) : freq_file :=
  match f with
  | None => NoFile
  | Some (Int z :: _) => FirstLine (d_of_Z z)
  | Some _ => EmptyFile
  end.

(** ** Errors of rounding *)

Lemma rne_error X D : 0 < D → 2 * Z.abs (rne X D * D - X) ≤ D.
Proof.
  intros HD. pose proof (Z.div_mod X D ltac:(lia)). pose proof (Z.mod_pos_bound X D HD). unfold rne.
  destruct (Z.compare_spec (2 * (X mod D)) D); [destruct (Z.even _)|..]; nia.
Qed.

(** A quotient below [2^k] is rounded by at most half a unit in place [k - 53]. *)
Lemma rndQ_error X b k :
  0 < b → 0 < X / b < 2 ^ k → 53 ≤ k → 2 * Z.abs (rndQ X b * b - X) ≤ b * 2 ^ (k - 53).
Proof.
  intros Hb HX Hk. unfold rndQ. set (u := ulp_exp (X / b)). pose proof (ulp_exp_nonneg (X / b)) as Hu. fold u in Hu.
  assert (u ≤ k - 53) as Hle.
  { unfold u, ulp_exp. assert (Z.log2 (X / b) < k) by (apply Z.log2_lt_pow2; lia). lia. }
  pose proof (pow2_pos u Hu). pose proof (rne_error X (b * 2 ^ u) ltac:(nia)) as He.
  pose proof (pow2_le u (k - 53) ltac:(lia)).
  replace (rne X (b * 2 ^ u) * 2 ^ u * b) with (rne X (b * 2 ^ u) * (b * 2 ^ u)) by ring. nia.
Qed.

Lemma rndZ_error X k : Z.abs X < 2 ^ k → 53 ≤ k < 2098 → 2 * Z.abs (rndZ X - X) ≤ 2 ^ (k - 53).
Proof.
  intros HX Hk. pose proof (pow2_pos (k - 53) ltac:(lia)). pose proof (below_HUGE k ltac:(lia)).
  destruct (Z.eq_dec X 0) as [->|Hne]; [change (rndZ 0) with 0; lia|].
  pose proof (rndQ_error (Z.abs X) 1 k ltac:(lia) ltac:(rewrite Z.div_1_r; lia) ltac:(lia)) as He. fold (rnd (Z.abs X)) in He.
  pose proof (rnd_le_pow2 (Z.abs X) k ltac:(lia) ltac:(lia)). unfold rndZ. rewrite Z.min_l by lia.
  destruct (Z.sgn_spec X) as [[? ->]|[[? ->]|[? ->]]]; lia.
Qed.

(** ** The 5 % rule *)

(** [(double)z] of a number below [2^53] is exact. *)
Lemma d_of_Z_exact z : 1 ≤ z < 2 ^ 53 → at_least_one (d_of_Z z) ∧ dval (d_of_Z z) = z * ONE.
Proof.
  intros Hz. destruct (d_of_Z_pos z ltac:(lia)) as (H1 & -> & _). split; [done|]. apply rnd_exact; lia.
Qed.

Lemma dabs_val x : is_num x → is_num (dabs x) ∧ dval (dabs x) = Z.abs (dval x).
Proof.
  intros Hx. pose proof HUGE_pos. destruct x as [s|s| |s m e]; [done| |by destruct Hx|].
  - split; [done|]. destruct s; cbn [dabs SFabs dval cond_Zopp]; lia.
  - destruct Hx as [Hv _]. pose proof (valid_finite _ _ _ Hv) as [[He _] _].
    pose proof (pow2_pos (e + 1074) ltac:(lia)). split; [split; [exact Hv|done]|].
    destruct s; cbn [dabs SFabs dval cond_Zopp]; lia.
Qed.

(** [0.05], slightly above a twentieth. *)
Definition C05 : Z := 7205759403792794.

Section rule.
  Context (s t n : Z) (Hs : 1 ≤ s < 2 ^ 40) (Ht : 1 ≤ t < 2 ^ 40) (Hn : n = 2 ∨ n = 3).
Let U := 2 ^ 1061.
Let B := rndQ (t * ONE) n.
Let D := rndZ (s * ONE - B).
Let R := rnd (s * C05 * 2 ^ 1017).

#[local] Lemma rule_units : ONE = 2 ^ 13 * U.
Proof. unfold ONE, U. rewrite <- Z.pow_add_r by lia. done. Qed.

#[local] Lemma rule_quotient : is_fin (ddiv (d_of_Z t) (d_of_Z n)) ∧ dval (ddiv (d_of_Z t) (d_of_Z n)) = B.
Proof.
  destruct (d_of_Z_exact t ltac:(lia)) as (T1 & T2). destruct (d_of_Z_exact n ltac:(lia)) as (N1 & N2).
  pose proof ONE_pos. destruct (d_of_Z_pos t ltac:(lia)) as (_ & _ & T3). destruct (d_of_Z_pos n ltac:(lia)) as (_ & _ & N3).
  assert (dval (d_of_Z t) ≤ 2 ^ 1148) as T4 by (pose proof (pow2_le 1138 1148 ltac:(lia)); lia).
  destruct (ddiv_one _ _ T1 N1 T4 N3) as (F & V & _). split; [done|].
  rewrite V, T2, N2. rewrite (rndQ_scale (t * ONE) n ONE) by lia. done.
Qed.

#[local] Lemma rule_quotient_error : 2 * Z.abs (B * n - t * ONE) ≤ n * U ∧ 0 ≤ B ≤ 2 ^ 1115.
Proof.
  pose proof rule_units as HU. pose proof ONE_pos as H1. assert (0 < U) by (apply pow2_pos; lia).
  assert (0 < t * ONE / n < 2 ^ 1114) as Hq.
  { split; [apply Z.div_str_pos; rewrite HU in *; nia|]. apply Z.div_lt_upper_bound; [lia|].
    change (2 ^ 1114) with (2 ^ 40 * ONE). nia. }
  split; [by apply (rndQ_error (t * ONE) n 1114); lia|].
  pose proof (rndQ_lower (t * ONE) n ltac:(lia) ltac:(lia)) as Hl. pose proof (rndQ_upper (t * ONE) n ltac:(lia) ltac:(lia)) as Hu.
  fold B in Hl, Hu.
  pose proof (Z.log2_nonneg (t * ONE / n)). pose proof (pow2_pos _ (Z.log2_nonneg (t * ONE / n))).
  assert (Z.log2 (t * ONE / n) < 1114) by (apply Z.log2_lt_pow2; lia).
  pose proof (pow2_le (Z.log2 (t * ONE / n) + 1) 1115 ltac:(lia)). lia.
Qed.

#[local] Lemma rule_difference_error : 2 * Z.abs (D - (s * ONE - B)) ≤ 2 * U * 2.
Proof.
  destruct rule_quotient_error as [_ HB]. pose proof ONE_pos.
  change (2 * U * 2) with (2 ^ (1116 - 53)). apply rndZ_error; [|lia].
  assert (s * ONE < 2 ^ 1115) by (change (2 ^ 1115) with (2 ^ 41 * ONE); nia).
  assert (2 ^ 1116 = 2 * 2 ^ 1115) by done. nia.
Qed.

#[local] Lemma rule_limit_error : 2 * Z.abs (R - s * C05 * 2 ^ 1017) ≤ U.
Proof.
  pose proof (pow2_pos 1017 ltac:(lia)). assert (1 ≤ s * C05) by (unfold C05; lia).
  assert (0 < s * C05 * 2 ^ 1017 / 1 < 2 ^ 1114) as Hq.
  { rewrite Z.div_1_r. split; [nia|]. change (2 ^ 1114) with (2 ^ 97 * 2 ^ 1017).
    apply Z.mul_lt_mono_pos_r; [done|]. unfold C05. lia. }
  pose proof (rndQ_error (s * C05 * 2 ^ 1017) 1 1114 ltac:(lia) Hq ltac:(lia)) as He.
  rewrite Z.mul_1_r, Z.mul_1_l in He. exact He.
Qed.

#[local] Lemma bogus_values : bogus s t n = (R <? Z.abs D).
Proof.
  destruct (d_of_Z_exact s ltac:(lia)) as (S1 & S2). destruct rule_quotient as [F V].
  destruct (dsub_correct (d_of_Z s) (ddiv (d_of_Z t) (d_of_Z n)) (proj1 S1) F) as [Nd Vd].
  rewrite S2, V in Vd. fold D in Vd. destruct (dabs_val _ Nd) as [Na Va]. rewrite Vd in Va.
  destruct (at_least_one_finite _ S1) as (m & e & E & Hc & He & Hm).
  destruct (dmul_finite false m e false 7205759403792794 (-57) ltac:(lia) Hm) as [Nm Vm]. fold d_0_05 in Nm, Vm.
  rewrite <- E in Nm, Vm. cbn [xorb cond_Zopp] in Vm.
  assert (Zpos m * 7205759403792794 * 2 ^ (e + -57 + 1074) = s * C05 * 2 ^ 1017) as EX.
  { rewrite E in S2. cbn [dval cond_Zopp] in S2.
    replace (e + -57 + 1074) with (e + 1074 - 57) by lia.
    rewrite (pow2_split 57 (e + 1074)) in S2 by lia. change ONE with (2 ^ 1017 * 2 ^ 57) in S2. unfold C05. nia. }
  rewrite EX in Vm. fold R in Vm.
  assert (R ≤ HUGE) as HR.
  { pose proof rule_limit_error. pose proof (below_HUGE 1115 ltac:(lia)). unfold U, C05 in *.
    assert (2 ^ 1115 = 2 ^ 98 * 2 ^ 1017) by done. assert (2 ^ 1061 = 2 ^ 44 * 2 ^ 1017) by done.
    pose proof (pow2_pos 1017 ltac:(lia)). nia. }
  rewrite Z.min_l in Vm by done. unfold bogus. rewrite dltb_val by done. by rewrite Va, Vm.
Qed.

(** The limit is a twentieth, up to half a unit. *)
#[local] Lemma rule_limit : s * ONE ≤ 20 * (s * C05 * 2 ^ 1017) ∧ 2 * (20 * (s * C05 * 2 ^ 1017)) ≤ 2 * (s * ONE) + U.
Proof.
  pose proof (pow2_pos 1017 ltac:(lia)). unfold C05.
  assert (ONE = 2 ^ 57 * 2 ^ 1017) as -> by done. assert (U = 2 ^ 44 * 2 ^ 1017) as -> by done. nia.
Qed.

#[local] Lemma rndZ_exact m j : Z.abs m < 2 ^ 53 → 0 ≤ j ≤ 2045 → rndZ (m * 2 ^ j) = m * 2 ^ j.
Proof.
  intros Hm Hj. destruct (Z.eq_dec m 0) as [->|Hne]; [done|]. pose proof (pow2_pos j ltac:(lia)).
  pose proof (pow2_le j 2045 ltac:(lia)). unfold rndZ. rewrite Z.abs_mul, (Z.abs_eq (2 ^ j)), rnd_exact by lia.
  assert (Z.abs m * 2 ^ j ≤ HUGE) by (change HUGE with (2 ^ 53 * 2 ^ 2045); nia).
  rewrite Z.min_l, Z.sgn_mul, (Z.sgn_pos (2 ^ j)) by lia.
  destruct (Z.sgn_spec m) as [[? ->]|[[? ->]|[? ->]]]; lia.
Qed.

(** On the boundary all operations are exact. *)
#[local] Lemma rule_exact : 20 * Z.abs (n * s - t) = n * s → Z.abs D ≤ R.
Proof.
  intros Heq. pose proof ONE_pos as H1. destruct rule_limit as [Hlim _].
  assert (∃ m j, n * B = t * ONE ∧ s * ONE - B = m * 2 ^ j ∧ Z.abs m < 2 ^ 53 ∧ 0 ≤ j ≤ 2045) as (m & j & HB & HX & Hm & Hj).
  { destruct Hn as [En|En]; rewrite En in *.
    - assert (B = t * 2 ^ 1073) as EB.
      { unfold B. rewrite En. change ONE with (2 ^ 1073 * 2). rewrite Z.mul_assoc, rndQ_exact by lia.
        apply rnd_exact; lia. }
      exists (2 * s - t), 1073. rewrite EB. change ONE with (2 ^ 1073 * 2). split_and!; lia.
    - assert (∃ t', t = 3 * t') as [t' Et'].
      { exists (t / 3). pose proof (Z.div_mod t 3 ltac:(lia)). pose proof (Z.mod_pos_bound t 3 ltac:(lia)).
        destruct (Z.abs_spec (3 * s - t)) as [[_ Ea]|[_ Ea]]; rewrite Ea in Heq; lia. }
      assert (B = t' * ONE) as EB.
      { unfold B. rewrite En, Et'. replace (3 * t' * ONE) with (t' * ONE * 3) by ring. rewrite rndQ_exact by lia.
        apply rnd_exact; lia. }
      exists (s - t'), 1074. rewrite EB, Et'. fold ONE. split_and!; lia. }
  assert (D = s * ONE - B) as -> by (unfold D; rewrite HX; by apply rndZ_exact).
  assert (20 * Z.abs (s * ONE - B) = s * ONE) as E20.
  { assert (n * Z.abs (s * ONE - B) = Z.abs (n * s - t) * ONE) as En.
    { rewrite <- (Z.abs_eq n) at 1 by lia. rewrite <- (Z.abs_eq ONE) at 2 by lia. rewrite <- !Z.abs_mul. f_equal.
      rewrite Z.mul_sub_distr_l, HB. ring. }
    assert (n * (20 * Z.abs (s * ONE - B)) = n * (s * ONE)) by (replace (n * (s * ONE)) with (n * s * ONE) by ring;
      rewrite <- Heq; replace (n * (20 * Z.abs (s * ONE - B))) with (20 * (n * Z.abs (s * ONE - B))) by ring; rewrite En; ring).
    nia. }
  rewrite HX, Z.abs_mul in *. pose proof (pow2_pos j ltac:(lia)). rewrite (Z.abs_eq (2 ^ j)) in * by lia.
  rewrite <- (rnd_exact (Z.abs m) j) by nia. apply rnd_mono. lia.
Qed.

Lemma bogus_rule : bogus s t n = negb (20 * Z.abs (n * s - t) <=? n * s).
Proof.
  rewrite bogus_values. destruct rule_quotient_error as [E1 _]. pose proof rule_difference_error as E2.
  pose proof rule_limit_error as E3. destruct rule_limit as [L1 L2]. rewrite rule_units in *.
  assert (0 < U) as HU by (apply pow2_pos; lia). set (P := s * C05 * 2 ^ 1017) in *.
  replace (s * (2 ^ 13 * U)) with (2 ^ 13 * (s * U)) in * by ring. replace (t * (2 ^ 13 * U)) with (2 ^ 13 * (t * U)) in * by ring.
  destruct (Z.lt_total (20 * Z.abs (n * s - t)) (n * s)) as [Hlt|[Heq|Hgt]].
  - rewrite (proj2 (Z.leb_le _ _)) by lia. apply Z.ltb_ge.
    assert (20 * Z.abs (n * (s * U) - t * U) ≤ n * (s * U) - U) as Hd.
    { replace (n * (s * U) - t * U) with ((n * s - t) * U) by ring. rewrite Z.abs_mul, (Z.abs_eq U) by lia. nia. }
    clear Hlt. generalize dependent (s * U). generalize dependent (t * U). intros tU sU.
    destruct Hn as [-> | ->]; lia.
  - rewrite (proj2 (Z.leb_le _ _)) by lia. apply Z.ltb_ge. by apply rule_exact.
  - rewrite (proj2 (Z.leb_gt _ _)) by lia. apply Z.ltb_lt.
    assert (n * (s * U) + U ≤ 20 * Z.abs (n * (s * U) - t * U)) as Hd.
    { replace (n * (s * U) - t * U) with ((n * s - t) * U) by ring. rewrite Z.abs_mul, (Z.abs_eq U) by lia. nia. }
    clear Hgt. generalize dependent (s * U). generalize dependent (t * U). intros tU sU.
    destruct Hn as [-> | ->]; lia.
Qed.
End rule.

(** ** Reading the file back *)

Lemma double_to_u64_exact f : 0 ≤ f < 2 ^ 53 → double_to_u64 (d_of_Z f) = Ok f.
Proof.
  intros Hf. destruct (Z.eq_dec f 0) as [->|]; [done|].
  destruct (d_of_Z_exact f ltac:(lia)) as [F1 F2]. destruct (at_least_one_finite _ F1) as (m & e & E & _ & He & _).
  rewrite E in *. cbn [dval cond_Zopp double_to_u64] in *. pose proof ONE_pos.
  assert ((if 0 <=? e then Zpos m * 2 ^ e else Zpos m / 2 ^ (- e)) = f) as ->.
  { destruct (Z.leb_spec 0 e) as [H0|H0].
    - rewrite Z.pow_add_r in F2 by lia. fold ONE in F2. nia.
    - rewrite <- (Z.div_mul f (2 ^ (- e))) by (pose proof (pow2_pos (- e)); lia). f_equal.
      unfold ONE in F2. rewrite (pow2_split (e + 1074) 1074) in F2 by lia.
      replace (1074 - (e + 1074)) with (- e) in F2 by lia. pose proof (pow2_pos (e + 1074) ltac:(lia)). nia. }
  by rewrite (proj2 (Z.ltb_lt _ _)) by lia.
Qed.

(** A counter of 2.4 GHz: sleeps of one, two and three seconds, then of one. *)
Definition steady_tsc (k : nat) : Z * Z :=
  (7, 7 + (if decide (k < 3)%nat then Z.of_nat k + 1 else 1) * 2400000000).

(** ** Properties *)

(** C37. The sanity check applies the 5 % rule exactly.  With tick counts below
    [2^40] it accepts the counter if and only if half of the ticks of the
    two-second sleep differs from those of the one-second sleep by at most a
    twentieth of the latter, and a third of those of the three-second sleep
    differs from that (truncated) half by at most a twentieth of it: the roundings
    of the five floating-point operations never change the answer. *)
Theorem sanity_check_five_percent print tsc :
  1 ≤ sleep_ticks tsc 0 < 2 ^ 40 → 2 ≤ sleep_ticks tsc 1 < 2 ^ 40 → 1 ≤ sleep_ticks tsc 2 < 2 ^ 40 →
  (sanity_check print tsc).1 = true ↔
  20 * Z.abs (2 * sleep_ticks tsc 0 - sleep_ticks tsc 1) ≤ 2 * sleep_ticks tsc 0 ∧
  20 * Z.abs (3 * (sleep_ticks tsc 1 / 2) - sleep_ticks tsc 2) ≤ 3 * (sleep_ticks tsc 1 / 2).
Proof.
  intros H0 H1 H2.
  assert (1 ≤ sleep_ticks tsc 1 / 2 < 2 ^ 40) as Hh
    by (split; [apply Z.div_le_lower_bound|apply Z.div_lt_upper_bound]; lia).
  unfold sanity_check. rewrite (bogus_rule _ _ 2), (bogus_rule _ _ 3) by lia. rewrite <- !Z.leb_le.
  destruct (_ <=? _), (_ <=? _); simpl; naive_solver.
Qed.

Lemma sanity_check_five_percent_witness :
  (sanity_check false steady_tsc).1 = true.
Proof.
  apply sanity_check_five_percent; vm_compute; [split; [discriminate|reflexivity]..|split; discriminate].
Defined.

(** C38. The file round trip.  When the counter is sane, the calibration yields
    [f] and the file can be opened, the utility ends with status 0, and
    [init_clock_time] reads [f] back from the file it wrote, for every frequency
    below [2^53]. *)
Theorem freq_file_roundtrip fuel tsc f fuel' tsc' :
  (sanity_check true tsc).1 = true → HRT_CALIBRATE fuel (fun k => tsc (3 + k)%nat) = Ok f → f < 2 ^ 53 →
  ∃ e, main fuel true tsc = Ok e ∧ status e = 0 ∧ init_clock_time fuel' (file_view (freq_out e)) tsc' = Ok f.
Proof.
  intros Hs Hc Hf. unfold main. destruct (sanity_check true tsc) as [sane out]. cbn [fst] in Hs. subst sane.
  rewrite Hc. eexists. split; [done|]. split; [done|]. cbn [freq_out file_view init_clock_time].
  apply double_to_u64_exact. split; [|done].
  apply calibrate_loop_range in Hc; [lia|unfold HRT_MIN_START; lia].
Qed.

Lemma freq_file_roundtrip_witness :
  ∃ e, main 4 true steady_tsc = Ok e ∧
    status e = 0 ∧ init_clock_time 0 (file_view (freq_out e)) (fun _ => (0, 0)) = Ok 2400000000.
Proof.
  apply (freq_file_roundtrip 4 steady_tsc
    2400000000 0 (fun _ => (0, 0))); vm_compute; reflexivity.
Defined.
