(* ===== verification/Callbacks.v ===== *)
(** * The callbacks (callbacks.cc, callbacks.h)

    The runtime reports what the application does by calling the functions of
    this file.  They keep one object per task, parallel region, loop and thread
    and build the graph as the program runs.

    The state holds every object the callbacks allocate, by address; addresses
    are never reused, so that a pointer to a freed object stays invalid.  The
    [ompt_data_t] cells that the runtime attaches to its threads, tasks and
    parallel regions are three maps from cells to the pointer the tool stored
    there; a cell without entry holds NULL.  A parameter of type [ompt_data_t*]
    is an optional cell, and so is the result of [g_get_thread_data_f], which
    the loop callbacks take as their last argument.  The arguments that a
    callback does not use (frames, code addresses, invokers) are left out, and
    so is the tracing output, which [Tracing] adds.

    A callback is executed as a whole here: sequences of callbacks interleave the
    callbacks of different threads, not their steps.  [Steps] and [Threads] have
    the same callbacks cut at every access and lock operation. *)
From stdpp Require Import base gmap list sorting.
From Stdlib Require Import ZArith Lia.
From S2P Require Import Prelude Float64 Graph.

(** ** Types of the OMPT interface *)

Inductive ompt_scope_endpoint_t : Type := ompt_scope_begin | ompt_scope_end.

Inductive ompt_task_type_t : Type :=
  | ompt_task_initial
  | ompt_task_implicit
  | ompt_task_explicit
  | ompt_task_target.

Inductive ompt_sync_region_kind_t : Type :=
  | ompt_sync_region_barrier
  | ompt_sync_region_taskwait
  | ompt_sync_region_taskgroup.

#[export] Instance endpoint_eq_dec : EqDecision ompt_scope_endpoint_t.
Proof. solve_decision. Defined.
#[export] Instance task_type_eq_dec : EqDecision ompt_task_type_t.
Proof. solve_decision. Defined.
#[export] Instance sync_kind_eq_dec : EqDecision ompt_sync_region_kind_t.
Proof. solve_decision. Defined.

(** ** The tool's own objects *)

Record WorksharingData : Type := MkWs {
  ws_start_node : option positive;
  ws_sink_node : option positive;
  ws_last_chunk_node : option positive }.

Definition new_WorksharingData : WorksharingData := MkWs None None None.

Record TaskData : Type := MkTask {
  td_curr_task_node : option positive;
  td_curr_ws_data : option positive;
  td_curr_barrier_node : option positive;
  td_sink_node : option positive;
  td_threadNum : Z }.

Definition new_TaskData : TaskData := MkTask None None None None 0.

Record ParallelRegionData : Type := MkRegion {
  pr_parent_task_data : option positive;
  pr_sink_node : option positive;
  pr_team_size : Z;
  pr_barrier_cnt : Z;
  pr_curr_barrier_node : option positive }.

Definition new_ParallelRegionData : ParallelRegionData := MkRegion None None 0 0 None.

Record ThreadData : Type := MkThread {
  th_loopCounter : Z;
  th_papiEventset : Z }.

Definition set_ws_start_node (v : option positive) (d : WorksharingData) : WorksharingData :=
  {| ws_start_node := v; ws_sink_node := ws_sink_node d; ws_last_chunk_node :=
     ws_last_chunk_node d |}.

Definition set_ws_sink_node (v : option positive) (d : WorksharingData) : WorksharingData :=
  {| ws_start_node := ws_start_node d; ws_sink_node := v; ws_last_chunk_node :=
     ws_last_chunk_node d |}.

Definition set_ws_last_chunk_node (v : option positive) (d : WorksharingData) : WorksharingData :=
  {| ws_start_node := ws_start_node d; ws_sink_node := ws_sink_node d; ws_last_chunk_node :=
     v |}.

Definition set_td_curr_task_node (v : option positive) (d : TaskData) : TaskData :=
  {| td_curr_task_node := v; td_curr_ws_data := td_curr_ws_data d; td_curr_barrier_node :=
     td_curr_barrier_node d; td_sink_node := td_sink_node d; td_threadNum := td_threadNum d |}.

Definition set_td_curr_ws_data (v : option positive) (d : TaskData) : TaskData :=
  {| td_curr_task_node := td_curr_task_node d; td_curr_ws_data := v; td_curr_barrier_node :=
     td_curr_barrier_node d; td_sink_node := td_sink_node d; td_threadNum := td_threadNum d |}.

Definition set_td_curr_barrier_node (v : option positive) (d : TaskData) : TaskData :=
  {| td_curr_task_node := td_curr_task_node d; td_curr_ws_data := td_curr_ws_data d;
     td_curr_barrier_node := v; td_sink_node := td_sink_node d; td_threadNum := td_threadNum
     d |}.

Definition set_td_sink_node (v : option positive) (d : TaskData) : TaskData :=
  {| td_curr_task_node := td_curr_task_node d; td_curr_ws_data := td_curr_ws_data d;
     td_curr_barrier_node := td_curr_barrier_node d; td_sink_node := v; td_threadNum :=
     td_threadNum d |}.

Definition set_td_threadNum (v : Z) (d : TaskData) : TaskData :=
  {| td_curr_task_node := td_curr_task_node d; td_curr_ws_data := td_curr_ws_data d;
     td_curr_barrier_node := td_curr_barrier_node d; td_sink_node := td_sink_node d;
     td_threadNum := v |}.

Definition set_pr_parent_task_data (v : option positive) (d : ParallelRegionData) : ParallelRegionData :=
  {| pr_parent_task_data := v; pr_sink_node := pr_sink_node d; pr_team_size := pr_team_size
     d; pr_barrier_cnt := pr_barrier_cnt d; pr_curr_barrier_node := pr_curr_barrier_node d |}.

Definition set_pr_sink_node (v : option positive) (d : ParallelRegionData) : ParallelRegionData :=
  {| pr_parent_task_data := pr_parent_task_data d; pr_sink_node := v; pr_team_size :=
     pr_team_size d; pr_barrier_cnt := pr_barrier_cnt d; pr_curr_barrier_node :=
     pr_curr_barrier_node d |}.

Definition set_pr_team_size (v : Z) (d : ParallelRegionData) : ParallelRegionData :=
  {| pr_parent_task_data := pr_parent_task_data d; pr_sink_node := pr_sink_node d;
     pr_team_size := v; pr_barrier_cnt := pr_barrier_cnt d; pr_curr_barrier_node :=
     pr_curr_barrier_node d |}.

Definition set_pr_barrier_cnt (v : Z) (d : ParallelRegionData) : ParallelRegionData :=
  {| pr_parent_task_data := pr_parent_task_data d; pr_sink_node := pr_sink_node d;
     pr_team_size := pr_team_size d; pr_barrier_cnt := v; pr_curr_barrier_node :=
     pr_curr_barrier_node d |}.

Definition set_pr_curr_barrier_node (v : option positive) (d : ParallelRegionData) : ParallelRegionData :=
  {| pr_parent_task_data := pr_parent_task_data d; pr_sink_node := pr_sink_node d;
     pr_team_size := pr_team_size d; pr_barrier_cnt := pr_barrier_cnt d;
     pr_curr_barrier_node := v |}.

(** ** The state of the tool *)

Record state : Type := MkState {
  nodes : heap;
  tasks : gmap positive TaskData;
  worksharings : gmap positive WorksharingData;
  regions : gmap positive ParallelRegionData;
  threads : gmap positive ThreadData;
  thread_ptr : gmap positive positive;
  task_ptr : gmap positive positive;
  region_ptr : gmap positive positive;
  g_tdg : node_map;
  g_finalNode : option positive;
  next_id : Z;
  g_papiNumEvents : Z;
  g_papiEvents : list Z;
  next_loc : positive;
  ext_calls : nat }.

Definition set_nodes (v : heap) (s : state) : state :=
  {| nodes := v; tasks := tasks s; worksharings := worksharings s; regions := regions s;
     threads := threads s; thread_ptr := thread_ptr s; task_ptr := task_ptr s; region_ptr :=
     region_ptr s; g_tdg := g_tdg s; g_finalNode := g_finalNode s; next_id := next_id s;
     g_papiNumEvents := g_papiNumEvents s; g_papiEvents := g_papiEvents s; next_loc :=
     next_loc s; ext_calls := ext_calls s |}.

Definition set_tasks (v : gmap positive TaskData) (s : state) : state :=
  {| nodes := nodes s; tasks := v; worksharings := worksharings s; regions := regions s;
     threads := threads s; thread_ptr := thread_ptr s; task_ptr := task_ptr s; region_ptr :=
     region_ptr s; g_tdg := g_tdg s; g_finalNode := g_finalNode s; next_id := next_id s;
     g_papiNumEvents := g_papiNumEvents s; g_papiEvents := g_papiEvents s; next_loc :=
     next_loc s; ext_calls := ext_calls s |}.

Definition set_worksharings (v : gmap positive WorksharingData) (s : state) : state :=
  {| nodes := nodes s; tasks := tasks s; worksharings := v; regions := regions s; threads :=
     threads s; thread_ptr := thread_ptr s; task_ptr := task_ptr s; region_ptr := region_ptr
     s; g_tdg := g_tdg s; g_finalNode := g_finalNode s; next_id := next_id s;
     g_papiNumEvents := g_papiNumEvents s; g_papiEvents := g_papiEvents s; next_loc :=
     next_loc s; ext_calls := ext_calls s |}.

Definition set_regions (v : gmap positive ParallelRegionData) (s : state) : state :=
  {| nodes := nodes s; tasks := tasks s; worksharings := worksharings s; regions := v;
     threads := threads s; thread_ptr := thread_ptr s; task_ptr := task_ptr s; region_ptr :=
     region_ptr s; g_tdg := g_tdg s; g_finalNode := g_finalNode s; next_id := next_id s;
     g_papiNumEvents := g_papiNumEvents s; g_papiEvents := g_papiEvents s; next_loc :=
     next_loc s; ext_calls := ext_calls s |}.

Definition set_threads (v : gmap positive ThreadData) (s : state) : state :=
  {| nodes := nodes s; tasks := tasks s; worksharings := worksharings s; regions := regions
     s; threads := v; thread_ptr := thread_ptr s; task_ptr := task_ptr s; region_ptr :=
     region_ptr s; g_tdg := g_tdg s; g_finalNode := g_finalNode s; next_id := next_id s;
     g_papiNumEvents := g_papiNumEvents s; g_papiEvents := g_papiEvents s; next_loc :=
     next_loc s; ext_calls := ext_calls s |}.

Definition set_thread_ptr (v : gmap positive positive) (s : state) : state :=
  {| nodes := nodes s; tasks := tasks s; worksharings := worksharings s; regions := regions
     s; threads := threads s; thread_ptr := v; task_ptr := task_ptr s; region_ptr :=
     region_ptr s; g_tdg := g_tdg s; g_finalNode := g_finalNode s; next_id := next_id s;
     g_papiNumEvents := g_papiNumEvents s; g_papiEvents := g_papiEvents s; next_loc :=
     next_loc s; ext_calls := ext_calls s |}.

Definition set_task_ptr (v : gmap positive positive) (s : state) : state :=
  {| nodes := nodes s; tasks := tasks s; worksharings := worksharings s; regions := regions
     s; threads := threads s; thread_ptr := thread_ptr s; task_ptr := v; region_ptr :=
     region_ptr s; g_tdg := g_tdg s; g_finalNode := g_finalNode s; next_id := next_id s;
     g_papiNumEvents := g_papiNumEvents s; g_papiEvents := g_papiEvents s; next_loc :=
     next_loc s; ext_calls := ext_calls s |}.

Definition set_region_ptr (v : gmap positive positive) (s : state) : state :=
  {| nodes := nodes s; tasks := tasks s; worksharings := worksharings s; regions := regions
     s; threads := threads s; thread_ptr := thread_ptr s; task_ptr := task_ptr s; region_ptr
     := v; g_tdg := g_tdg s; g_finalNode := g_finalNode s; next_id := next_id s;
     g_papiNumEvents := g_papiNumEvents s; g_papiEvents := g_papiEvents s; next_loc :=
     next_loc s; ext_calls := ext_calls s |}.

Definition set_g_tdg (v : node_map) (s : state) : state :=
  {| nodes := nodes s; tasks := tasks s; worksharings := worksharings s; regions := regions
     s; threads := threads s; thread_ptr := thread_ptr s; task_ptr := task_ptr s; region_ptr
     := region_ptr s; g_tdg := v; g_finalNode := g_finalNode s; next_id := next_id s;
     g_papiNumEvents := g_papiNumEvents s; g_papiEvents := g_papiEvents s; next_loc :=
     next_loc s; ext_calls := ext_calls s |}.

Definition set_g_finalNode (v : option positive) (s : state) : state :=
  {| nodes := nodes s; tasks := tasks s; worksharings := worksharings s; regions := regions
     s; threads := threads s; thread_ptr := thread_ptr s; task_ptr := task_ptr s; region_ptr
     := region_ptr s; g_tdg := g_tdg s; g_finalNode := v; next_id := next_id s;
     g_papiNumEvents := g_papiNumEvents s; g_papiEvents := g_papiEvents s; next_loc :=
     next_loc s; ext_calls := ext_calls s |}.

Definition set_next_id (v : Z) (s : state) : state :=
  {| nodes := nodes s; tasks := tasks s; worksharings := worksharings s; regions := regions
     s; threads := threads s; thread_ptr := thread_ptr s; task_ptr := task_ptr s; region_ptr
     := region_ptr s; g_tdg := g_tdg s; g_finalNode := g_finalNode s; next_id := v;
     g_papiNumEvents := g_papiNumEvents s; g_papiEvents := g_papiEvents s; next_loc :=
     next_loc s; ext_calls := ext_calls s |}.

Definition set_g_papiNumEvents (v : Z) (s : state) : state :=
  {| nodes := nodes s; tasks := tasks s; worksharings := worksharings s; regions := regions
     s; threads := threads s; thread_ptr := thread_ptr s; task_ptr := task_ptr s; region_ptr
     := region_ptr s; g_tdg := g_tdg s; g_finalNode := g_finalNode s; next_id := next_id s;
     g_papiNumEvents := v; g_papiEvents := g_papiEvents s; next_loc := next_loc s; ext_calls
     := ext_calls s |}.

Definition set_g_papiEvents (v : list Z) (s : state) : state :=
  {| nodes := nodes s; tasks := tasks s; worksharings := worksharings s; regions := regions
     s; threads := threads s; thread_ptr := thread_ptr s; task_ptr := task_ptr s; region_ptr
     := region_ptr s; g_tdg := g_tdg s; g_finalNode := g_finalNode s; next_id := next_id s;
     g_papiNumEvents := g_papiNumEvents s; g_papiEvents := v; next_loc := next_loc s;
     ext_calls := ext_calls s |}.

Definition set_next_loc (v : positive) (s : state) : state :=
  {| nodes := nodes s; tasks := tasks s; worksharings := worksharings s; regions := regions
     s; threads := threads s; thread_ptr := thread_ptr s; task_ptr := task_ptr s; region_ptr
     := region_ptr s; g_tdg := g_tdg s; g_finalNode := g_finalNode s; next_id := next_id s;
     g_papiNumEvents := g_papiNumEvents s; g_papiEvents := g_papiEvents s; next_loc := v;
     ext_calls := ext_calls s |}.

Definition set_ext_calls (v : nat) (s : state) : state :=
  {| nodes := nodes s; tasks := tasks s; worksharings := worksharings s; regions := regions
     s; threads := threads s; thread_ptr := thread_ptr s; task_ptr := task_ptr s; region_ptr
     := region_ptr s; g_tdg := g_tdg s; g_finalNode := g_finalNode s; next_id := next_id s;
     g_papiNumEvents := g_papiNumEvents s; g_papiEvents := g_papiEvents s; next_loc :=
     next_loc s; ext_calls := v |}.

(** ** The outside world

    The clock and the PAPI library.  Every answer may depend on the number of
    calls made before, so that an environment describes an arbitrary behaviour
    of the two along one run. *)

Record Env : Type := MkEnv {
  ftimer : nat → double;
  PAPI_create_eventset : nat → Z * Z;       (** return code and the event set *)
  PAPI_add_event : nat → Z → Z → Z;
  PAPI_cleanup_eventset : nat → Z → Z;
  PAPI_destroy_eventset : nat → Z → Z;
  PAPI_stop : nat → Z → list Z }.           (** the values written to the array *)

Definition PAPI_OK : Z := 0.

(** ** Computations *)

Definition M (A : Type) : Type := state → res (A * state).

#[export] Instance M_ret : MRet M := fun A a s => Ok (a, s).
#[export] Instance M_bind : MBind M := fun A B f m s =>
  match m s with
  | Ok (a, s') => f a s'
  | UB u => UB u
  | Exit c => Exit c
  | NoFuel => NoFuel
  end.

Definition skip : M unit := mret tt.
Definition lift {A} (r : res A) : M A := fun s => a ← r; Ok (a, s).
Definition read {A} (f : state → A) : M A := fun s => Ok (f s, s).
Definition modify (f : state → state) : M unit := fun s => Ok (tt, f s).
Definition exit {A} (code : Z) : M A := fun _ => Exit code.

(** The address of a new object. *)
Definition alloc : M positive := fun s => Ok (next_loc s, set_next_loc (Pos.succ (next_loc s)) s).

(** The number of calls to the outside made so far, counting this one. *)
Definition tick : M nat := fun s => Ok (ext_calls s, set_ext_calls (S (ext_calls s)) s).

(** Dereferencing the pointers of the tool. *)
Definition load_task (p : option positive) : M TaskData :=
  l ← lift (non_null p); h ← read tasks; lift (lookup_obj h l).
Definition load_region (p : option positive) : M ParallelRegionData :=
  l ← lift (non_null p); h ← read regions; lift (lookup_obj h l).
Definition load_ws (p : option positive) : M WorksharingData :=
  l ← lift (non_null p); h ← read worksharings; lift (lookup_obj h l).
Definition load_thread (p : option positive) : M ThreadData :=
  l ← lift (non_null p); h ← read threads; lift (lookup_obj h l).
Definition load_node (p : option positive) : M Node :=
  l ← lift (non_null p); h ← read nodes; lift (lookup_obj h l).

(** Assigning to a field of an object. *)
Definition modify_task (p : option positive) (f : TaskData → TaskData) : M unit :=
  l ← lift (non_null p); d ← load_task p; modify (fun s => set_tasks (<[l := f d]> (tasks s)) s).
Definition modify_region (p : option positive) (f : ParallelRegionData → ParallelRegionData) : M unit :=
  l ← lift (non_null p); d ← load_region p; modify (fun s => set_regions (<[l := f d]> (regions s)) s).
Definition modify_ws (p : option positive) (f : WorksharingData → WorksharingData) : M unit :=
  l ← lift (non_null p); d ← load_ws p;
  modify (fun s => set_worksharings (<[l := f d]> (worksharings s)) s).
Definition modify_thread (p : option positive) (f : ThreadData → ThreadData) : M unit :=
  l ← lift (non_null p); d ← load_thread p; modify (fun s => set_threads (<[l := f d]> (threads s)) s).
Definition modify_node (p : option positive) (f : Node → Node) : M unit :=
  l ← lift (non_null p); d ← load_node p; modify (fun s => set_nodes (<[l := f d]> (nodes s)) s).

(** [data->ptr] for the three kinds of cells. *)
Definition thread_cell (c : option positive) : M (option positive) :=
  l ← lift (non_null c); m ← read thread_ptr; mret (m !! l).
Definition task_cell (c : option positive) : M (option positive) :=
  l ← lift (non_null c); m ← read task_ptr; mret (m !! l).
Definition region_cell (c : option positive) : M (option positive) :=
  l ← lift (non_null c); m ← read region_ptr; mret (m !! l).

(** [data->ptr = p]. *)
Definition store_ptr (p : option positive) (l : positive) (m : gmap positive positive)
  : gmap positive positive :=
  match p with Some v => <[l := v]> m | None => delete l m end.
Definition set_thread_cell (c : option positive) (p : option positive) : M unit :=
  l ← lift (non_null c); modify (fun s => set_thread_ptr (store_ptr p l (thread_ptr s)) s).
Definition set_task_cell (c : option positive) (p : option positive) : M unit :=
  l ← lift (non_null c); modify (fun s => set_task_ptr (store_ptr p l (task_ptr s)) s).
Definition set_region_cell (c : option positive) (p : option positive) : M unit :=
  l ← lift (non_null c); modify (fun s => set_region_ptr (store_ptr p l (region_ptr s)) s).

(** Reads the fields of an updated state. *)
Ltac st_simpl :=
  cbn [nodes tasks worksharings regions threads thread_ptr task_ptr region_ptr g_tdg g_finalNode
    next_id g_papiNumEvents g_papiEvents next_loc ext_calls set_nodes set_tasks
    set_worksharings set_regions set_threads set_thread_ptr set_task_ptr set_region_ptr
    set_g_tdg set_g_finalNode set_next_id set_g_papiNumEvents set_g_papiEvents set_next_loc
    set_ext_calls store_ptr].

(** ** The graph, from the callbacks *)

Definition Graph_connectNodes (source target : option positive) : M unit :=
  u ← lift (non_null source); v ← lift (non_null target);
  h ← read nodes; h' ← lift (connectNodes h u v); modify (set_nodes h').

Definition Graph_disconnectNodes (source target : option positive) : M unit :=
  u ← lift (non_null source); v ← lift (non_null target);
  h ← read nodes; h' ← lift (disconnectNodes h u v); modify (set_nodes h').

Definition Node_nextId : M Z := fun s =>
  let '(nid, next) := nextId (next_id s) in Ok (nid, set_next_id next s).

(** [new Node( id, type, 0 )]. *)
Definition alloc_Node (id : Z) (type : NodeType) : M positive :=
  l ← alloc; modify (fun s => set_nodes (<[l := new_Node id type dzero]> (nodes s)) s);; mret l.

Section callbacks.
Context (env : Env).

Definition ftimer_msec : M double := k ← tick; mret (ftimer env k).

Definition create_clean_node (type : NodeType) (gen_id : bool) : M positive :=
  nid ← (if gen_id then Node_nextId else mret 0%Z);
  node ← alloc_Node nid type;
  modify (fun s => set_g_tdg (addNode (g_tdg s) nid node) s);;
  mret node.

Definition create_new_node (type : NodeType) (parent_node : option positive) (set_time : bool)
  : M positive :=
  node ← create_clean_node type (bool_decide (is_Some parent_node));
  (if bool_decide (is_Some parent_node) then Graph_connectNodes parent_node (Some node) else skip);;
  (if set_time then t ← ftimer_msec; modify_node (Some node) (setLastTime t) else skip);;
  mret node.

(** [node->addTime( ftimer_msec() )] and [node->setLastTime( ftimer_msec() )]. *)
Definition add_time_now (node : option positive) : M unit :=
  t ← ftimer_msec; modify_node node (addTime t).
Definition set_last_time_now (node : option positive) : M unit :=
  t ← ftimer_msec; modify_node node (setLastTime t).

(** ** PAPI counters of a node *)

Definition initPapiVals (node : option positive) (num_papi_events : Z) : M unit :=
  modify_node node (fun n =>
    setPapi num_papi_events
      (if (0 <? num_papi_events)%Z then Some (replicate (Z.to_nat num_papi_events) 0%Z)
       else _papiValsArr n) n).

Definition startPapiCounters (node : option positive) (papi_eventset : Z) : M unit :=
  _ ← tick; skip.

(** The values PAPI writes into an array of [long long]. *)
Definition write_vals (arr : option (list Z)) (vs : list Z) : res (option (list Z)) :=
  match arr with
  | None => match vs with [] => Ok None | _ => UB NullDeref end
  | Some a => if decide (length vs ≤ length a) then Ok (Some (vs ++ drop (length vs) a)) else UB OutOfRange
  end.

Definition endPapiCounters (node : option positive) (papi_eventset : Z) : M unit :=
  k ← tick;
  n ← load_node node;
  arr ← lift (write_vals (_papiValsArr n) (PAPI_stop env k papi_eventset));
  modify_node node (fun n => setPapi (_numPapiEvents n) arr n).

(** ** Threads *)

(** The loop that adds the configured events [g_papiEvents[0 .. n-1]] to the
    event set. *)
Fixpoint add_events (eventset : Z) (n : nat) (events : list Z) : M unit :=
  match n with
  | O => skip
  | S n' =>
      match events with
      | [] => lift (UB OutOfRange)
      | e :: events' =>
          k ← tick;
          if decide (PAPI_add_event env k eventset e = PAPI_OK) then add_events eventset n' events'
          else exit (-1)
      end
  end.

Definition cb_thread_begin (thread_data : option positive) : M unit :=
  th_data ← alloc;
  k ← tick;
  let '(rc, eventset) := PAPI_create_eventset env k in
  modify (fun s => set_threads (<[th_data := MkThread 0 eventset]> (threads s)) s);;
  (if decide (rc = PAPI_OK) then skip else exit (-1));;
  events ← read g_papiEvents;
  num ← read g_papiNumEvents;
  add_events eventset (Z.to_nat num) events;;
  set_thread_cell thread_data (Some th_data).

Definition cb_thread_end (thread_data : option positive) : M unit :=
  th_data ← thread_cell thread_data;
  d ← load_thread th_data;
  k ← tick;
  (if decide (PAPI_cleanup_eventset env k (th_papiEventset d) = PAPI_OK) then skip else exit (-1));;
  k ← tick;
  (if decide (PAPI_destroy_eventset env k (th_papiEventset d) = PAPI_OK) then skip else exit (-1));;
  l ← lift (non_null th_data);
  modify (fun s => set_threads (delete l (threads s)) s).

(** ** Parallel regions and implicit tasks *)

(** [new TaskData]. *)
Definition alloc_TaskData : M (option positive) :=
  l ← alloc; modify (fun s => set_tasks (<[l := new_TaskData]> (tasks s)) s);; mret (Some l).

Definition cb_implicit_task (endpoint : ompt_scope_endpoint_t) (parallel_data task_data : option positive)
    (team_size thread_num : Z) : M unit :=
  (if decide (endpoint = ompt_scope_begin) then
    par_info ← region_cell parallel_data;
    new_task_data ← alloc_TaskData;
    par ← load_region par_info;
    parent ← load_task (pr_parent_task_data par);
    node ← create_new_node IMP_TASK (td_curr_task_node parent) true;
    modify_task new_task_data (set_td_curr_task_node (Some node));;
    par ← load_region par_info;
    modify_task new_task_data (set_td_sink_node (pr_sink_node par));;
    modify_task new_task_data (set_td_threadNum (i32 thread_num));;
    set_task_cell task_data new_task_data
  else skip);;
  if decide (endpoint = ompt_scope_end) then
    curr_task_data ← task_cell task_data;
    d ← load_task curr_task_data;
    (if bool_decide (is_Some (td_curr_barrier_node d)) then
      Graph_disconnectNodes (td_curr_barrier_node d) (td_curr_task_node d);;
      n ← load_node (td_curr_task_node d);
      modify (fun s => set_g_tdg (removeNode (g_tdg s) (_id n)) s);;
      l ← lift (non_null (td_curr_task_node d));
      h ← read nodes;
      h' ← lift (delete_Node h l);
      modify (set_nodes h');;
      (if decide (thread_num = 0%Z) then Graph_connectNodes (td_curr_barrier_node d) (td_sink_node d)
       else skip)
    else
      add_time_now (td_curr_task_node d);;
      Graph_connectNodes (td_curr_task_node d) (td_sink_node d));;
    l ← lift (non_null curr_task_data);
    modify (fun s => set_tasks (delete l (tasks s)) s);;
    set_task_cell task_data None
  else skip.

Definition cb_parallel_begin (parent_task_data parallel_data : option positive)
    (requested_team_size : Z) : M unit :=
  l ← alloc;
  modify (fun s => set_regions (<[l := new_ParallelRegionData]> (regions s)) s);;
  let par_info := Some l in
  parent ← task_cell parent_task_data;
  modify_region par_info (set_pr_parent_task_data parent);;
  d ← load_task parent;
  add_time_now (td_curr_task_node d);;
  sink ← create_clean_node IMP_TASK true;
  modify_region par_info (set_pr_sink_node (Some sink));;
  modify_region par_info (set_pr_team_size requested_team_size);;
  set_region_cell parallel_data par_info.

(** [delete par_info]: the object goes with its [_barrier_mutex]. *)
Definition delete_ParallelRegionData (p : option positive) : M unit :=
  match p with
  | None => skip
  | Some l =>
      h ← read regions;
      lift (match h !! l with Some _ => Ok tt | None => UB DoubleFree end);;
      modify (set_regions (delete l h))
  end.

Definition cb_parallel_end (parallel_data : option positive) : M unit :=
  par_info ← region_cell parallel_data;
  par ← load_region par_info;
  modify_task (pr_parent_task_data par) (set_td_curr_task_node (pr_sink_node par));;
  set_last_time_now (pr_sink_node par);;
  modify (set_g_finalNode (pr_sink_node par));;
  delete_ParallelRegionData par_info;;
  set_region_cell parallel_data None.

(** ** Tasks *)

Definition cb_task_create (parent_task_data new_task_data : option positive) (type : ompt_task_type_t)
  : M unit :=
  (if decide (type = ompt_task_initial) then
    task_data ← alloc_TaskData;
    node ← create_new_node ROOT_TASK None true;
    modify_task task_data (set_td_curr_task_node (Some node));;
    set_task_cell new_task_data task_data;;
    modify (set_g_finalNode (Some node))
  else skip);;
  if decide (type = ompt_task_explicit) then
    parent_task ← task_cell parent_task_data;
    task_data ← alloc_TaskData;
    parent_node ← (if bool_decide (is_Some parent_task) then
      d ← load_task parent_task; mret (td_curr_task_node d) else mret None);
    node ← create_new_node EXP_TASK parent_node true;
    modify_task task_data (set_td_curr_task_node (Some node));;
    set_task_cell new_task_data task_data
  else skip.

Definition cb_task_schedule (first_task_data second_task_data : option positive) : M unit :=
  first_task ← task_cell first_task_data;
  second_task ← task_cell second_task_data;
  (if bool_decide (is_Some first_task) then
    d ← load_task first_task; add_time_now (td_curr_task_node d) else skip);;
  if bool_decide (is_Some second_task) then
    d ← load_task second_task; set_last_time_now (td_curr_task_node d) else skip.

Definition cb_task_dependences (task_data : option positive) (ndeps : Z) : M unit := skip.

Definition cb_task_dependence (src_task_data sink_task_data : option positive) : M unit := skip.

Definition cb_work (endpoint : ompt_scope_endpoint_t) (parallel_data task_data : option positive)
    (count : Z) : M unit := skip.

(** ** Barriers *)

(** [par_info && par_info->_team_size > 1]. *)
Definition real_team (par_info : option positive) : M bool :=
  if bool_decide (is_Some par_info) then
    par ← load_region par_info; mret (1 <? pr_team_size par)%Z
  else mret false.

(** The critical section under [_barrier_mutex]: the barrier node of this
    arrival and whether it is new. *)
Definition arrive (curr_task_data par_info : option positive) : M (option positive * bool) :=
  par ← load_region par_info;
  modify_region par_info (set_pr_barrier_cnt (u32 (pr_barrier_cnt par + 1)));;
  r ← (if decide (pr_barrier_cnt par = 0%Z) then
    d ← load_task curr_task_data;
    barrier_node ← create_new_node BARRIER (td_curr_task_node d) true;
    modify_region par_info (set_pr_curr_barrier_node (Some barrier_node));;
    mret (Some barrier_node, true)
  else
    par ← load_region par_info;
    d ← load_task curr_task_data;
    Graph_connectNodes (td_curr_task_node d) (pr_curr_barrier_node par);;
    (if (pr_team_size par <=? pr_barrier_cnt par)%Z then
      modify_region par_info (set_pr_barrier_cnt 0)
     else skip);;
    mret (pr_curr_barrier_node par, false));
  modify_task curr_task_data (set_td_curr_barrier_node r.1);;
  mret r.

Definition cb_sync_region (kind : ompt_sync_region_kind_t) (endpoint : ompt_scope_endpoint_t)
    (parallel_data task_data : option positive) : M unit :=
  curr_task_data ← task_cell task_data;
  par_info ← region_cell parallel_data;
  (if decide (endpoint = ompt_scope_begin) then
    if decide (kind = ompt_sync_region_barrier) then
      b ← real_team par_info;
      if (b : bool) then
        d ← load_task curr_task_data;
        add_time_now (td_curr_task_node d);;
        '(barrier_node, new_barrier) ← arrive curr_task_data par_info;
        node ← create_new_node IMP_TASK barrier_node true;
        modify_task curr_task_data (set_td_curr_task_node (Some node));;
        if (new_barrier : bool) then
          d ← load_task curr_task_data;
          Graph_connectNodes barrier_node (td_curr_task_node d)
        else skip
      else skip
    else skip
  else skip);;
  if decide (endpoint = ompt_scope_end) then
    if decide (kind = ompt_sync_region_barrier) then
      b ← real_team par_info;
      if (b : bool) then
        d ← load_task curr_task_data;
        set_last_time_now (td_curr_task_node d)
      else skip
    else skip
  else skip.

(** ** Loops and chunks *)

Definition cb_ext_loop (endpoint : ompt_scope_endpoint_t) (task_data : option positive)
    (lower upper : Z) (thread_data : option positive) : M unit :=
  curr_task_data ← task_cell task_data;
  th_data ← thread_cell thread_data;
  (if decide (endpoint = ompt_scope_begin) then
    d ← load_task curr_task_data;
    add_time_now (td_curr_task_node d);;
    l ← alloc;
    modify (fun s => set_worksharings (<[l := new_WorksharingData]> (worksharings s)) s);;
    let ws_data := Some l in
    start ← create_new_node WS_TASK (td_curr_task_node d) true;
    modify_ws ws_data (set_ws_start_node (Some start));;
    modify_node (Some start) (setLowerUpper lower upper);;
    sink ← create_clean_node IMP_TASK true;
    modify_ws ws_data (set_ws_sink_node (Some sink));;
    modify_task curr_task_data (set_td_curr_ws_data ws_data)
  else skip);;
  if decide (endpoint = ompt_scope_end) then
    d ← load_task curr_task_data;
    w ← load_ws (td_curr_ws_data d);
    (if bool_decide (is_Some (ws_last_chunk_node w)) then
      th ← load_thread th_data;
      endPapiCounters (ws_last_chunk_node w) (th_papiEventset th);;
      add_time_now (ws_last_chunk_node w)
    else
      add_time_now (ws_start_node w);;
      Graph_connectNodes (ws_start_node w) (ws_sink_node w));;
    modify_task curr_task_data (set_td_curr_task_node (ws_sink_node w));;
    set_last_time_now (ws_sink_node w);;
    l ← lift (non_null (td_curr_ws_data d));
    modify (fun s => set_worksharings (delete l (worksharings s)) s);;
    modify_task curr_task_data (set_td_curr_ws_data None);;
    modify_thread th_data (fun th => MkThread (u64 (th_loopCounter th + 1)) (th_papiEventset th))
  else skip.

Definition cb_ext_chunk (task_data : option positive) (lower upper : Z) (last_chunk : bool)
    (thread_data : option positive) : M unit :=
  curr_task_data ← task_cell task_data;
  th_data ← thread_cell thread_data;
  d ← load_task curr_task_data;
  w ← load_ws (td_curr_ws_data d);
  (if bool_decide (is_Some (ws_last_chunk_node w)) then
    if last_chunk then skip
    else
      th ← load_thread th_data;
      endPapiCounters (ws_last_chunk_node w) (th_papiEventset th);;
      add_time_now (ws_last_chunk_node w)
  else add_time_now (ws_start_node w));;
  if last_chunk then skip
  else
    chunk_node ← create_new_node CHUNK_TASK (ws_start_node w) true;
    modify_node (Some chunk_node) (setLowerUpper lower upper);;
    th ← load_thread th_data;
    modify_node (Some chunk_node) (setLoopCounter (th_loopCounter th));;
    modify_node (Some chunk_node) (setThreadId (td_threadNum d));;
    modify_ws (td_curr_ws_data d) (set_ws_last_chunk_node (Some chunk_node));;
    Graph_connectNodes (Some chunk_node) (ws_sink_node w);;
    num ← read g_papiNumEvents;
    initPapiVals (Some chunk_node) num;;
    startPapiCounters (Some chunk_node) (th_papiEventset th).

(** ** Sequences of callbacks *)

Inductive event : Type :=
  | ThreadBegin (thread_data : option positive)
  | ThreadEnd (thread_data : option positive)
  | ImplicitTask (endpoint : ompt_scope_endpoint_t) (parallel_data task_data : option positive)
      (team_size thread_num : Z)
  | ParallelBegin (parent_task_data parallel_data : option positive) (requested_team_size : Z)
  | ParallelEnd (parallel_data : option positive)
  | TaskCreate (parent_task_data new_task_data : option positive) (type : ompt_task_type_t)
  | TaskSchedule (first_task_data second_task_data : option positive)
  | TaskDependences (task_data : option positive) (ndeps : Z)
  | TaskDependence (src_task_data sink_task_data : option positive)
  | Work (endpoint : ompt_scope_endpoint_t) (parallel_data task_data : option positive) (count : Z)
  | SyncRegion (kind : ompt_sync_region_kind_t) (endpoint : ompt_scope_endpoint_t)
      (parallel_data task_data : option positive)
  | ExtLoop (endpoint : ompt_scope_endpoint_t) (task_data : option positive) (lower upper : Z)
      (thread_data : option positive)
  | ExtChunk (task_data : option positive) (lower upper : Z) (last_chunk : bool)
      (thread_data : option positive).

Definition run_event (e : event) : M unit :=
  match e with
  | ThreadBegin th => cb_thread_begin th
  | ThreadEnd th => cb_thread_end th
  | ImplicitTask ep pd td ts tn => cb_implicit_task ep pd td ts tn
  | ParallelBegin td pd ts => cb_parallel_begin td pd ts
  | ParallelEnd pd => cb_parallel_end pd
  | TaskCreate pt nt ty => cb_task_create pt nt ty
  | TaskSchedule t1 t2 => cb_task_schedule t1 t2
  | TaskDependences t n => cb_task_dependences t n
  | TaskDependence t1 t2 => cb_task_dependence t1 t2
  | Work ep pd td cnt => cb_work ep pd td cnt
  | SyncRegion k ep pd td => cb_sync_region k ep pd td
  | ExtLoop ep td lo up th => cb_ext_loop ep td lo up th
  | ExtChunk td lo up last th => cb_ext_chunk td lo up last th
  end.

Fixpoint run (es : list event) : M unit :=
  match es with
  | [] => skip
  | e :: es' => run_event e;; run es'
  end.
End callbacks.

(** The state after [init_libtdg], with the events it configured. *)
Definition init_state (papi_events : list Z) : state :=
  {| nodes := ∅; tasks := ∅; worksharings := ∅; regions := ∅; threads := ∅;
     thread_ptr := ∅; task_ptr := ∅; region_ptr := ∅; g_tdg := ∅; g_finalNode := None;
     next_id := 1; g_papiNumEvents := Z.of_nat (length papi_events); g_papiEvents := papi_events;
     next_loc := 1; ext_calls := 0 |}.
