(* ===== verification/Steps.v ===== *)
(** * The callbacks, step by step (callbacks.cc, graph.h, graph.cc)

    [Callbacks] runs a callback as a whole.  Here the same callbacks are programs
    made of single accesses to the objects of the tool and of the lock
    operations of the source, so that the callbacks of several threads can
    interleave at any point.  [seq] runs a program alone; the programs and the
    definitions of [Callbacks] agree under it. *)
From stdpp Require Import base numbers gmap list sorting relations.
From Stdlib Require Import ZArith Lia.
From S2P Require Import Prelude Float64 Graph Locks Callbacks.

(** ** Programs *)

(** An action [Act f k] is one access to the objects, [f], that no other thread
    can interrupt. *)
Inductive prog (A : Type) : Type :=
  | Done (a : A)
  | Lock (m : mutex) (k : prog A)
  | Unlock (m : mutex) (k : prog A)
  | Act (B : Type) (f : M B) (k : B → prog A).
Arguments Done {A} a.
Arguments Lock {A} m k.
Arguments Unlock {A} m k.
Arguments Act {A B} f k.

#[export] Instance prog_ret : MRet prog := fun A a => Done a.

#[export] Instance prog_bind : MBind prog := fun A B g =>
  fix bind p :=
    match p with
    | Done a => g a
    | Lock m k => Lock m (bind k)
    | Unlock m k => Unlock m (bind k)
    | Act f k => Act f (fun b => bind (k b))
    end.

Definition nop : prog unit := Done tt.
Definition act {A} (f : M A) : prog A := Act f Done.
Definition lock (m : mutex) : prog unit := Lock m nop.
Definition unlock (m : mutex) : prog unit := Unlock m nop.

(** The object a mutex is a member of exists. *)
Definition mutex_live (s : state) (m : mutex) : bool :=
  match m with
  | MBarrier r => bool_decide (is_Some (regions s !! r))
  | MAdd => true
  | MExits n | MEntries n => bool_decide (is_Some (nodes s !! n))
  end.

(** A program run alone: no lock is ever contended. *)
Fixpoint seq {A} (p : prog A) : M A := fun s =>
  match p with
  | Done a => Ok (a, s)
  | Lock m k | Unlock m k => if mutex_live s m then seq k s else UB UseAfterFree
  | Act f k => '(b, s') ← f s; seq (k b) s'
  end.

(** ** Threads *)

Record conf : Type := MkConf {
  cf_state : state;
  cf_owner : gmap mutex nat;
  cf_threads : list (prog unit) }.

Inductive turn : Type :=
  | TFinished
  | TBlocked
  | TStep (c : conf)
  | TStop (r : res unit).      (** undefined behaviour, or the process exits *)

(** What thread [i] does when it is scheduled. *)
Definition turn_of (i : nat) (c : conf) : turn :=
  let s := cf_state c in
  let o := cf_owner c in
  let next s' o' p := TStep (MkConf s' o' (<[i := p]> (cf_threads c))) in
  match cf_threads c !! i with
  | None | Some (Done _) => TFinished
  | Some (Lock m k) =>
      if mutex_live s m then
        match o !! m with
        | None => next s (<[m := i]> o) k
        | Some j => if decide (j = i) then TStop (UB LockMisuse) else TBlocked
        end
      else TStop (UB UseAfterFree)
  | Some (Unlock m k) =>
      if mutex_live s m then
        if decide (o !! m = Some i) then next s (delete m o) k else TStop (UB LockMisuse)
      else TStop (UB UseAfterFree)
  | Some (Act f k) =>
      match f s with
      | Ok (b, s') => next s' o (k b)
      | UB u => TStop (UB u)
      | Exit c => TStop (Exit c)
      | NoFuel => TStop NoFuel
      end
  end.

Definition pstep (c c' : conf) : Prop := ∃ i, turn_of i c = TStep c'.

(** The threads start with no lock held. *)
Definition launch (s : state) (ps : list (prog unit)) : conf := MkConf s ∅ ps.

(** A scheduler as a list of thread numbers, for examples. *)
Fixpoint schedule_p (sched : list nat) (c : conf) : conf :=
  match sched with
  | [] => c
  | i :: sched' => schedule_p sched' (match turn_of i c with TStep c' => c' | _ => c end)
  end.

(** Reading a field of an object. *)
Definition node_field {A} (f : Node → A) (p : option positive) : M A := n ← load_node p; mret (f n).
Definition region_field {A} (f : ParallelRegionData → A) (p : option positive) : M A :=
  d ← load_region p; mret (f d).

(** ** The graph operations *)

Definition connectNodes_p (source target : option positive) : prog unit :=
  '(u, v) ← act (u ← lift (non_null source); v ← lift (non_null target); mret (u, v));
  lock (MExits u);;
  found ← act (h ← read nodes; lift (isConnectedWith h u v));
  unlock (MExits u);;
  if (found : bool) then nop
  else
    lock (MExits u);;
    lock (MEntries v);;
    act (modify_node (Some u) (pushExit (MkEdge u v)));;
    act (modify_node (Some v) (pushEntry (MkEdge u v)));;
    unlock (MEntries v);;
    unlock (MExits u).

Definition disconnectNodes_p (source target : option positive) : prog unit :=
  '(u, v) ← act (u ← lift (non_null source); v ← lift (non_null target); mret (u, v));
  lock (MExits u);;
  act (modify_node (Some u) (eraseExit v));;
  unlock (MExits u);;
  lock (MEntries v);;
  act (modify_node (Some v) (eraseEntry u));;
  unlock (MEntries v).

Definition addNode_p (id : Z) (node : positive) : prog unit :=
  lock MAdd;; act (modify (fun s => set_g_tdg (addNode (g_tdg s) id node) s));; unlock MAdd.

Definition removeNode_p (id : Z) : prog unit :=
  lock MAdd;; act (modify (fun s => set_g_tdg (removeNode (g_tdg s) id) s));; unlock MAdd.

(** [delete node]. *)
Definition delete_Node_p (node : option positive) : prog unit :=
  act (l ← lift (non_null node); h ← read nodes; h' ← lift (delete_Node h l); modify (set_nodes h')).

Section callbacks.
Context (env : Env).

Definition create_clean_node_p (type : NodeType) (gen_id : bool) : prog positive :=
  nid ← (if gen_id then act Node_nextId else Done 0%Z);
  node ← act (alloc_Node nid type);
  addNode_p nid node;;
  Done node.

Definition create_new_node_p (type : NodeType) (parent_node : option positive) (set_time : bool)
  : prog positive :=
  node ← create_clean_node_p type (bool_decide (is_Some parent_node));
  (if bool_decide (is_Some parent_node) then connectNodes_p parent_node (Some node) else nop);;
  (if set_time then
     t ← act (ftimer_msec env); act (modify_node (Some node) (setLastTime t)) else nop);;
  Done node.

Definition add_time_now_p (node : option positive) : prog unit :=
  t ← act (ftimer_msec env); act (modify_node node (addTime t)).
Definition set_last_time_now_p (node : option positive) : prog unit :=
  t ← act (ftimer_msec env); act (modify_node node (setLastTime t)).

Definition endPapiCounters_p (node : option positive) (papi_eventset : Z) : prog unit :=
  k ← act tick;
  vals ← act (node_field _papiValsArr node);
  arr ← act (lift (write_vals vals (PAPI_stop env k papi_eventset)));
  act (modify_node node (fun n => setPapi (_numPapiEvents n) arr n)).

(** ** Threads *)

Fixpoint add_events_p (eventset : Z) (n : nat) (events : list Z) : prog unit :=
  match n with
  | O => nop
  | S n' =>
      match events with
      | [] => act (lift (UB OutOfRange))
      | e :: events' =>
          k ← act tick;
          if decide (PAPI_add_event env k eventset e = PAPI_OK) then add_events_p eventset n' events'
          else act (exit (-1))
      end
  end.

Definition cb_thread_begin_p (thread_data : option positive) : prog unit :=
  th_data ← act alloc;
  k ← act tick;
  let '(rc, eventset) := PAPI_create_eventset env k in
  act (modify (fun s => set_threads (<[th_data := MkThread 0 eventset]> (threads s)) s));;
  (if decide (rc = PAPI_OK) then nop else act (exit (-1)));;
  events ← act (read g_papiEvents);
  num ← act (read g_papiNumEvents);
  add_events_p eventset (Z.to_nat num) events;;
  act (set_thread_cell thread_data (Some th_data)).

Definition cb_thread_end_p (thread_data : option positive) : prog unit :=
  th_data ← act (thread_cell thread_data);
  d ← act (load_thread th_data);
  k ← act tick;
  (if decide (PAPI_cleanup_eventset env k (th_papiEventset d) = PAPI_OK) then nop else act (exit (-1)));;
  k ← act tick;
  (if decide (PAPI_destroy_eventset env k (th_papiEventset d) = PAPI_OK) then nop else act (exit (-1)));;
  l ← act (lift (non_null th_data));
  act (modify (fun s => set_threads (delete l (threads s)) s)).

(** ** Parallel regions and implicit tasks *)

Definition implicit_task_begin_p (parallel_data task_data : option positive) (thread_num : Z) : prog unit :=
  par_info ← act (region_cell parallel_data);
  new_task_data ← act alloc_TaskData;
  parent_task ← act (region_field pr_parent_task_data par_info);
  parent ← act (load_task parent_task);
  node ← create_new_node_p IMP_TASK (td_curr_task_node parent) true;
  act (modify_task new_task_data (set_td_curr_task_node (Some node)));;
  sink ← act (region_field pr_sink_node par_info);
  act (modify_task new_task_data (set_td_sink_node sink));;
  act (modify_task new_task_data (set_td_threadNum (i32 thread_num)));;
  act (set_task_cell task_data new_task_data).

Definition implicit_task_end_p (task_data : option positive) (thread_num : Z) : prog unit :=
  curr_task_data ← act (task_cell task_data);
  d ← act (load_task curr_task_data);
  (if bool_decide (is_Some (td_curr_barrier_node d)) then
    disconnectNodes_p (td_curr_barrier_node d) (td_curr_task_node d);;
    id ← act (node_field _id (td_curr_task_node d));
    removeNode_p id;;
    delete_Node_p (td_curr_task_node d);;
    (if decide (thread_num = 0%Z) then connectNodes_p (td_curr_barrier_node d) (td_sink_node d) else nop)
  else
    add_time_now_p (td_curr_task_node d);;
    connectNodes_p (td_curr_task_node d) (td_sink_node d));;
  l ← act (lift (non_null curr_task_data));
  act (modify (fun s => set_tasks (delete l (tasks s)) s));;
  act (set_task_cell task_data None).

Definition cb_implicit_task_p (endpoint : ompt_scope_endpoint_t) (parallel_data task_data : option positive)
    (team_size thread_num : Z) : prog unit :=
  (if decide (endpoint = ompt_scope_begin) then implicit_task_begin_p parallel_data task_data thread_num
   else nop);;
  if decide (endpoint = ompt_scope_end) then implicit_task_end_p task_data thread_num else nop.

(** [new ParallelRegionData]. *)
Definition alloc_ParallelRegionData : M positive :=
  l ← alloc; modify (fun s => set_regions (<[l := new_ParallelRegionData]> (regions s)) s);; mret l.

Definition cb_parallel_begin_p (parent_task_data parallel_data : option positive)
    (requested_team_size : Z) : prog unit :=
  l ← act alloc_ParallelRegionData;
  parent ← act (task_cell parent_task_data);
  act (modify_region (Some l) (set_pr_parent_task_data parent));;
  d ← act (load_task parent);
  add_time_now_p (td_curr_task_node d);;
  sink ← create_clean_node_p IMP_TASK true;
  act (modify_region (Some l) (set_pr_sink_node (Some sink)));;
  act (modify_region (Some l) (set_pr_team_size requested_team_size));;
  act (set_region_cell parallel_data (Some l)).

Definition cb_parallel_end_p (parallel_data : option positive) : prog unit :=
  par_info ← act (region_cell parallel_data);
  '(parent, sink) ← act (region_field (fun par => (pr_parent_task_data par, pr_sink_node par)) par_info);
  act (modify_task parent (set_td_curr_task_node sink));;
  set_last_time_now_p sink;;
  act (modify (set_g_finalNode sink));;
  act (delete_ParallelRegionData par_info);;
  act (set_region_cell parallel_data None).

(** ** Tasks *)

Definition cb_task_create_p (parent_task_data new_task_data : option positive) (type : ompt_task_type_t)
  : prog unit :=
  (if decide (type = ompt_task_initial) then
    task_data ← act alloc_TaskData;
    node ← create_new_node_p ROOT_TASK None true;
    act (modify_task task_data (set_td_curr_task_node (Some node)));;
    act (set_task_cell new_task_data task_data);;
    act (modify (set_g_finalNode (Some node)))
  else nop);;
  if decide (type = ompt_task_explicit) then
    parent_task ← act (task_cell parent_task_data);
    task_data ← act alloc_TaskData;
    parent_node ← (if bool_decide (is_Some parent_task) then
      d ← act (load_task parent_task); Done (td_curr_task_node d) else Done None);
    node ← create_new_node_p EXP_TASK parent_node true;
    act (modify_task task_data (set_td_curr_task_node (Some node)));;
    act (set_task_cell new_task_data task_data)
  else nop.

Definition cb_task_schedule_p (first_task_data second_task_data : option positive) : prog unit :=
  first_task ← act (task_cell first_task_data);
  second_task ← act (task_cell second_task_data);
  (if bool_decide (is_Some first_task) then
    d ← act (load_task first_task); add_time_now_p (td_curr_task_node d) else nop);;
  if bool_decide (is_Some second_task) then
    d ← act (load_task second_task); set_last_time_now_p (td_curr_task_node d) else nop.

(** ** Barriers *)

(** The critical section under [_barrier_mutex]. *)
Definition arrive_p (curr_task_data par_info : option positive) : prog (option positive * bool) :=
  par ← act (load_region par_info);
  act (modify_region par_info (set_pr_barrier_cnt (u32 (pr_barrier_cnt par + 1))));;
  r ← (if decide (pr_barrier_cnt par = 0%Z) then
    d ← act (load_task curr_task_data);
    barrier_node ← create_new_node_p BARRIER (td_curr_task_node d) true;
    act (modify_region par_info (set_pr_curr_barrier_node (Some barrier_node)));;
    Done (Some barrier_node, true)
  else
    par ← act (load_region par_info);
    d ← act (load_task curr_task_data);
    connectNodes_p (td_curr_task_node d) (pr_curr_barrier_node par);;
    (if (pr_team_size par <=? pr_barrier_cnt par)%Z then
      act (modify_region par_info (set_pr_barrier_cnt 0))
     else nop);;
    Done (pr_curr_barrier_node par, false));
  act (modify_task curr_task_data (set_td_curr_barrier_node r.1));;
  Done r.

Definition barrier_begin_p (curr_task_data par_info : option positive) : prog unit :=
  b ← act (real_team par_info);
  if (b : bool) then
    d ← act (load_task curr_task_data);
    add_time_now_p (td_curr_task_node d);;
    r ← act (lift (non_null par_info));
    lock (MBarrier r);;
    '(barrier_node, new_barrier) ← arrive_p curr_task_data (Some r);
    unlock (MBarrier r);;
    node ← create_new_node_p IMP_TASK barrier_node true;
    act (modify_task curr_task_data (set_td_curr_task_node (Some node)));;
    if (new_barrier : bool) then
      d ← act (load_task curr_task_data);
      connectNodes_p barrier_node (td_curr_task_node d)
    else nop
  else nop.

Definition barrier_end_p (curr_task_data par_info : option positive) : prog unit :=
  b ← act (real_team par_info);
  if (b : bool) then
    d ← act (load_task curr_task_data);
    set_last_time_now_p (td_curr_task_node d)
  else nop.

Definition cb_sync_region_p (kind : ompt_sync_region_kind_t) (endpoint : ompt_scope_endpoint_t)
    (parallel_data task_data : option positive) : prog unit :=
  curr_task_data ← act (task_cell task_data);
  par_info ← act (region_cell parallel_data);
  (if decide (endpoint = ompt_scope_begin) then
    if decide (kind = ompt_sync_region_barrier) then barrier_begin_p curr_task_data par_info else nop
  else nop);;
  if decide (endpoint = ompt_scope_end) then
    if decide (kind = ompt_sync_region_barrier) then barrier_end_p curr_task_data par_info else nop
  else nop.

(** ** Loops and chunks *)

(** [new WorksharingData]. *)
Definition alloc_WorksharingData : M positive :=
  l ← alloc; modify (fun s => set_worksharings (<[l := new_WorksharingData]> (worksharings s)) s);; mret l.

Definition loop_begin_p (curr_task_data : option positive) (lower upper : Z) : prog unit :=
  d ← act (load_task curr_task_data);
  add_time_now_p (td_curr_task_node d);;
  l ← act alloc_WorksharingData;
  start ← create_new_node_p WS_TASK (td_curr_task_node d) true;
  act (modify_ws (Some l) (set_ws_start_node (Some start)));;
  act (modify_node (Some start) (setLowerUpper lower upper));;
  sink ← create_clean_node_p IMP_TASK true;
  act (modify_ws (Some l) (set_ws_sink_node (Some sink)));;
  act (modify_task curr_task_data (set_td_curr_ws_data (Some l))).

Definition loop_end_p (curr_task_data th_data : option positive) : prog unit :=
  d ← act (load_task curr_task_data);
  w ← act (load_ws (td_curr_ws_data d));
  (if bool_decide (is_Some (ws_last_chunk_node w)) then
    th ← act (load_thread th_data);
    endPapiCounters_p (ws_last_chunk_node w) (th_papiEventset th);;
    add_time_now_p (ws_last_chunk_node w)
  else
    add_time_now_p (ws_start_node w);;
    connectNodes_p (ws_start_node w) (ws_sink_node w));;
  act (modify_task curr_task_data (set_td_curr_task_node (ws_sink_node w)));;
  set_last_time_now_p (ws_sink_node w);;
  l ← act (lift (non_null (td_curr_ws_data d)));
  act (modify (fun s => set_worksharings (delete l (worksharings s)) s));;
  act (modify_task curr_task_data (set_td_curr_ws_data None));;
  act (modify_thread th_data (fun th => MkThread (u64 (th_loopCounter th + 1)) (th_papiEventset th))).

Definition cb_ext_loop_p (endpoint : ompt_scope_endpoint_t) (task_data : option positive)
    (lower upper : Z) (thread_data : option positive) : prog unit :=
  curr_task_data ← act (task_cell task_data);
  th_data ← act (thread_cell thread_data);
  (if decide (endpoint = ompt_scope_begin) then loop_begin_p curr_task_data lower upper else nop);;
  if decide (endpoint = ompt_scope_end) then loop_end_p curr_task_data th_data else nop.

Definition cb_ext_chunk_p (task_data : option positive) (lower upper : Z) (last_chunk : bool)
    (thread_data : option positive) : prog unit :=
  curr_task_data ← act (task_cell task_data);
  th_data ← act (thread_cell thread_data);
  d ← act (load_task curr_task_data);
  w ← act (load_ws (td_curr_ws_data d));
  (if bool_decide (is_Some (ws_last_chunk_node w)) then
    if last_chunk then nop
    else
      th ← act (load_thread th_data);
      endPapiCounters_p (ws_last_chunk_node w) (th_papiEventset th);;
      add_time_now_p (ws_last_chunk_node w)
  else add_time_now_p (ws_start_node w));;
  if last_chunk then nop
  else
    chunk_node ← create_new_node_p CHUNK_TASK (ws_start_node w) true;
    act (modify_node (Some chunk_node) (setLowerUpper lower upper));;
    th ← act (load_thread th_data);
    act (modify_node (Some chunk_node) (setLoopCounter (th_loopCounter th)));;
    act (modify_node (Some chunk_node) (setThreadId (td_threadNum d)));;
    act (modify_ws (td_curr_ws_data d) (set_ws_last_chunk_node (Some chunk_node)));;
    connectNodes_p (Some chunk_node) (ws_sink_node w);;
    num ← act (read g_papiNumEvents);
    act (initPapiVals (Some chunk_node) num);;
    act (startPapiCounters (Some chunk_node) (th_papiEventset th)).

(** ** All callbacks *)

Definition run_event_p (e : event) : prog unit :=
  match e with
  | ThreadBegin th => cb_thread_begin_p th
  | ThreadEnd th => cb_thread_end_p th
  | ImplicitTask ep pd td ts tn => cb_implicit_task_p ep pd td ts tn
  | ParallelBegin ptd pd n => cb_parallel_begin_p ptd pd n
  | ParallelEnd pd => cb_parallel_end_p pd
  | TaskCreate ptd ntd ty => cb_task_create_p ptd ntd ty
  | TaskSchedule a b => cb_task_schedule_p a b
  | TaskDependences _ _ | TaskDependence _ _ | Work _ _ _ _ => nop
  | SyncRegion k ep pd td => cb_sync_region_p k ep pd td
  | ExtLoop ep td lo up th => cb_ext_loop_p ep td lo up th
  | ExtChunk td lo up last th => cb_ext_chunk_p td lo up last th
  end.

(** The callbacks that one thread makes. *)
Fixpoint run_p (es : list event) : prog unit :=
  match es with
  | [] => nop
  | e :: es' => run_event_p e;; run_p es'
  end.
End callbacks.

(** ** The programs refine the callbacks *)

(** Alone, the program [p] does what the computation [m] does. *)
Definition refines {A} (p : prog A) (m : M A) : Prop := ∀ s, seq p s = m s.

Lemma seq_bind {A B} (p : prog A) (k : A → prog B) s : seq (p ≫= k) s = (seq p ≫= fun a => seq (k a)) s.
Proof.
  revert s. induction p as [a|m p IH|m p IH|C f p IH]; intros s.
  - done.
  - cbn. unfold mbind, M_bind. cbn. destruct (mutex_live s m); [apply IH|done].
  - cbn. unfold mbind, M_bind. cbn. destruct (mutex_live s m); [apply IH|done].
  - cbn. unfold mbind, M_bind. cbn. destruct (f s) as [[b s']| | |]; [apply IH|done..].
Qed.

Lemma seq_lock {A} m (q : prog A) s : seq (lock m;; q) s = if mutex_live s m then seq q s else UB UseAfterFree.
Proof. done. Qed.

Lemma seq_unlock {A} m (q : prog A) s : seq (unlock m;; q) s = if mutex_live s m then seq q s else UB UseAfterFree.
Proof. done. Qed.

Lemma seq_lift_ok {A B} (a : A) (k : A → prog B) s : seq (act (lift (Ok a)) ≫= k) s = seq (k a) s.
Proof. done. Qed.

Lemma refines_bind {A B} (p : prog A) (m : M A) (k : A → prog B) (f : A → M B) :
  refines p m → (∀ a, refines (k a) (f a)) → refines (p ≫= k) (m ≫= f).
Proof.
  intros Hp Hk s. rewrite seq_bind. unfold mbind, M_bind. rewrite Hp.
  destruct (m s) as [[a s']| | |]; try done. apply Hk.
Qed.

Lemma refines_act {A} (m : M A) : refines (act m) m.
Proof. intros s. simpl. by destruct (m s) as [[a s']| | |]. Qed.

Lemma refines_done {A} (a : A) : refines (Done a) (mret a).
Proof. done. Qed.

Lemma refines_nop : refines nop skip.
Proof. done. Qed.

(** Reading the fields that are used instead of the object. *)
Lemma refines_node_field {A B} (f : Node → A) p (k : A → prog B) g :
  (∀ n, refines (k (f n)) (g n)) → refines (act (node_field f p) ≫= k) (load_node p ≫= g).
Proof.
  intros Hk s. cbn. unfold node_field, mbind, M_bind. destruct (load_node p s) as [[n s']| | |]; try done. apply Hk.
Qed.

Lemma refines_region_field {A B} (f : ParallelRegionData → A) p (k : A → prog B) g :
  (∀ d, refines (k (f d)) (g d)) → refines (act (region_field f p) ≫= k) (load_region p ≫= g).
Proof.
  intros Hk s. cbn. unfold region_field, mbind, M_bind. destruct (load_region p s) as [[d s']| | |]; try done. apply Hk.
Qed.

Create HintDb steps.
#[export] Hint Resolve refines_act refines_done refines_nop : steps.

Lemma refines_new_worksharing (k : positive → prog unit) f :
  (∀ l, refines (k l) (f l)) →
  refines (act alloc_WorksharingData ≫= k)
    (l ← alloc; modify (fun s => set_worksharings (<[l := new_WorksharingData]> (worksharings s)) s);; f l).
Proof. intros Hk s. cbn. unfold mbind, M_bind. cbn. apply Hk. Qed.

(** Follows the structure of a program. *)
Ltac refine_step :=
  lazymatch goal with
  | |- refines (act (node_field _ _) ≫= _) _ => apply refines_node_field; intros ?
  | |- refines (act (region_field _ _) ≫= _) _ => apply refines_region_field; intros ?
  | |- refines (act alloc_WorksharingData ≫= _) _ => apply refines_new_worksharing; intros ?
  | |- refines (_ ≫= _) (_ ≫= _) => apply refines_bind; [|intros ?]
  | |- refines (let '(_, _) := ?p in _) _ => destruct p
  | |- refines (if ?b then _ else _) _ => destruct b
  end.
Ltac refine_prog := repeat (refine_step || solve [auto with steps]).

Lemma node_live s l n m : nodes s !! l = Some n → m = MExits l ∨ m = MEntries l → mutex_live s m = true.
Proof. intros Hn [->| ->]; simpl; rewrite Hn; by rewrite bool_decide_true by (by eexists). Qed.

Lemma modify_node_run l f s :
  modify_node (Some l) f s =
    match nodes s !! l with
    | Some n => Ok (tt, set_nodes (<[l := f n]> (nodes s)) s)
    | None => UB UseAfterFree
    end.
Proof.
  unfold modify_node, load_node, lookup_obj. cbn. unfold mbind, M_bind. cbn. by destruct (nodes s !! l).
Qed.

Lemma live_match {A} (h : gmap positive A) l :
  bool_decide (is_Some (h !! l)) = match h !! l with Some _ => true | None => false end.
Proof. destruct (h !! l); [by rewrite bool_decide_true by (by eexists)|by rewrite bool_decide_false by (by intros [])]. Qed.

(** Computes with a program and a computation on a state. *)
Ltac seq_run :=
  cbn -[modify_node pushExit pushEntry eraseExit eraseEntry isConnectedWith connectNodes disconnectNodes];
  unfold mbind, M_bind;
  cbn -[modify_node pushExit pushEntry eraseExit eraseEntry isConnectedWith connectNodes disconnectNodes].

Lemma refines_connect source target : refines (connectNodes_p source target) (Graph_connectNodes source target).
Proof.
  intros s. destruct source as [u|]; [|done]. destruct target as [v|]; [|done].
  unfold connectNodes_p, Graph_connectNodes. seq_run. unfold connectNodes, isConnectedWith.
  rewrite ?live_match. unfold lookup_obj. destruct (nodes s !! u) as [n|] eqn:Hu; [|done]. seq_run.
  rewrite ?live_match, ?Hu. destruct (has_target (_exitEdges n) v); [by destruct s|]. cbn -[modify_node pushExit pushEntry].
  rewrite ?live_match, ?Hu, modify_node_run, Hu.
  destruct (decide (u = v)) as [<-|Hne].
  - rewrite Hu, lookup_insert_eq. seq_run. rewrite modify_node_run. st_simpl. rewrite lookup_insert_eq. seq_run.
    st_simpl. by rewrite ?live_match, lookup_insert_eq.
  - rewrite lookup_insert_ne by done. destruct (nodes s !! v) as [nv|] eqn:Hv; [|done]. seq_run.
    rewrite modify_node_run. st_simpl. rewrite lookup_insert_ne, Hv by done. seq_run. st_simpl.
    rewrite ?live_match, lookup_insert_eq, lookup_insert_ne, lookup_insert_eq by done. done.
Qed.

Lemma refines_disconnect source target :
  refines (disconnectNodes_p source target) (Graph_disconnectNodes source target).
Proof.
  intros s. destruct source as [u|]; [|done]. destruct target as [v|]; [|done].
  unfold disconnectNodes_p, Graph_disconnectNodes. seq_run. unfold disconnectNodes.
  rewrite ?live_match. unfold lookup_obj. destruct (nodes s !! u) as [n|] eqn:Hu; [|done].
  rewrite modify_node_run, Hu. seq_run. rewrite ?live_match, lookup_insert_eq.
  destruct (decide (u = v)) as [<-|Hne].
  - rewrite lookup_insert_eq. rewrite modify_node_run. st_simpl. rewrite lookup_insert_eq. seq_run.
    st_simpl. by rewrite ?live_match, lookup_insert_eq.
  - rewrite lookup_insert_ne by done. destruct (nodes s !! v) as [nv|] eqn:Hv; [|done]. 
    rewrite modify_node_run. st_simpl. rewrite lookup_insert_ne, Hv by done. seq_run. st_simpl.
    by rewrite ?live_match, lookup_insert_eq.
Qed.

Lemma refines_addNode id l :
  refines (addNode_p id l) (modify (fun s => set_g_tdg (addNode (g_tdg s) id l) s)).
Proof. done. Qed.

Lemma refines_removeNode id :
  refines (removeNode_p id) (modify (fun s => set_g_tdg (removeNode (g_tdg s) id) s)).
Proof. done. Qed.

#[export] Hint Resolve refines_connect refines_disconnect refines_addNode refines_removeNode : steps.

Section refinement.
Context (env : Env).

Lemma refines_create_clean type gen_id :
  refines (create_clean_node_p type gen_id) (create_clean_node type gen_id).
Proof. unfold create_clean_node_p, create_clean_node. refine_prog. Qed.

Lemma refines_create_new type parent set_time :
  refines (create_new_node_p env type parent set_time) (create_new_node env type parent set_time).
Proof.
  unfold create_new_node_p, create_new_node. refine_step; [apply refines_create_clean|]. refine_prog.
Qed.

Lemma refines_add_time node : refines (add_time_now_p env node) (add_time_now env node).
Proof. unfold add_time_now_p, add_time_now. refine_prog. Qed.

Lemma refines_set_last_time node : refines (set_last_time_now_p env node) (set_last_time_now env node).
Proof. unfold set_last_time_now_p, set_last_time_now. refine_prog. Qed.

Lemma refines_endPapi node es : refines (endPapiCounters_p env node es) (endPapiCounters env node es).
Proof. unfold endPapiCounters_p, endPapiCounters. refine_prog. Qed.

Lemma refines_add_events es n events : refines (add_events_p env es n events) (add_events env es n events).
Proof.
  revert events. induction n as [|n IH]; intros [|e events]; cbn [add_events_p add_events];
    auto with steps. refine_prog.
Qed.
End refinement.

#[export] Hint Resolve refines_create_clean refines_create_new refines_add_time refines_set_last_time
  refines_endPapi refines_add_events : steps.

Section refinement_callbacks.
Context (env : Env).

Lemma refines_thread_begin th : refines (cb_thread_begin_p env th) (cb_thread_begin env th).
Proof.
  unfold cb_thread_begin_p, cb_thread_begin. do 2 (refine_step; [auto with steps|]).
  destruct (PAPI_create_eventset env _). refine_prog.
Qed.

Lemma refines_thread_end th : refines (cb_thread_end_p env th) (cb_thread_end env th).
Proof. unfold cb_thread_end_p, cb_thread_end. refine_prog. Qed.

Lemma refines_delete node (q : prog unit) (m : M unit) :
  refines q m →
  refines (delete_Node_p node;; q)
    (l ← lift (non_null node); h ← read nodes; h' ← lift (delete_Node h l); modify (set_nodes h');; m).
Proof.
  intros Hq s. destruct node as [l|]; [|done]. unfold delete_Node_p. cbn. unfold mbind, M_bind. cbn.
  unfold delete_Node. destruct (nodes s !! l); [apply Hq|done].
Qed.

Lemma refines_implicit ep pd td ts tn :
  refines (cb_implicit_task_p env ep pd td ts tn) (cb_implicit_task env ep pd td ts tn).
Proof.
  unfold cb_implicit_task_p, cb_implicit_task, implicit_task_begin_p, implicit_task_end_p. refine_prog.
  apply refines_delete. refine_prog.
Qed.

Lemma refines_new_region (k : positive → prog unit) f :
  (∀ l, refines (k l) (f l)) →
  refines (act alloc_ParallelRegionData ≫= k)
    (l ← alloc; modify (fun s => set_regions (<[l := new_ParallelRegionData]> (regions s)) s);; f l).
Proof. intros Hk s. cbn. unfold mbind, M_bind. cbn. apply Hk. Qed.

Lemma refines_parallel_begin ptd pd n :
  refines (cb_parallel_begin_p env ptd pd n) (cb_parallel_begin env ptd pd n).
Proof. unfold cb_parallel_begin_p, cb_parallel_begin. cbv zeta. apply refines_new_region. intros l. refine_prog. Qed.

Lemma refines_parallel_end pd : refines (cb_parallel_end_p env pd) (cb_parallel_end env pd).
Proof. unfold cb_parallel_end_p, cb_parallel_end. refine_prog. Qed.

Lemma refines_task_create ptd ntd ty :
  refines (cb_task_create_p env ptd ntd ty) (cb_task_create env ptd ntd ty).
Proof. unfold cb_task_create_p, cb_task_create. refine_prog. Qed.

Lemma refines_task_schedule a b : refines (cb_task_schedule_p env a b) (cb_task_schedule env a b).
Proof. unfold cb_task_schedule_p, cb_task_schedule. refine_prog. Qed.

Lemma refines_arrive td pi : refines (arrive_p env td pi) (arrive env td pi).
Proof. unfold arrive_p, arrive. refine_prog. Qed.

(** A computation that frees no region. *)
Definition keeps_regions {A} (m : M A) : Prop :=
  ∀ s a s', m s = Ok (a, s') → ∀ r, is_Some (regions s !! r) → is_Some (regions s' !! r).

Lemma keeps_regions_bind {A B} (m : M A) (f : A → M B) :
  keeps_regions m → (∀ a, keeps_regions (f a)) → keeps_regions (m ≫= f).
Proof.
  intros Hm Hf s b s' E r Hr. unfold mbind, M_bind in E. destruct (m s) as [[a s1]| | |] eqn:Em; try done.
  eapply Hf; [exact E|]. by eapply Hm.
Qed.

(** A computation that leaves the table of regions as it is. *)
Lemma keeps_regions_same {A} (m : M A) :
  (∀ s a s', m s = Ok (a, s') → regions s' = regions s) → keeps_regions m.
Proof. intros H s a s' E r Hr. by rewrite (H s a s' E). Qed.

Lemma keeps_regions_lift {A} (x : res A) : keeps_regions (lift x).
Proof. apply keeps_regions_same. intros s a s'. unfold lift. destruct x; simpl; try done. by intros [= _ <-]. Qed.

Lemma keeps_regions_read {A} (f : state → A) : keeps_regions (read f).
Proof. apply keeps_regions_same. intros s a s'. by intros [= _ <-]. Qed.

Lemma keeps_regions_ret {A} (a : A) : keeps_regions (mret a).
Proof. apply keeps_regions_same. intros s b s'. by intros [= _ <-]. Qed.

Lemma keeps_regions_modify (f : state → state) :
  (∀ s r, is_Some (regions s !! r) → is_Some (regions (f s) !! r)) → keeps_regions (modify f).
Proof. intros Hf s a s' [= _ <-]. apply Hf. Qed.

Ltac keep_regions :=
  repeat lazymatch goal with
  | |- keeps_regions (_ ≫= _) => apply keeps_regions_bind; [|intros ?]
  | |- keeps_regions (lift _) => apply keeps_regions_lift
  | |- keeps_regions (read _) => apply keeps_regions_read
  | |- keeps_regions (mret _) => apply keeps_regions_ret
  | |- keeps_regions skip => apply keeps_regions_ret
  | |- keeps_regions (modify _) => apply keeps_regions_modify; intros ? ? ?; simpl
  | |- keeps_regions (let '(_, _) := ?p in _) => destruct p
  | |- keeps_regions (if ?b then _ else _) => destruct b
  | |- is_Some (<[_ := _]> _ !! _) => apply lookup_insert_is_Some'; right
  | |- is_Some _ => assumption
  | |- keeps_regions Node_nextId => apply keeps_regions_same; by intros ? ? ? [= _ <-]
  | |- keeps_regions alloc => apply keeps_regions_same; by intros ? ? ? [= _ <-]
  | |- keeps_regions tick => apply keeps_regions_same; by intros ? ? ? [= _ <-]
  | |- keeps_regions ?m => unfold_head m
  end
with unfold_head m :=
  let h := head_of m in unfold h
with head_of m := lazymatch m with ?f _ => head_of f | _ => m end.

Lemma keeps_regions_arrive td pi : keeps_regions (arrive env td pi).
Proof. keep_regions. Qed.

Lemma refines_section r td (k k' : option positive * bool → prog unit) f :
  (∀ a, k' a = (unlock (MBarrier r);; k a)) → (∀ a, refines (k a) (f a)) →
  refines (lock (MBarrier r);; arrive_p env td (Some r) ≫= k') (arrive env td (Some r) ≫= f).
Proof.
  intros Hk' Hk s. rewrite seq_lock. cbn [mutex_live]. destruct (bool_decide_reflect (is_Some (regions s !! r))) as [Hr|Hr].
  - rewrite seq_bind. unfold mbind, M_bind. rewrite (refines_arrive td (Some r)).
    destruct (arrive env td (Some r) s) as [[a s']| | |] eqn:E; try done.
    rewrite Hk', seq_unlock. cbn [mutex_live]. rewrite bool_decide_true; [apply Hk|]. by eapply keeps_regions_arrive.
  - unfold arrive. unfold load_region, lookup_obj. unfold mbind, M_bind. cbn.
    apply eq_None_not_Some in Hr. by rewrite Hr.
Qed.

Lemma refines_ext_loop ep td lo up th :
  refines (cb_ext_loop_p env ep td lo up th) (cb_ext_loop env ep td lo up th).
Proof. unfold cb_ext_loop_p, cb_ext_loop, loop_begin_p, loop_end_p. cbv zeta. refine_prog. Qed.

Lemma refines_ext_chunk td lo up last th :
  refines (cb_ext_chunk_p env td lo up last th) (cb_ext_chunk env td lo up last th).
Proof. unfold cb_ext_chunk_p, cb_ext_chunk. refine_prog. Qed.
End refinement_callbacks.

Section refinement_all.
Context (env : Env).

Lemma refines_barrier_begin td pi :
  refines (barrier_begin_p env td pi)
    (b ← real_team pi;
     if (b : bool) then
       d ← load_task td;
       add_time_now env (td_curr_task_node d);;
       '(barrier_node, new_barrier) ← arrive env td pi;
       node ← create_new_node env IMP_TASK barrier_node true;
       modify_task td (set_td_curr_task_node (Some node));;
       if (new_barrier : bool) then
         d ← load_task td; Graph_connectNodes barrier_node (td_curr_task_node d)
       else skip
     else skip).
Proof.
  unfold barrier_begin_p. refine_step; [auto with steps|].
  refine_step; [|auto with steps]. do 2 (refine_step; [auto with steps|]). destruct pi as [r|]; [|done].
  intros s. change (non_null (Some r)) with (Ok r). rewrite seq_lift_ok. revert s.
  eapply (refines_section env r td (fun a =>
    node ← create_new_node_p env IMP_TASK a.1 true;
    act (modify_task td (set_td_curr_task_node (Some node)));;
    if (a.2 : bool) then d ← act (load_task td); connectNodes_p a.1 (td_curr_task_node d) else nop));
    intros [b new]; [done|cbn [fst snd]; refine_prog].
Qed.

Lemma refines_sync k ep pd td : refines (cb_sync_region_p env k ep pd td) (cb_sync_region env k ep pd td).
Proof.
  unfold cb_sync_region_p, cb_sync_region, barrier_end_p. refine_prog. apply refines_barrier_begin.
Qed.

Lemma refines_event e : refines (run_event_p env e) (run_event env e).
Proof.
  destruct e; cbn [run_event_p run_event]; try done; auto using refines_thread_begin, refines_thread_end,
    refines_implicit, refines_parallel_begin, refines_parallel_end, refines_task_create, refines_task_schedule,
    refines_sync, refines_ext_loop, refines_ext_chunk.
Qed.

Lemma refines_run es : refines (run_p env es) (run env es).
Proof.
  induction es as [|e es IH]; cbn [run_p run]; [done|]. apply refines_bind; [apply refines_event|by intros []].
Qed.
End refinement_all.
