(* ===== verification/Discipline.v ===== *)
(** * The locking discipline of the callbacks

    Every callback takes its mutexes in a fixed order, gives all of them back,
    and outside the critical sections of a mutex it neither reads nor writes the
    data that the mutex protects.  The two places where an object is deleted with its
    mutexes take none of these; no object is ever used or deleted again after that
    without undefined behaviour.  [Threads] has what follows for threads that run
    callbacks. *)
From stdpp Require Import base numbers gmap list sorting relations.
From Stdlib Require Import ZArith Lia.
From S2P Require Import Prelude Float64 Graph Locks Callbacks Steps.

(** ** The data a mutex protects

    [_exitsMutex] and [_entriesMutex] protect an edge vector of their node,
    [_addMutex] the node table, [_barrier_mutex] the counter and the node of the
    barrier of a region.  [scramble m x s] is [s] with the data of [m] replaced
    by [x].  It shows reads and writes of the data.  It does not show that the
    object which holds the mutex and the data is destroyed: that is [frees],
    below. *)

Record garbage : Type := MkGarbage {
  gb_edges : list Edge;
  gb_table : node_map;
  gb_cnt : Z;
  gb_node : option positive }.

Definition scramble (m : mutex) (x : garbage) (s : state) : state :=
  match m with
  | MExits l => set_nodes (alter (setExits (gb_edges x)) l (nodes s)) s
  | MEntries l => set_nodes (alter (setEntries (gb_edges x)) l (nodes s)) s
  | MAdd => set_g_tdg (gb_table x) s
  | MBarrier r =>
      set_regions (alter (fun d => set_pr_curr_barrier_node (gb_node x) (set_pr_barrier_cnt (gb_cnt x) d)) r
        (regions s)) s
  end.

Definition map_state {A} (t : state → state) (r : res (A * state)) : res (A * state) :=
  match r with
  | Ok (a, s) => Ok (a, t s)
  | UB u => UB u
  | Exit c => Exit c
  | NoFuel => NoFuel
  end.

(** The addresses in use are below the next one. *)
Definition addresses_ok (s : state) : Prop :=
  (∀ l, is_Some (nodes s !! l) → (l < next_loc s)%positive) ∧
  (∀ l, is_Some (regions s !! l) → (l < next_loc s)%positive).

(** [f] does not depend on the data of [m] and leaves them alone. *)
Definition ignores {A} (m : mutex) (f : M A) : Prop :=
  ∀ s x, addresses_ok s → mutex_live s m = true → f (scramble m x s) = map_state (scramble m x) (f s).

(** ** Objects and their mutexes

    A mutex lives in its node or region: [delete] of the object (callbacks.cc:249
    and cb_parallel_end) destroys the mutex and the data that it protects.  [m] is
    [gone] when its object has existed and does so no more. *)
Definition gone (m : mutex) (s : state) : Prop :=
  match m with
  | MAdd => False
  | MExits l | MEntries l => (l < next_loc s)%positive ∧ nodes s !! l = None
  | MBarrier r => (r < next_loc s)%positive ∧ regions s !! r = None
  end.

(** [f] destroys the object of [m]. *)
Definition frees {A} (f : M A) (m : mutex) (s : state) : Prop :=
  mutex_live s m = true ∧ ∃ a s', f s = Ok (a, s') ∧ mutex_live s' m = false.

Lemma gone_dead m s : gone m s → mutex_live s m = false.
Proof. destruct m; simpl; [|done|..]; intros [_ E]; rewrite E; by apply bool_decide_eq_false, is_Some_None. Qed.

Lemma live_known m s s' :
  addresses_ok s → (next_loc s ≤ next_loc s')%positive → mutex_live s m = true → mutex_live s' m = false → gone m s'.
Proof.
  intros [A1 A2] Hn. destruct m as [r| |l|l]; simpl; [|done|..]; intros Hl%bool_decide_eq_true Hd%bool_decide_eq_false;
    apply eq_None_not_Some in Hd; (split; [|done]); [apply A2 in Hl|apply A1 in Hl..]; lia.
Qed.

(** No object comes back. *)
Definition steady {A} (f : M A) : Prop :=
  ∀ s a s', addresses_ok s → f s = Ok (a, s') →
    addresses_ok s' ∧ (next_loc s ≤ next_loc s')%positive ∧ ∀ m, gone m s → gone m s'.

(** What destroys an object does not do so twice: where the object is gone, it is
    undefined behaviour. *)
Definition frees_once {A} (f : M A) : Prop :=
  ∀ m s t, frees f m s → mutex_live t m = false → ∀ a t', f t ≠ Ok (a, t').

Definition keeps_objects {A} (f : M A) : Prop := steady f ∧ frees_once f.

(** [f] destroys no object. *)
Definition keeps_live {A} (f : M A) : Prop :=
  ∀ s a s' m, f s = Ok (a, s') → mutex_live s m = true → mutex_live s' m = true.

Lemma steady_live_objects {A} (f : M A) : steady f → keeps_live f → keeps_objects f.
Proof.
  intros Hs Hl. split; [done|]. intros m s t (Lm & a & s' & E & Lm'). apply (Hl _ _ _ m) in E; [|done]. congruence.
Qed.

(** The nodes and regions change at addresses in use only, or at new ones. *)
Lemma steady_maps {A} (f : M A) :
  (∀ s a s', f s = Ok (a, s') → (next_loc s ≤ next_loc s')%positive ∧
    (∀ l, is_Some (nodes s' !! l) → is_Some (nodes s !! l) ∨ (next_loc s ≤ l < next_loc s')%positive) ∧
    (∀ l, is_Some (regions s' !! l) → is_Some (regions s !! l) ∨ (next_loc s ≤ l < next_loc s')%positive)) →
  steady f.
Proof.
  intros Hf s a s' [A1 A2] E. destruct (Hf s a s' E) as (Hn & H1 & H2). split_and!; [split|done|].
  - intros l [Hl%A1|?]%H1; lia.
  - intros l [Hl%A2|?]%H2; lia.
  - intros [r| |l|l]; simpl; [|done|..]; intros [Hlt Hno]; (split; [lia|]); apply eq_None_not_Some;
      [intros [Hl|?]%H2|intros [Hl|?]%H1..]; try lia; rewrite Hno in Hl; by apply is_Some_None in Hl.
Qed.

(** ** The discipline *)

(** A thread that holds [H] follows the discipline along [p] and ends with a
    result and a set of mutexes that satisfy [K]. *)
Fixpoint pdisc {A} (H : gset mutex) (p : prog A) (K : A → gset mutex → Prop) : Prop :=
  match p with
  | Done a => K a H
  | Lock m k => below H m ∧ pdisc ({[m]} ∪ H) k K
  | Unlock m k => m ∈ H ∧ pdisc (H ∖ {[m]}) k K
  | Act f k => (∀ m, m ∉ H → ignores m f) ∧ keeps_objects f ∧ ∀ b, pdisc H (k b) K
  end.

Lemma pdisc_bind {A B} H (p : prog A) (k : A → prog B) K :
  pdisc H p (fun a H' => pdisc H' (k a) K) → pdisc H (p ≫= k) K.
Proof.
  revert H. induction p as [a|m p IH|m p IH|C f p IH]; intros H; cbn.
  - done.
  - intros [? ?]. split; [done|by apply IH].
  - intros [? ?]. split; [done|by apply IH].
  - intros (? & ? & Hk). split_and!; [done..|]. intros b. by apply IH.
Qed.

Lemma pdisc_act {A} H (f : M A) (K : A → gset mutex → Prop) :
  (∀ m, m ∉ H → ignores m f) → keeps_objects f → (∀ a, K a H) → pdisc H (act f) K.
Proof. by intros. Qed.

Lemma pdisc_done {A} H (a : A) K : K a H → pdisc H (Done a) K.
Proof. done. Qed.

(** A critical section. *)
Lemma pdisc_lock H m K : below H m → K tt ({[m]} ∪ H) → pdisc H (lock m) K.
Proof. by intros. Qed.

Lemma pdisc_unlock H m (K : unit → gset mutex → Prop) : m ∉ H → K tt H → pdisc ({[m]} ∪ H) (unlock m) K.
Proof.
  intros Hm HK. split; [set_solver|]. cbn. by assert (({[m]} ∪ H) ∖ {[m]} = H) as -> by set_solver.
Qed.

Lemma below_not_elem H m : below H m → m ∉ H.
Proof. intros Hb Hm. specialize (Hb m Hm). lia. Qed.

(** ** Actions that ignore every mutex *)

Definition quiet {A} (f : M A) : Prop := (∀ m, ignores m f) ∧ keeps_objects f.

(** A quiet computation that destroys nothing. *)
Definition calm {A} (f : M A) : Prop := (∀ m, ignores m f) ∧ steady f ∧ keeps_live f.

Lemma calm_quiet {A} (f : M A) : calm f → quiet f.
Proof. intros (? & ? & ?). split; [done|by apply steady_live_objects]. Qed.

Lemma bind_Ok {A B} (f : M A) (k : A → M B) s b s' :
  (f ≫= k) s = Ok (b, s') → ∃ a s1, f s = Ok (a, s1) ∧ k a s1 = Ok (b, s').
Proof. unfold mbind, M_bind. destruct (f s) as [[a s1]| | |] eqn:E; try done. eauto. Qed.

Lemma calm_bind {A B} (f : M A) (k : A → M B) : calm f → (∀ a, calm (k a)) → calm (f ≫= k).
Proof.
  intros (Hi & Hs & Hl) Hk. split_and!.
  - intros m s x As Lm. unfold mbind, M_bind. rewrite (Hi m s x As Lm).
    destruct (f s) as [[a s']| | |] eqn:E; try done. cbn.
    apply (Hk a); [by eapply Hs|by eapply Hl].
  - intros s b s' As (a & s1 & E1 & E2)%bind_Ok. destruct (Hs _ _ _ As E1) as (A1 & N1 & G1).
    destruct (proj1 (proj2 (Hk a)) _ _ _ A1 E2) as (A2 & N2 & G2). split_and!; [done|lia|auto].
  - intros s b s' m (a & s1 & E1 & E2)%bind_Ok Lm. by apply (proj2 (proj2 (Hk a)) s1 b s' m E2), (Hl s a s1 m).
Qed.

Lemma live_nodes s s' m : nodes s' = nodes s → regions s' = regions s → mutex_live s' m = mutex_live s m.
Proof. intros E1 E2. destruct m; simpl; by rewrite ?E1, ?E2. Qed.

(** Computations that change neither the nodes nor the regions. *)
Lemma calm_plain {A} (f : M A) :
  (∀ m s x, f (scramble m x s) = map_state (scramble m x) (f s)) →
  (∀ s a s', f s = Ok (a, s') → nodes s' = nodes s ∧ regions s' = regions s ∧ (next_loc s ≤ next_loc s')%positive) →
  calm f.
Proof.
  intros Hf Hs. split_and!.
  - intros m s x _ _. apply Hf.
  - apply steady_maps. intros s a s' E. destruct (Hs s a s' E) as (E1 & E2 & E3). rewrite E1, E2. auto.
  - intros s a s' m E. destruct (Hs s a s' E) as (E1 & E2 & _). by rewrite (live_nodes s s').
Qed.

Lemma calm_ret {A} (a : A) : calm (mret a).
Proof. apply calm_plain; [by destruct m|]. by intros s b s' [= _ <-]. Qed.

Lemma calm_lift {A} (r : res A) : calm (lift r).
Proof. apply calm_plain; intros; unfold lift in *; destruct r; simpl in *; simplify_eq; done. Qed.

Lemma calm_read {A} (f : state → A) : (∀ m s x, f (scramble m x s) = f s) → calm (read f).
Proof. intros Hf. apply calm_plain; [intros; unfold read; simpl; by rewrite Hf|]. by intros s b s' [= _ <-]. Qed.

Lemma calm_modify f :
  (∀ m s x, f (scramble m x s) = scramble m x (f s)) →
  (∀ s, nodes (f s) = nodes s ∧ regions (f s) = regions s ∧ next_loc (f s) = next_loc s) → calm (modify f).
Proof.
  intros Hf Hs. apply calm_plain; [intros; unfold modify; simpl; by rewrite Hf|].
  intros s b s' [= _ <-]. destruct (Hs s) as (-> & -> & ->). split_and!; try done; lia.
Qed.

Lemma calm_exit {A} c : calm (exit (A := A) c).
Proof. apply calm_plain; done. Qed.

Lemma calm_alloc : calm alloc.
Proof. apply calm_plain; [by destruct m|]. intros s a s' [= _ <-]. simpl. split_and!; try done; lia. Qed.

Lemma calm_tick : calm tick.
Proof. apply calm_plain; [by destruct m|]. intros s a s' [= _ <-]. simpl. split_and!; try done; lia. Qed.

Lemma calm_nextId : calm Node_nextId.
Proof. apply calm_plain; [by destruct m|]. intros s a s' [= _ <-]. simpl. split_and!; try done; lia. Qed.

(** Follows a computation made of such steps. *)
Ltac calm_step :=
  lazymatch goal with
  | |- calm (_ ≫= _) => apply calm_bind; [|intros ?]
  | |- calm (lift _) => apply calm_lift
  | |- calm (mret _) => apply calm_ret
  | |- calm skip => apply calm_ret
  | |- calm (exit _) => apply calm_exit
  | |- calm alloc => apply calm_alloc
  | |- calm tick => apply calm_tick
  | |- calm Node_nextId => apply calm_nextId
  | |- calm (read _) => apply calm_read; intros []; done
  | |- calm (modify _) => apply calm_modify; [intros []; done|done]
  | |- calm (if ?b then _ else _) => destruct b
  | |- calm ?m => unfold_head m
  end
with unfold_head m :=
  let h := head_of m in unfold h
with head_of m := lazymatch m with ?f _ => head_of f | _ => m end.
Ltac calm_prog := repeat calm_step.

Lemma calm_load_task p : calm (load_task p). Proof. calm_prog. Qed.
Lemma calm_load_ws p : calm (load_ws p). Proof. calm_prog. Qed.
Lemma calm_load_thread p : calm (load_thread p). Proof. calm_prog. Qed.
Lemma calm_modify_task p f : calm (modify_task p f). Proof. calm_prog. Qed.
Lemma calm_modify_ws p f : calm (modify_ws p f). Proof. calm_prog. Qed.
Lemma calm_modify_thread p f : calm (modify_thread p f). Proof. calm_prog. Qed.
Lemma calm_task_cell p : calm (task_cell p). Proof. calm_prog. Qed.
Lemma calm_region_cell p : calm (region_cell p). Proof. calm_prog. Qed.
Lemma calm_thread_cell p : calm (thread_cell p). Proof. calm_prog. Qed.
Lemma calm_set_thread_cell p q : calm (set_thread_cell p q). Proof. calm_prog. Qed.
Lemma calm_set_task_cell p q : calm (set_task_cell p q). Proof. calm_prog. Qed.
Lemma calm_set_region_cell p q : calm (set_region_cell p q). Proof. calm_prog. Qed.
Lemma calm_alloc_TaskData : calm alloc_TaskData. Proof. calm_prog. Qed.
Lemma calm_alloc_WorksharingData : calm alloc_WorksharingData. Proof. calm_prog. Qed.
Lemma calm_ftimer env : calm (ftimer_msec env). Proof. calm_prog. Qed.

#[export] Hint Resolve calm_ret calm_lift calm_exit calm_alloc calm_tick calm_nextId calm_load_task calm_load_ws
  calm_load_thread calm_modify_task calm_modify_ws calm_modify_thread calm_task_cell calm_region_cell
  calm_thread_cell calm_set_thread_cell calm_set_task_cell calm_set_region_cell calm_alloc_TaskData calm_alloc_WorksharingData
  calm_ftimer calm_quiet : steps.

(** ** Actions on nodes *)

Lemma load_node_run l s :
  load_node (Some l) s = match nodes s !! l with Some n => Ok (n, s) | None => UB UseAfterFree end.
Proof. unfold load_node, lookup_obj. cbn. unfold mbind, M_bind. cbn. by destruct (nodes s !! l). Qed.

Lemma load_region_run l s :
  load_region (Some l) s = match regions s !! l with Some d => Ok (d, s) | None => UB UseAfterFree end.
Proof. unfold load_region, lookup_obj. cbn. unfold mbind, M_bind. cbn. by destruct (regions s !! l). Qed.

Lemma modify_region_run l f s :
  modify_region (Some l) f s =
    match regions s !! l with
    | Some d => Ok (tt, set_regions (<[l := f d]> (regions s)) s)
    | None => UB UseAfterFree
    end.
Proof.
  unfold modify_region, load_region, lookup_obj. cbn. unfold mbind, M_bind. cbn. by destruct (regions s !! l).
Qed.

(** What [scramble] does to the node at [l]. *)
Definition scramble_node (m : mutex) (x : garbage) (l : positive) (n : Node) : Node :=
  match m with
  | MExits l' => if decide (l' = l) then setExits (gb_edges x) n else n
  | MEntries l' => if decide (l' = l) then setEntries (gb_edges x) n else n
  | _ => n
  end.

Definition scramble_region (m : mutex) (x : garbage) (r : positive) (d : ParallelRegionData) : ParallelRegionData :=
  match m with
  | MBarrier r' =>
      if decide (r' = r) then set_pr_curr_barrier_node (gb_node x) (set_pr_barrier_cnt (gb_cnt x) d) else d
  | _ => d
  end.

Lemma scramble_lookup m x s l : nodes (scramble m x s) !! l = scramble_node m x l <$> nodes s !! l.
Proof.
  destruct m as [r| |l'|l']; cbn [scramble scramble_node nodes set_nodes set_g_tdg set_regions];
    rewrite ?lookup_alter; destruct (nodes s !! l) as [n|] eqn:E; simpl; repeat case_decide; simplify_eq; try done;
    by rewrite E.
Qed.

Lemma scramble_lookup_region m x s r : regions (scramble m x s) !! r = scramble_region m x r <$> regions s !! r.
Proof.
  destruct m as [r'| |l'|l']; cbn [scramble scramble_region regions set_nodes set_g_tdg set_regions];
    rewrite ?lookup_alter; destruct (regions s !! r) as [n|] eqn:E; simpl; repeat case_decide; simplify_eq; try done;
    by rewrite E.
Qed.

Lemma live_scramble m m' x s : mutex_live (scramble m x s) m' = mutex_live s m'.
Proof.
  destruct m'; simpl; try done; apply bool_decide_ext;
    rewrite ?scramble_lookup, ?scramble_lookup_region; by rewrite fmap_is_Some.
Qed.

(** Replacing a node by one that [scramble] has treated. *)
Lemma scramble_insert m x s l n :
  set_nodes (<[l := scramble_node m x l n]> (nodes (scramble m x s))) (scramble m x s)
  = scramble m x (set_nodes (<[l := n]> (nodes s)) s).
Proof.
  destruct m as [r| |l'|l']; simpl; try done; unfold set_nodes; simpl; f_equal;
    (case_decide as E; [subst; rewrite alter_insert_eq; by rewrite insert_alter_eq|by rewrite alter_insert_ne]).
Qed.

Lemma scramble_insert_region m x s r d :
  set_regions (<[r := scramble_region m x r d]> (regions (scramble m x s))) (scramble m x s)
  = scramble m x (set_regions (<[r := d]> (regions s)) s).
Proof.
  destruct m as [r'| |l'|l']; simpl; try done; unfold set_regions; simpl; f_equal.
  case_decide as E; [subst; rewrite alter_insert_eq; by rewrite insert_alter_eq|by rewrite alter_insert_ne].
Qed.

(** An object in use replaced. *)
Lemma insert_live {A} (h : gmap positive A) l n l' :
  is_Some (h !! l) → is_Some (<[l := n]> h !! l') ↔ is_Some (h !! l').
Proof. intros Hl. rewrite lookup_insert_is_Some'. naive_solver. Qed.

(** [f] treats the data of [m] in the node at [l] as [scramble] does. *)
Lemma ignores_modify_node m l f :
  (∀ x n, f (scramble_node m x l n) = scramble_node m x l (f n)) → ignores m (modify_node (Some l) f).
Proof.
  intros Hf s x _ _. rewrite !modify_node_run, scramble_lookup. destruct (nodes s !! l) as [n|]; [|done]. simpl.
  by rewrite Hf, scramble_insert.
Qed.

Lemma steady_modify_node l f : steady (modify_node (Some l) f).
Proof.
  apply steady_maps. intros s a s'. rewrite modify_node_run. destruct (nodes s !! l) as [n|] eqn:E; [|done].
  intros [= _ <-]. simpl. split_and!; [done| |by left]. intros l'. rewrite insert_live by done. by left.
Qed.

Lemma live_modify_node l f : keeps_live (modify_node (Some l) f).
Proof.
  intros s a s' m. rewrite modify_node_run. destruct (nodes s !! l) as [n|] eqn:E; [|done]. intros [= _ <-].
  destruct m; simpl; try done; intros Hl%bool_decide_eq_true; apply bool_decide_eq_true; by rewrite insert_live.
Qed.

Lemma objects_modify_node l f : keeps_objects (modify_node (Some l) f).
Proof. apply steady_live_objects; [apply steady_modify_node|apply live_modify_node]. Qed.

Lemma calm_modify_node p f :
  (∀ es n, f (setExits es n) = setExits es (f n) ∧ f (setEntries es n) = setEntries es (f n)) →
  calm (modify_node p f).
Proof.
  intros Hf. destruct p as [l|]; [|by apply calm_plain].
  split_and!; [|apply steady_modify_node|apply live_modify_node].
  intros m. apply ignores_modify_node. intros x n. destruct m; simpl; try done; case_decide; try done; apply Hf.
Qed.

Lemma calm_node_field {A} (f : Node → A) p :
  (∀ es n, f (setExits es n) = f n ∧ f (setEntries es n) = f n) → calm (node_field f p).
Proof.
  intros Hf. destruct p as [l|]; [|by apply calm_plain]. apply calm_plain.
  - intros m s x. unfold node_field, mbind, M_bind. rewrite !load_node_run, scramble_lookup.
    destruct (nodes s !! l) as [n|]; [|done]. cbn -[scramble scramble_node].
    assert (f (scramble_node m x l n) = f n) as ->; [|done].
    destruct m; simpl; try done; case_decide; try done; apply Hf.
  - intros s a s'. unfold node_field, mbind, M_bind. rewrite load_node_run. destruct (nodes s !! l); [|done].
    by intros [= _ <-].
Qed.

Lemma calm_region_field {A} (f : ParallelRegionData → A) p :
  (∀ n v d, f (set_pr_curr_barrier_node n (set_pr_barrier_cnt v d)) = f d) → calm (region_field f p).
Proof.
  intros Hf. destruct p as [l|]; [|by apply calm_plain]. apply calm_plain.
  - intros m s x. unfold region_field, mbind, M_bind. rewrite !load_region_run, scramble_lookup_region.
    destruct (regions s !! l) as [n|]; [|done]. cbn -[scramble scramble_region].
    assert (f (scramble_region m x l n) = f n) as ->; [|done].
    destruct m; simpl; try done; case_decide; try done; apply Hf.
  - intros s a s'. unfold region_field, mbind, M_bind. rewrite load_region_run. destruct (regions s !! l); [|done].
    by intros [= _ <-].
Qed.

Lemma ignores_load_region m r : m ≠ MBarrier r → ignores m (load_region (Some r)).
Proof.
  intros Hm s x _ _. rewrite !load_region_run, scramble_lookup_region. destruct (regions s !! r) as [d|]; [|done].
  cbn. f_equal. f_equal. destruct m; simpl; try done. rewrite decide_False; [done|]. congruence.
Qed.

Lemma ignores_modify_region m r f :
  (∀ x d, f (scramble_region m x r d) = scramble_region m x r (f d)) → ignores m (modify_region (Some r) f).
Proof.
  intros Hf s x _ _. rewrite !modify_region_run, scramble_lookup_region. destruct (regions s !! r) as [d|]; [|done]. simpl.
  by rewrite Hf, scramble_insert_region.
Qed.

Lemma objects_modify_region r f : keeps_objects (modify_region (Some r) f).
Proof.
  apply steady_live_objects.
  - apply steady_maps. intros s a s'. rewrite modify_region_run. destruct (regions s !! r) as [n|] eqn:E; [|done].
    intros [= _ <-]. simpl. split_and!; [done|by left|]. intros l'. rewrite insert_live by done. by left.
  - intros s a s' m. rewrite modify_region_run. destruct (regions s !! r) as [n|] eqn:E; [|done]. intros [= _ <-].
    destruct m; simpl; try done; intros Hl%bool_decide_eq_true; apply bool_decide_eq_true; by rewrite insert_live.
Qed.

Lemma quiet_modify_region p f :
  (∀ n v d, f (set_pr_curr_barrier_node n (set_pr_barrier_cnt v d)) = set_pr_curr_barrier_node n (set_pr_barrier_cnt v (f d))) →
  quiet (modify_region p f).
Proof.
  intros Hf. destruct p as [r|]; [|apply calm_quiet; by apply calm_plain]. split; [|apply objects_modify_region].
  intros m. apply ignores_modify_region. intros x d. destruct m; simpl; try done; case_decide; try done; apply Hf.
Qed.

(** New and deleted objects. *)
Lemma quiet_alloc_Node id type : quiet (alloc_Node id type).
Proof.
  split.
  - intros m s x [A1 A2] Lm. unfold alloc_Node, alloc, mbind, M_bind, modify. cbn -[scramble new_Node].
    assert (next_loc (scramble m x s) = next_loc s) as -> by (by destruct m).
    destruct m as [r| |l|l]; cbn [map_state scramble]; try done;
      (assert (l ≠ next_loc s) as Hne;
        [intros ->; simpl in Lm; apply bool_decide_eq_true in Lm; apply A1 in Lm; lia|]);
      unfold set_nodes; simpl; do 3 f_equal; by rewrite alter_insert_ne.
  - apply steady_live_objects.
    + apply steady_maps. intros s a s' [= _ <-]. simpl. split_and!; [lia| |by left].
      intros l. rewrite lookup_insert_is_Some'. intros [<-|?]; [right; lia|by left].
    + intros s a s' m [= _ <-]. destruct m; simpl; try done; intros Hl%bool_decide_eq_true; apply bool_decide_eq_true;
        apply lookup_insert_is_Some'; by right.
Qed.

Lemma quiet_alloc_region : quiet alloc_ParallelRegionData.
Proof.
  split.
  - intros m s x [A1 A2] Lm. unfold alloc_ParallelRegionData, alloc, mbind, M_bind, modify. cbn -[scramble].
    assert (next_loc (scramble m x s) = next_loc s) as -> by (by destruct m).
    destruct m as [r| |l|l]; cbn [map_state scramble]; try done.
    assert (r ≠ next_loc s) as Hne.
    { intros ->. simpl in Lm. apply bool_decide_eq_true in Lm. apply A2 in Lm. lia. }
    unfold set_regions; simpl; do 3 f_equal. by rewrite alter_insert_ne.
  - apply steady_live_objects.
    + apply steady_maps. intros s a s' [= _ <-]. simpl. split_and!; [lia|by left|].
      intros l. rewrite lookup_insert_is_Some'. intros [<-|?]; [right; lia|by left].
    + intros s a s' m [= _ <-]. destruct m; simpl; try done; intros Hl%bool_decide_eq_true; apply bool_decide_eq_true;
        apply lookup_insert_is_Some'; by right.
Qed.

Lemma alter_delete {A} (f : A → A) (h : gmap positive A) l l' :
  delete l (alter f l' h) = alter f l' (delete l h).
Proof.
  apply map_eq. intros k. rewrite lookup_delete, !lookup_alter, lookup_delete.
  repeat case_decide; simplify_eq; by rewrite ?lookup_delete_eq, ?lookup_delete_ne.
Qed.

Lemma delete_run l s :
  (h ← read nodes; h' ← lift (delete_Node h l); modify (set_nodes h')) s =
    match nodes s !! l with Some _ => Ok (tt, set_nodes (delete l (nodes s)) s) | None => UB DoubleFree end.
Proof. unfold mbind, M_bind, delete_Node. cbn. by destruct (nodes s !! l). Qed.

Lemma delete_live {A} (h : gmap positive A) l l' : is_Some (delete l h !! l') → is_Some (h !! l').
Proof. intros [n [_ Hn]%lookup_delete_Some]. by eexists. Qed.

Lemma delete_Node_frees l m s :
  frees (h ← read nodes; h' ← lift (delete_Node h l); modify (set_nodes h')) m s → m = MExits l ∨ m = MEntries l.
Proof.
  intros (Lm & a & s' & E & Lm'). rewrite delete_run in E. destruct (nodes s !! l); [|done]. injection E as _ <-.
  destruct m as [r| |l'|l']; simpl in *; [congruence|congruence|..];
    (destruct (decide (l' = l)) as [->|Hne]; [auto|]; rewrite lookup_delete_ne in Lm' by done; congruence).
Qed.

Lemma quiet_delete_Node node :
  quiet (l ← lift (non_null node); h ← read nodes; h' ← lift (delete_Node h l); modify (set_nodes h')).
Proof.
  destruct node as [l|]; [|apply calm_quiet; by apply calm_plain].
  set (f := h ← read nodes; h' ← lift (delete_Node h l); modify (set_nodes h')). change (quiet f). split; [|split].
  - intros m s x _ _. unfold f. rewrite !delete_run, scramble_lookup. destruct (nodes s !! l); [|done].
    cbn [fmap option_fmap option_map map_state]. do 2 f_equal.
    destruct m; simpl; try done; unfold set_nodes; simpl; f_equal; apply alter_delete.
  - apply steady_maps. intros s a s'. unfold f. rewrite delete_run. destruct (nodes s !! l); [|done]. intros [= _ <-].
    simpl. split_and!; [done| |by left]. intros l' Hl%delete_live. by left.
  - intros m s t Hf%delete_Node_frees Lt a t'. unfold f. rewrite delete_run. destruct (nodes t !! l) as [n|] eqn:E; [|done].
    by rewrite (node_live t l n m E Hf) in Lt.
Qed.

Lemma delete_region_run l s :
  delete_ParallelRegionData (Some l) s =
    match regions s !! l with Some _ => Ok (tt, set_regions (delete l (regions s)) s) | None => UB DoubleFree end.
Proof. unfold delete_ParallelRegionData, mbind, M_bind. cbn. by destruct (regions s !! l). Qed.

Lemma delete_region_frees l m s : frees (delete_ParallelRegionData (Some l)) m s → m = MBarrier l.
Proof.
  intros (Lm & a & s' & E & Lm'). rewrite delete_region_run in E. destruct (regions s !! l); [|done].
  injection E as _ <-. destruct m as [r| |l'|l']; simpl in *; try congruence.
  destruct (decide (r = l)) as [->|Hne]; [done|]. rewrite lookup_delete_ne in Lm' by done. congruence.
Qed.

Lemma quiet_delete_region p : quiet (delete_ParallelRegionData p).
Proof.
  destruct p as [l|]; [|apply calm_quiet, calm_ret]. split; [|split].
  - intros m s x _ _. rewrite !delete_region_run, scramble_lookup_region. destruct (regions s !! l); [|done].
    cbn [fmap option_fmap option_map map_state]. do 2 f_equal.
    destruct m; simpl; try done; unfold set_regions; simpl; f_equal; apply alter_delete.
  - apply steady_maps. intros s a s'. rewrite delete_region_run. destruct (regions s !! l); [|done]. intros [= _ <-].
    simpl. split_and!; [done|by left|]. intros l' Hl%delete_live. by left.
  - intros m s t ->%delete_region_frees Lt a t'. rewrite delete_region_run. simpl in Lt.
    apply bool_decide_eq_false, eq_None_not_Some in Lt. by rewrite Lt.
Qed.

(** ** The graph operations *)

Lemma ignores_scan m u v : m ≠ MExits u → ignores m (h ← read nodes; lift (isConnectedWith h u v)).
Proof.
  intros Hm s x _ _. unfold mbind, M_bind. cbn -[isConnectedWith scramble]. unfold isConnectedWith, lookup_obj.
  rewrite scramble_lookup. destruct (nodes s !! u) as [n|]; [|done]. cbn -[scramble scramble_node].
  assert (_exitEdges (scramble_node m x u n) = _exitEdges n) as ->; [|done].
  destruct m; simpl; try done; case_decide; try done; congruence.
Qed.

(** What leaves the nodes and the regions alone. *)
Lemma keeps_plain {A} (f : M A) :
  (∀ s a s', f s = Ok (a, s') → nodes s' = nodes s ∧ regions s' = regions s ∧ next_loc s' = next_loc s) →
  keeps_objects f.
Proof.
  intros Hf. apply steady_live_objects.
  - apply steady_maps. intros s a s' E. destruct (Hf s a s' E) as (-> & -> & ->). split_and!; [lia|auto|auto].
  - intros s a s' m E. destruct (Hf s a s' E) as (E1 & E2 & _). by rewrite (live_nodes s s').
Qed.

Lemma keeps_scan u v : keeps_objects (h ← read nodes; lift (isConnectedWith h u v)).
Proof.
  apply keeps_plain. intros s a s'. unfold mbind, M_bind. cbn.
  destruct (isConnectedWith (nodes s) u v); try done. by intros [= _ <-].
Qed.

(** Writing one edge vector of a node. *)
Lemma ignores_push_exit m u f :
  m ≠ MExits u → (∀ es n, f (setEntries es n) = setEntries es (f n)) → ignores m (modify_node (Some u) f).
Proof.
  intros Hm Hf. apply ignores_modify_node. intros x n. destruct m; simpl; try done; case_decide; try done; congruence.
Qed.

Lemma ignores_push_entry m v f :
  m ≠ MEntries v → (∀ es n, f (setExits es n) = setExits es (f n)) → ignores m (modify_node (Some v) f).
Proof.
  intros Hm Hf. apply ignores_modify_node. intros x n. destruct m; simpl; try done; case_decide; try done; congruence.
Qed.

Lemma ignores_table m f :
  m ≠ MAdd → ignores m (modify (fun s => set_g_tdg (f (g_tdg s)) s)).
Proof. intros Hm s x _ _. unfold modify. simpl. do 2 f_equal. by destruct m. Qed.

Lemma keeps_table f : keeps_objects (modify (fun s => set_g_tdg (f (g_tdg s)) s)).
Proof. apply keeps_plain. by intros s a s' [= _ <-]. Qed.

Lemma keeps_load_region r : keeps_objects (load_region (Some r)).
Proof.
  apply keeps_plain. intros s a s'. rewrite load_region_run. destruct (regions s !! r); [|done]. by intros [= _ <-].
Qed.

(** ** Balanced programs

    A program that follows the discipline and gives back what it takes. *)
Definition balanced {A} (H : gset mutex) (p : prog A) : Prop := pdisc H p (fun _ H' => H' = H).

Lemma pdisc_mono {A} H (p : prog A) (K K' : A → gset mutex → Prop) :
  pdisc H p K → (∀ a H', K a H' → K' a H') → pdisc H p K'.
Proof.
  intros Hp HK. revert H Hp. induction p as [a|m p IH|m p IH|C f p IH]; intros H; cbn.
  - apply HK.
  - intros [? ?]. split; [done|by apply IH].
  - intros [? ?]. split; [done|by apply IH].
  - intros (? & ? & Hk). split_and!; [done..|]. intros b. by apply IH.
Qed.

Lemma balanced_bind {A B} H (p : prog A) (k : A → prog B) :
  balanced H p → (∀ a, balanced H (k a)) → balanced H (p ≫= k).
Proof. intros Hp Hk. apply pdisc_bind. eapply pdisc_mono; [exact Hp|]. intros a H' ->. apply Hk. Qed.

Lemma balanced_act {A} H (f : M A) : quiet f → balanced H (act f).
Proof. intros [Hi Ha]. by apply pdisc_act. Qed.

Lemma balanced_done {A} H (a : A) : balanced H (Done a).
Proof. done. Qed.

Lemma balanced_nop H : balanced H nop.
Proof. done. Qed.

(** A critical section, followed by the rest of the program. *)
Lemma balanced_section {A B} H m (p : prog A) (k k' : A → prog B) :
  below H m → balanced ({[m]} ∪ H) p → (∀ a, k' a = (unlock m;; k a)) → (∀ a, balanced H (k a)) →
  balanced H (lock m;; p ≫= k').
Proof.
  intros Hb Hp Hk' Hk. apply pdisc_bind, pdisc_lock; [done|]. apply pdisc_bind. eapply pdisc_mono; [exact Hp|].
  intros a H' ->. rewrite Hk'. apply pdisc_bind, pdisc_unlock; [by apply below_not_elem|]. apply Hk.
Qed.

(** Mutexes of a rank below [n]. *)
Definition under (n : nat) (H : gset mutex) : Prop := ∀ m, m ∈ H → rank m < n.

Lemma under_below n H m : under n H → n ≤ rank m → below H m.
Proof. intros Hu Hn m' Hm'. specialize (Hu m' Hm'). lia. Qed.

Lemma under_mono n n' H : under n H → n ≤ n' → under n' H.
Proof. intros Hu Hn m Hm. specialize (Hu m Hm). lia. Qed.

Lemma under_empty n : under n ∅.
Proof. intros m. set_solver. Qed.

#[export] Hint Resolve balanced_act balanced_done balanced_nop under_empty quiet_alloc_Node quiet_alloc_region
  quiet_delete_Node quiet_delete_region : steps.

(** An action inside the section that protects what it touches. *)
Lemma balanced_guarded {A} H m (f : M A) :
  m ∈ H → (∀ m', m' ≠ m → ignores m' f) → keeps_objects f → balanced H (act f).
Proof. intros Hm Hi Ha. apply pdisc_act; [|done..]. intros m' Hm'. apply Hi. intros ->. done. Qed.

Lemma balanced_connect H u v : under 2 H → balanced H (connectNodes_p u v).
Proof.
  intros Hu. unfold connectNodes_p. apply balanced_bind; [apply balanced_act, calm_quiet; calm_prog|]. intros [a b].
  assert (below H (MExits a)) as Hb by (by eapply under_below).
  eapply balanced_section; [done| |done|].
  { apply (balanced_guarded _ (MExits a)); [set_solver|intros; by apply ignores_scan|apply keeps_scan]. }
  intros []; [done|].
  assert (below ({[MExits a]} ∪ H) (MEntries b)) as Hb'.
  { apply below_add; [|simpl; lia]. eapply under_below; [by eapply under_mono|simpl; lia]. }
  apply pdisc_bind, pdisc_lock; [done|]. apply pdisc_bind, pdisc_lock; [done|].
  apply pdisc_bind. eapply pdisc_mono.
  { apply (balanced_guarded _ (MExits a)); [set_solver|intros; by apply ignores_push_exit|apply objects_modify_node]. }
  intros [] ? ->. apply pdisc_bind. eapply pdisc_mono.
  { apply (balanced_guarded _ (MEntries b)); [set_solver|intros; by apply ignores_push_entry|apply objects_modify_node]. }
  intros [] ? ->. apply pdisc_bind, pdisc_unlock; [by apply below_not_elem|].
  apply pdisc_unlock; [by apply below_not_elem|done].
Qed.

Lemma balanced_disconnect H u v : under 2 H → balanced H (disconnectNodes_p u v).
Proof.
  intros Hu. unfold disconnectNodes_p. apply balanced_bind; [apply balanced_act, calm_quiet; calm_prog|]. intros [a b].
  eapply balanced_section; [by eapply under_below| |done|].
  { apply (balanced_guarded _ (MExits a)); [set_solver|intros; by apply ignores_push_exit|apply objects_modify_node]. }
  intros []. apply pdisc_bind, pdisc_lock; [eapply under_below; [done|simpl; lia]|]. apply pdisc_bind. eapply pdisc_mono.
  { apply (balanced_guarded _ (MEntries b)); [set_solver|intros; by apply ignores_push_entry|apply objects_modify_node]. }
  intros [] ? ->. apply pdisc_unlock; [|done]. apply below_not_elem. eapply under_below; [done|simpl; lia].
Qed.

Lemma balanced_table H f : under 1 H → balanced H (lock MAdd;; act (modify (fun s => set_g_tdg (f (g_tdg s)) s));; unlock MAdd).
Proof.
  intros Hu. assert (below H MAdd) as Hb by (by eapply under_below).
  apply pdisc_bind, pdisc_lock; [done|]. apply pdisc_bind. eapply pdisc_mono.
  { apply (balanced_guarded _ MAdd); [set_solver|intros; by apply ignores_table|apply keeps_table]. }
  intros [] ? ->. by apply pdisc_unlock; [apply below_not_elem|].
Qed.

Lemma balanced_addNode H id l : under 1 H → balanced H (addNode_p id l).
Proof. apply (balanced_table H (fun g => addNode g id l)). Qed.

Lemma balanced_removeNode H id : under 1 H → balanced H (removeNode_p id).
Proof. apply (balanced_table H (fun g => removeNode g id)). Qed.

#[export] Hint Resolve balanced_connect balanced_disconnect balanced_addNode balanced_removeNode : steps.
#[export] Hint Extern 1 (under _ _) => (eapply under_mono; [eassumption|lia]) : steps.
#[export] Hint Extern 1 (calm (modify_node _ _)) => (apply calm_modify_node; intros; split; reflexivity) : steps.
#[export] Hint Extern 1 (calm (node_field _ _)) => (apply calm_node_field; intros; split; reflexivity) : steps.
#[export] Hint Extern 1 (calm (region_field _ _)) => (apply calm_region_field; intros; reflexivity) : steps.
#[export] Hint Extern 1 (quiet (modify_region _ _)) => (apply quiet_modify_region; intros; reflexivity) : steps.
#[export] Hint Extern 1 (calm (read _)) => (apply calm_read; intros []; reflexivity) : steps.
#[export] Hint Extern 1 (calm (modify _)) => (apply calm_modify; [intros []; reflexivity|done]) : steps.

(** Follows a program that only takes mutexes in its graph operations. *)
Ltac balance_step :=
  lazymatch goal with
  | |- balanced _ (_ ≫= _) => apply balanced_bind; [|intros ?]
  | |- balanced _ (let '(_, _) := ?p in _) => destruct p
  | |- balanced _ (if ?b then _ else _) => destruct b
  end.
Ltac balance := repeat (balance_step || solve [auto with steps]).

Section balanced.
Context (env : Env).

Lemma balanced_create_clean H type gen_id : under 1 H → balanced H (create_clean_node_p type gen_id).
Proof. intros Hu. unfold create_clean_node_p. balance. Qed.

Lemma balanced_create_new H type parent b : under 1 H → balanced H (create_new_node_p env type parent b).
Proof.
  intros Hu. unfold create_new_node_p. apply balanced_bind; [by apply balanced_create_clean|]. intros l. balance.
Qed.

Lemma balanced_add_time H node : balanced H (add_time_now_p env node).
Proof. unfold add_time_now_p. balance. Qed.

Lemma balanced_set_last_time H node : balanced H (set_last_time_now_p env node).
Proof. unfold set_last_time_now_p. balance. Qed.

Lemma balanced_endPapi H node es : balanced H (endPapiCounters_p env node es).
Proof. unfold endPapiCounters_p. balance. Qed.

Lemma calm_initPapiVals node n : calm (initPapiVals node n).
Proof. apply calm_modify_node. intros es []. split; reflexivity. Qed.

Lemma calm_startPapi node es : calm (startPapiCounters node es).
Proof. calm_prog. Qed.

Lemma balanced_delete H node : balanced H (delete_Node_p node).
Proof. apply balanced_act, quiet_delete_Node. Qed.

Lemma balanced_add_events H es n events : balanced H (add_events_p env es n events).
Proof.
  revert events. induction n as [|n IH]; intros [|e events]; cbn [add_events_p]; balance.
Qed.
End balanced.

#[export] Hint Resolve balanced_create_clean balanced_create_new balanced_add_time balanced_set_last_time
  balanced_endPapi balanced_delete balanced_add_events calm_initPapiVals calm_startPapi : steps.

Section balanced_callbacks.
Context (env : Env).

Lemma balanced_thread_begin th : balanced ∅ (cb_thread_begin_p env th).
Proof. unfold cb_thread_begin_p. balance. Qed.

Lemma balanced_thread_end th : balanced ∅ (cb_thread_end_p env th).
Proof. unfold cb_thread_end_p. balance. Qed.

Lemma balanced_implicit ep pd td ts tn : balanced ∅ (cb_implicit_task_p env ep pd td ts tn).
Proof. unfold cb_implicit_task_p, implicit_task_begin_p, implicit_task_end_p. balance. Qed.

Lemma balanced_parallel_begin ptd pd n : balanced ∅ (cb_parallel_begin_p env ptd pd n).
Proof. unfold cb_parallel_begin_p. balance. Qed.

Lemma balanced_parallel_end pd : balanced ∅ (cb_parallel_end_p env pd).
Proof. unfold cb_parallel_end_p. balance. Qed.

Lemma balanced_task_create ptd ntd ty : balanced ∅ (cb_task_create_p env ptd ntd ty).
Proof. unfold cb_task_create_p. balance. Qed.

Lemma balanced_task_schedule a b : balanced ∅ (cb_task_schedule_p env a b).
Proof. unfold cb_task_schedule_p. balance. Qed.

Lemma balanced_ext_loop ep td lo up th : balanced ∅ (cb_ext_loop_p env ep td lo up th).
Proof. unfold cb_ext_loop_p, loop_begin_p, loop_end_p. balance. Qed.

Lemma balanced_ext_chunk td lo up last th : balanced ∅ (cb_ext_chunk_p env td lo up last th).
Proof. unfold cb_ext_chunk_p. balance. Qed.

(** The critical section of the barrier. *)
Lemma balanced_arrive td r : balanced ({[MBarrier r]} ∪ ∅) (arrive_p env td (Some r)).
Proof.
  assert (under 1 ({[MBarrier r]} ∪ ∅)) as Hu by (intros m; set_solver).
  assert (∀ f, balanced ({[MBarrier r]} ∪ ∅) (act (modify_region (Some r) f))) as HR.
  { intros f. apply (balanced_guarded _ (MBarrier r)); [set_solver| |apply objects_modify_region].
    intros m Hm. apply ignores_modify_region. intros x d. destruct m; simpl; try done. case_decide; [congruence|done]. }
  assert (balanced ({[MBarrier r]} ∪ ∅) (act (load_region (Some r)))) as HL.
  { apply (balanced_guarded _ (MBarrier r)); [set_solver|intros; by apply ignores_load_region|apply keeps_load_region]. }
  unfold arrive_p. balance.
Qed.

Lemma balanced_barrier_begin td pi : balanced ∅ (barrier_begin_p env td pi).
Proof.
  unfold barrier_begin_p, real_team. apply balanced_bind.
  { apply balanced_act, calm_quiet. destruct (bool_decide _); [|auto with steps].
    apply (calm_region_field (fun d => 1 <? pr_team_size d)%Z). done. }
  intros []; [|done]. do 2 (balance_step; [auto with steps|]).
  apply balanced_bind; [auto with steps|]. intros r.
  eapply (balanced_section ∅ (MBarrier r) (arrive_p env td (Some r)) (fun a =>
    node ← create_new_node_p env IMP_TASK a.1 true;
    act (modify_task td (set_td_curr_task_node (Some node)));;
    if (a.2 : bool) then d ← act (load_task td); connectNodes_p a.1 (td_curr_task_node d) else nop)).
  - apply under_below with (n := 0); [done|simpl; lia].
  - apply balanced_arrive.
  - by intros [b new].
  - intros [b new]. cbn [fst snd]. balance.
Qed.

Lemma balanced_sync k ep pd td : balanced ∅ (cb_sync_region_p env k ep pd td).
Proof.
  unfold cb_sync_region_p, barrier_end_p, real_team.
  assert (∀ pi, calm (if bool_decide (is_Some pi) then region_field (fun d => 1 <? pr_team_size d)%Z pi else mret false)) as HT.
  { intros pi. destruct (bool_decide _); auto with steps. }
  assert (∀ pi, quiet (if bool_decide (is_Some pi) then d ← load_region pi; mret (1 <? pr_team_size d)%Z else mret false)) as HQ.
  { intros pi. apply (calm_quiet _ (HT pi)). }
  balance. apply balanced_barrier_begin.
Qed.

(** Every callback follows the discipline. *)
Lemma balanced_event e : balanced ∅ (run_event_p env e).
Proof.
  destruct e; cbn [run_event_p]; auto using balanced_thread_begin, balanced_thread_end, balanced_implicit,
    balanced_parallel_begin, balanced_parallel_end, balanced_task_create, balanced_task_schedule, balanced_sync,
    balanced_ext_loop, balanced_ext_chunk, balanced_nop.
Qed.

Lemma balanced_run es : balanced ∅ (run_p env es).
Proof. induction es as [|e es IH]; cbn [run_p]; [done|]. apply balanced_bind; [apply balanced_event|done]. Qed.
End balanced_callbacks.
