(* ===== verification/Threads.v ===== *)
(** * Threads that run callbacks

    Several threads run lists of callbacks at once, interleaved at every access
    and every lock operation ([Steps]).  No schedule deadlocks or runs for ever,
    the protected data are only read and written by the holder of their mutex, an
    object that a thread deletes with its mutex is one that nobody holds or waits
    for unless some schedule is undefined behaviour, and the runs of whole callbacks
    that the other files study are among the schedules. *)
From stdpp Require Import base numbers gmap list sorting relations.
From Stdlib Require Import ZArith Lia.
From S2P Require Import Prelude Float64 Graph Locks Callbacks Steps Discipline.

(** ** The invariant of the thread pool *)

Record conf_ok (c : conf) : Prop := {
  co_addresses : addresses_ok (cf_state c);
  co_threads : ∀ i p, cf_threads c !! i = Some p → pdisc (held (cf_owner c) i) p (fun _ H => H = ∅);
  co_owner : ∀ m i, cf_owner c !! m = Some i → is_Some (cf_threads c !! i) }.

Lemma scrambled_live (s : state) m x : mutex_live (scramble m x s) m = mutex_live s m.
Proof. apply live_scramble. Qed.

Lemma conf_ok_launch s env progs : addresses_ok s → conf_ok (launch s (run_p env <$> progs)).
Proof.
  intros A. split; [done| |done]. intros i p. cbn [launch cf_threads cf_owner]. rewrite list_lookup_fmap.
  destruct (progs !! i) as [es|]; [|done]. intros [= <-]. rewrite held_empty. apply balanced_run.
Qed.

(** One thread moves on; the others keep what they hold. *)
Lemma conf_ok_update c i p s o :
  conf_ok c → is_Some (cf_threads c !! i) → addresses_ok s → pdisc (held o i) p (fun _ H => H = ∅) →
  (∀ j, j ≠ i → held o j = held (cf_owner c) j) → (∀ m j, o !! m = Some j → j = i ∨ cf_owner c !! m = Some j) →
  conf_ok (MkConf s o (<[i := p]> (cf_threads c))).
Proof.
  intros [_ Ct Co] Hi A Hp Hh Ho. split; cbn [cf_state cf_owner cf_threads]; [done| |].
  - intros j q. rewrite list_lookup_insert_Some. intros [(<- & <- & _)|[Hne Hj]]; [done|].
    rewrite Hh by done. by apply Ct.
  - intros m j Hm. rewrite lookup_lt_is_Some, length_insert, <- lookup_lt_is_Some.
    destruct (Ho m j Hm) as [->|]; [done|by eapply Co].
Qed.

Lemma turn_cases c i :
  conf_ok c →
  turn_of i c = TFinished ∨
  (∃ c', turn_of i c = TStep c' ∧ conf_ok c') ∨
  (∃ m j, turn_of i c = TBlocked ∧ cf_owner c !! m = Some j ∧ below (held (cf_owner c) i) m) ∨
  (∃ r, turn_of i c = TStop r).
Proof.
  intros C. pose proof C as [Ca Ct Co]. unfold turn_of. destruct (cf_threads c !! i) as [p|] eqn:Ei; [|by left].
  assert (is_Some (cf_threads c !! i)) as Hi by (by eexists). specialize (Ct i p Ei).
  destruct p as [a|m k|m k|B f k]; cbn in Ct.
  - by left.
  - right. destruct (mutex_live (cf_state c) m); [|right; right; eauto]. destruct Ct as [Hb Hk].
    destruct (cf_owner c !! m) as [j|] eqn:Em.
    + case_decide; [right; right; eauto|]. right; left. eauto.
    + left. eexists. split; [done|]. apply conf_ok_update; try done.
      * by rewrite held_lock, decide_True.
      * intros j Hne. by rewrite held_lock, decide_False.
      * intros m' j. rewrite lookup_insert_Some. naive_solver.
  - right. destruct (mutex_live (cf_state c) m); [|right; right; eauto]. destruct Ct as [Hm Hk].
    case_decide as Em; [|right; right; eauto]. left. eexists. split; [done|]. apply conf_ok_update; try done.
    + by rewrite (held_unlock _ m i), decide_True.
    + intros j Hne. by rewrite (held_unlock _ m i), decide_False.
    + intros m' j. rewrite lookup_delete_Some. naive_solver.
  - right. destruct Ct as (_ & Hf & Hk). destruct (f (cf_state c)) as [[b s']| | |] eqn:E; try (right; right; by eexists).
    left. eexists. split; [done|]. apply conf_ok_update; try done; [by eapply Hf|auto].
Qed.

Lemma conf_ok_step c c' : conf_ok c → pstep c c' → conf_ok c'.
Proof.
  intros C [i E]. destruct (turn_cases c i C) as [?|[(c1 & ? & ?)|[(m & j & ? & _)|[r ?]]]]; try congruence.
Qed.

Lemma conf_ok_steps c c' : conf_ok c → rtc pstep c c' → conf_ok c'.
Proof. intros C R. induction R as [|c c1 c' Hs _ IH]; [done|]. by apply IH, (conf_ok_step c). Qed.

(** ** Progress *)

Lemma holder_unfinished c m j : conf_ok c → cf_owner c !! m = Some j → turn_of j c ≠ TFinished.
Proof.
  intros [_ Ct Co] Hm. destruct (Co m j Hm) as [p Hp]. unfold turn_of. rewrite Hp. specialize (Ct j p Hp).
  destruct p as [a|m' k|m' k|B f k]; cbn in *; repeat case_match; try done.
  apply elem_held in Hm. rewrite Ct in Hm. set_solver.
Qed.

(** Behind a mutex that is held some thread steps or stops the program. *)
Lemma some_holder_moves c m j n :
  conf_ok c → cf_owner c !! m = Some j → 3 - rank m < n →
  ∃ i, (∃ c', turn_of i c = TStep c') ∨ (∃ r, turn_of i c = TStop r).
Proof.
  intros C. revert m j. induction n as [|n IH]; intros m j Hm Hn; [lia|].
  destruct (turn_cases c j C) as [E|[(c' & E & _)|[(m' & j' & E & Hm' & Hb)|E]]].
  - by destruct (holder_unfinished c m j C Hm).
  - exists j. left. eauto.
  - apply (IH m' j'); [done|]. apply elem_held in Hm. specialize (Hb m Hm).
    assert (rank m' ≤ 3) by (destruct m'; simpl; lia). lia.
  - eauto.
Qed.

Lemma forallb_false {A} (f : A → bool) l : forallb f l = false → ∃ x, f x = false.
Proof. induction l as [|x l IH]; [done|]. simpl. destruct (f x) eqn:E; [apply IH|eauto]. Qed.

Definition finished (c : conf) (i : nat) : bool := match turn_of i c with TFinished => true | _ => false end.

Lemma pool_progress c :
  conf_ok c →
  (∃ c', pstep c c') ∨ (∃ i r, turn_of i c = TStop r) ∨ (∀ i, turn_of i c = TFinished) ∧ cf_owner c = ∅.
Proof.
  intros C. destruct (forallb (finished c) (List.seq 0 (length (cf_threads c)))) eqn:F.
  - right; right. assert (∀ i, turn_of i c = TFinished) as D.
    { intros i. destruct (decide (i < length (cf_threads c))) as [Hi|Hi].
      - rewrite forallb_forall in F. specialize (F i). rewrite in_seq in F. specialize (F ltac:(lia)).
        unfold finished in F. by destruct (turn_of i c).
      - unfold turn_of. by rewrite lookup_ge_None_2 by lia. }
    split; [done|]. apply map_eq. intros m. rewrite lookup_empty. destruct (cf_owner c !! m) as [j|] eqn:E; [|done].
    by destruct (holder_unfinished c m j C E).
  - assert (∃ i, turn_of i c ≠ TFinished) as [i Hi].
    { apply forallb_false in F as (i & F). exists i. intros E. unfold finished in F. by rewrite E in F. }
    assert (∃ i, (∃ c', turn_of i c = TStep c') ∨ (∃ r, turn_of i c = TStop r)) as (i' & [[c' E]|[r E]]).
    { destruct (turn_cases c i C) as [?|[(c' & ? & _)|[(m & j & _ & Hm & _)|?]]]; [done|exists i; left; eauto| |eauto].
      apply (some_holder_moves c m j 4 C Hm). lia. }
    + left. by exists c', i'.
    + right; left. eauto.
Qed.

(** ** Termination *)

(** [q] is what is left of [p] after one step. *)
Definition psub (q p : prog unit) : Prop :=
  match p with
  | Done _ => False
  | Lock _ k | Unlock _ k => q = k
  | Act f k => ∃ b, q = k b
  end.

Lemma psub_wf p : Acc psub p.
Proof.
  induction p as [a|m p IH|m p IH|C f p IH]; constructor; intros q Hq; cbn in Hq; [done|by subst..|].
  destruct Hq as [b ->]. apply IH.
Qed.

(** A step of one thread of a pool. *)
Definition pool_sub (qs ps : list (prog unit)) : Prop :=
  ∃ i p q, ps !! i = Some p ∧ psub q p ∧ qs = <[i := q]> ps.

Lemma pool_wf ps : Acc pool_sub ps.
Proof.
  induction ps as [|p ps IH].
  - constructor. intros qs (i & p & q & Hp & _). done.
  - revert p. induction IH as [ps _ IHps]. intros p. induction (psub_wf p) as [p _ IHp].
    constructor. intros qs ([|i] & p' & q & Hp & Hq & ->); simpl in Hp.
    + injection Hp as <-. simpl. by apply IHp.
    + simpl. apply IHps. by exists i, p', q.
Qed.

Lemma pstep_pool c c' : pstep c c' → pool_sub (cf_threads c') (cf_threads c).
Proof.
  intros [i E]. unfold turn_of in E. destruct (cf_threads c !! i) as [p|] eqn:Ei; [|done].
  exists i, p. destruct p as [a|m k|m k|B f k]; repeat case_match; simplify_eq; eexists; split_and!; try done.
  by eexists.
Qed.

Lemma pstep_wf c : Acc (flip pstep) c.
Proof.
  remember (cf_threads c) as ps eqn:E. revert c E. induction (pool_wf ps) as [ps _ IH]. intros c ->.
  constructor. intros c' Hs. by apply (IH (cf_threads c')); [apply pstep_pool|].
Qed.

(** ** Objects that threads destroy *)

(** No thread ends the program, by undefined behaviour or [exit]. *)
Definition never_stops (c : conf) : Prop := ∀ c', rtc pstep c c' → ∀ i r, turn_of i c' ≠ TStop r.

Lemma never_stops_step c c' : never_stops c → pstep c c' → never_stops c'.
Proof. intros Hn Hs c1 R. apply Hn. by eapply rtc_l. Qed.

(** A lock operation on a mutex that is gone is undefined behaviour. *)
Lemma gone_stops c i m p :
  gone m (cf_state c) → cf_threads c !! i = Some p → (∃ k, p = Lock m k ∨ p = Unlock m k) → turn_of i c = TStop (UB UseAfterFree).
Proof. intros Hm%gone_dead Hi (k & [-> | ->]); unfold turn_of; by rewrite Hi, Hm. Qed.

(** A mutex that is gone stays gone, and who holds it keeps it. *)
Lemma gone_step c c' m :
  conf_ok c → pstep c c' → gone m (cf_state c) → gone m (cf_state c') ∧ cf_owner c' !! m = cf_owner c !! m.
Proof.
  intros [Ca Ct _] [i E] Hm. unfold turn_of in E. destruct (cf_threads c !! i) as [p|] eqn:Ei; [|done].
  specialize (Ct i p Ei). pose proof (gone_dead _ _ Hm) as Dm. destruct p as [a|m' k|m' k|B f k]; [done|..].
  - destruct (mutex_live (cf_state c) m') eqn:L; [|done]. assert (m' ≠ m) by congruence.
    repeat case_match; simplify_eq. simpl. by rewrite lookup_insert_ne.
  - destruct (mutex_live (cf_state c) m') eqn:L; [|done]. assert (m' ≠ m) by congruence.
    repeat case_match; simplify_eq. simpl. by rewrite lookup_delete_ne.
  - destruct Ct as (_ & [Hs _] & _). destruct (f (cf_state c)) as [[b s']| | |] eqn:Ef; simplify_eq. simpl.
    split; [|done]. by apply (Hs _ _ _ Ca Ef).
Qed.

Lemma gone_steps c c' m : conf_ok c → rtc pstep c c' → gone m (cf_state c) → gone m (cf_state c').
Proof.
  intros C R. induction R as [|c c1 c' Hs _ IH]; [done|]. intros Hm. apply IH; [by eapply conf_ok_step|].
  by apply (gone_step c c1).
Qed.

(** Nobody holds a mutex that is gone: it could not be given back. *)
Lemma gone_free c m : conf_ok c → never_stops c → gone m (cf_state c) → cf_owner c !! m = None.
Proof.
  intros C. revert C. induction (pstep_wf c) as [c _ IH]. intros C Hn Hm.
  destruct (pool_progress c C) as [[c' Hs]|[(i & r & E)|[_ ->]]].
  - destruct (gone_step c c' m C Hs Hm) as [Hm' <-].
    apply IH; [done|by eapply conf_ok_step|by eapply never_stops_step|done].
  - by destruct (Hn c (rtc_refl _ _) i r).
  - apply lookup_empty.
Qed.

(** A step that destroys an object. *)
Definition after {B} (c : conf) (i : nat) (k : B → prog unit) (b : B) (s' : state) : conf :=
  MkConf s' (cf_owner c) (<[i := k b]> (cf_threads c)).

Lemma frees_step c i B (f : M B) k m :
  conf_ok c → cf_threads c !! i = Some (Act f k) → frees f m (cf_state c) →
  ∃ b s', f (cf_state c) = Ok (b, s') ∧ pstep c (after c i k b s') ∧ gone m s'.
Proof.
  intros [Ca Ct _] Hi (Lm & b & s' & E & Lm'). exists b, s'. split_and!; [done| |].
  - exists i. unfold turn_of. by rewrite Hi, E.
  - destruct (Ct i _ Hi) as (_ & [Hs _] & _). destruct (Hs _ _ _ Ca E) as (_ & Hle & _). by eapply live_known.
Qed.

(** Two threads never destroy an object both. *)
Lemma frees_unique c i j B (f : M B) k C (g : M C) k' m :
  conf_ok c → never_stops c → cf_threads c !! i = Some (Act f k) → frees f m (cf_state c) →
  j ≠ i → cf_threads c !! j = Some (Act g k') → ¬ frees g m (cf_state c).
Proof.
  intros Co Hn Hi Hf Hne Hj Hg. destruct (frees_step c i B f k m Co Hi Hf) as (b & s' & E & Hs & Hm).
  destruct (co_threads c Co j _ Hj) as (_ & [_ Ho] & _).
  pose proof (Ho m (cf_state c) s' Hg (gone_dead _ _ Hm)) as Hno.
  pose proof (Hn _ (rtc_once _ _ Hs) j) as Hst. unfold turn_of, after in Hst. cbn in Hst.
  rewrite list_lookup_insert_ne, Hj in Hst by done. destruct (g s') as [[a t]| | |] eqn:Eg; try by eapply Hst.
  by destruct (Hno a t).
Qed.

(** *** Checks on a concrete pool *)

(** All schedules of [c] end within [n] steps, and none of them stops. *)
Fixpoint explore (n : nat) (c : conf) : bool :=
  match n with
  | 0 => false
  | S n =>
      forallb (fun i => match turn_of i c with TStep c' => explore n c' | TStop _ => false | _ => true end)
        (List.seq 0 (length (cf_threads c)))
  end.

Lemma explore_turn n c i :
  explore (S n) c = true → match turn_of i c with TStep c' => explore n c' = true | TStop _ => False | _ => True end.
Proof.
  cbn [explore]. rewrite forallb_forall. intros H. destruct (decide (i < length (cf_threads c))) as [Hi|Hi].
  - specialize (H i). rewrite in_seq in H. specialize (H ltac:(lia)). by destruct (turn_of i c).
  - unfold turn_of. by rewrite lookup_ge_None_2 by lia.
Qed.

Lemma explore_never_stops n c : explore n c = true → never_stops c.
Proof.
  intros H c' R. revert n H. induction R as [c|c c1 c' [j E] _ IH]; intros [|n] H; try done.
  - intros i r E. pose proof (explore_turn n c i H) as Ht. by rewrite E in Ht.
  - pose proof (explore_turn n c j H) as Ht. rewrite E in Ht. by apply (IH n).
Qed.

(** The next access of thread [i] destroys the object of [m]. *)
Definition frees_next (c : conf) (i : nat) (m : mutex) : bool :=
  match cf_threads c !! i with
  | Some (Act f _) =>
      mutex_live (cf_state c) m && match f (cf_state c) with Ok (_, s') => negb (mutex_live s' m) | _ => false end
  | _ => false
  end.

Lemma frees_next_spec c i m :
  frees_next c i m = true →
  ∃ B (f : M B) k, cf_threads c !! i = Some (Act f k) ∧ frees f m (cf_state c).
Proof.
  unfold frees_next. destruct (cf_threads c !! i) as [[| | |B f k]|]; try done. intros [L H]%andb_true_iff.
  exists B, f, k. split; [done|]. split; [done|]. destruct (f (cf_state c)) as [[b s']| | |]; try done.
  exists b, s'. split; [done|]. by apply negb_true_iff.
Qed.

(** ** Whole callbacks *)

(** Only thread [i] holds mutexes. *)
Definition alone (i : nat) (o : gmap mutex nat) : Prop := ∀ m j, o !! m = Some j → j = i.

Lemma alone_empty i o : alone i o → held o i = ∅ → o = ∅.
Proof.
  intros Ha Hh. apply map_eq. intros m. rewrite lookup_empty. destruct (o !! m) as [j|] eqn:E; [|done].
  assert (j = i) as -> by (by eapply Ha). apply elem_held in E. rewrite Hh in E. set_solver.
Qed.

(** While the others hold nothing, a thread can run a disciplined program to its
    end. *)
Lemma run_alone {A} (p : prog A) (q : A → prog unit) i s a s' o ts K :
  pdisc (held o i) p K → alone i o → seq p s = Ok (a, s') → ts !! i = Some (p ≫= q) →
  ∃ o', rtc pstep (MkConf s o ts) (MkConf s' o' (<[i := q a]> ts)) ∧ alone i o' ∧ K a (held o' i).
Proof.
  revert s o ts. induction p as [b|m p IH|m p IH|B f p IH]; intros s o ts Hd Ha E Hi; cbn in Hd, E.
  - injection E as -> ->. exists o. split; [|done]. by rewrite list_insert_id.
  - destruct (mutex_live s m) eqn:Lm; [|done]. destruct Hd as [Hb Hd].
    assert (o !! m = None) as Hm.
    { destruct (o !! m) as [j|] eqn:Em; [|done]. assert (j = i) as -> by (by eapply Ha). apply elem_held in Em.
      by destruct (below_not_elem _ _ Hb). }
    destruct (IH s (<[m := i]> o) (<[i := p ≫= q]> ts)) as (o' & R & Ha' & HK).
    + by rewrite held_lock, decide_True.
    + intros m' j. rewrite lookup_insert_Some. intros [[_ <-]|[_ ?]]; [done|by eapply Ha].
    + done.
    + apply list_lookup_insert_eq. by eapply lookup_lt_Some.
    + exists o'. split; [|done]. eapply rtc_l; [|by rewrite list_insert_insert_eq in R].
      exists i. unfold turn_of. cbn [cf_threads cf_state cf_owner]. rewrite Hi. cbn. by rewrite Lm, Hm.
  - destruct (mutex_live s m) eqn:Lm; [|done]. destruct Hd as [Hm%elem_held Hd].
    destruct (IH s (delete m o) (<[i := p ≫= q]> ts)) as (o' & R & Ha' & HK).
    + by rewrite (held_unlock _ m i), decide_True.
    + intros m' j. rewrite lookup_delete_Some. intros [_ ?]. by eapply Ha.
    + done.
    + apply list_lookup_insert_eq. by eapply lookup_lt_Some.
    + exists o'. split; [|done]. eapply rtc_l; [|by rewrite list_insert_insert_eq in R].
      exists i. unfold turn_of. cbn [cf_threads cf_state cf_owner]. rewrite Hi. cbn. by rewrite Lm, decide_True.
  - destruct Hd as (_ & _ & Hd). destruct (f s) as [[b s1]| | |] eqn:Ef; try done. cbn in E.
    destruct (IH b s1 o (<[i := p b ≫= q]> ts)) as (o' & R & Ha' & HK); [apply Hd|done|done| |].
    + apply list_lookup_insert_eq. by eapply lookup_lt_Some.
    + exists o'. split; [|done]. eapply rtc_l; [|by rewrite list_insert_insert_eq in R].
      exists i. unfold turn_of. cbn [cf_threads cf_state cf_owner]. rewrite Hi. cbn. by rewrite Ef.
Qed.

(** Some thread runs its next callback as a whole. *)
Inductive cbstep (env : Env) : state * list (list event) → state * list (list event) → Prop :=
  | CbStep s ps i e es s' :
      ps !! i = Some (e :: es) → run_event env e s = Ok (tt, s') → cbstep env (s, ps) (s', <[i := es]> ps).

Lemma cbstep_psteps env s ps s' ps' :
  cbstep env (s, ps) (s', ps') → rtc pstep (launch s (run_p env <$> ps)) (launch s' (run_p env <$> ps')).
Proof.
  intros Hs. inversion Hs as [s0 ps0 i e es s1 Hi E]; subst.
  destruct (run_alone (run_event_p env e) (fun _ => run_p env es) i s tt s' ∅ (run_p env <$> ps) (fun _ H => H = ∅))
    as (o' & R & Ha & Hh).
  - rewrite held_empty. apply balanced_event.
  - by intros m j.
  - by rewrite (refines_event env e).
  - by rewrite list_lookup_fmap, Hi.
  - rewrite (alone_empty i o' Ha Hh) in R. unfold launch. by rewrite list_fmap_insert.
Qed.

(** ** Addresses of a run *)

Lemma pdisc_addresses {A} H (p : prog A) K s a s' :
  pdisc H p K → addresses_ok s → seq p s = Ok (a, s') → addresses_ok s'.
Proof.
  revert H s. induction p as [b|m p IH|m p IH|B f p IH]; intros H s Hd As E; cbn in Hd, E.
  - by injection E as _ <-.
  - destruct (mutex_live s m); [|done]. by eapply (IH _ s (proj2 Hd)).
  - destruct (mutex_live s m); [|done]. by eapply (IH _ s (proj2 Hd)).
  - destruct Hd as (_ & [Hf _] & Hk). destruct (f s) as [[b s1]| | |] eqn:Ef; try done.
    eapply (IH b _ s1 (Hk b)); [|exact E]. by eapply Hf.
Qed.

Lemma run_addresses env es s s' : addresses_ok s → run env es s = Ok (tt, s') → addresses_ok s'.
Proof. intros As E. rewrite <- (refines_run env es s) in E. by eapply pdisc_addresses; [apply balanced_run| |]. Qed.

Lemma init_addresses evts : addresses_ok (init_state evts).
Proof. split; intros l; simpl; rewrite lookup_empty; by intros [? ?]. Qed.

Lemma schedule_p_rtc sched c : rtc pstep c (schedule_p sched c).
Proof.
  revert c. induction sched as [|i sched IH]; intros c; [done|]. cbn [schedule_p].
  destruct (turn_of i c) as [| |c'|] eqn:E; try apply IH. eapply rtc_l; [by exists i|apply IH].
Qed.

(** ** Theorems *)

(** C7. Threads that run any callbacks never block each other for ever.  From
    every state of the objects, whatever lists of callbacks the threads run and
    however they interleave: no run is infinite, and a state in which no thread
    can step is one where a thread has ended the program (undefined behaviour of
    its callback, or [exit]) or where all are done and every mutex is free. *)
Theorem callbacks_live env s progs :
  addresses_ok s →
  Acc (flip pstep) (launch s (run_p env <$> progs)) ∧
  ∀ c, rtc pstep (launch s (run_p env <$> progs)) c →
    (∃ c', pstep c c') ∨ (∃ i r, turn_of i c = TStop r) ∨ (∀ i, turn_of i c = TFinished) ∧ cf_owner c = ∅.
Proof.
  intros A. split; [apply pstep_wf|]. intros c R. apply pool_progress.
  eapply conf_ok_steps; [by apply conf_ok_launch|done].
Qed.

(** C8. The callbacks have no data race on what their mutexes protect.  In every
    state that threads running callbacks reach:
    - a thread about to lock a mutex does not hold it, and one about to unlock a
      mutex holds it;
    - a thread that does not hold the mutex [m] neither reads nor writes the data
      of [m] (the edge vector of a node, the node table, the barrier counter and
      node of a region): with any other data in their place, its next access gives
      the same answer and the same change of everything else.  The one thing it
      can do to them is to destroy them with their node or region, since [delete]
      (callbacks.cc:249 and cb_parallel_end) takes no mutex;
    - where a thread is about to destroy the object of [m], and no schedule from
      here leads to undefined behaviour or [exit]: nobody holds [m], no other
      thread is about to destroy it too, and afterwards no thread ever comes to
      lock or unlock [m]. *)
Theorem callbacks_race_free env s progs c :
  addresses_ok s → rtc pstep (launch s (run_p env <$> progs)) c →
  (∀ i m k, cf_threads c !! i = Some (Lock m k) → cf_owner c !! m ≠ Some i) ∧
  (∀ i m k, cf_threads c !! i = Some (Unlock m k) → cf_owner c !! m = Some i) ∧
  (∀ i B (f : M B) k m x, cf_threads c !! i = Some (Act f k) → cf_owner c !! m ≠ Some i →
    mutex_live (cf_state c) m = true →
    f (scramble m x (cf_state c)) = map_state (scramble m x) (f (cf_state c))) ∧
  ∀ i B (f : M B) k m, cf_threads c !! i = Some (Act f k) → frees f m (cf_state c) → never_stops c →
    cf_owner c !! m = None ∧
    (∀ j C (g : M C) k', j ≠ i → cf_threads c !! j = Some (Act g k') → ¬ frees g m (cf_state c)) ∧
    ∀ b s' c', f (cf_state c) = Ok (b, s') → rtc pstep (after c i k b s') c' →
      ∀ j k', cf_threads c' !! j ≠ Some (Lock m k') ∧ cf_threads c' !! j ≠ Some (Unlock m k').
Proof.
  intros A R. assert (conf_ok c) as Co by (eapply conf_ok_steps; [by apply conf_ok_launch|done]).
  pose proof Co as [Ca Ct _]. split_and!.
  - intros i m k Hi Hm%elem_held. destruct (Ct i _ Hi) as [Hb _]. by destruct (below_not_elem _ _ Hb).
  - intros i m k Hi. destruct (Ct i _ Hi) as [Hm _]. by apply elem_held.
  - intros i B f k m x Hi Hm Lm. destruct (Ct i _ Hi) as [Hf _]. apply Hf; [|done..]. by rewrite elem_held.
  - intros i B f k m Hi Hf Hn. destruct (frees_step c i B f k m Co Hi Hf) as (b & s' & E & Hs & Hm).
    pose proof (conf_ok_step _ _ Co Hs) as Co'. pose proof (never_stops_step _ _ Hn Hs) as Hn'. split_and!.
    + exact (gone_free (after c i k b s') m Co' Hn' Hm).
    + intros j C g k'. by apply (frees_unique c i j B f k C g k' m).
    + intros b1 s1 c' E1 R'. rewrite E in E1. injection E1 as <- <-.
      pose proof (gone_steps _ c' m Co' R' Hm) as Hm'.
      intros j k'. split; intros Hj; apply (Hn' c' R' j (UB UseAfterFree)); eapply gone_stops; eauto.
Qed.

(** C11. The runs that the other files study are schedules: whatever whole
    callbacks do to the objects, one after the other and each by any thread, the
    interleaved steps can do. *)
Theorem whole_callbacks_refine env s progs s' progs' :
  rtc (cbstep env) (s, progs) (s', progs') →
  rtc pstep (launch s (run_p env <$> progs)) (launch s' (run_p env <$> progs')).
Proof.
  remember (s, progs) as x eqn:Ex. remember (s', progs') as y eqn:Ey. intros R. revert s progs Ex.
  induction R as [x|x [s1 progs1] y Hs _ IH]; intros s progs ->; [by injection Ey as -> ->|].
  etrans; [by apply cbstep_psteps|]. by apply IH.
Qed.

(** Two threads at a barrier: a root task, a region, the implicit tasks. *)
Definition step_env : Env := {|
  ftimer k := dzero; PAPI_create_eventset _ := (0%Z, 0%Z); PAPI_add_event _ _ _ := 0%Z;
  PAPI_cleanup_eventset _ _ := 0%Z; PAPI_destroy_eventset _ _ := 0%Z; PAPI_stop _ _ := [] |}.

Definition team_start : list event :=
  [TaskCreate None (Some 10%positive) ompt_task_initial;
   ParallelBegin (Some 10%positive) (Some 20%positive) 2;
   ImplicitTask ompt_scope_begin (Some 20%positive) (Some 11%positive) 2 0;
   ImplicitTask ompt_scope_begin (Some 20%positive) (Some 12%positive) 2 1].

Definition team_state : state :=
  match run step_env team_start (init_state []) with Ok (_, s) => s | _ => init_state [] end.

Definition arrival (c : positive) : event :=
  SyncRegion ompt_sync_region_barrier ompt_scope_begin (Some 20%positive) (Some c).

Definition arrivals : list (list event) := [[arrival 11]; [arrival 12]].

Lemma team_state_run : run step_env team_start (init_state []) = Ok (tt, team_state).
Proof. by vm_compute. Qed.

Lemma team_state_addresses : addresses_ok team_state.
Proof. eapply run_addresses; [apply init_addresses|apply team_state_run]. Qed.

(** In turn, step by step, both threads pass. *)
Definition both : list nat := mjoin (repeat [0; 1] 100).

Lemma callbacks_live_witness :
  let c := schedule_p both (launch team_state (run_p step_env <$> arrivals)) in
  (∀ i, turn_of i c = TFinished) ∧ cf_owner c = ∅.
Proof.
  intros c. destruct (callbacks_live step_env team_state arrivals team_state_addresses) as [_ H].
  assert (∀ i, turn_of i c = TFinished) as D by (intros [|[|i]]; by vm_compute).
  destruct (H c (schedule_p_rtc both _)) as [[c' [i E]]|[(i & r & E)|D']]; [| |exact D'];
    rewrite (D i) in E; discriminate E.
Defined.

(** Thread 1 is in the critical section of the barrier, thread 0 waits for it. *)
Definition waiting : conf :=
  schedule_p (repeat 1 9 ++ repeat 0 20) (launch team_state (run_p step_env <$> arrivals)).

(** Both tasks have passed the barrier and end; each thread is about to delete the
    node that its task has behind the barrier. *)
Definition end_of (c : positive) (tn : Z) : event := ImplicitTask ompt_scope_end None (Some c) 2 tn.

Definition passed_state : state :=
  match run step_env (mjoin arrivals) team_state with Ok (_, s) => s | _ => team_state end.

Lemma passed_state_addresses : addresses_ok passed_state.
Proof.
  assert (run step_env (mjoin arrivals) team_state = Ok (tt, passed_state)) as E by (by vm_compute).
  eapply run_addresses; [apply team_state_addresses|exact E].
Qed.

Definition ends : list (list event) := [[end_of 11 0]; [end_of 12 1]].

Definition ending : conf :=
  schedule_p (repeat 0 13 ++ repeat 1 13) (launch passed_state (run_p step_env <$> ends)).

Lemma callbacks_race_free_witness :
  turn_of 0 waiting = TBlocked ∧
  (∀ i m k, cf_threads waiting !! i = Some (Lock m k) → cf_owner waiting !! m ≠ Some i) ∧
  (∀ i m k, cf_threads waiting !! i = Some (Unlock m k) → cf_owner waiting !! m = Some i) ∧
  frees_next ending 0 (MExits 10) = true ∧ frees_next ending 1 (MExits 11) = true ∧ never_stops ending ∧
  cf_owner ending !! MExits 10 = None.
Proof.
  destruct (callbacks_race_free step_env team_state arrivals waiting team_state_addresses (schedule_p_rtc _ _))
    as (H1 & H2 & _). split; [by vm_compute|]. split; [exact H1|]. split; [exact H2|].
  assert (frees_next ending 0 (MExits 10) = true) as F by (by vm_compute).
  assert (never_stops ending) as N by (apply (explore_never_stops 40); by vm_compute).
  split; [exact F|]. split; [by vm_compute|]. split; [exact N|].
  destruct (frees_next_spec _ _ _ F) as (B & f & k & Hi & Hf).
  destruct (callbacks_race_free step_env passed_state ends ending passed_state_addresses (schedule_p_rtc _ _))
    as (_ & _ & _ & H4). exact (proj1 (H4 0 B f k (MExits 10) Hi Hf N)).
Defined.

Lemma whole_callbacks_refine_witness :
  ∃ s', rtc pstep (launch team_state (run_p step_env <$> arrivals)) (launch s' (run_p step_env <$> [[]; []])) ∧
    run step_env (mjoin arrivals) team_state = Ok (tt, s').
Proof.
  set (s1 := match run step_env (take 1 (mjoin arrivals)) team_state with Ok (_, s) => s | _ => team_state end).
  set (s2 := match run step_env (mjoin arrivals) team_state with Ok (_, s) => s | _ => team_state end).
  exists s2. split; [|by vm_compute].
  apply (whole_callbacks_refine step_env team_state arrivals s2 [[]; []]).
  eapply rtc_l; [apply (CbStep step_env team_state arrivals 0 (arrival 11) [] s1); [reflexivity|by vm_compute]|].
  eapply rtc_once, (CbStep step_env s1 [[]; [arrival 12]] 1 (arrival 12) [] s2); [reflexivity|by vm_compute].
Defined.
