(* ===== verification/ThreadLogic.v ===== *)
(** * Reasoning about one thread among others

    An auxiliary state [G] holds what each thread has contributed so far; the
    invariant [Inv] relates it to the objects of the tool and to the owners of the
    mutexes.  A thread [k] only relies on its own part, [G k], which no other
    thread changes.  [twp k p g Q]: from any state of the invariant in which the
    part of [k] is [g], however the others interleave, the program [p] runs
    without error and ends with a result and a part that satisfy [Q]. *)
From stdpp Require Import base numbers gmap list sorting relations functions.
From Stdlib Require Import ZArith Lia.
From S2P Require Import Prelude Float64 Graph Locks Callbacks Steps Discipline Threads.

Section logic.
Context {part : Type} (Inv : (nat → part) → state → gmap mutex nat → Prop).

Fixpoint twp {A} (k : nat) (p : prog A) (g : part) (Q : A → part → Prop) : Prop :=
  match p with
  | Done a => Q a g
  | Lock m p' =>
      ∀ G s o, Inv G s o → G k = g →
        mutex_live s m = true ∧
        (o !! m = None → ∃ g', Inv (<[k := g']> G) s (<[m := k]> o) ∧ twp k p' g' Q)
  | Unlock m p' =>
      ∀ G s o, Inv G s o → G k = g → o !! m = Some k →
        mutex_live s m = true ∧ ∃ g', Inv (<[k := g']> G) s (delete m o) ∧ twp k p' g' Q
  | Act f p' =>
      ∀ G s o, Inv G s o → G k = g →
        ∃ b s' g', f s = Ok (b, s') ∧ Inv (<[k := g']> G) s' o ∧ twp k (p' b) g' Q
  end.

(** ** Rules *)

Lemma twp_mono {A} k (p : prog A) g (Q Q' : A → part → Prop) :
  twp k p g Q → (∀ a g', Q a g' → Q' a g') → twp k p g Q'.
Proof.
  intros Hp HQ. revert g Hp. induction p as [a|m p IH|m p IH|B f p IH]; intros g; cbn.
  - apply HQ.
  - intros Hp G s o I E. destruct (Hp G s o I E) as [Hl Hk]. split; [done|]. intros Hm.
    destruct (Hk Hm) as (g' & ? & ?). eauto.
  - intros Hp G s o I E Hm. destruct (Hp G s o I E Hm) as (Hl & g' & ? & ?). eauto.
  - intros Hp G s o I E. destruct (Hp G s o I E) as (b & s' & g' & ? & ? & ?). exists b, s', g'. eauto.
Qed.

Lemma twp_bind {A B} k (p : prog A) (q : A → prog B) g (Q : B → part → Prop) :
  twp k p g (fun a g' => twp k (q a) g' Q) → twp k (p ≫= q) g Q.
Proof.
  revert g. induction p as [a|m p IH|m p IH|C f p IH]; intros g; cbn.
  - done.
  - intros Hp G s o I E. destruct (Hp G s o I E) as [Hl Hk]. split; [done|]. intros Hm.
    destruct (Hk Hm) as (g' & ? & ?). eexists. split; [done|]. by apply IH.
  - intros Hp G s o I E Hm. destruct (Hp G s o I E Hm) as (Hl & g' & ? & ?). split; [done|].
    eexists. split; [done|]. by apply IH.
  - intros Hp G s o I E. destruct (Hp G s o I E) as (b & s' & g' & ? & ? & ?). exists b, s', g'.
    split_and!; [done..|]. by apply IH.
Qed.

Lemma twp_done {A} k (a : A) g (Q : A → part → Prop) : Q a g → twp k (Done a) g Q.
Proof. done. Qed.

Lemma twp_act {A} k (f : M A) g (Q : A → part → Prop) :
  (∀ G s o, Inv G s o → G k = g → ∃ b s' g', f s = Ok (b, s') ∧ Inv (<[k := g']> G) s' o ∧ Q b g') →
  twp k (act f) g Q.
Proof. done. Qed.

Lemma twp_lock k m g (Q : unit → part → Prop) :
  (∀ G s o, Inv G s o → G k = g →
     mutex_live s m = true ∧ (o !! m = None → ∃ g', Inv (<[k := g']> G) s (<[m := k]> o) ∧ Q tt g')) →
  twp k (lock m) g Q.
Proof. done. Qed.

Lemma twp_unlock k m g (Q : unit → part → Prop) :
  (∀ G s o, Inv G s o → G k = g → o !! m = Some k →
     mutex_live s m = true ∧ ∃ g', Inv (<[k := g']> G) s (delete m o) ∧ Q tt g') →
  twp k (unlock m) g Q.
Proof. done. Qed.

(** ** Soundness *)

Context (Q : nat → part → Prop).

Definition pool_inv (c : conf) (G : nat → part) : Prop :=
  conf_ok c ∧ Inv G (cf_state c) (cf_owner c) ∧
  ∀ k p, cf_threads c !! k = Some p → twp k p (G k) (fun _ => Q k).

(** The part of one thread changes, and its program. *)
Lemma pool_inv_update c G k p s o g' :
  conf_ok (MkConf s o (<[k := p]> (cf_threads c))) → Inv (<[k := g']> G) s o →
  (∀ j q, cf_threads c !! j = Some q → twp j q (G j) (fun _ => Q j)) → twp k p g' (fun _ => Q k) →
  pool_inv (MkConf s o (<[k := p]> (cf_threads c))) (<[k := g']> G).
Proof.
  intros C I Ht Hp. split; [done|]. split; [done|]. intros j q. cbn [cf_threads].
  rewrite list_lookup_insert_Some. intros [(<- & <- & _)|[Hne Hj]].
  - by rewrite fn_lookup_insert.
  - rewrite fn_lookup_insert_ne by done. by apply Ht.
Qed.

Lemma pool_step c G c' : pool_inv c G → pstep c c' → ∃ G', pool_inv c' G'.
Proof.
  intros (C & I & Ht) Hs. pose proof (conf_ok_step c c' C Hs) as C'. destruct Hs as [k E].
  unfold turn_of in E. destruct (cf_threads c !! k) as [p|] eqn:Ek; [|done]. pose proof (Ht k p Ek) as Hp.
  destruct p as [a|m p|m p|B f p]; [done|..]; cbn in Hp.
  - destruct (Hp G _ _ I eq_refl) as [Hl Hk]. rewrite Hl in E. destruct (cf_owner c !! m) as [j|] eqn:Em.
    + by case_decide.
    + injection E as <-. destruct (Hk eq_refl) as (g' & I' & Hp'). eexists. by eapply pool_inv_update.
  - destruct (mutex_live (cf_state c) m) eqn:Hl; [|done]. case_decide as Em; [|done]. injection E as <-.
    destruct (Hp G _ _ I eq_refl Em) as (_ & g' & I' & Hp'). eexists. by eapply pool_inv_update.
  - destruct (Hp G _ _ I eq_refl) as (b & s' & g' & Ef & I' & Hp'). rewrite Ef in E. injection E as <-.
    eexists. by eapply pool_inv_update.
Qed.

Lemma pool_steps c G c' : pool_inv c G → rtc pstep c c' → ∃ G', pool_inv c' G'.
Proof.
  intros P R. revert G P. induction R as [c|c c1 c' Hs _ IH]; intros G P; [eauto|].
  destruct (pool_step c G c1 P Hs) as [G1 P1]. by eapply IH.
Qed.

(** No thread goes wrong. *)
Lemma pool_no_stop c G i r : pool_inv c G → turn_of i c ≠ TStop r.
Proof.
  intros ([_ Ct _] & I & Ht). unfold turn_of. destruct (cf_threads c !! i) as [p|] eqn:Ei; [|done].
  pose proof (Ht i p Ei) as Hp. specialize (Ct i p Ei). destruct p as [a|m p|m p|B f p]; [done|..]; cbn in Hp, Ct.
  - destruct (Hp G _ _ I eq_refl) as [-> _]. destruct (cf_owner c !! m) as [j|] eqn:Em; [|done].
    case_decide; [|done]. subst. destruct Ct as [Hb _]. apply elem_held in Em. by destruct (below_not_elem _ _ Hb).
  - destruct Ct as [Hm%elem_held _]. destruct (Hp G _ _ I eq_refl Hm) as [-> _]. by rewrite decide_True.
  - destruct (Hp G _ _ I eq_refl) as (b & s' & g' & -> & _). done.
Qed.

(** Finished threads have reached their postconditions. *)
Lemma pool_finished c G k :
  pool_inv c G → is_Some (cf_threads c !! k) → turn_of k c = TFinished → Q k (G k).
Proof.
  intros (_ & I & Ht) [p Hp] E. unfold turn_of in E. rewrite Hp in E. specialize (Ht k p Hp).
  destruct p; repeat case_match; done.
Qed.
End logic.
