(* ===== verification/TeamInv.v ===== *)
(** * The team of a parallel region: what each thread has contributed

    Several threads start their implicit tasks in one parallel region, run loops,
    arrive at barriers and end their tasks, all at once.  This file has the
    auxiliary state with which [ThreadLogic] reasons about them, a part per thread
    with the nodes, ids, edge ends and objects that the thread has made, and the
    invariant that relates the parts to the state of the tool: what is there is
    what was there when the region began, and what the threads have made since. *)
From stdpp Require Import base numbers gmap sorting relations functions list.
From Stdlib Require Import ZArith Lia.
From S2P Require Import Prelude Float64 Graph Locks Callbacks Steps Discipline Threads ThreadLogic.

(** ** Sums over the threads *)

Definition total (N : nat) (f : nat → nat) : nat := sum_list_with f (List.seq 0 N).

Lemma total_S N f : total (S N) f = total N f + f N.
Proof. unfold total. rewrite List.seq_S, sum_list_with_app. simpl. lia. Qed.

Lemma total_ext N f f' : (∀ j, f j = f' j) → total N f = total N f'.
Proof. intros E. induction N as [|N IH]; [done|]. by rewrite !total_S, IH, E. Qed.

Lemma total_update {A} N (f : A → nat) (G : nat → A) k x :
  k < N → total N (fun j => f (<[k := x]> G j)) + f (G k) = total N (fun j => f (G j)) + f x.
Proof.
  induction N as [|N IH]; intros Hk; [lia|]. rewrite !total_S. destruct (decide (k = N)) as [->|Hne].
  - rewrite fn_lookup_insert. assert (total N (fun j => f (<[N := x]> G j)) = total N (fun j => f (G j))); [|lia].
    clear IH Hk. assert (∀ m, m ≤ N → total m (fun j => f (<[N := x]> G j)) = total m (fun j => f (G j))) as H.
    { intros m. induction m as [|m IH]; intros Hm; [done|]. rewrite !total_S, IH by lia.
      by rewrite fn_lookup_insert_ne by lia. }
    by apply H.
  - rewrite fn_lookup_insert_ne by done. specialize (IH ltac:(lia)). lia.
Qed.

Lemma total_bound N f b : (∀ j, f j ≤ b) → total N f ≤ b * N.
Proof. intros H. induction N as [|N IH]; [unfold total; simpl; lia|]. rewrite total_S. specialize (H N). lia. Qed.

Lemma total_lt N f k : (∀ j, f j ≤ 1) → k < N → f k = 0 → total N f < N.
Proof.
  intros H. induction N as [|N IH]; intros Hk Hf; [lia|]. rewrite total_S. pose proof (total_bound N f 1 H).
  destruct (decide (k = N)) as [->|Hne]; [lia|]. specialize (IH ltac:(lia) Hf). specialize (H N). lia.
Qed.

Lemma total_zero N f k : total N f = 0 → k < N → f k = 0.
Proof.
  induction N as [|N IH]; intros Ht Hk; [lia|]. rewrite total_S in Ht.
  destruct (decide (k = N)) as [->|Hne]; [lia|]. apply IH; lia.
Qed.

Lemma total_all N f : (∀ k, k < N → f k = 1) → total N f = N.
Proof. induction N as [|N IH]; intros H; [done|]. rewrite total_S, IH, H; auto with lia. Qed.

Lemma total_mono N f f' : (∀ j, f j ≤ f' j) → total N f ≤ total N f'.
Proof. intros H. induction N as [|N IH]; [done|]. rewrite !total_S. specialize (H N). lia. Qed.

(** ** The region *)

(** A parallel region: the state in which its team starts, the number of threads,
    the cell, the object and the sink of the region, the object and the node of
    the task that opened it; for each thread the cell of its implicit task, its
    own cell and its object, and the number of ids that it may draw. *)
Record site : Type := MkSite {
  st_start : state;
  st_size : nat;
  st_cell : positive;
  st_region : positive;
  st_sink : positive;
  st_parent : positive;
  st_node : positive;
  st_tasks : nat → positive;
  st_threads : nat → positive;
  st_objects : nat → positive;
  st_budget : nat → nat }.

(** What of a node does not change once its thread has set it up. *)
Record desc : Type := MkDesc {
  d_id : Z;
  d_type : NodeType;
  d_lower : Z;
  d_upper : Z;
  d_loop : option Z;
  d_thread : option Z;
  d_papi : option nat }.   (** the length of the array of counters *)

Definition desc_of (n : Node) : desc :=
  MkDesc (_id n) (_type n) (_lower n) (_upper n) (_loopCounter n) (_threadId n) (length <$> _papiValsArr n).

Definition new_desc (id : Z) (ty : NodeType) : desc := MkDesc id ty 0 0 None None None.

(** ** The part of a thread *)

(** The barrier nodes that a thread has made or knows, in this round (between two
    barriers of the team) and in all rounds. *)
Record known : Type := MkKnown {
  kn_bar : option positive;     (** made in this round *)
  kn_here : option positive;    (** the one of this round, when it knows it *)
  kn_bars : list positive;      (** made *)
  kn_all : list positive }.     (** known *)

Record part : Type := MkPart {
  p_ids : list Z;                               (** the ids it has drawn *)
  p_nodes : list (positive * desc);             (** its nodes *)
  p_tab : list (Z * positive);                  (** its entries in the node table *)
  p_bk : known;                                 (** barriers *)
  p_ex : list (positive * positive);            (** edges it has put in exit vectors *)
  p_en : list (positive * positive);            (** edges it has put in entry vectors *)
  p_obj : option (positive * TaskData);         (** its task object *)
  p_cell : option positive;                     (** the pointer in its cell *)
  p_ws : option (positive * WorksharingData);   (** the object of its loop *)
  p_loops : nat;                                (** the loops it has ended *)
  p_reg : option (ParallelRegionData * nat);    (** in the critical section of the barrier: the
                                                    region and the number of arrived threads *)
  p_arr : bool }.                               (** it has arrived at the barrier *)

Definition part0 : part := MkPart [] [] [] (MkKnown None None [] []) [] [] None None None 0 None false.

Abbreviation p_bar g := (kn_bar (p_bk g)).
Abbreviation p_kb g := (kn_here (p_bk g)).
Abbreviation p_bars g := (kn_bars (p_bk g)).
Abbreviation p_kbs g := (kn_all (p_bk g)).

Definition set_ids v g :=
  MkPart v (p_nodes g) (p_tab g) (p_bk g) (p_ex g) (p_en g) (p_obj g) (p_cell g) (p_ws g) (p_loops g) (p_reg g) (p_arr g).
Definition set_pnodes v g :=
  MkPart (p_ids g) v (p_tab g) (p_bk g) (p_ex g) (p_en g) (p_obj g) (p_cell g) (p_ws g) (p_loops g) (p_reg g) (p_arr g).
Definition set_tab v g :=
  MkPart (p_ids g) (p_nodes g) v (p_bk g) (p_ex g) (p_en g) (p_obj g) (p_cell g) (p_ws g) (p_loops g) (p_reg g) (p_arr g).
Definition set_bk v g :=
  MkPart (p_ids g) (p_nodes g) (p_tab g) v (p_ex g) (p_en g) (p_obj g) (p_cell g) (p_ws g) (p_loops g) (p_reg g) (p_arr g).
Definition set_ex v g :=
  MkPart (p_ids g) (p_nodes g) (p_tab g) (p_bk g) v (p_en g) (p_obj g) (p_cell g) (p_ws g) (p_loops g) (p_reg g) (p_arr g).
Definition set_en v g :=
  MkPart (p_ids g) (p_nodes g) (p_tab g) (p_bk g) (p_ex g) v (p_obj g) (p_cell g) (p_ws g) (p_loops g) (p_reg g) (p_arr g).
Definition set_obj v g :=
  MkPart (p_ids g) (p_nodes g) (p_tab g) (p_bk g) (p_ex g) (p_en g) v (p_cell g) (p_ws g) (p_loops g) (p_reg g) (p_arr g).
Definition set_cell v g :=
  MkPart (p_ids g) (p_nodes g) (p_tab g) (p_bk g) (p_ex g) (p_en g) (p_obj g) v (p_ws g) (p_loops g) (p_reg g) (p_arr g).
Definition set_ws v g :=
  MkPart (p_ids g) (p_nodes g) (p_tab g) (p_bk g) (p_ex g) (p_en g) (p_obj g) (p_cell g) v (p_loops g) (p_reg g) (p_arr g).
Definition set_loops v g :=
  MkPart (p_ids g) (p_nodes g) (p_tab g) (p_bk g) (p_ex g) (p_en g) (p_obj g) (p_cell g) (p_ws g) v (p_reg g) (p_arr g).
Definition set_reg v g :=
  MkPart (p_ids g) (p_nodes g) (p_tab g) (p_bk g) (p_ex g) (p_en g) (p_obj g) (p_cell g) (p_ws g) (p_loops g) v (p_arr g).
Definition set_arr v g :=
  MkPart (p_ids g) (p_nodes g) (p_tab g) (p_bk g) (p_ex g) (p_en g) (p_obj g) (p_cell g) (p_ws g) (p_loops g) (p_reg g) v.

Ltac part_simpl :=
  cbn [p_ids p_nodes p_tab p_bk p_ex p_en p_obj p_cell p_ws p_loops p_reg p_arr kn_bar kn_here kn_bars kn_all
    set_ids set_pnodes set_tab set_bk set_ex set_en set_obj set_cell set_ws set_loops set_reg set_arr] in *.

Definition same {A} (f : part → A) (G G' : nat → part) : Prop := ∀ j, f (G' j) = f (G j).

Lemma same_at {A} (f : part → A) (G : nat → part) k g : f g = f (G k) → same f G (<[k := g]> G).
Proof. intros E j. destruct (decide (j = k)) as [->|]; by rewrite ?fn_lookup_insert, ?fn_lookup_insert_ne. Qed.

(** Case analysis on whether [j] is the thread [k] whose part changes. *)
Ltac at_thread j k :=
  destruct (decide (j = k)) as [->|];
  [rewrite ?fn_lookup_insert in *|rewrite ?(fn_lookup_insert_ne _ k j) in * by congruence].

(** ** Edge vectors *)

Section edges.
Context (s0 : state).

(** The ends of the edges at one side: [me] is the node in whose vector an edge
    is recorded. *)
Record half_inv (L : nat → list (positive * positive)) (me : Edge → positive) (vec : positive → list Edge) : Prop := {
  hi_iff u v : MkEdge u v ∈ vec (me (MkEdge u v)) ↔ edge (nodes s0) u v ∨ ∃ k, (u, v) ∈ L k;
  hi_me w e : e ∈ vec w → me e = w;
  hi_nodup w : NoDup (vec w) }.

Lemma half_ext L L' me vec vec' :
  (∀ k, L' k = L k) → (∀ w, vec' w = vec w) → half_inv L me vec → half_inv L' me vec'.
Proof.
  intros EL Ev [H1 H2 H3]. split; intros *; rewrite ?Ev; eauto. rewrite H1. by setoid_rewrite EL.
Qed.

Lemma half_keep (f : part → list (positive * positive)) (G : nat → part) k g me vec vec' :
  f g = f (G k) → (∀ w, vec' w = vec w) →
  half_inv (fun j => f (G j)) me vec → half_inv (fun j => f (<[k := g]> G j)) me vec'.
Proof. intros E. by apply half_ext, same_at. Qed.

Lemma half_push L L' me vec vec' k u v :
  half_inv L me vec → (∀ j, j ≠ k → L' j = L j) → L' k = (u, v) :: L k → (∀ j, (u, v) ∉ L j) →
  ¬ edge (nodes s0) u v →
  (∀ w, vec' w = vec w ++ (if decide (w = me (MkEdge u v)) then [MkEdge u v] else [])) →
  half_inv L' me vec'.
Proof.
  intros [H1 H2 H3] Ej Ek Hn He Ev.
  assert (∀ a b, (∃ j, (a, b) ∈ L' j) ↔ (a, b) = (u, v) ∨ ∃ j, (a, b) ∈ L j) as HL.
  { intros a b. split.
    - intros [j Hj]. destruct (decide (j = k)) as [->|]; [|rewrite Ej in Hj by done; eauto].
      rewrite Ek, elem_of_cons in Hj. destruct Hj; eauto.
    - intros [E|[j Hj]]; [exists k; rewrite Ek, E; by left|exists j].
      destruct (decide (j = k)) as [->|]; [rewrite Ek; by right|by rewrite Ej]. }
  assert (MkEdge u v ∉ vec (me (MkEdge u v))) as Hnew by (rewrite H1; naive_solver).
  split.
  - intros a b. rewrite Ev, elem_of_app, H1, HL. destruct (decide ((a, b) = (u, v))) as [E|Hne].
    + simplify_eq. rewrite decide_True by done. rewrite list_elem_of_singleton. tauto.
    + case_decide; rewrite ?list_elem_of_singleton, ?elem_of_nil; naive_solver.
  - intros w e. rewrite Ev, elem_of_app. intros [?|He']; [by apply H2|].
    case_decide; [|by apply elem_of_nil in He']. apply list_elem_of_singleton in He'. by subst.
  - intros w. rewrite Ev. case_decide as E; [|by rewrite app_nil_r]. apply NoDup_app. split_and!; [done| |apply NoDup_singleton].
    intros e He' ->%list_elem_of_singleton. by subst.
Qed.

Lemma half_erase L L' me vec vec' k u v X p :
  half_inv L me vec → (∀ j, j ≠ k → L' j = L j ∧ (u, v) ∉ L j) → L k = (u, v) :: X → L' k = X → (u, v) ∉ X →
  ¬ edge (nodes s0) u v → (∀ e, me e = me (MkEdge u v) → p e = true ↔ e = MkEdge u v) →
  (∀ w, vec' w = if decide (w = me (MkEdge u v)) then erase_first p (vec w) else vec w) →
  half_inv L' me vec'.
Proof.
  intros [H1 H2 H3] Ej Ek Ek' HX He Hp Ev.
  assert (∀ a b, (∃ j, (a, b) ∈ L' j) ↔ (a, b) ≠ (u, v) ∧ ∃ j, (a, b) ∈ L j) as HL.
  { intros a b. split.
    - intros [j Hj]. destruct (decide (j = k)) as [->|Hjk].
      + split; [congruence|]. exists k. rewrite Ek. right. by rewrite <- Ek'.
      + destruct (Ej j Hjk) as [Ej' Hn]. rewrite Ej' in Hj. split; [congruence|eauto].
    - intros [Hne [j Hj]]. exists j. destruct (decide (j = k)) as [->|Hjk]; [|by rewrite (proj1 (Ej j Hjk))].
      rewrite Ek, elem_of_cons in Hj. rewrite Ek'. naive_solver. }
  assert (∀ w e, e ∈ vec' w ↔ e ∈ vec w ∧ e ≠ MkEdge u v) as Hin.
  { intros w e. rewrite Ev. case_decide as E.
    - apply erase_first_elem; [done|]. intros e' Hm%H2. apply Hp. congruence.
    - split; [|tauto]. intros Hm. split; [done|]. intros ->. by apply H2 in Hm. }
  split.
  - intros a b. rewrite Hin, H1, HL. assert (MkEdge a b ≠ MkEdge u v ↔ (a, b) ≠ (u, v)) as -> by naive_solver.
    destruct (decide ((a, b) = (u, v))); [simplify_eq; tauto|tauto].
  - intros w e [Hm _]%Hin. by apply H2.
  - intros w. rewrite Ev. case_decide; [by apply erase_first_NoDup|done].
Qed.
End edges.
Arguments hi_iff {_ _ _ _} _ _ _.
Arguments hi_me {_ _ _ _} _ _ _ _.
Arguments hi_nodup {_ _ _ _} _ _.

(** ** Objects *)

(** The objects of one class: those that were there, and for each thread at most
    one of its own. *)
Section objects.
Context {A : Type} (h0 : gmap positive A) (nl0 : positive).

Record objs_inv (P : nat → option (positive * A)) (h : gmap positive A) (nl : positive) : Prop := {
  ob_new k l d : P k = Some (l, d) → h !! l = Some d ∧ (nl0 ≤ l < nl)%positive;
  ob_old l : (∀ k d, P k ≠ Some (l, d)) → h !! l = h0 !! l;
  ob_one j k l d d' : P j = Some (l, d) → P k = Some (l, d') → j = k }.

Lemma objs_keep P P' h nl nl' : (∀ k, P' k = P k) → (nl ≤ nl')%positive → objs_inv P h nl → objs_inv P' h nl'.
Proof.
  intros E Hl [H1 H2 H3]. split; intros *; rewrite ?E; eauto.
  - intros H%H1. split; [apply H|]. lia.
  - intros H. apply H2. intros k d. rewrite <- E. apply H.
Qed.

(** Thread [k] gives its object [l] a new value, or frees it. *)
Lemma objs_set P P' h nl k l d v :
  objs_inv P h nl → P k = Some (l, d) → (∀ j, j ≠ k → P' j = P j) → P' k = pair l <$> v → h0 !! l = None →
  objs_inv P' (match v with Some d' => <[l := d']> h | None => delete l h end) nl.
Proof.
  intros [H1 H2 H3] E Ej Ek H0. destruct (H1 _ _ _ E) as [_ Hl].
  assert (∀ x, x ≠ l → match v with Some d' => <[l := d']> h | None => delete l h end !! x = h !! x) as Hx.
  { intros x Hx. destruct v; by rewrite ?lookup_insert_ne, ?lookup_delete_ne. }
  assert (∀ j x dx, P' j = Some (x, dx) → ∃ dx', P j = Some (x, dx') ∧ (x = l ↔ j = k)) as Hj.
  { intros j x dx. destruct (decide (j = k)) as [->|Hjk].
    - rewrite Ek. destruct v; [|done]. intros [= <- _]. by exists d.
    - rewrite Ej by done. intros Hj. exists dx. split; [done|]. split; [|done]. intros ->. eauto. }
  split.
  - intros j x dx Hjx. destruct (Hj _ _ _ Hjx) as (dx' & Hp & Hiff). split; [|by eapply H1].
    destruct (decide (j = k)) as [->|Hjk].
    + rewrite Ek in Hjx. destruct v; [|done]. injection Hjx as <- <-. by rewrite lookup_insert_eq.
    + rewrite Hx by naive_solver. rewrite Ej in Hjx by done. by apply H1 in Hjx as [? _].
  - intros x Hno. destruct (decide (x = l)) as [->|Hne].
    + rewrite H0. destruct v as [d'|]; [|by rewrite lookup_delete_eq]. destruct (Hno k d'). by rewrite Ek.
    + rewrite Hx by done. apply H2. intros j dx. destruct (decide (j = k)) as [->|Hjk]; [congruence|].
      rewrite <- Ej by done. apply Hno.
  - intros i j x di dj Hi Hj'. destruct (Hj _ _ _ Hi) as (? & ? & _), (Hj _ _ _ Hj') as (? & ? & _). eauto.
Qed.

(** Thread [k] allocates an object. *)
Lemma objs_alloc P P' h nl k d :
  objs_inv P h nl → P k = None → (∀ j, j ≠ k → P' j = P j) → P' k = Some (nl, d) → (nl0 ≤ nl)%positive →
  objs_inv P' (<[nl := d]> h) (Pos.succ nl).
Proof.
  intros [H1 H2 H3] E Ej Ek Hl.
  assert (∀ j x dx, P' j = Some (x, dx) → j = k ∧ x = nl ∧ dx = d ∨ j ≠ k ∧ P j = Some (x, dx) ∧ (x < nl)%positive) as Hj.
  { intros j x dx. destruct (decide (j = k)) as [->|Hjk]; [rewrite Ek; intros [= <- <-]; by left|].
    rewrite Ej by done. intros Hj. right. split_and!; [done..|]. apply H1 in Hj as [_ ?]. lia. }
  split.
  - intros j x dx [(-> & -> & ->)|(_ & Hp & Hlt)]%Hj; [rewrite lookup_insert_eq; split; [done|lia]|].
    apply H1 in Hp as [? ?]. rewrite lookup_insert_ne by lia. split; [done|]. lia.
  - intros x Hno. assert (x ≠ nl) by (intros ->; by apply (Hno k d)). rewrite lookup_insert_ne by done. apply H2.
    intros j dx. destruct (decide (j = k)) as [->|Hjk]; [congruence|]. rewrite <- Ej by done. apply Hno.
  - intros i j x di dj Hi%Hj Hj'%Hj. destruct Hi as [(-> & -> & _)|(_ & Hi & ?)], Hj' as [(-> & E' & _)|(_ & Hj' & ?)];
      subst; try done; [lia|lia|eauto].
Qed.
End objects.
Arguments ob_new {_ _ _ _ _ _} _ _ _ _ _.
Arguments ob_old {_ _ _ _ _ _} _ _ _.
Arguments ob_one {_ _ _ _ _ _} _ _ _ _ _ _ _ _.

(** ** The invariant *)

(** What the end of a loop does to the object of its thread. *)
Definition bump (th : ThreadData) : ThreadData := MkThread (u64 (th_loopCounter th + 1)) (th_papiEventset th).

Section team.
Context (T : site).
Abbreviation s0 := (st_start T).
Abbreviation N := (st_size T).
Abbreviation rp := (st_region T).
Abbreviation sk := (st_sink T).
Implicit Types (G : nat → part) (g : part).

(** A node that a thread has made; one that only this thread connects; one that
    all may connect. *)
Definition owns g l : Prop := l ∈ (p_nodes g).*1.
Definition priv g l : Prop := owns g l ∧ l ∉ p_bars g.
Definition publ g l : Prop := is_Some (nodes s0 !! l) ∨ l ∈ p_kbs g.
Definition isbar G l : Prop := ∃ j, l ∈ p_bars (G j).

(** The barrier of this round. *)
Definition isnow G l : Prop := ∃ j, p_bar (G j) = Some l.

(** The edges that thread [k] makes: those of its own nodes, and thread 0 the one
    from a barrier to the sink. *)
Definition mine (k : nat) g u v : Prop :=
  (priv g u ∧ (publ g v ∨ priv g v)) ∨ (publ g u ∧ priv g v) ∨ (k = 0 ∧ u ∈ p_kbs g ∧ v = sk).

Record nodes_inv G (h : heap) (nl : positive) : Prop := {
  ni_next : (next_loc s0 ≤ nl)%positive;
  ni_old l n0 : nodes s0 !! l = Some n0 → ∃ n, h !! l = Some n ∧ desc_of n = desc_of n0;
  ni_new k l d : (l, d) ∈ p_nodes (G k) → (next_loc s0 ≤ l < nl)%positive ∧ ∃ n, h !! l = Some n ∧ desc_of n = d;
  ni_all l : is_Some (h !! l) → is_Some (nodes s0 !! l) ∨ ∃ k, owns (G k) l;
  ni_one j k l : owns (G j) l → owns (G k) l → j = k;
  ni_bar k b : b ∈ p_bars (G k) → owns (G k) b;
  ni_kb k b : b ∈ p_kbs (G k) → isbar G b;
  ni_now k b : p_bar (G k) = Some b → b ∈ p_bars (G k);
  ni_here k b : p_kb (G k) = Some b → isnow G b;
  ni_know k b : isnow G b → b ∈ p_kbs (G k) → p_kb (G k) = Some b }.

Record ids_inv G (t : node_map) (nid : Z) : Prop := {
  ii_range k id : id ∈ p_ids (G k) → (next_id s0 ≤ id < nid)%Z;
  ii_one j k id : id ∈ p_ids (G j) → id ∈ p_ids (G k) → j = k;
  ii_next : nid = (next_id s0 + Z.of_nat (total N (fun j => length (p_ids (G j)))))%Z;
  ii_few k : length (p_ids (G k)) ≤ st_budget T k;
  ii_tab id l : t !! id = Some l ↔ g_tdg s0 !! id = Some l ∨ ∃ k, (id, l) ∈ p_tab (G k);
  ii_key k id l : (id, l) ∈ p_tab (G k) → id ∈ p_ids (G k) }.

Record edges_inv G (h : heap) : Prop := {
  ei_out : half_inv s0 (fun k => p_ex (G k)) _source (exits h);
  ei_in : half_inv s0 (fun k => p_en (G k)) _target (entries h);
  ei_mine k u v : (u, v) ∈ p_ex (G k) ∨ (u, v) ∈ p_en (G k) → mine k (G k) u v }.

Abbreviation tasks_inv G ts nl := (objs_inv (tasks s0) (next_loc s0) (fun k => p_obj (G k)) ts nl).
Abbreviation ws_inv G ws nl := (objs_inv (worksharings s0) (next_loc s0) (fun k => p_ws (G k)) ws nl).

Record cells_inv G (cs : gmap positive positive) : Prop := {
  ta_cell k : k < N → cs !! st_tasks T k = p_cell (G k);
  ta_other c : (∀ k, k < N → c ≠ st_tasks T k) → cs !! c = task_ptr s0 !! c }.

Record threads_inv G (ths : gmap positive ThreadData) : Prop := {
  th_mine k : k < N → ths !! st_objects T k = Nat.iter (p_loops (G k)) bump <$> threads s0 !! st_objects T k;
  th_other x : (∀ k, k < N → x ≠ st_objects T k) → ths !! x = threads s0 !! x }.

Definition arrived G : nat := total N (fun j => if p_arr (G j) then 1 else 0).

(** The region between critical sections, when [A] threads have arrived. *)
Definition stable G (rd : ParallelRegionData) (A : nat) : Prop :=
  pr_barrier_cnt rd = (if decide (A = N) then 0 else Z.of_nat A)%Z ∧
  (0 < A → ∃ b, pr_curr_barrier_node rd = Some b ∧ isnow G b).

(** What no arrival changes. *)
Definition statics (rd : ParallelRegionData) : option positive * option positive * Z :=
  (pr_parent_task_data rd, pr_sink_node rd, pr_team_size rd).

Record region_inv G (rs : gmap positive ParallelRegionData) (o : gmap mutex nat) : Prop := {
  ri_other r : r ≠ rp → rs !! r = regions s0 !! r;
  ri_statics : statics <$> rs !! rp = statics <$> regions s0 !! rp;
  ri_hold k : o !! MBarrier rp = Some k →
    p_arr (G k) = false ∧ ∃ rd, p_reg (G k) = Some (rd, arrived G) ∧ rs !! rp = Some rd;
  ri_reg k : is_Some (p_reg (G k)) → o !! MBarrier rp = Some k;
  ri_free : o !! MBarrier rp = None → ∃ rd, rs !! rp = Some rd ∧ stable G rd (arrived G);
  ri_bar k : is_Some (p_bar (G k)) → p_arr (G k) = true ∨ o !! MBarrier rp = Some k;
  ri_one j k : is_Some (p_bar (G j)) → is_Some (p_bar (G k)) → j = k }.

(** The rest of the state. *)
Definition rest (s : state) := (region_ptr s, thread_ptr s, g_finalNode s, g_papiNumEvents s, g_papiEvents s).

Record team_inv G (s : state) (o : gmap mutex nat) : Prop := {
  ti_idle k : N ≤ k → G k = part0;
  ti_nodes : nodes_inv G (nodes s) (next_loc s);
  ti_ids : ids_inv G (g_tdg s) (next_id s);
  ti_edges : edges_inv G (nodes s);
  ti_tasks : tasks_inv G (tasks s) (next_loc s);
  ti_cells : cells_inv G (task_ptr s);
  ti_ws : ws_inv G (worksharings s) (next_loc s);
  ti_threads : threads_inv G (threads s);
  ti_region : region_inv G (regions s) o;
  ti_rest : rest s = rest s0 }.

(** ** What does not depend on the part that changes *)

Lemma nodes_inv_keep G k g h nl nl' :
  p_nodes g = p_nodes (G k) → p_bk g = p_bk (G k) → (nl ≤ nl')%positive →
  nodes_inv G h nl → nodes_inv (<[k := g]> G) h nl'.
Proof.
  intros E1%same_at E2%same_at Hnl [H1 H2 H3 H4 H5 H6 H7 H8 H9 H10]. unfold same in *.
  assert (∀ j l, owns (<[k := g]> G j) l ↔ owns (G j) l) as Eo by (intros; unfold owns; by rewrite E1).
  assert (∀ l, isbar (<[k := g]> G) l ↔ isbar G l) as Eb by (intros; unfold isbar; by setoid_rewrite E2).
  assert (∀ l, isnow (<[k := g]> G) l ↔ isnow G l) as En by (intros; unfold isnow; by setoid_rewrite E2).
  split; intros *; rewrite ?E1, ?E2, ?Eb, ?En, ?Eo; eauto; [lia| |setoid_rewrite Eo; eauto].
  intros Hx. destruct (H3 _ _ _ Hx). split; [lia|done].
Qed.

Lemma ids_inv_keep G k g t nid :
  p_ids g = p_ids (G k) → p_tab g = p_tab (G k) → ids_inv G t nid → ids_inv (<[k := g]> G) t nid.
Proof.
  intros E1%same_at E2%same_at [H1 H2 H3 H4 H5 H6]. unfold same in *. split; intros *; rewrite ?E1, ?E2; eauto.
  - rewrite H3. do 2 f_equal. apply total_ext. intros j. by rewrite E1.
  - rewrite H5. by setoid_rewrite E2.
Qed.

Lemma mine_keep k g g' u v :
  p_nodes g' = p_nodes g → p_bk g' = p_bk g → mine k g u v → mine k g' u v.
Proof. unfold mine, priv, publ, owns. by intros -> ->. Qed.

Lemma edges_inv_keep G k g h :
  p_nodes g = p_nodes (G k) → p_bk g = p_bk (G k) → p_ex g = p_ex (G k) → p_en g = p_en (G k) → edges_inv G h → edges_inv (<[k := g]> G) h.
Proof.
  intros E1%same_at E2%same_at E4%same_at E5%same_at [H1 H2 H3]. unfold same in *.
  split; [exact (half_ext s0 _ _ _ _ _ E4 (fun _ => eq_refl) H1)|exact (half_ext s0 _ _ _ _ _ E5 (fun _ => eq_refl) H2)|].
  intros j u v. rewrite E4, E5. intros Hm%H3. by apply (mine_keep _ (G j)).
Qed.

Lemma cells_inv_keep G k g cs : p_cell g = p_cell (G k) → cells_inv G cs → cells_inv (<[k := g]> G) cs.
Proof. intros E%same_at [H1 H2]. unfold same in *. split; intros *; rewrite ?E; eauto. Qed.

Lemma threads_inv_keep G k g ths : p_loops g = p_loops (G k) → threads_inv G ths → threads_inv (<[k := g]> G) ths.
Proof. intros E%same_at [H1 H2]. unfold same in *. split; intros *; rewrite ?E; eauto. Qed.

Lemma region_inv_keep G k g rs o :
  p_bk g = p_bk (G k) → p_reg g = p_reg (G k) → p_arr g = p_arr (G k) →
  region_inv G rs o → region_inv (<[k := g]> G) rs o.
Proof.
  intros E1%same_at E2%same_at E3%same_at [H1 H2 H3 H4 H5 H6 H7]. unfold same in *.
  assert (∀ l, isnow (<[k := g]> G) l ↔ isnow G l) as Eb by (intros; unfold isnow; by setoid_rewrite E1).
  assert (arrived (<[k := g]> G) = arrived G) as Ea.
  { apply total_ext. intros j. by rewrite E3. }
  split; intros *; rewrite ?E1, ?E2, ?E3, ?Ea; eauto. unfold stable. setoid_rewrite Eb. apply H5.
Qed.

Lemma idle_keep G k g : k < N → (∀ j, N ≤ j → G j = part0) → ∀ j, N ≤ j → <[k := g]> G j = part0.
Proof. intros Hk H j Hj. rewrite fn_lookup_insert_ne by lia. auto. Qed.
End team.

Arguments ni_next {_ _ _ _} _.
Arguments ni_old {_ _ _ _} _ _ _ _.
Arguments ni_new {_ _ _ _} _ _ _ _ _.
Arguments ni_all {_ _ _ _} _ _ _.
Arguments ni_one {_ _ _ _} _ _ _ _ _ _.
Arguments ni_bar {_ _ _ _} _ _ _ _.
Arguments ni_kb {_ _ _ _} _ _ _ _.
Arguments ni_now {_ _ _ _} _ _ _ _.
Arguments ni_here {_ _ _ _} _ _ _ _.
Arguments ni_know {_ _ _ _} _ _ _ _ _.
Arguments ii_range {_ _ _ _} _ _ _ _.
Arguments ii_one {_ _ _ _} _ _ _ _ _ _.
Arguments ii_next {_ _ _ _} _.
Arguments ii_few {_ _ _ _} _ _.
Arguments ii_tab {_ _ _ _} _ _ _.
Arguments ii_key {_ _ _ _} _ _ _ _ _.
Arguments ei_out {_ _ _} _.
Arguments ei_in {_ _ _} _.
Arguments ei_mine {_ _ _} _ _ _ _ _.
Arguments ta_cell {_ _ _} _ _ _.
Arguments ta_other {_ _ _} _ _ _.
Arguments th_mine {_ _ _} _ _ _.
Arguments th_other {_ _ _} _ _ _.
Arguments ri_other {_ _ _ _} _ _ _.
Arguments ri_statics {_ _ _ _} _.
Arguments ri_hold {_ _ _ _} _ _ _.
Arguments ri_reg {_ _ _ _} _ _ _.
Arguments ri_free {_ _ _ _} _ _.
Arguments ri_bar {_ _ _ _} _ _ _.
Arguments ri_one {_ _ _ _} _ _ _ _ _.
Arguments ti_idle {_ _ _ _} _ _ _.
Arguments ti_nodes {_ _ _ _} _.
Arguments ti_ids {_ _ _ _} _.
Arguments ti_edges {_ _ _ _} _.
Arguments ti_tasks {_ _ _ _} _.
Arguments ti_cells {_ _ _ _} _.
Arguments ti_ws {_ _ _ _} _.
Arguments ti_threads {_ _ _ _} _.
Arguments ti_region {_ _ _ _} _.
Arguments ti_rest {_ _ _ _} _.
