(* ===== verification/TeamRules.v ===== *)
(** * The team of a parallel region: the rules

    For every access and every function that the callbacks of a team use, what
    it does to the part of the thread that runs it ([TeamInv]), whatever the other
    threads do meanwhile. *)
From stdpp Require Import base numbers gmap sorting relations functions list.
From Stdlib Require Import ZArith Lia.
From S2P Require Import Prelude Float64 Graph Locks Callbacks Steps Discipline Threads ThreadLogic TeamInv.

(** ** The state in which the team starts *)

Section team.
Context (T : site).
Abbreviation s0 := (st_start T).
Abbreviation N := (st_size T).
Abbreviation r := (st_cell T).
Abbreviation cells := (st_tasks T).
Abbreviation rp := (st_region T).
Abbreviation sk := (st_sink T).
Abbreviation np := (st_node T).
Abbreviation tp0 := (st_parent T).

(** The region has begun; the cells of the implicit tasks are empty, the threads
    have their objects, and ids are left for every thread. *)
Record ready : Prop := {
  rd_size : 2 ≤ N;
  rd_width : (Z.of_nat N < 2 ^ 32)%Z;
  rd_wf : wf (nodes s0);
  rd_table : table_ok (nodes s0) (g_tdg s0);
  rd_node_addr l : is_Some (nodes s0 !! l) → (l < next_loc s0)%positive;
  rd_region_addr l : is_Some (regions s0 !! l) → (l < next_loc s0)%positive;
  rd_task_addr l : is_Some (tasks s0 !! l) → (l < next_loc s0)%positive;
  rd_ws_addr l : is_Some (worksharings s0 !! l) → (l < next_loc s0)%positive;
  rd_keys id l : g_tdg s0 !! id = Some l → (id < next_id s0)%Z;
  rd_ids : (0 ≤ next_id s0 ∧ next_id s0 + Z.of_nat (total N (st_budget T)) < 2 ^ 63)%Z;
  rd_sink : is_Some (nodes s0 !! sk);
  rd_cell : region_ptr s0 !! r = Some rp;
  rd_region : ∃ rd, regions s0 !! rp = Some rd ∧ statics rd = (Some tp0, Some sk, Z.of_nat N) ∧
    pr_barrier_cnt rd = 0%Z;
  rd_parent : ∃ d, tasks s0 !! tp0 = Some d ∧ td_curr_task_node d = Some np;
  rd_node : is_Some (nodes s0 !! np);
  rd_inj j k : j < N → k < N → cells j = cells k → j = k;
  rd_new k : k < N → task_ptr s0 !! cells k = None;
  rd_thread k : k < N → thread_ptr s0 !! st_threads T k = Some (st_objects T k);
  rd_object k : k < N → is_Some (threads s0 !! st_objects T k);
  rd_objects j k : j < N → k < N → st_objects T j = st_objects T k → j = k }.

Context (R : ready).
Abbreviation Inv := (team_inv T).
Abbreviation Mine := (mine T).
Abbreviation Publ := (publ T).
Implicit Types (G : nat → part) (g : part).

(** ** Facts *)

Lemma nodes_live G h nl k l :
  nodes_inv T G h nl → Publ (G k) l ∨ owns (G k) l → is_Some (h !! l).
Proof.
  intros V. assert (∀ j, owns (G j) l → is_Some (h !! l)) as Hown.
  { intros j ([? d] & -> & Hl)%list_elem_of_fmap. destruct (ni_new V _ _ _ Hl) as (_ & n & ? & _). eauto. }
  intros [[[n0 Hn]|Hb]|Ho]; [|destruct (ni_kb V _ _ Hb) as [j Hj]; by eapply Hown, (ni_bar V)|eauto].
  destruct (ni_old V l n0 Hn) as (n & ? & _). eauto.
Qed.

Lemma owns_new G h nl k l : nodes_inv T G h nl → owns (G k) l → (next_loc s0 ≤ l < nl)%positive ∧ nodes s0 !! l = None.
Proof.
  intros V ([? d] & -> & Hl)%list_elem_of_fmap. destruct (ni_new V _ _ _ Hl) as (Hr & _). split; [done|].
  apply eq_None_not_Some. intros H%(rd_node_addr R). simpl in *. lia.
Qed.

Lemma priv_publ G h nl j k l : nodes_inv T G h nl → priv (G j) l → Publ (G k) l → False.
Proof.
  intros V [Ho Hb] [H|H].
  - apply (owns_new _ _ _ _ _ V) in Ho as [_ E]. rewrite E in H. by destruct H.
  - destruct (ni_kb V _ _ H) as [i Hi]. pose proof (ni_bar V _ _ Hi) as Hi'.
    by rewrite (ni_one V _ _ _ Ho Hi') in Hb.
Qed.

Lemma priv_one G h nl j k l : nodes_inv T G h nl → priv (G j) l → priv (G k) l → j = k.
Proof. intros V [? _] [? _]. by eapply (ni_one V). Qed.

(** Two threads never make the same edge. *)
Lemma mine_one G h nl j k u v : nodes_inv T G h nl → Mine j (G j) u v → Mine k (G k) u v → j = k.
Proof.
  intros V Hj Hk. assert (∀ j k l, priv (G j) l → Publ (G k) l → False) as X by (intros *; by eapply priv_publ).
  assert (∀ j k l, priv (G j) l → priv (G k) l → j = k) as U by (intros *; by eapply priv_one).
  assert (∀ i, Publ (G i) sk) as S by (left; apply (rd_sink R)).
  destruct Hj as [[A [B|B]]|[[A B]|(-> & A & ->)]], Hk as [[A' [B'|B']]|[[A' B']|(-> & A' & E)]]; subst;
    solve [eauto | destruct (X _ _ _ A A') | destruct (X _ _ _ A' A) | destruct (X _ _ _ B (S k)) | destruct (X _ _ _ B' (S j))
      | destruct (X _ _ _ A (or_intror A')) | destruct (X _ _ _ A' (or_intror A))
      | destruct (X _ _ _ B (S 0)) | destruct (X _ _ _ B' (S 0))].
Qed.

(** Such an edge is new. *)
Lemma mine_new G h nl k u v : nodes_inv T G h nl → Mine k (G k) u v → ¬ edge (nodes s0) u v.
Proof.
  intros V Hm He. pose proof (edge_live_l _ _ _ He) as Hu. pose proof (edge_live_r _ _ _ (rd_wf R) He) as Hv.
  assert (∀ l, owns (G k) l → is_Some (nodes s0 !! l) → False) as X.
  { intros l Ho [n Hn]. apply (owns_new _ _ _ _ _ V) in Ho as [_ E]. congruence. }
  destruct Hm as [[[A _] _]|[[_ [A _]]|(_ & A & _)]]; [by eapply X..|].
  destruct (ni_kb V _ _ A) as [i Hi]. pose proof (ni_bar V _ _ Hi) as Hi'.
  apply (owns_new _ _ _ _ _ V) in Hi' as [_ E]. rewrite E in Hu. by destruct Hu.
Qed.

Lemma next_id_small G t nid : ids_inv T G t nid → (0 ≤ nid < 2 ^ 63)%Z.
Proof.
  intros V. pose proof (rd_ids R). rewrite (ii_next V).
  pose proof (total_mono N (fun j => length (p_ids (G j))) (st_budget T) (ii_few V)). lia.
Qed.

(** ** One thread *)

Context (k : nat) (Hk : k < N).
Abbreviation tw := (twp Inv k).

Ltac inv_split := split; cbn [nodes tasks worksharings threads regions task_ptr g_tdg next_id next_loc set_nodes set_tasks
  set_worksharings set_threads set_regions set_task_ptr set_g_tdg set_next_id set_next_loc set_ext_calls].

Lemma objs_keep_part {A} (f : part → option (positive * A)) h0 nl0 G g h nl nl' :
  f g = f (G k) → (nl ≤ nl')%positive → objs_inv h0 nl0 (fun j => f (G j)) h nl →
  objs_inv h0 nl0 (fun j => f (<[k := g]> G j)) h nl'.
Proof. intros E%same_at. by apply objs_keep. Qed.

Lemma isbar_same G g b : p_bk g = p_bk (G k) → isbar (<[k := g]> G) b ↔ isbar G b.
Proof. intros E%same_at. unfold isbar, same in *. by setoid_rewrite E. Qed.

Lemma isnow_same G g b : p_bk g = p_bk (G k) → isnow (<[k := g]> G) b ↔ isnow G b.
Proof. intros E%same_at. unfold isnow, same in *. by setoid_rewrite E. Qed.

(** The components that do not depend on what changes in the part. *)
Ltac keep V :=
  first
  [ refine (idle_keep T _ k _ Hk (ti_idle V))
  | refine (nodes_inv_keep T _ k _ _ _ _ _ _ _ (ti_nodes V)); [reflexivity..|lia]
  | refine (ids_inv_keep T _ k _ _ _ _ _ (ti_ids V)); reflexivity
  | refine (edges_inv_keep T _ k _ _ _ _ _ _ (ti_edges V)); reflexivity
  | refine (objs_keep_part p_obj _ _ _ _ _ _ _ _ _ (ti_tasks V)); [reflexivity|lia]
  | refine (cells_inv_keep T _ k _ _ _ (ti_cells V)); reflexivity
  | refine (objs_keep_part p_ws _ _ _ _ _ _ _ _ _ (ti_ws V)); [reflexivity|lia]
  | refine (threads_inv_keep T _ k _ _ _ (ti_threads V)); reflexivity
  | refine (region_inv_keep T _ k _ _ _ _ _ _ (ti_region V)); reflexivity
  | exact (ti_rest V) ].

Lemma tr_read {A} (f : M A) a g (Q : A → part → Prop) :
  (∀ G s o, Inv G s o → G k = g → f s = Ok (a, s)) → Q a g → tw (act f) g Q.
Proof.
  intros Hf HQ. apply twp_act. intros G s o V E. exists a, s, g. split_and!; [by eapply Hf| |done]. subst g.
  inv_split; keep V.
Qed.

Lemma tr_ftimer env g (Q : double → part → Prop) : (∀ t, Q t g) → tw (act (ftimer_msec env)) g Q.
Proof.
  intros HQ. apply twp_act. intros G s o V <-. eexists _, _, _. split_and!; [done| |apply HQ]. inv_split; keep V.
Qed.

(** ** Fields of nodes *)

Lemma nodes_inv_alter G h nl f l :
  (∀ n, desc_of (f n) = desc_of n) → nodes_inv T G h nl → nodes_inv T G (alter f l h) nl.
Proof.
  intros Hf [H1 H2 H3 H4 H5 H6 H7].
  assert (∀ x d, (∃ n, h !! x = Some n ∧ desc_of n = d) → ∃ n, alter f l h !! x = Some n ∧ desc_of n = d) as Ha.
  { intros x d (n & Hn & <-). rewrite lookup_alter. case_decide; [|by exists n].
    subst. rewrite Hn. exists (f n). split; [done|]. apply Hf. }
  split; eauto.
  - intros k' x d Hx. destruct (H3 _ _ _ Hx). eauto.
  - intros x. rewrite is_Some_alter. apply H4.
Qed.

Lemma modify_node_alter l f s : is_Some (nodes s !! l) →
  modify_node (Some l) f s = Ok (tt, set_nodes (alter f l (nodes s)) s).
Proof. intros [n Hn]. by rewrite modify_node_run, Hn, (insert_alter f). Qed.

Lemma tr_touch l f g (Q : unit → part → Prop) :
  (∀ n, desc_of (f n) = desc_of n) → (∀ n, _exitEdges (f n) = _exitEdges n) →
  (∀ n, _entryEdges (f n) = _entryEdges n) → Publ g l ∨ owns g l → Q tt g → tw (act (modify_node (Some l) f)) g Q.
Proof.
  intros Hf Hex Hen Hl HQ. apply twp_act. intros G s o V <-. eexists _, _, _. split_and!; [|shelve|exact HQ].
  { apply modify_node_alter. by eapply nodes_live; [apply V|]. }
  Unshelve. inv_split; try keep V.
  - eapply nodes_inv_keep; [done..|reflexivity|]. apply nodes_inv_alter; [done|apply V].
  - apply edges_inv_keep; [done..|]. destruct (ti_edges V) as [H1 H2 H3]. split; [| |done].
    + refine (half_ext s0 _ _ _ _ _ (fun _ => eq_refl) _ H1). intros w. by apply exits_alter_same.
    + refine (half_ext s0 _ _ _ _ _ (fun _ => eq_refl) _ H2). intros w. by apply entries_alter_same.
Qed.

Lemma tr_add_time env l g (Q : unit → part → Prop) :
  Publ g l ∨ owns g l → Q tt g → tw (add_time_now_p env (Some l)) g Q.
Proof. intros. apply twp_bind, tr_ftimer. intros t. by apply tr_touch. Qed.

Lemma tr_set_last_time env l g (Q : unit → part → Prop) :
  Publ g l ∨ owns g l → Q tt g → tw (set_last_time_now_p env (Some l)) g Q.
Proof. intros. apply twp_bind, tr_ftimer. intros t. by apply tr_touch. Qed.

(** ** Mutexes of the graph *)

Definition graph_mutex g (m : mutex) : Prop :=
  match m with MBarrier _ => False | MAdd => True | MExits l | MEntries l => Publ g l ∨ owns g l end.

Lemma graph_mutex_live G s o m : Inv G s o → graph_mutex (G k) m → mutex_live s m = true.
Proof.
  intros V. destruct m; simpl; try done; intros Hm; apply bool_decide_eq_true; (eapply nodes_live; [apply V|done]).
Qed.

Lemma tr_lock m g (Q : unit → part → Prop) : graph_mutex g m → Q tt g → tw (lock m) g Q.
Proof.
  intros Hm HQ. apply twp_lock. intros G s o V <-. split; [by eapply graph_mutex_live|]. intros _. eexists. split; [|exact HQ].
  assert (o !! MBarrier rp = <[m := k]> o !! MBarrier rp) as Eo by (by rewrite lookup_insert_ne by (intros ->; done)).
  inv_split; try keep V. apply region_inv_keep; [done..|]. destruct (ti_region V) as [H1 H2 H3 H4 H5 H6 H7].
  split; rewrite <- ?Eo; done.
Qed.

Lemma tr_unlock m g (Q : unit → part → Prop) : graph_mutex g m → Q tt g → tw (unlock m) g Q.
Proof.
  intros Hm HQ. apply twp_unlock. intros G s o V <- _. split; [by eapply graph_mutex_live|]. eexists. split; [|exact HQ].
  assert (o !! MBarrier rp = delete m o !! MBarrier rp) as Eo by (by rewrite lookup_delete_ne by (intros ->; done)).
  inv_split; try keep V. apply region_inv_keep; [done..|]. destruct (ti_region V) as [H1 H2 H3 H4 H5 H6 H7].
  split; rewrite <- ?Eo; done.
Qed.

(** ** Edges *)

Lemma exits_push h u e w :
  is_Some (h !! u) → exits (alter (pushExit e) u h) w = exits h w ++ (if decide (w = u) then [e] else []).
Proof.
  intros [n Hn]. unfold exits. rewrite lookup_alter. repeat case_decide; subst; try done; by rewrite ?Hn, ?app_nil_r.
Qed.

Lemma entries_push h v e w :
  is_Some (h !! v) → entries (alter (pushEntry e) v h) w = entries h w ++ (if decide (w = v) then [e] else []).
Proof.
  intros [n Hn]. unfold entries. rewrite lookup_alter. repeat case_decide; subst; try done; by rewrite ?Hn, ?app_nil_r.
Qed.

(** An edge of thread [k] is in nobody else's part. *)
Lemma mine_elsewhere G s o u v :
  Inv G s o → Mine k (G k) u v → ∀ j, (u, v) ∈ p_ex (G j) ∨ (u, v) ∈ p_en (G j) → j = k.
Proof.
  intros V Hm j Hj%(ei_mine (ti_edges V)). eapply mine_one; [apply V|exact Hj|exact Hm].
Qed.

Lemma edges_mine_upd G g :
  (∀ j u v, (u, v) ∈ p_ex (G j) ∨ (u, v) ∈ p_en (G j) → Mine j (G j) u v) →
  (∀ u v, (u, v) ∈ p_ex g ∨ (u, v) ∈ p_en g → Mine k g u v) →
  ∀ j u v, (u, v) ∈ p_ex (<[k := g]> G j) ∨ (u, v) ∈ p_en (<[k := g]> G j) → Mine j (<[k := g]> G j) u v.
Proof. intros H1 H2 j u v. at_thread j k; eauto. Qed.

Lemma tr_push_exit u v g (Q : unit → part → Prop) :
  Publ g u ∨ owns g u → Mine k g u v → (u, v) ∉ p_ex g → Q tt (set_ex ((u, v) :: p_ex g) g) →
  tw (act (modify_node (Some u) (pushExit (MkEdge u v)))) g Q.
Proof.
  intros Hu Hm Hn HQ. apply twp_act. intros G s o V <-. eexists _, _, _. split_and!; [|shelve|exact HQ].
  { apply modify_node_alter. by eapply nodes_live; [apply V|]. }
  Unshelve. inv_split; try keep V.
  - eapply nodes_inv_keep; [done..|reflexivity|]. apply nodes_inv_alter; [done|apply V].
  - pose proof (mine_elsewhere _ _ _ u v V Hm) as He. destruct (ti_edges V) as [H1 H2 H3]. split.
    + eapply (half_push s0 _ _ _ _ _ k u v H1).
      * intros j Hj. by rewrite fn_lookup_insert_ne.
      * by rewrite fn_lookup_insert.
      * intros j Hj. assert (j = k) as -> by eauto. done.
      * eapply mine_new; [apply V|done].
      * intros w. rewrite exits_push by (by eapply nodes_live; [apply V|]). done.
    + apply (half_keep s0 p_en _ _ _ _ (entries (nodes s))); [done| |done]. intros w. by apply entries_alter_same.
    + apply edges_mine_upd; [done|]. part_simpl. intros a b. rewrite elem_of_cons. intros [[E|Hx]|Hx]; [by simplify_eq|..]; apply H3; auto.
Qed.

Lemma tr_push_entry u v g (Q : unit → part → Prop) :
  Publ g v ∨ owns g v → Mine k g u v → (u, v) ∉ p_en g → Q tt (set_en ((u, v) :: p_en g) g) →
  tw (act (modify_node (Some v) (pushEntry (MkEdge u v)))) g Q.
Proof.
  intros Hu Hm Hn HQ. apply twp_act. intros G s o V <-. eexists _, _, _. split_and!; [|shelve|exact HQ].
  { apply modify_node_alter. by eapply nodes_live; [apply V|]. }
  Unshelve. inv_split; try keep V.
  - eapply nodes_inv_keep; [done..|reflexivity|]. apply nodes_inv_alter; [done|apply V].
  - pose proof (mine_elsewhere _ _ _ u v V Hm) as He. destruct (ti_edges V) as [H1 H2 H3]. split.
    + apply (half_keep s0 p_ex _ _ _ _ (exits (nodes s))); [done| |done]. intros w. by apply exits_alter_same.
    + eapply (half_push s0 _ _ _ _ _ k u v H2).
      * intros j Hj. by rewrite fn_lookup_insert_ne.
      * by rewrite fn_lookup_insert.
      * intros j Hj. assert (j = k) as -> by eauto. done.
      * eapply mine_new; [apply V|done].
      * intros w. rewrite entries_push by (by eapply nodes_live; [apply V|]). done.
    + apply edges_mine_upd; [done|]. part_simpl. intros a b. rewrite elem_of_cons. intros [Hx|[E|Hx]]; [|by simplify_eq|]; apply H3; auto.
Qed.

Lemma connected_run h u v : is_Some (h !! u) → (∀ e, e ∈ exits h u → _source e = u) →
  isConnectedWith h u v = Ok (bool_decide (MkEdge u v ∈ exits h u)).
Proof.
  intros [n Hn] Hs. unfold isConnectedWith, exits in *. rewrite Hn in *. run_step. f_equal. simpl in *.
  apply eq_bool_prop_intro. rewrite !Is_true_true, has_target_spec, bool_decide_eq_true, list_elem_of_fmap. split.
  - intros (e & -> & He). pose proof (Hs e He). destruct e. simpl in *. by subst.
  - intros He. by exists (MkEdge u v).
Qed.

Lemma tr_scan u v g (Q : bool → part → Prop) :
  Publ g u ∨ owns g u → Mine k g u v → Q (bool_decide ((u, v) ∈ p_ex g)) g →
  tw (act (h ← read nodes; lift (isConnectedWith h u v))) g Q.
Proof.
  intros Hu Hm HQ. refine (tr_read _ _ g Q _ HQ). intros G s o V <-. cbn. unfold mbind, M_bind. cbn.
  pose proof (mine_elsewhere _ _ _ u v V Hm) as He. pose proof (ti_edges V) as [[H1 H2 _] _ _].
  rewrite connected_run; [|by eapply nodes_live; [apply V|]|auto]. cbn. do 2 f_equal. apply bool_decide_ext.
  rewrite H1. split; [|eauto]. intros [Hb|[j Hj]]; [exfalso; eapply mine_new; [apply V|done..]|].
  assert (j = k) as -> by eauto. done.
Qed.

(** [connectNodes] records an edge that is not there, and leaves one that is. *)
Lemma tr_connect u v g (Q : unit → part → Prop) :
  Publ g u ∨ owns g u → Publ g v ∨ owns g v → Mine k g u v → (u, v) ∉ p_ex g → (u, v) ∉ p_en g →
  Q tt (set_en ((u, v) :: p_en g) (set_ex ((u, v) :: p_ex g) g)) →
  tw (connectNodes_p (Some u) (Some v)) g Q.
Proof.
  intros Hu Hv Hm He He' HQ. apply twp_bind, (tr_read _ (u, v)); [done|].
  apply twp_bind, tr_lock; [done|]. apply twp_bind, tr_scan; [done..|]. apply twp_bind, tr_unlock; [done|].
  rewrite bool_decide_false by done. do 2 (apply twp_bind, tr_lock; [done|]).
  apply twp_bind, tr_push_exit; [done..|]. apply twp_bind, tr_push_entry; [done..|]. apply twp_bind.
  by do 2 (apply tr_unlock; [done|]).
Qed.

Lemma tr_connect_again u v g (Q : unit → part → Prop) :
  Publ g u ∨ owns g u → Mine k g u v → (u, v) ∈ p_ex g → Q tt g → tw (connectNodes_p (Some u) (Some v)) g Q.
Proof.
  intros Hu Hm He HQ. apply twp_bind, (tr_read _ (u, v)); [done|]. apply twp_bind, tr_lock; [done|].
  apply twp_bind, tr_scan; [done..|]. apply twp_bind, tr_unlock; [done|]. by rewrite bool_decide_true.
Qed.

Lemma tr_erase_exit u v g X (Q : unit → part → Prop) :
  Publ g u ∨ owns g u → p_ex g = (u, v) :: X → (u, v) ∉ X → Q tt (set_ex X g) →
  tw (act (modify_node (Some u) (eraseExit v))) g Q.
Proof.
  intros Hu EX HX HQ. apply twp_act. intros G s o V <-. eexists _, _, _. split_and!; [|shelve|exact HQ].
  { apply modify_node_alter. by eapply nodes_live; [apply V|]. }
  Unshelve. inv_split; try keep V.
  - eapply nodes_inv_keep; [done..|reflexivity|]. apply nodes_inv_alter; [done|apply V].
  - destruct (ti_edges V) as [H1 H2 H3].
    assert (Mine k (G k) u v) as Hm by (apply H3; left; rewrite EX; by left).
    pose proof (mine_elsewhere _ _ _ u v V Hm) as He. split.
    + eapply (half_erase s0 _ _ _ _ _ k u v X (fun e => bool_decide (getTarget e = v)) H1); try done.
      * intros j Hj. rewrite fn_lookup_insert_ne by done. split; [done|]. intros Hx. apply Hj. auto.
      * by rewrite fn_lookup_insert.
      * eapply mine_new; [apply V|done].
      * intros [a b]. simpl. intros ->. rewrite bool_decide_eq_true. naive_solver.
      * intros w. unfold exits. rewrite lookup_alter. simpl. repeat case_decide; subst; try done. by destruct (nodes s !! w).
    + apply (half_keep s0 p_en _ _ _ _ (entries (nodes s))); [done| |done]. intros w. by apply entries_alter_same.
    + apply edges_mine_upd; [done|]. part_simpl. intros a b Hx. apply H3. rewrite EX, elem_of_cons. naive_solver.
Qed.

Lemma tr_erase_entry u v g X (Q : unit → part → Prop) :
  Publ g v ∨ owns g v → p_en g = (u, v) :: X → (u, v) ∉ X → Q tt (set_en X g) →
  tw (act (modify_node (Some v) (eraseEntry u))) g Q.
Proof.
  intros Hu EX HX HQ. apply twp_act. intros G s o V <-. eexists _, _, _. split_and!; [|shelve|exact HQ].
  { apply modify_node_alter. by eapply nodes_live; [apply V|]. }
  Unshelve. inv_split; try keep V.
  - eapply nodes_inv_keep; [done..|reflexivity|]. apply nodes_inv_alter; [done|apply V].
  - destruct (ti_edges V) as [H1 H2 H3].
    assert (Mine k (G k) u v) as Hm by (apply H3; right; rewrite EX; by left).
    pose proof (mine_elsewhere _ _ _ u v V Hm) as He. split.
    + apply (half_keep s0 p_ex _ _ _ _ (exits (nodes s))); [done| |done]. intros w. by apply exits_alter_same.
    + eapply (half_erase s0 _ _ _ _ _ k u v X (fun e => bool_decide (getSource e = u)) H2); try done.
      * intros j Hj. rewrite fn_lookup_insert_ne by done. split; [done|]. intros Hx. apply Hj. auto.
      * by rewrite fn_lookup_insert.
      * eapply mine_new; [apply V|done].
      * intros [a b]. simpl. intros ->. rewrite bool_decide_eq_true. naive_solver.
      * intros w. unfold entries. rewrite lookup_alter. simpl. repeat case_decide; subst; try done. by destruct (nodes s !! w).
    + apply edges_mine_upd; [done|]. part_simpl. intros a b Hx. apply H3. rewrite EX, elem_of_cons. naive_solver.
Qed.

Lemma tr_disconnect u v g X (Q : unit → part → Prop) :
  Publ g u ∨ owns g u → Publ g v ∨ owns g v → p_ex g = (u, v) :: X → p_en g = (u, v) :: X → (u, v) ∉ X →
  Q tt (set_en X (set_ex X g)) → tw (disconnectNodes_p (Some u) (Some v)) g Q.
Proof.
  intros Hu Hv E1 E2 HX HQ. apply twp_bind, (tr_read _ (u, v)); [done|].
  apply twp_bind, tr_lock; [done|]. apply twp_bind, (tr_erase_exit _ _ _ X); [done..|].
  apply twp_bind, tr_unlock; [done|]. apply twp_bind, tr_lock; [done|].
  apply twp_bind, (tr_erase_entry _ _ _ X); [done..|]. by apply tr_unlock.
Qed.

(** ** Ids and the node table *)

Lemma tr_nextId g (Q : Z → part → Prop) :
  length (p_ids g) < st_budget T k → (∀ id, id ∉ p_ids g → Q id (set_ids (id :: p_ids g) g)) →
  tw (act Node_nextId) g Q.
Proof.
  intros Hl HQ. apply twp_act. intros G s o V <-. pose proof (ti_ids V) as [H1 H2 H3 H4 H5 H6].
  set (g' := set_ids (next_id s :: p_ids (G k)) (G k)).
  eexists _, _, g'. split_and!; [reflexivity| |apply HQ; intros ?%H1; lia].
  pose proof (total_update N (fun g => length (p_ids g)) G k g' Hk) as E. simpl in E.
  assert (∀ j, length (p_ids (<[k := g']> G j)) ≤ st_budget T j) as H4' by (intros j; at_thread j k; [cbn; lia|done]).
  pose proof (total_mono N (fun j => length (p_ids (<[k := g']> G j))) _ H4') as B. pose proof (rd_ids R).
  assert (i64 (next_id s + 1) = next_id s + 1)%Z as Ei by (unfold i64; rewrite Z.mod_small; lia).
  inv_split; try keep V. rewrite Ei. split.
  - intros j id. at_thread j k; [|intros ?%H1; lia]. unfold g'; part_simpl. rewrite elem_of_cons.
    intros [->|?%H1]; lia.
  - intros i j id. at_thread i k; at_thread j k; unfold g'; part_simpl; rewrite ?elem_of_cons; try done.
    + intros [->|?] Hj; [apply H1 in Hj; lia|eauto].
    + intros Hi [->|?]; [apply H1 in Hi; lia|eauto].
    + eauto.
  - lia.
  - done.
  - intros id l. rewrite H5. assert (same p_tab G (<[k := g']> G)) as Et by (by apply same_at).
    unfold same in Et. by setoid_rewrite Et.
  - intros j id l. at_thread j k; [unfold g'; part_simpl; intros ?%H6; by right|apply H6].
Qed.

(** ** Nodes *)

(** A new node, as a node of the thread or as the barrier. *)
Definition with_node (isb : bool) l id ty g : part :=
  let g := set_pnodes ((l, new_desc id ty) :: p_nodes g) g in
  if isb then set_bk (MkKnown (Some l) (Some l) (l :: p_bars g) (l :: p_kbs g)) g else g.

Lemma with_node_same {A} (f : part → A) isb l id ty g :
  (∀ v g, f (set_pnodes v g) = f g) → (∀ v g, f (set_bk v g) = f g) → f (with_node isb l id ty g) = f g.
Proof. intros H1 H2. unfold with_node. destruct isb; by rewrite ?H2, H1. Qed.

Lemma with_node_owns isb l id ty g x : owns (with_node isb l id ty g) x ↔ x = l ∨ owns g x.
Proof. unfold owns, with_node. destruct isb; part_simpl; by rewrite fmap_cons, elem_of_cons. Qed.

Lemma nodes_inv_new G h nl isb id ty :
  nodes_inv T G h nl → (isb = true → p_kb (G k) = None ∧ p_bar (G k) = None) →
  nodes_inv T (<[k := with_node isb nl id ty (G k)]> G) (<[nl := new_Node id ty dzero]> h) (Pos.succ nl).
Proof.
  intros V Hb. pose proof V as [H1 H2 H3 H4 H5 H6 H7 H8 H9 H10]. set (g' := with_node isb nl id ty (G k)).
  assert (∀ j x, owns (G j) x → (x < nl)%positive) as Ho by (intros j x Hx; by apply (owns_new _ _ _ _ _ V) in Hx as [[_ ?] _]).
  assert (∀ x, (x < nl)%positive → <[nl := new_Node id ty dzero]> h !! x = h !! x) as Hi.
  { intros x Hx. rewrite lookup_insert_ne by lia. done. }
  assert (∀ j x, owns (<[k := g']> G j) x ↔ j = k ∧ x = nl ∨ owns (G j) x) as Eo.
  { intros j x. at_thread j k; [|naive_solver]. unfold g'. rewrite with_node_owns. naive_solver. }
  assert (∀ x, isbar G x → (x < nl)%positive) as Hbar by (intros x [j Hj%H6]; by apply Ho in Hj).
  assert (∀ j x, x ∈ p_bars (<[k := g']> G j) ↔ isb = true ∧ j = k ∧ x = nl ∨ x ∈ p_bars (G j)) as Ebs.
  { intros j x. at_thread j k; [|naive_solver]. unfold g', with_node. destruct isb; part_simpl; rewrite ?elem_of_cons; naive_solver. }
  assert (∀ j x, x ∈ p_kbs (<[k := g']> G j) ↔ isb = true ∧ j = k ∧ x = nl ∨ x ∈ p_kbs (G j)) as Eks.
  { intros j x. at_thread j k; [|naive_solver]. unfold g', with_node. destruct isb; part_simpl; rewrite ?elem_of_cons; naive_solver. }
  assert (∀ j x, p_bar (<[k := g']> G j) = Some x ↔ isb = true ∧ j = k ∧ x = nl ∨ p_bar (G j) = Some x) as Eb.
  { intros j x. at_thread j k; [|naive_solver]. unfold g', with_node. destruct isb; part_simpl; [destruct (Hb eq_refl)|]; naive_solver. }
  assert (∀ j x, p_kb (<[k := g']> G j) = Some x ↔ isb = true ∧ j = k ∧ x = nl ∨ p_kb (G j) = Some x) as Ek.
  { intros j x. at_thread j k; [|naive_solver]. unfold g', with_node. destruct isb; part_simpl; [destruct (Hb eq_refl)|]; naive_solver. }
  split.
  - lia.
  - intros x n Hx. rewrite Hi; [by apply H2|]. assert (x < next_loc s0)%positive by (apply (rd_node_addr R); eauto). lia.
  - intros j x d. at_thread j k.
    + assert (p_nodes g' = (nl, new_desc id ty) :: p_nodes (G k)) as -> by (unfold g'; by destruct isb).
      rewrite elem_of_cons. intros [[= -> ->]|Hx]; [split; [lia|]; rewrite lookup_insert_eq; by eexists|].
      destruct (H3 _ _ _ Hx) as [? ?]. rewrite Hi by lia. split; [lia|done].
    + intros Hx. destruct (H3 _ _ _ Hx) as [? ?]. rewrite Hi by lia. split; [lia|done].
  - intros x. setoid_rewrite Eo. rewrite lookup_insert_is_Some. intros [->|[_ Hx]]; [by right; eauto|]. destruct (H4 x Hx) as [?|[j ?]]; eauto.
  - intros i j x. rewrite !Eo. intros [[-> ->]|Hx] [[-> E]|Hx']; subst; try done; [apply Ho in Hx'; lia|apply Ho in Hx; lia|eauto].
  - intros j b. rewrite Ebs, Eo. naive_solver.
  - intros j b. rewrite Eks. intros [(-> & -> & ->)|Hx]; [exists k; apply Ebs; auto|].
    destruct (H7 _ _ Hx) as [i Hi']. exists i. apply Ebs. auto.
  - intros j b. rewrite Eb, Ebs. naive_solver.
  - intros j b. rewrite Ek. intros [(-> & -> & ->)|Hx]; [exists k; apply Eb; auto|].
    destruct (H9 _ _ Hx) as [i Hi']. exists i. apply Eb. auto.
  - intros j b [i Hi']. rewrite Eb in Hi'. rewrite Eks, Ek. destruct Hi' as [(-> & -> & ->)|Hi'].
    + intros [?|Hx]; [by left|]. apply H7, Hbar in Hx. lia.
    + assert (isnow G b) as Hn by (by exists i). intros [(_ & _ & ->)|Hx]; [|right; by apply H10].
      apply H8, H6, Ho in Hi'. lia.
Qed.

Lemma edges_inv_new G h nl isb id ty :
  nodes_inv T G h nl → edges_inv T G h →
  edges_inv T (<[k := with_node isb nl id ty (G k)]> G) (<[nl := new_Node id ty dzero]> h).
Proof.
  intros V [H1 H2 H3]. assert (h !! nl = None) as Hnl.
  { apply eq_None_not_Some. intros [Hs|[j Hs]]%(ni_all V).
    - apply (rd_node_addr R) in Hs. pose proof (ni_next V). lia.
    - apply (owns_new _ _ _ _ _ V) in Hs as [? _]. lia. }
  split.
  - apply (half_keep s0 p_ex _ _ _ _ (exits h)); [by apply with_node_same| |done]. intros w. by apply exits_insert_fresh.
  - apply (half_keep s0 p_en _ _ _ _ (entries h)); [by apply with_node_same| |done]. intros w. by apply entries_insert_fresh.
  - apply edges_mine_upd; [done|]. intros u v. rewrite (with_node_same p_ex), (with_node_same p_en) by done.
    intros Hm%H3. set (g' := with_node isb nl id ty (G k)).
    assert (∀ x, priv (G k) x → priv g' x) as Hp.
    { intros x [Ho Hx]. split; [apply with_node_owns; auto|]. unfold g', with_node. destruct isb; part_simpl; [|done].
      apply not_elem_of_cons. split; [|done]. intros ->. apply (owns_new _ _ _ _ _ V) in Ho as [? _]. lia. }
    assert (∀ x, x ∈ p_kbs (G k) → x ∈ p_kbs g') as Hkb.
    { intros x Hx. unfold g', with_node. destruct isb; part_simpl; [by right|done]. }
    assert (∀ x, Publ (G k) x → Publ g' x) as Hq by (intros x [?|?]; [by left|right; auto]).
    destruct Hm as [[? [?|?]]|[[? ?]|(? & ? & ?)]]; [left; auto|left; auto|right; left; auto|right; right; auto].
Qed.

(** The description of a node of the thread, when the thread has set its fields. *)
Definition redesc l d' (X : list (positive * desc)) : list (positive * desc) :=
  (fun x => if decide (x.1 = l) then (l, d') else x) <$> X.

Lemma redesc_fst l d' X : (redesc l d' X).*1 = X.*1.
Proof.
  unfold redesc. rewrite <- list_fmap_compose. apply list_fmap_ext. intros ? [x d] _. simpl. case_decide; by subst.
Qed.

Lemma redesc_other l d' X : l ∉ X.*1 → redesc l d' X = X.
Proof.
  intros Hl. unfold redesc. rewrite <- (list_fmap_id X) at 2. apply list_fmap_ext. intros i [x d] Hx. simpl.
  rewrite decide_False; [done|]. intros ->. apply Hl, list_elem_of_fmap. exists (l, d). split; [done|]. by eapply list_elem_of_lookup_2.
Qed.

Lemma redesc_head l d d' X : l ∉ X.*1 → redesc l d' ((l, d) :: X) = (l, d') :: X.
Proof. intros Hl. unfold redesc. rewrite fmap_cons. simpl. rewrite decide_True by done. f_equal. by apply redesc_other. Qed.

Lemma redesc_same l d X : (l, d) ∈ X → NoDup X.*1 → redesc l d X = X.
Proof.
  intros Hl Hn. unfold redesc. rewrite <- (list_fmap_id X) at 2. apply list_fmap_ext. intros i [x d'] Hx. simpl.
  case_decide; [|done]. subst. apply list_elem_of_lookup_2 in Hx.
  apply list_elem_of_lookup in Hl as [a Ha]. apply list_elem_of_lookup in Hx as [b Hb].
  assert (a = b) as ->; [|congruence]. eapply (NoDup_lookup (X.*1)); [done|by rewrite list_lookup_fmap, Ha|by rewrite list_lookup_fmap, Hb].
Qed.

Lemma nodes_inv_set G h nl f l d d' :
  nodes_inv T G h nl → (l, d) ∈ p_nodes (G k) → (∀ n, desc_of n = d → desc_of (f n) = d') →
  nodes_inv T (<[k := set_pnodes (redesc l d' (p_nodes (G k))) (G k)]> G) (alter f l h) nl.
Proof.
  intros V Hl Hf. pose proof V as [H1 H2 H3 H4 H5 H6 H7 H8 H9 H10]. set (g' := set_pnodes (redesc l d' (p_nodes (G k))) (G k)).
  assert (owns (G k) l) as Hown by (apply list_elem_of_fmap; by exists (l, d)).
  assert (∀ j x, owns (<[k := g']> G j) x ↔ owns (G j) x) as Eo.
  { intros j x. at_thread j k; [|done]. unfold owns, g'. part_simpl. by rewrite redesc_fst. }
  pose proof (same_at p_bk G k g' eq_refl) as Ek. unfold same in *.
  split; intros *; rewrite ?Eo, ?Ek, ?isbar_same, ?isnow_same by done; eauto.
  - intros Hn. assert (l0 ≠ l) by (intros ->; apply (owns_new _ _ _ _ _ V) in Hown as [_ E]; congruence).
    rewrite lookup_alter_ne by done. eauto.
  - rename k0 into j, l0 into x, d0 into dx. intros Hx.
    assert (x ≠ l → alter f l h !! x = h !! x) as Hne by (intros; by rewrite lookup_alter_ne).
    assert ((∃ d0, (x, d0) ∈ p_nodes (G j) ∧ (x = l → j = k ∧ dx = d') ∧ (x ≠ l → d0 = dx))) as (d0 & Hx0 & Hy & Hz).
    { revert Hx. at_thread j k.
      - unfold g'. part_simpl. unfold redesc. intros ([y dy] & E & Hy)%list_elem_of_fmap. simpl in E.
        case_decide; simplify_eq; (eexists; split; [exact Hy|naive_solver]).
      - intros Hx. exists dx. split; [done|]. split; [|done]. intros ->. exfalso.
        assert (j = k) by (eapply H5; [apply list_elem_of_fmap; by exists (l, dx)|done]). done. }
    destruct (H3 _ _ _ Hx0) as [Hr (n & Hn & Hd)]. split; [done|]. destruct (decide (x = l)) as [->|Hxl].
    + destruct (Hy eq_refl) as [-> ->]. rewrite lookup_alter_eq, Hn. exists (f n). split; [done|]. apply Hf.
      destruct (H3 _ _ _ Hl) as [_ (n' & Hn' & <-)]. congruence.
    + rewrite Hne by done. exists n. split; [done|]. by rewrite Hd, Hz.
  - rewrite is_Some_alter. setoid_rewrite Eo. apply H4.
Qed.

(** A thread sets fields of its own node. *)
Lemma tr_set l d d' f g (Q : unit → part → Prop) :
  (l, d) ∈ p_nodes g → (∀ n, desc_of n = d → desc_of (f n) = d') → (∀ n, _exitEdges (f n) = _exitEdges n) →
  (∀ n, _entryEdges (f n) = _entryEdges n) → Q tt (set_pnodes (redesc l d' (p_nodes g)) g) →
  tw (act (modify_node (Some l) f)) g Q.
Proof.
  intros Hl Hf Hex Hen HQ. apply twp_act. intros G s o V <-. eexists _, _, _. split_and!; [|shelve|exact HQ].
  { apply modify_node_alter. eapply nodes_live; [apply V|]. right. apply list_elem_of_fmap. by exists (l, d). }
  Unshelve. inv_split; try keep V.
  - eapply nodes_inv_set; [apply V|done|done].
  - set (g' := set_pnodes (redesc l d' (p_nodes (G k))) (G k)). destruct (ti_edges V) as [H1 H2 H3]. split.
    + apply (half_keep s0 p_ex _ _ _ _ (exits (nodes s))); [done| |done]. intros w. by apply exits_alter_same.
    + apply (half_keep s0 p_en _ _ _ _ (entries (nodes s))); [done| |done]. intros w. by apply entries_alter_same.
    + apply edges_mine_upd; [done|]. unfold g'. part_simpl. intros u v Hm%H3. unfold mine, priv, owns in *. part_simpl.
      by rewrite !redesc_fst.
Qed.

(** It does something to its own node that no description shows. *)
Lemma tr_touch_own l d f g (Q : unit → part → Prop) :
  (l, d) ∈ p_nodes g → NoDup (p_nodes g).*1 → (∀ n, desc_of n = d → desc_of (f n) = d) →
  (∀ n, _exitEdges (f n) = _exitEdges n) → (∀ n, _entryEdges (f n) = _entryEdges n) → Q tt g →
  tw (act (modify_node (Some l) f)) g Q.
Proof.
  intros Hl Hn Hf Hex Hen HQ. apply (tr_set l d d); [done..|]. rewrite redesc_same by done. by destruct g.
Qed.

(** While nobody has arrived, the thread in the critical section may make the
    barrier. *)
Lemma region_inv_new G rs o isb l id ty :
  (∀ j, N ≤ j → G j = part0) → region_inv T G rs o → (isb = true → ∃ rd, p_reg (G k) = Some (rd, 0)) →
  region_inv T (<[k := with_node isb l id ty (G k)]> G) rs o.
Proof.
  intros Hidle V Hb. destruct isb; [|by apply region_inv_keep]. destruct (Hb eq_refl) as [rd Hrd]. clear Hb.
  pose proof V as [H1 H2 H3 H4 H5 H6 H7]. set (g' := with_node true l id ty (G k)).
  assert (o !! MBarrier rp = Some k) as Ho by (apply H4; eauto).
  assert (same p_reg G (<[k := g']> G)) as E1 by (by apply same_at).
  assert (same p_arr G (<[k := g']> G)) as E2 by (by apply same_at).
  assert (arrived T (<[k := g']> G) = arrived T G) as Ea by (apply total_ext; intros j; by rewrite (E2 j)).
  assert (arrived T G = 0) as E0 by (destruct (H3 k Ho) as (_ & rd' & Hr & _); congruence).
  assert (∀ j, p_arr (G j) = false) as Hnone.
  { intros j. destruct (decide (j < N)) as [Hj|Hj]; [|by rewrite Hidle by lia].
    pose proof (total_zero _ _ j E0 Hj) as Hz. simpl in Hz. by destruct (p_arr (G j)). }
  assert (∀ j, is_Some (p_bar (<[k := g']> G j)) → j = k) as Hbar.
  { intros j. at_thread j k; [done|]. intros [Hj|Hj]%H6; [by rewrite Hnone in Hj|congruence]. }
  unfold same in *. split; intros *; rewrite ?E1, ?E2, ?Ea; eauto.
  - by rewrite Ho.
  - intros ->%Hbar. by right.
  - intros ->%Hbar ->%Hbar. done.
Qed.

Lemma tr_alloc isb id ty g (Q : positive → part → Prop) :
  (isb = true → p_kb g = None ∧ p_bar g = None ∧ ∃ rd, p_reg g = Some (rd, 0)) →
  (∀ l, ¬ owns g l → nodes s0 !! l = None → l ∉ p_kbs g → Q l (with_node isb l id ty g)) →
  tw (act (alloc_Node id ty)) g Q.
Proof.
  intros Hb HQ. apply twp_act. intros G s o V <-. exists (next_loc s). eexists _, _. split_and!; [reflexivity| |apply HQ].
  - inv_split; try keep V.
    + apply nodes_inv_new; [apply V|naive_solver].
    + apply ids_inv_keep; [by apply with_node_same..|apply V].
    + eapply edges_inv_new; apply V.
    + eapply (objs_keep_part p_obj); [by apply with_node_same| |apply V]. lia.
    + apply cells_inv_keep; [by apply with_node_same|apply V].
    + eapply (objs_keep_part p_ws); [by apply with_node_same| |apply V]. lia.
    + apply threads_inv_keep; [by apply with_node_same|apply V].
    + apply region_inv_new; [apply V..|naive_solver].
  - intros Ho. apply (owns_new _ _ _ _ _ (ti_nodes V)) in Ho as [? _]. lia.
  - apply eq_None_not_Some. intros Hs%(rd_node_addr R). pose proof (ni_next (ti_nodes V)). lia.
  - intros Hs. pose proof (ti_nodes V) as V'. destruct (ni_kb V' _ _ Hs) as [j Hj].
    apply (ni_bar V') in Hj. apply (owns_new _ _ _ _ _ V') in Hj as [? _]. lia.
Qed.

Lemma ids_inv_tab G t t' nid g :
  ids_inv T G t nid → p_ids g = p_ids (G k) →
  (∀ id l, t' !! id = Some l ↔ (id, l) ∈ p_tab g ∨ t !! id = Some l ∧ (id, l) ∉ p_tab (G k)) →
  (∀ id l, (id, l) ∈ p_tab g → id ∈ p_ids g) →
  (∀ id l, (id, l) ∈ p_tab (G k) → g_tdg s0 !! id ≠ Some l) →
  ids_inv T (<[k := g]> G) t' nid.
Proof.
  intros [H1 H2 H3 H4 H5 H6] E Ht Hid H0. pose proof (same_at p_ids G k g E) as E1. unfold same in E1.
  split; intros *; rewrite ?E1; eauto.
  - rewrite H3. do 2 f_equal. apply total_ext. intros j. by rewrite E1.
  - rewrite Ht, H5. split.
    + intros [Hx|[[?|[j Hj]] Hn]]; [right; exists k; by rewrite fn_lookup_insert|by left|].
      right. exists j. at_thread j k; done.
    + intros [Hx|[j Hj]]; [right; split; [by left|]; intros Hn; by eapply H0|].
      revert Hj. at_thread j k; [auto|]. intros Hj. right. split; [eauto|]. intros Hn.
      apply n. eapply H2; [by eapply H6|by eapply H6].
  - revert k0 id l. intros j id l. at_thread j k; [intros ?%Hid; congruence|eauto].
Qed.

Lemma tr_addNode id l g (Q : unit → part → Prop) :
  id ∈ p_ids g → (∀ l', (id, l') ∉ p_tab g) → Q tt (set_tab ((id, l) :: p_tab g) g) → tw (addNode_p id l) g Q.
Proof.
  intros Hid Hl HQ. apply twp_bind, tr_lock; [done|]. apply twp_bind, twp_act.
  intros G s o V <-. eexists _, _, _. split_and!; [reflexivity| |apply tr_unlock; [done|exact HQ]].
  pose proof (ti_ids V) as U.
  assert (g_tdg s0 !! id = None) as H0.
  { destruct (g_tdg s0 !! id) as [x|] eqn:E; [|done]. apply (rd_keys R) in E. apply (ii_range U) in Hid. lia. }
  inv_split; try keep V. eapply ids_inv_tab; [exact U|done|..]; part_simpl.
  - intros id' l'. unfold addNode. rewrite lookup_insert, elem_of_cons. case_decide as E.
    + subst. split; [intros [= ->]; auto|]. intros [[[= ->]|Hx]|[Hx Hn]]; [done|by apply Hl in Hx|].
      apply (ii_tab U) in Hx as [Hx|[j Hx]]; [congruence|].
      assert (j = k) as -> by (eapply (ii_one U); [by eapply (ii_key U)|done]). done.
    + rewrite (ii_tab U). split.
      * intros Hx. destruct (decide ((id', l') ∈ p_tab (G k))); auto.
      * intros [[[= -> ->]|?]|[? ?]]; [done|eauto|done].
  - intros id' l'. rewrite elem_of_cons. intros [[= -> ->]|Hx]; [done|by eapply (ii_key U)].
  - intros id' l' Hx Hs. apply (ii_key U), (ii_range U) in Hx. apply (rd_keys R) in Hs. lia.
Qed.

Lemma tr_removeNode id l g X (Q : unit → part → Prop) :
  p_tab g = (id, l) :: X → (∀ l', (id, l') ∉ X) → Q tt (set_tab X g) → tw (removeNode_p id) g Q.
Proof.
  intros EX HX HQ. apply twp_bind, tr_lock; [done|]. apply twp_bind, twp_act.
  intros G s o V <-. eexists _, _, _. split_and!; [reflexivity| |apply tr_unlock; [done|exact HQ]].
  pose proof (ti_ids V) as U.
  assert (∀ id' l', (id', l') ∈ p_tab (G k) → g_tdg s0 !! id' ≠ Some l') as H0.
  { intros id' l' Hx Hs. apply (ii_key U), (ii_range U) in Hx. apply (rd_keys R) in Hs. lia. }
  assert (id ∈ p_ids (G k)) as Hid by (eapply (ii_key U); rewrite EX; by left).
  inv_split; try keep V. eapply ids_inv_tab; [exact U|done|..]; part_simpl.
  - intros id' l'. unfold removeNode. rewrite lookup_delete_Some, EX, elem_of_cons. split.
    + intros [Hne Hx]. destruct (decide ((id', l') ∈ X)); [by left|right]. split; [done|]. naive_solver.
    + intros [Hx|[Hx Hn]].
      * assert (id' ≠ id) by (intros ->; by apply HX in Hx). split; [done|]. apply (ii_tab U). right. exists k. rewrite EX. by right.
      * split; [|done]. intros <-. apply (ii_tab U) in Hx as [Hx|[j Hx]].
        -- apply (ii_range U) in Hid. apply (rd_keys R) in Hx. lia.
        -- assert (j = k) as -> by (eapply (ii_one U); [by eapply (ii_key U)|done]).
           rewrite EX, elem_of_cons in Hx. tauto.
  - intros id' l' Hx. eapply (ii_key U). rewrite EX. by right.
  - done.
Qed.

Lemma tr_node_id l d g (Q : Z → part → Prop) :
  (l, d) ∈ p_nodes g → Q (d_id d) g → tw (act (node_field _id (Some l))) g Q.
Proof.
  intros Hl. apply tr_read. intros G s o V <-. destruct (ni_new (ti_nodes V) _ _ _ Hl) as (_ & n & Hn & <-).
  unfold node_field, mbind, M_bind. by rewrite load_node_run, Hn.
Qed.

(** An edge at a private node is its owner's. *)
Lemma mine_at G h nl j m u v :
  nodes_inv T G h nl → priv (G k) m → Mine j (G j) u v → u = m ∨ v = m → j = k.
Proof.
  intros U Hp Hj Hd. assert (∀ l, Publ (G j) l → l ≠ m) as X1 by (intros l Hl ->; by eapply priv_publ).
  assert (sk ≠ m) by (apply X1; left; apply (rd_sink R)).
  assert (∀ l, priv (G j) l → l = m → j = k) as X2 by (intros l Hl ->; by eapply priv_one).
  destruct Hj as [[A [B|B]]|[[A B]|(_ & A & ->)]]; destruct Hd as [E|E]; subst; eauto;
    try (by apply X1 in B); try (by apply X1 in A); [|done]. exfalso. by apply (X1 m); [right|].
Qed.

Lemma nodes_inv_delete G h nl m x X :
  nodes_inv T G h nl → p_nodes (G k) = (m, x) :: X → m ∉ X.*1 → m ∉ p_bars (G k) →
  nodes_inv T (<[k := set_pnodes X (G k)]> G) (delete m h) nl.
Proof.
  intros U EX HX Hb. assert (owns (G k) m) as Hm by (unfold owns; rewrite EX; by left).
  destruct (owns_new _ _ _ _ _ U Hm) as [_ Hm0]. pose proof U as [H1 H2 H3 H4 H5 H6 H7 H8 H9 H10].
  assert (∀ j l, owns (<[k := set_pnodes X (G k)]> G j) l ↔ l ≠ m ∧ owns (G j) l) as Eo.
  { intros j l. at_thread j k.
    - unfold owns. part_simpl. rewrite EX, fmap_cons, elem_of_cons. simpl. split; [intros Hl; split; [congruence|auto]|tauto].
    - split; [|tauto]. intros Hl. split; [|done]. intros ->. by assert (j = k) by eauto. }
  pose proof (same_at p_bk G k (set_pnodes X (G k)) eq_refl) as Ek. unfold same in *.
  split; intros *; rewrite ?Eo, ?Ek, ?isbar_same, ?isnow_same by done; eauto.
  - intros Hl. assert (l ≠ m) by congruence. rewrite lookup_delete_ne by done. eauto.
  - intros Hl.
    assert (owns (<[k := set_pnodes X (G k)]> G k0) l) as [Hne _]%Eo by (apply list_elem_of_fmap; by eexists (_, _)).
    rewrite lookup_delete_ne by done. apply (H3 k0). revert Hl. at_thread k0 k; [part_simpl; rewrite EX; by right|done].
  - rewrite lookup_delete_is_Some. intros [Hne Hl]. setoid_rewrite Eo. destruct (H4 l Hl) as [?|[j ?]]; eauto.
  - intros [_ ?] [_ ?]. eauto.
  - intros Hx. split; [|eauto]. intros ->. by assert (k0 = k) as -> by (eapply H5; eauto).
Qed.

Lemma edges_inv_delete G h nl m x X :
  nodes_inv T G h nl → edges_inv T G h → p_nodes (G k) = (m, x) :: X → m ∉ p_bars (G k) →
  (∀ u v, (u, v) ∈ p_ex (G k) ∨ (u, v) ∈ p_en (G k) → u ≠ m ∧ v ≠ m) →
  edges_inv T (<[k := set_pnodes X (G k)]> G) (delete m h).
Proof.
  intros U [H1 H2 H3] EX Hb He. assert (priv (G k) m) as Hp by (split; [unfold owns; rewrite EX; by left|done]).
  destruct (owns_new _ _ _ _ _ U (proj1 Hp)) as [_ Hm0].
  assert (∀ u v, u = m ∨ v = m → ¬ edge (nodes s0) u v) as Hold.
  { intros u v Hm Hx. pose proof (edge_live_l _ _ _ Hx) as [? ?]. pose proof (edge_live_r _ _ _ (rd_wf R) Hx) as [? ?].
    destruct Hm as [->| ->]; congruence. }
  assert (∀ j u v, (u, v) ∈ p_ex (G j) ∨ (u, v) ∈ p_en (G j) → ¬ (u = m ∨ v = m)) as Hno.
  { intros j u v Hx Hm. assert (j = k) as -> by (eapply mine_at; eauto). destruct (He _ _ Hx). tauto. }
  split.
  - apply (half_keep s0 p_ex _ _ _ _ (exits h)); [done| |done]. intros w. apply exits_delete, elem_of_nil_inv.
    intros [u v] Hx. pose proof (hi_me H1 _ _ Hx) as Es. simpl in Es. subst u.
    apply (hi_iff H1 m v) in Hx as [Hx|[j Hx]]; [by apply (Hold m v); auto|by apply (Hno j m v); auto].
  - apply (half_keep s0 p_en _ _ _ _ (entries h)); [done| |done]. intros w. apply entries_delete, elem_of_nil_inv.
    intros [u v] Hx. pose proof (hi_me H2 _ _ Hx) as Es. simpl in Es. subst v.
    apply (hi_iff H2 u m) in Hx as [Hx|[j Hx]]; [by apply (Hold u m); auto|by apply (Hno j u m); auto].
  - apply edges_mine_upd; [done|]. part_simpl. intros u v Hx. destruct (He _ _ Hx) as [Hu Hv].
    assert (∀ l, l ≠ m → priv (G k) l → priv (set_pnodes X (G k)) l) as Hpr.
    { intros l Hl [Ho Hbl]. split; [|done]. unfold owns in *. rewrite EX, fmap_cons, elem_of_cons in Ho. simpl in Ho. tauto. }
    destruct (H3 _ _ _ Hx) as [[? [?|?]]|[[? ?]|?]]; [left; auto|left; auto|right; left; auto|by right; right].
Qed.

Lemma tr_delete m x g X (Q : unit → part → Prop) :
  p_nodes g = (m, x) :: X → m ∉ X.*1 → m ∉ p_bars g →
  (∀ u v, (u, v) ∈ p_ex g ∨ (u, v) ∈ p_en g → u ≠ m ∧ v ≠ m) →
  Q tt (set_pnodes X g) → tw (delete_Node_p (Some m)) g Q.
Proof.
  intros EX HX Hb He HQ. apply twp_act. intros G s o V <-. pose proof (ti_nodes V) as U.
  assert (is_Some (nodes s !! m)) as [n Hn] by (eapply nodes_live; [exact U|right; unfold owns; rewrite EX; by left]).
  assert (delete_Node (nodes s) m = Ok (delete m (nodes s))) as Ed by (unfold delete_Node; by rewrite Hn).
  eexists _, _, _. split_and!; [cbn; unfold mbind, M_bind; cbn; by rewrite Ed| |exact HQ].
  inv_split; try keep V; [by eapply nodes_inv_delete|eapply edges_inv_delete; eauto; apply V].
Qed.

(** ** Task objects and cells *)

Lemma tr_task_cell g (Q : option positive → part → Prop) :
  Q (p_cell g) g → tw (act (task_cell (Some (cells k)))) g Q.
Proof.
  apply tr_read. intros G s o V <-. unfold task_cell, mbind, M_bind. cbn -[lookup]. by rewrite (ta_cell (ti_cells V)).
Qed.

Lemma tr_region_cell g (Q : option positive → part → Prop) : Q (Some rp) g → tw (act (region_cell (Some r))) g Q.
Proof.
  apply tr_read. intros G s o V <-. pose proof (ti_rest V) as E. injection E as E _ _ _ _.
  unfold region_cell, mbind, M_bind. cbn -[lookup]. by rewrite E, (rd_cell R).
Qed.

Lemma load_task_run tp s :
  load_task (Some tp) s = match tasks s !! tp with Some d => Ok (d, s) | None => UB UseAfterFree end.
Proof. unfold load_task, lookup_obj. cbn. unfold mbind, M_bind. cbn. by destruct (tasks s !! tp). Qed.

Lemma tr_load_task tp d g (Q : TaskData → part → Prop) :
  p_obj g = Some (tp, d) → Q d g → tw (act (load_task (Some tp))) g Q.
Proof.
  intros E. apply tr_read. intros G s o V <-. rewrite load_task_run. by destruct (ob_new (ti_tasks V) _ _ _ E) as [-> _].
Qed.

Lemma tr_load_parent g (Q : TaskData → part → Prop) :
  (∀ d, td_curr_task_node d = Some np → Q d g) → tw (act (load_task (Some tp0))) g Q.
Proof.
  intros HQ. destruct (rd_parent R) as (d & Hd & Hnp). apply (tr_read _ d); [|auto].
  intros G s o V <-. rewrite load_task_run, (ob_old (ti_tasks V)), Hd; [done|].
  intros j d' Hj. apply (ob_new (ti_tasks V)) in Hj as [_ Hj].
  assert (tp0 < next_loc s0)%positive by (apply (rd_task_addr R); eauto). lia.
Qed.

(** An object that a thread has made was not there before. *)
Lemma objs_fresh {A} (f : part → option (positive * A)) h0 G h nl l d :
  (∀ x, is_Some (h0 !! x) → (x < next_loc s0)%positive) →
  objs_inv h0 (next_loc s0) (fun j => f (G j)) h nl → f (G k) = Some (l, d) → h0 !! l = None.
Proof.
  intros Ha V E. apply eq_None_not_Some. intros Hs%Ha. apply (ob_new V) in E as [_ ?]. lia.
Qed.

Lemma other_part {A} (f : part → A) G g j : j ≠ k → f (<[k := g]> G j) = f (G j).
Proof. intros. by rewrite fn_lookup_insert_ne. Qed.

Lemma this_part {A} (f : part → A) G g : f (<[k := g]> G k) = f g.
Proof. by rewrite fn_lookup_insert. Qed.

Lemma tr_alloc_task g (Q : option positive → part → Prop) :
  p_obj g = None → (∀ tp, Q (Some tp) (set_obj (Some (tp, new_TaskData)) g)) → tw (act alloc_TaskData) g Q.
Proof.
  intros E HQ. apply twp_act. intros G s o V <-. eexists _, _, _. split_and!; [reflexivity| |apply HQ].
  inv_split; try keep V. eapply (objs_alloc _ _ _ _ _ _ k); [apply V|done|apply (other_part p_obj)|apply (this_part p_obj)|apply (ni_next (ti_nodes V))].
Qed.

Lemma tr_modify_task tp d f g (Q : unit → part → Prop) :
  p_obj g = Some (tp, d) → Q tt (set_obj (Some (tp, f d)) g) → tw (act (modify_task (Some tp) f)) g Q.
Proof.
  intros E HQ. apply twp_act. intros G s o V <-. destruct (ob_new (ti_tasks V) _ _ _ E) as [Ed _].
  eexists _, _, _. split_and!; [|shelve|exact HQ].
  { unfold modify_task. cbn -[load_task]. unfold mbind, M_bind. cbn -[load_task]. by rewrite load_task_run, Ed. }
  Unshelve. inv_split; try keep V.
  eapply (objs_set _ _ _ _ _ _ k tp d (Some (f d))); [apply V|done|apply (other_part p_obj)|apply (this_part p_obj)|].
  eapply (objs_fresh p_obj); [apply (rd_task_addr R)|apply V|done].
Qed.

Lemma tr_free_task tp d g (Q : unit → part → Prop) :
  p_obj g = Some (tp, d) → Q tt (set_obj None g) →
  tw (act (modify (fun s => set_tasks (delete tp (tasks s)) s))) g Q.
Proof.
  intros E HQ. apply twp_act. intros G s o V <-. eexists _, _, _. split_and!; [reflexivity| |exact HQ].
  inv_split; try keep V. eapply (objs_set _ _ _ _ _ _ k tp d None); [apply V|done|apply (other_part p_obj)|apply (this_part p_obj)|].
  eapply (objs_fresh p_obj); [apply (rd_task_addr R)|apply V|done].
Qed.

Lemma tr_set_task_cell p g (Q : unit → part → Prop) :
  Q tt (set_cell p g) → tw (act (set_task_cell (Some (cells k)) p)) g Q.
Proof.
  intros HQ. apply twp_act. intros G s o V <-. eexists _, _, _. split_and!; [reflexivity| |exact HQ].
  inv_split; try keep V. destruct (ti_cells V) as [H1 H2]. split.
  - intros j Hj. at_thread j k.
    + destruct p; cbn [store_ptr]; [by rewrite lookup_insert_eq|by rewrite lookup_delete_eq].
    + assert (cells j ≠ cells k) by (intros E; by apply (rd_inj R) in E).
      destruct p; cbn [store_ptr]; rewrite ?lookup_insert_ne, ?lookup_delete_ne by done; by apply H1.
  - intros c Hc. assert (c ≠ cells k) by auto.
    destruct p; cbn [store_ptr]; rewrite ?lookup_insert_ne, ?lookup_delete_ne by done; by apply H2.
Qed.

(** ** Objects of loops and of threads *)

Lemma load_ws_run l s :
  load_ws (Some l) s = match worksharings s !! l with Some d => Ok (d, s) | None => UB UseAfterFree end.
Proof. unfold load_ws, lookup_obj. cbn. unfold mbind, M_bind. cbn. by destruct (worksharings s !! l). Qed.

Lemma tr_load_ws l d g (Q : WorksharingData → part → Prop) :
  p_ws g = Some (l, d) → Q d g → tw (act (load_ws (Some l))) g Q.
Proof.
  intros E. apply tr_read. intros G s o V <-. rewrite load_ws_run. by destruct (ob_new (ti_ws V) _ _ _ E) as [-> _].
Qed.

Lemma tr_alloc_ws g (Q : positive → part → Prop) :
  p_ws g = None → (∀ l, Q l (set_ws (Some (l, new_WorksharingData)) g)) → tw (act alloc_WorksharingData) g Q.
Proof.
  intros E HQ. apply twp_act. intros G s o V <-. eexists _, _, _. split_and!; [reflexivity| |apply HQ].
  inv_split; try keep V. eapply (objs_alloc _ _ _ _ _ _ k); [apply V|done|apply (other_part p_ws)|apply (this_part p_ws)|apply (ni_next (ti_nodes V))].
Qed.

Lemma tr_modify_ws l d f g (Q : unit → part → Prop) :
  p_ws g = Some (l, d) → Q tt (set_ws (Some (l, f d)) g) → tw (act (modify_ws (Some l) f)) g Q.
Proof.
  intros E HQ. apply twp_act. intros G s o V <-. destruct (ob_new (ti_ws V) _ _ _ E) as [Ed _].
  eexists _, _, _. split_and!; [|shelve|exact HQ].
  { unfold modify_ws. cbn -[load_ws]. unfold mbind, M_bind. cbn -[load_ws]. by rewrite load_ws_run, Ed. }
  Unshelve. inv_split; try keep V.
  eapply (objs_set _ _ _ _ _ _ k l d (Some (f d))); [apply V|done|apply (other_part p_ws)|apply (this_part p_ws)|].
  eapply (objs_fresh p_ws); [apply (rd_ws_addr R)|apply V|done].
Qed.

Lemma tr_free_ws l d g (Q : unit → part → Prop) :
  p_ws g = Some (l, d) → Q tt (set_ws None g) →
  tw (act (modify (fun s => set_worksharings (delete l (worksharings s)) s))) g Q.
Proof.
  intros E HQ. apply twp_act. intros G s o V <-. eexists _, _, _. split_and!; [reflexivity| |exact HQ].
  inv_split; try keep V. eapply (objs_set _ _ _ _ _ _ k l d None); [apply V|done|apply (other_part p_ws)|apply (this_part p_ws)|].
  eapply (objs_fresh p_ws); [apply (rd_ws_addr R)|apply V|done].
Qed.

Lemma tr_thread_cell g (Q : option positive → part → Prop) :
  Q (Some (st_objects T k)) g → tw (act (thread_cell (Some (st_threads T k)))) g Q.
Proof.
  apply tr_read. intros G s o V <-. pose proof (ti_rest V) as E. injection E as _ E _ _ _.
  unfold thread_cell, mbind, M_bind. cbn -[lookup]. by rewrite E, (rd_thread R).
Qed.

Lemma load_thread_run l s :
  load_thread (Some l) s = match threads s !! l with Some d => Ok (d, s) | None => UB UseAfterFree end.
Proof. unfold load_thread, lookup_obj. cbn. unfold mbind, M_bind. cbn. by destruct (threads s !! l). Qed.

(** The object of thread [k] when it has ended [n] loops. *)
Definition thread_at (n : nat) : ThreadData :=
  Nat.iter n bump (default (MkThread 0 0) (threads s0 !! st_objects T k)).

Lemma thread_there G s o : Inv G s o → threads s !! st_objects T k = Some (thread_at (p_loops (G k))).
Proof.
  intros V. rewrite (th_mine (ti_threads V)) by done. unfold thread_at. destruct (rd_object R k Hk) as [th ->]. done.
Qed.

Lemma tr_load_thread g (Q : ThreadData → part → Prop) :
  Q (thread_at (p_loops g)) g → tw (act (load_thread (Some (st_objects T k)))) g Q.
Proof. apply tr_read. intros G s o V <-. by rewrite load_thread_run, (thread_there _ _ _ V). Qed.

Lemma tr_bump_thread g (Q : unit → part → Prop) :
  Q tt (set_loops (S (p_loops g)) g) → tw (act (modify_thread (Some (st_objects T k)) bump)) g Q.
Proof.
  intros HQ. apply twp_act. intros G s o V <-. pose proof (thread_there _ _ _ V) as Et.
  eexists _, _, _. split_and!; [|shelve|exact HQ].
  { unfold modify_thread. cbn -[load_thread]. unfold mbind, M_bind. cbn -[load_thread]. by rewrite load_thread_run, Et. }
  Unshelve. inv_split; try keep V. destruct (ti_threads V) as [H1 H2]. split.
  - intros j Hj. at_thread j k.
    + part_simpl. rewrite lookup_insert_eq. unfold thread_at. by destruct (rd_object R k Hk) as [th ->].
    + rewrite lookup_insert_ne by (intros E; by apply (rd_objects R) in E). by apply H1.
  - intros x Hx. rewrite lookup_insert_ne by (intros <-; by apply (Hx k)). by apply H2.
Qed.

(** ** Counters *)

Lemma tr_num_papi g (Q : Z → part → Prop) :
  Q (g_papiNumEvents s0) g → tw (act (read g_papiNumEvents)) g Q.
Proof.
  apply tr_read. intros G s o V <-. pose proof (ti_rest V) as E. injection E as _ _ _ E _. by rewrite <- E.
Qed.

Lemma tr_tick g (Q : nat → part → Prop) : (∀ n, Q n g) → tw (act tick) g Q.
Proof.
  intros HQ. apply twp_act. intros G s o V <-. eexists _, _, _. split_and!; [done| |apply HQ]. inv_split; keep V.
Qed.

(** The counters of a node, when their number is known. *)
Definition array_ok (num : Z) (a : option nat) : Prop :=
  match a with Some len => (num ≤ Z.of_nat len)%Z | None => (num ≤ 0)%Z end.

Lemma tr_endPapi env l d es g (Q : unit → part → Prop) :
  (∀ n es, (Z.of_nat (length (PAPI_stop env n es)) ≤ g_papiNumEvents s0)%Z) →
  (l, d) ∈ p_nodes g → NoDup (p_nodes g).*1 → array_ok (g_papiNumEvents s0) (d_papi d) → Q tt g →
  tw (endPapiCounters_p env (Some l) es) g Q.
Proof.
  intros Henv Hl Hn Ha HQ. apply twp_bind, tr_tick. intros n. specialize (Henv n es).
  apply twp_bind, twp_act. intros G s o V <-.
  destruct (ni_new (ti_nodes V) _ _ _ Hl) as (_ & nd & Hnd & Ed). exists (_papiValsArr nd), s, (G k). split_and!.
  { unfold node_field, mbind, M_bind. by rewrite load_node_run, Hnd. }
  { split; keep V. }
  assert (length <$> _papiValsArr nd = d_papi d) as Elen by (by rewrite <- Ed).
  assert (∃ arr, write_vals (_papiValsArr nd) (PAPI_stop env n es) = Ok arr ∧ length <$> arr = d_papi d) as (arr & Ew & El).
  { unfold write_vals. destruct (_papiValsArr nd) as [a|]; rewrite <- Elen in Ha |- *; simpl in Ha.
    - rewrite decide_True by lia. eexists. split; [done|]. simpl. f_equal. rewrite length_app, length_drop. lia.
    - destruct (PAPI_stop env n es) as [|? ?]; [by exists None|]. simpl in *. lia. }
  rewrite Ew. apply twp_bind, (tr_read _ arr); [done|].
  apply (tr_touch_own l d); try done. intros x Ex. unfold desc_of. simpl. rewrite El, <- Ex. done.
Qed.

Definition region_statics (rd : ParallelRegionData) : Prop := statics rd = (Some tp0, Some sk, Z.of_nat N).

Lemma region_there G rs o : region_inv T G rs o → ∃ rd, rs !! rp = Some rd ∧ region_statics rd.
Proof.
  intros V. pose proof (ri_statics V) as E. destruct (rd_region R) as (rd0 & E0 & Hs & _).
  rewrite E0 in E. destruct (rs !! rp) as [rd|]; [|done]. cbn in E. exists rd. split; [done|].
  assert (statics rd = statics rd0) as Er by congruence. unfold region_statics. by rewrite Er.
Qed.

Lemma tr_region_field {A} (f : ParallelRegionData → A) a g (Q : A → part → Prop) :
  (∀ rd, region_statics rd → f rd = a) → Q a g → tw (act (region_field f (Some rp))) g Q.
Proof.
  intros Hf. apply tr_read. intros G s o V <-. destruct (region_there _ _ _ (ti_region V)) as (rd & Hrd & Hs).
  unfold region_field, mbind, M_bind. rewrite load_region_run, Hrd. cbn. by rewrite (Hf rd Hs).
Qed.

Lemma tr_real_team g (Q : bool → part → Prop) : Q true g → tw (act (real_team (Some rp))) g Q.
Proof.
  apply tr_read. intros G s o V <-. destruct (region_there _ _ _ (ti_region V)) as (rd & Hrd & Hs).
  unfold real_team. rewrite bool_decide_true by done. unfold mbind, M_bind. rewrite load_region_run, Hrd. cbn.
  injection Hs as _ _ ->. pose proof (rd_size R). by rewrite (proj2 (Z.ltb_lt _ _)) by lia.
Qed.

Lemma region_live G s o : Inv G s o → mutex_live s (MBarrier rp) = true.
Proof.
  intros V. destruct (region_there _ _ _ (ti_region V)) as (rd & Hrd & _). simpl. rewrite Hrd. by apply bool_decide_eq_true.
Qed.

(** The barrier of this round becomes known. *)
Definition learn (b : positive) g : part := set_bk (MkKnown (p_bar g) (Some b) (p_bars g) (b :: p_kbs g)) g.

Lemma inv_know G h nl b v :
  p_kb (G k) = None → isnow G b → nodes_inv T G h nl → nodes_inv T (<[k := learn b (set_reg v (G k))]> G) h nl.
Proof.
  intros Hn Hb V. pose proof V as [H1 H2 H3 H4 H5 H6 H7 H8 H9 H10]. set (g' := learn b (set_reg v (G k))).
  pose proof (same_at p_nodes G k g' eq_refl) as E1.
  assert (same (fun g => p_bar g) G (<[k := g']> G)) as E2 by (by apply same_at).
  assert (same (fun g => p_bars g) G (<[k := g']> G)) as E3 by (by apply same_at). unfold same in *.
  assert (∀ j l, owns (<[k := g']> G j) l ↔ owns (G j) l) as Eo by (intros; unfold owns; by rewrite E1).
  assert (∀ l, isbar (<[k := g']> G) l ↔ isbar G l) as Eb by (intros; unfold isbar; by setoid_rewrite E3).
  assert (∀ l, isnow (<[k := g']> G) l ↔ isnow G l) as En by (intros; unfold isnow; by setoid_rewrite E2).
  split; intros *; rewrite ?E1, ?E2, ?E3, ?Eo, ?Eb, ?En; eauto.
  - setoid_rewrite Eo. eauto.
  - at_thread k0 k; [|eauto]. unfold g', learn. part_simpl. rewrite elem_of_cons. intros [->|?]; [|eauto].
    destruct Hb as [j Hj]. exists j. eauto.
  - at_thread k0 k; [|eauto]. unfold g', learn. part_simpl. by intros [= <-].
  - at_thread k0 k; [|eauto]. unfold g', learn. part_simpl. intros Hnow. rewrite elem_of_cons. intros [->|Hx]; [done|].
    pose proof (H10 _ _ Hnow Hx). congruence.
Qed.

Lemma edges_know G h b v : edges_inv T G h → edges_inv T (<[k := learn b (set_reg v (G k))]> G) h.
Proof.
  intros [H1 H2 H3]. split; [by apply (half_keep s0 p_ex _ _ _ _ (exits h))|by apply (half_keep s0 p_en _ _ _ _ (entries h))|].
  apply edges_mine_upd; [done|]. part_simpl. intros u v' Hm%H3. unfold mine, publ, priv, owns, learn in *. part_simpl.
  rewrite !elem_of_cons. naive_solver.
Qed.

(** The mutex of the barrier is taken: the region as the last critical section
    left it. *)
Lemma region_inv_lock G rs o g rd :
  region_inv T G rs o → o !! MBarrier rp = None → rs !! rp = Some rd → p_arr (G k) = false →
  p_bar g = p_bar (G k) → p_arr g = p_arr (G k) → p_reg g = Some (rd, arrived T G) →
  region_inv T (<[k := g]> G) rs (<[MBarrier rp := k]> o).
Proof.
  intros [H1 H2 H3 H4 H5 H6 H7] Ho Hrd Ha E1%(same_at (fun g => p_bar g)) E2 E3.
  pose proof (same_at p_arr G k g E2) as E2'. unfold same in *.
  assert (arrived T (<[k := g]> G) = arrived T G) as Ea by (apply total_ext; intros j; by rewrite E2').
  split; intros *; rewrite ?lookup_insert_eq, ?E1, ?Ea; eauto.
  - intros [= <-]. rewrite fn_lookup_insert. split; [congruence|]. eauto.
  - at_thread k0 k; [done|]. intros Hk0%H4. congruence.
  - done.
  - rewrite E2'. intros [?|Hx]%H6; [by left|congruence].
Qed.

Lemma tr_lock_barrier g (Q : unit → part → Prop) :
  p_arr g = false → p_kb g = None →
  (∀ rd, region_statics rd → pr_barrier_cnt rd = 0%Z → Q tt (set_reg (Some (rd, 0)) g)) →
  (∀ rd A b, region_statics rd → 0 < A < N → pr_barrier_cnt rd = Z.of_nat A → pr_curr_barrier_node rd = Some b →
     (p_bar g = None → ¬ owns g b) → b ∉ p_kbs g → nodes s0 !! b = None → Q tt (learn b (set_reg (Some (rd, A)) g))) →
  tw (lock (MBarrier rp)) g Q.
Proof.
  intros Ha Hkb HQ0 HQ. apply twp_lock. intros G s o V <-. split; [by eapply region_live|]. intros Ho.
  pose proof (ti_region V) as U. destruct (region_there _ _ _ U) as (rd & Hrd & Hs).
  destruct (ri_free U Ho) as (rd' & Hrd' & Hc & Hb). assert (rd' = rd) as -> by congruence.
  assert (arrived T G < N) as Hlt.
  { apply (total_lt N _ k); [intros j; by destruct (p_arr (G j)); lia|done|by rewrite Ha]. }
  rewrite decide_False in Hc by lia. destruct (decide (arrived T G = 0)) as [E|E].
  - exists (set_reg (Some (rd, 0)) (G k)). split; [|apply HQ0; [done|rewrite Hc, E; done]].
    inv_split; try keep V. eapply region_inv_lock; eauto. part_simpl. by rewrite E.
  - destruct Hb as (b & Hcur & Hb); [lia|]. eexists. split.
    2: { pose proof (ti_nodes V) as U'. eapply HQ; [done| |exact Hc|exact Hcur| | |]; [lia| | |].
      - intros Hnb Ho'. destruct Hb as [j Hj]. pose proof (ni_bar U' _ _ (ni_now U' _ _ Hj)) as Hj'.
        assert (j = k) as -> by (by eapply (ni_one U')). congruence.
      - intros Hx. pose proof (ni_know U' _ _ Hb Hx). congruence.
      - destruct Hb as [j Hj]. by apply (owns_new _ _ _ _ _ U' (ni_bar U' _ _ (ni_now U' _ _ Hj))). }
    inv_split; try keep V; [apply inv_know; [done..|apply V]|apply edges_know, V|by eapply region_inv_lock].
Qed.

Lemma tr_load_region rd A g (Q : ParallelRegionData → part → Prop) :
  p_reg g = Some (rd, A) → Q rd g → tw (act (load_region (Some rp))) g Q.
Proof.
  intros E. apply tr_read. intros G s o V <-. pose proof (ti_region V) as U.
  assert (o !! MBarrier rp = Some k) as Ho by (apply (ri_reg U); eauto).
  destruct (ri_hold U _ Ho) as (_ & rd' & E' & Hrd). rewrite load_region_run, Hrd. congruence.
Qed.

Lemma tr_modify_region f rd A g (Q : unit → part → Prop) :
  p_reg g = Some (rd, A) → statics (f rd) = statics rd → Q tt (set_reg (Some (f rd, A)) g) →
  tw (act (modify_region (Some rp) f)) g Q.
Proof.
  intros E Hf HQ. apply twp_act. intros G s o V <-. pose proof (ti_region V) as U.
  assert (o !! MBarrier rp = Some k) as Ho by (apply (ri_reg U); eauto).
  destruct (ri_hold U _ Ho) as (Ha & rd' & E' & Hrd). assert (rd' = rd ∧ A = arrived T G) as [-> ->] by naive_solver.
  eexists _, _, _. split_and!; [by rewrite modify_region_run, Hrd| |exact HQ].
  set (g' := set_reg (Some (f rd, arrived T G)) (G k)).
  pose proof (same_at p_arr G k g' eq_refl) as E2. pose proof (same_at (fun g => p_bar g) G k g' eq_refl) as E1. unfold same in *.
  assert (arrived T (<[k := g']> G) = arrived T G) as Ea by (apply total_ext; intros j; by rewrite E2).
  inv_split; try keep V. destruct U as [H1 H2 H3 H4 H5 H6 H7]. split; intros *; rewrite ?E1, ?E2, ?Ea; eauto.
  - intros Hr. rewrite lookup_insert_ne by done. auto.
  - rewrite lookup_insert_eq, <- H2, Hrd. simpl. by rewrite Hf.
  - rewrite Ho, lookup_insert_eq. intros [= <-]. rewrite fn_lookup_insert. eauto.
  - at_thread k0 k; eauto.
  - congruence.
Qed.

(** The critical section ends: the thread has arrived. *)
Lemma tr_unlock_barrier rd A b g (Q : unit → part → Prop) :
  p_reg g = Some (rd, A) → pr_barrier_cnt rd = (if decide (S A = N) then 0 else Z.of_nat (S A))%Z →
  pr_curr_barrier_node rd = Some b → p_kb g = Some b → Q tt (set_arr true (set_reg None g)) →
  tw (unlock (MBarrier rp)) g Q.
Proof.
  intros E Hc Hcur Hb HQ. apply twp_unlock. intros G s o V <- Ho. split; [by eapply region_live|].
  pose proof (ti_region V) as U. destruct (ri_hold U _ Ho) as (Ha & rd' & E' & Hrd).
  assert (rd' = rd ∧ A = arrived T G) as [-> ->] by naive_solver.
  eexists. split; [|exact HQ]. set (g' := set_arr true (set_reg None (G k))).
  pose proof (same_at (fun g => p_bar g) G k g' eq_refl) as E1. unfold same in *.
  assert (arrived T (<[k := g']> G) = S (arrived T G)) as Ea.
  { pose proof (total_update N (fun g => if p_arr g then 1 else 0) G k g' Hk) as Ht. simpl in Ht. rewrite Ha in Ht.
    unfold arrived. lia. }
  inv_split; try keep V. pose proof U as [H1 H2 H3 H4 H5 H6 H7]. split; intros *; rewrite ?E1, ?Ea, ?lookup_delete_eq; eauto.
  - done.
  - at_thread k0 k; [by intros []|]. intros Hx%H4. congruence.
  - intros _. exists rd. split; [done|]. split; [done|]. intros _. exists b. split; [done|].
    rewrite isnow_same by done. by apply (ni_here (ti_nodes V) k).
  - at_thread k0 k; [by left|]. intros [?|?]%H6; [by left|congruence].
Qed.
End team.
