(* ===== verification/TeamLoops.v ===== *)
(** * The team of a parallel region: the loops of one thread

    A thread of the team runs loops before it comes to the barrier (callbacks.cc:
    [cb_ext_loop], [cb_ext_chunk]).  This file says what the callbacks of a loop
    add to the graph (the start node, one node per chunk, the sink) and shows that
    they add it whatever the other threads do meanwhile. *)
From stdpp Require Import base numbers gmap sorting relations functions list.
From Stdlib Require Import ZArith Lia.
From S2P Require Import Prelude Float64 Graph Locks Callbacks Steps Discipline Threads ThreadLogic TeamInv TeamRules.

(** ** Loops *)

(** A call of [cb_ext_chunk]: the bounds and whether the runtime says that the
    thread gets no more chunks, in which case the call carries none. *)
Record chunk : Type := MkChunk { ck_lower : Z; ck_upper : Z; ck_last : bool }.

Record loop : Type := MkLoop { lo_lower : Z; lo_upper : Z; lo_calls : list chunk }.

(** The chunks that get a node. *)
Definition lo_chunks (l : loop) : list chunk := filter (fun c => ck_last c = false) (lo_calls l).

(** The callbacks of a loop, by the thread with the cell [th] in the task with the
    cell [c]. *)
Definition loop_events (c th : positive) (l : loop) : list event :=
  ExtLoop ompt_scope_begin (Some c) (lo_lower l) (lo_upper l) (Some th) ::
  ((fun ck => ExtChunk (Some c) (ck_lower ck) (ck_upper ck) (ck_last ck) (Some th)) <$> lo_calls l) ++
  [ExtLoop ompt_scope_end (Some c) (lo_lower l) (lo_upper l) (Some th)].

(** The nodes of a loop. *)
Record loop_nodes : Type := MkLoopNodes {
  ln_start : positive;
  ln_sink : positive;
  ln_chunks : list positive }.

Definition nodes_of (ln : loop_nodes) : list positive := ln_start ln :: ln_sink ln :: ln_chunks ln.

(** From the start to the sink, through the chunks if there are some. *)
Definition fan (a z : positive) (cs : list positive) : list (positive * positive) :=
  mjoin ((fun c => [(a, c); (c, z)]) <$> cs).

Definition body_edges (ln : loop_nodes) : list (positive * positive) :=
  match ln_chunks ln with
  | [] => [(ln_start ln, ln_sink ln)]
  | cs => fan (ln_start ln) (ln_sink ln) cs
  end.

(** Each loop begins behind the sink of the one before. *)
Fixpoint strand_edges (u : positive) (L : list loop_nodes) : list (positive * positive) :=
  match L with
  | [] => []
  | ln :: L' => (u, ln_start ln) :: body_edges ln ++ strand_edges (ln_sink ln) L'
  end.

Definition strand_last (u : positive) (L : list loop_nodes) : positive := from_option ln_sink u (last L).

(** What the nodes of the [n]-th loop of a thread carry: the thread's object is
    [th], its number [tn], and there are [num] counters. *)
Section descriptions.
Context (th : nat → ThreadData) (tn num : Z).

Definition chunk_desc (n : nat) (c : chunk) (id : Z) : desc :=
  MkDesc id CHUNK_TASK (ck_lower c) (ck_upper c) (Some (th_loopCounter (th n))) (Some tn)
    (if (0 <? num)%Z then Some (Z.to_nat num) else None).

Definition start_desc (l : loop) (id : Z) : desc := MkDesc id WS_TASK (lo_lower l) (lo_upper l) None None None.

(** The nodes [ln] are those of the loop [l]; [D x d]: the node [x] has the
    description [d]. *)
Definition loop_built (D : positive → desc → Prop) (n : nat) (l : loop) (ln : loop_nodes) : Prop :=
  (∃ id, D (ln_start ln) (start_desc l id)) ∧ (∃ id, D (ln_sink ln) (new_desc id IMP_TASK)) ∧
  Forall2 (fun c x => ∃ id, D x (chunk_desc n c id)) (lo_chunks l) (ln_chunks ln).

Lemma loop_built_mono (D D' : positive → desc → Prop) n l ln :
  (∀ x d, D x d → D' x d) → loop_built D n l ln → loop_built D' n l ln.
Proof.
  intros HD ([i1 H1] & [i2 H2] & H3). split_and!; [eauto..|]. eapply Forall2_impl; [done|]. intros ? ? [id Hid]. eauto.
Qed.
End descriptions.

Lemma strand_edges_snoc u L ln :
  strand_edges u (L ++ [ln]) = strand_edges u L ++ (strand_last u L, ln_start ln) :: body_edges ln.
Proof.
  revert u. induction L as [|x L IH]; intros u; [simpl; by rewrite app_nil_r|].
  cbn [app strand_edges]. rewrite IH, <- app_assoc. unfold strand_last. rewrite last_cons. by destruct (last L).
Qed.

Lemma strand_last_snoc u L ln : strand_last u (L ++ [ln]) = ln_sink ln.
Proof. unfold strand_last. by rewrite last_snoc. Qed.

Lemma elem_of_fan a z cs u v : (u, v) ∈ fan a z cs ↔ ∃ c, c ∈ cs ∧ ((u = a ∧ v = c) ∨ (u = c ∧ v = z)).
Proof.
  unfold fan. rewrite list_elem_of_join. setoid_rewrite list_elem_of_fmap. split.
  - intros (l & Hl & c & -> & Hc). exists c. split; [done|]. set_solver.
  - intros (c & Hc & H). exists [(a, c); (c, z)]. split; [|eauto]. set_solver.
Qed.

Lemma fan_snoc a z cs c : fan a z (cs ++ [c]) = fan a z cs ++ [(a, c); (c, z)].
Proof. unfold fan. rewrite fmap_app. rewrite join_app. done. Qed.

(** ** One thread *)

Section thread.
Context (env : Env) (T : site) (R : ready T) (k : nat) (Hk : k < st_size T).
Abbreviation s0 := (st_start T).
Abbreviation np := (st_node T).
Abbreviation sk := (st_sink T).
Abbreviation tw := (twp (team_inv T) k).
Abbreviation papi := (g_papiNumEvents s0).
Context (Henv : ∀ n es, (Z.of_nat (length (PAPI_stop env n es)) ≤ papi)%Z).
Implicit Types (g : part) (X : list (positive * desc)) (E : list (positive * positive)).

Tactic Notation "rule" open_constr(L) := eapply L; try exact R; try exact Hk.
(** The next step of a program, by the rule [L]. *)
Tactic Notation "step" open_constr(L) := apply twp_bind; rule L.

Lemma tr_create_clean isb ty g (Q : positive → part → Prop) :
  length (p_ids g) < st_budget T k → (∀ id l, (id, l) ∈ p_tab g → id ∈ p_ids g) →
  (isb = true → p_kb g = None ∧ p_bar g = None ∧ ∃ rd, p_reg g = Some (rd, 0)) →
  (∀ id l, ¬ owns g l → nodes s0 !! l = None → l ∉ p_kbs g → id ∉ p_ids g →
     Q l (set_tab ((id, l) :: p_tab g) (with_node isb l id ty (set_ids (id :: p_ids g) g)))) →
  tw (create_clean_node_p ty true) g Q.
Proof.
  intros Hl Ht Hb HQ. step tr_nextId; [done|]. intros id Hid.
  step (tr_alloc T R k Hk isb); [done|]. intros l H1 H2 H3.
  assert (p_tab (with_node isb l id ty (set_ids (id :: p_ids g) g)) = p_tab g) as Et by (by destruct isb).
  step tr_addNode.
  - assert (p_ids (with_node isb l id ty (set_ids (id :: p_ids g) g)) = id :: p_ids g) as -> by (by destruct isb). by left.
  - intros l'. rewrite Et. by intros ?%Ht.
  - rewrite Et. by apply HQ.
Qed.

(** A node that its thread makes behind the node [u]. *)
Lemma tr_create_new isb ty u g (Q : positive → part → Prop) :
  length (p_ids g) < st_budget T k → (∀ id l, (id, l) ∈ p_tab g → id ∈ p_ids g) →
  (isb = true → p_kb g = None ∧ p_bar g = None ∧ ∃ rd, p_reg g = Some (rd, 0)) →
  p_en g = p_ex g →
  (∀ id l, ¬ owns g l → nodes s0 !! l = None → l ∉ p_kbs g → id ∉ p_ids g →
     let g' := set_tab ((id, l) :: p_tab g) (with_node isb l id ty (set_ids (id :: p_ids g) g)) in
     (publ T g' u ∨ owns g' u) ∧ mine T k g' u l ∧ ((u, l) ∉ p_ex g) ∧
     Q l (set_en ((u, l) :: p_ex g) (set_ex ((u, l) :: p_ex g) g'))) →
  tw (create_new_node_p env ty (Some u) true) g Q.
Proof.
  intros Hl Ht Hb Hex HQ. unfold create_new_node_p. rewrite bool_decide_true by done.
  step (tr_create_clean isb); [done..|]. intros id l H1 H2 H3 H4. destruct (HQ id l H1 H2 H3 H4) as (Hu & Hm & Hn & Hq).
  set (g' := set_tab ((id, l) :: p_tab g) (with_node isb l id ty (set_ids (id :: p_ids g) g))) in *.
  assert (p_ex g' = p_ex g) as E1 by (unfold g'; by destruct isb).
  assert (p_en g' = p_ex g) as E2 by (unfold g'; by destruct isb).
  assert (owns g' l) as Ho by (unfold g', owns; destruct isb; by left).
  step tr_connect; [done|by right|done|by rewrite E1|by rewrite E2|]. rewrite E1, E2.
  apply twp_bind. step tr_ftimer. intros t. rule tr_touch; try done. by right.
Qed.

(** *** What the thread has made before it comes to the barrier *)

Definition ids_of X : list Z := (fun x => d_id x.2) <$> X.
Definition tab_of X : list (Z * positive) := (fun x => (d_id x.2, x.1)) <$> X.

Lemma tab_in_ids X id l : (id, l) ∈ tab_of X → id ∈ ids_of X.
Proof. intros (x & [= -> ->] & Hx)%list_elem_of_fmap. apply list_elem_of_fmap. by exists x. Qed.

(** At the start of the round it has made the barriers [Y] and knows the barriers
    [K]; its task has passed the barrier [ob], if any. *)
Section round.
Context {Y : list (positive * desc)} {K : list positive} {ob : option positive}.

(** Its part: the nodes [X] besides [Y], and the edges [E]; its task object [d] at
    [tp]; the object [ws] of its loop; [n] loops are over. *)
Definition running X E tp d ws n : part :=
  MkPart (ids_of (X ++ Y)) (X ++ Y) (tab_of (X ++ Y)) (MkKnown None None Y.*1 K) E E (Some (tp, d)) (Some tp) ws n None false.

(** The task with the current node [cur] and the loop object [w]. *)
Definition task_at (cur : positive) (w : option positive) : TaskData :=
  MkTask (Some cur) w ob (Some sk) (i32 (Z.of_nat k)).

(** The barriers are new and known. *)
Record barriers_ok : Prop := {
  bk_nodup : NoDup Y.*1;
  bk_known b : b ∈ Y.*1 → b ∈ K;
  bk_new b : b ∈ K → nodes s0 !! b = None }.

(** The other nodes are new, and the edges lead from the node of the parent, from
    barriers or from nodes of the thread to nodes of the thread or barriers. *)
Record tidy (xs : list positive) E : Prop := {
  ty_bars : barriers_ok;
  ty_nodup : NoDup xs;
  ty_new x : x ∈ xs → nodes s0 !! x = None ∧ x ∉ K;
  ty_ends u v : (u, v) ∈ E → (u = np ∨ u ∈ xs ∨ u ∈ K) ∧ (v ∈ xs ∨ v ∈ K) }.
Arguments ty_bars {_ _} _.
Arguments ty_nodup {_ _} _.
Arguments ty_new {_ _} _ _ _.
Arguments ty_ends {_ _} _ _ _ _.

Lemma tidy_node xs E l : tidy xs E → l ∉ xs → nodes s0 !! l = None → l ∉ K → tidy (l :: xs) E.
Proof.
  intros [H0 H1 H2 H3] Hl Hn Hk'. split.
  - done.
  - by constructor.
  - intros x. rewrite elem_of_cons. intros [->|?]; auto.
  - intros u v Hx%H3. rewrite !elem_of_cons. tauto.
Qed.

Lemma tidy_edge xs E u v : tidy xs E → u = np ∨ u ∈ xs → v ∈ xs → tidy xs ((u, v) :: E).
Proof.
  intros [H0 H1 H2 H3] Hu Hv. split; [done..|]. intros a b. rewrite elem_of_cons. intros [[= -> ->]|?]; [tauto|auto].
Qed.

Lemma tidy_np xs E x : tidy xs E → x ∈ xs → x ≠ np.
Proof. intros Ht Hx ->. apply (ty_new Ht) in Hx as [Hx _]. destruct (rd_node T R). congruence. Qed.

Lemma tidy_bars xs E x : tidy xs E → x ∈ xs → x ∉ Y.*1.
Proof. intros Ht Hx Hb. apply (ty_new Ht) in Hx as [_ Hx]. apply Hx. by apply (bk_known (ty_bars Ht)). Qed.

Lemma tidy_owns X E x tp d ws n : x ∈ X.*1 → owns (running X E tp d ws n) x.
Proof. unfold owns. cbn. rewrite fmap_app, elem_of_app. by left. Qed.

Lemma tidy_priv X E E' x tp d ws n : tidy X.*1 E → x ∈ X.*1 → priv (running X E' tp d ws n) x.
Proof. intros Ht Hx. split; [by apply (tidy_owns X E')|by eapply tidy_bars]. Qed.

Lemma running_nodup X E : tidy X.*1 E → NoDup (X ++ Y).*1.
Proof.
  intros Ht. rewrite fmap_app. apply NoDup_app. split_and!; [apply Ht| |apply Ht].
  intros x Hx%(ty_new Ht) Hy%(bk_known (ty_bars Ht)). tauto.
Qed.

(** The thread owns a node, by its position among its nodes. *)
Ltac owned := unfold owns; cbn; rewrite ?fmap_app, ?elem_of_cons, ?elem_of_app; tauto.

(** A new node of the thread. *)
Definition fresh X (l : positive) : Prop := (l ∉ (X ++ Y).*1) ∧ (l ∉ K) ∧ nodes s0 !! l = None.

Lemma fresh_X X l : fresh X l → l ∉ X.*1.
Proof. intros [Hl _] Hx. apply Hl. rewrite fmap_app, elem_of_app. by left. Qed.

Lemma fresh_cons X x d l : fresh ((x, d) :: X) l → l ≠ x ∧ fresh X l.
Proof. intros (Hl & H). cbn in Hl. apply not_elem_of_cons in Hl as [? Hl]. split; [done|]. by split. Qed.

Lemma tidy_fresh X E l : tidy X.*1 E → fresh X l → tidy (l :: X.*1) E.
Proof. intros Ht Hf. pose proof (fresh_X _ _ Hf). destruct Hf as (_ & ? & ?). by apply tidy_node. Qed.

Lemma sr_create_clean ty X E tp d ws n (Q : positive → part → Prop) :
  length (X ++ Y) < st_budget T k →
  (∀ id l, fresh X l → Q l (running ((l, new_desc id ty) :: X) E tp d ws n)) →
  tw (create_clean_node_p ty true) (running X E tp d ws n) Q.
Proof.
  intros Hl HQ. rule (tr_create_clean false); [by cbn; unfold ids_of; rewrite length_fmap|apply tab_in_ids|done|].
  intros id l Ho Hn Hk' _. by apply HQ.
Qed.

Lemma sr_create_new ty u X E tp d ws n (Q : positive → part → Prop) :
  length (X ++ Y) < st_budget T k → tidy X.*1 E → u = np ∨ u ∈ X.*1 →
  (∀ id l, fresh X l → Q l (running ((l, new_desc id ty) :: X) ((u, l) :: E) tp d ws n)) →
  tw (create_new_node_p env ty (Some u) true) (running X E tp d ws n) Q.
Proof.
  intros Hl Ht Hu HQ. rule (tr_create_new false); [by cbn; unfold ids_of; rewrite length_fmap|apply tab_in_ids|done|done|].
  intros id l Ho Hn Hk' _. assert (fresh X l) as Hf by done. pose proof (tidy_fresh _ _ _ Ht Hf) as Ht'.
  pose proof (tidy_priv ((l, new_desc id ty) :: X) E E l tp d ws n Ht' ltac:(by left)) as Hp.
  cbn zeta. split_and!.
  - destruct Hu as [->|Hu]; [left; left; apply R|right]. apply (tidy_owns ((l, new_desc id ty) :: X) E). by right.
  - destruct Hu as [->|Hu]; [right; left; split; [left; apply R|done]|left; split; [|by right]].
    apply (tidy_priv ((l, new_desc id ty) :: X) E E u tp d ws n Ht'). by right.
  - intros [_ [Hx|Hx]]%(ty_ends Ht); [by apply (fresh_X _ _ Hf)|by apply Hk'].
  - by apply HQ.
Qed.

(** The thread sets fields of the node that it has just made. *)
Lemma sr_set l d0 d1 f X E tp d ws n (Q : unit → part → Prop) :
  fresh X l → d_id d1 = d_id d0 → (∀ nd, desc_of nd = d0 → desc_of (f nd) = d1) →
  (∀ nd, _exitEdges (f nd) = _exitEdges nd) → (∀ nd, _entryEdges (f nd) = _entryEdges nd) →
  Q tt (running ((l, d1) :: X) E tp d ws n) → tw (act (modify_node (Some l) f)) (running ((l, d0) :: X) E tp d ws n) Q.
Proof.
  intros [Hl _] Hid Hf Hex Hen HQ. rule (tr_set T R k Hk l d0 d1); [left|done..|]. cbn [p_nodes running app].
  rewrite redesc_head by done. unfold running, ids_of, tab_of in *. cbn in *. by rewrite <- Hid.
Qed.

(** *** One loop *)

(** A setter changes the description as it should. *)
Ltac fields :=
  let nd := fresh in let E := fresh in
  intros nd E; injection E; intros; unfold desc_of, start_desc, chunk_desc, new_desc; cbn; congruence.

Abbreviation built := (loop_built (thread_at T k) (i32 (Z.of_nat k)) papi).
Abbreviation chunk_at := (chunk_desc (thread_at T k) (i32 (Z.of_nat k)) papi).

(** In the loop [l], entered behind [cur] with the nodes [X0] and the edges [E0]:
    the nodes [cs] belong to the calls [ds]. *)
Record in_loop X0 E0 cur (l : loop) n a z (cs : list positive) (ds : list chunk) X E : Prop := {
  il_base : tidy X0.*1 E0;
  il_tidy : tidy X.*1 E;
  il_nodes : X.*1 ≡ₚ z :: a :: cs ++ X0.*1;
  il_old x : x ∈ X0 → x ∈ X;
  il_edges u v : (u, v) ∈ E ↔ (u, v) ∈ fan a z cs ∨ (u, v) = (cur, a) ∨ (u, v) ∈ E0;
  il_start : ∃ id, (a, start_desc l id) ∈ X;
  il_sink : ∃ id, (z, new_desc id IMP_TASK) ∈ X;
  il_chunks : Forall2 (fun c x => ∃ id, (x, chunk_at n c id) ∈ X) (filter (fun c => ck_last c = false) ds) cs }.
Arguments il_base {_ _ _ _ _ _ _ _ _ _ _} _.
Arguments il_tidy {_ _ _ _ _ _ _ _ _ _ _} _.
Arguments il_nodes {_ _ _ _ _ _ _ _ _ _ _} _.
Arguments il_old {_ _ _ _ _ _ _ _ _ _ _} _ _ _.
Arguments il_edges {_ _ _ _ _ _ _ _ _ _ _} _ _ _.
Arguments il_start {_ _ _ _ _ _ _ _ _ _ _} _.
Arguments il_sink {_ _ _ _ _ _ _ _ _ _ _} _.
Arguments il_chunks {_ _ _ _ _ _ _ _ _ _ _} _.

Abbreviation ws_at w a z cs := (Some (w, MkWs (Some a) (Some z) (last cs))).

Lemma sr_loop_begin X E tp cur l n :
  tidy X.*1 E → cur ∈ X.*1 → length (X ++ Y) + 2 ≤ st_budget T k →
  tw (run_event_p env (ExtLoop ompt_scope_begin (Some (st_tasks T k)) (lo_lower l) (lo_upper l) (Some (st_threads T k))))
    (running X E tp (task_at cur None) None n)
    (fun _ g => ∃ a z w X' E', in_loop X E cur l n a z [] [] X' E' ∧
      g = running X' E' tp (task_at cur (Some w)) (ws_at w a z []) n).
Proof.
  intros Ht Hcur Hl. unfold run_event_p, cb_ext_loop_p. do 2 (case_decide; try done).
  step tr_task_cell. step tr_thread_cell. apply twp_bind. unfold loop_begin_p. step tr_load_task; [done|].
  cbn [td_curr_task_node task_at]. step tr_add_time; [right; by apply tidy_owns|]. step tr_alloc_ws; [done|]. intros w.
  step (sr_create_new WS_TASK cur X E tp (task_at cur None) (Some (w, new_WorksharingData)) n); [lia|done|by right|].
  intros id a Ha. step tr_modify_ws; [done|].
  step (sr_set a (new_desc id WS_TASK) (start_desc l id)); [done|done|fields|done|done|].
  step (sr_create_clean IMP_TASK ((a, start_desc l id) :: X)); [cbn [length app]; lia|].
  intros id' z Hz.
  step tr_modify_ws; [done|]. rule tr_modify_task; [done|]. apply twp_done.
  exists a, z, w, ((z, new_desc id' IMP_TASK) :: (a, start_desc l id) :: X), ((cur, a) :: E). split; [split|reflexivity].
  - done.
  - apply (tidy_fresh ((a, start_desc l id) :: X)); [|done]. apply tidy_edge; [by apply tidy_fresh|right; by right|by left].
  - done.
  - intros x Hx. do 2 right. done.
  - intros u v. rewrite elem_of_cons. unfold fan. cbn. rewrite elem_of_nil. tauto.
  - exists id. right. by left.
  - exists id'. by left.
  - by constructor.
Qed.

Lemma tr_startPapi l es g (Q : unit → part → Prop) : Q tt g → tw (act (startPapiCounters (Some l) es)) g Q.
Proof.
  intros HQ. apply twp_act. intros G s o V E. destruct (tr_tick T k Hk g (fun _ g' => Q tt g') (fun _ => HQ) G s o V E)
    as (b & s' & g' & Hs & V' & HQ'). exists tt, s', g'. split_and!; [|done|done]. unfold startPapiCounters, mbind, M_bind. by rewrite Hs.
Qed.

Section body.
Context {X0 : list (positive * desc)} {E0 : list (positive * positive)} {cur : positive} {l : loop} {n : nat}.
Context {a z w tp : positive}.
Abbreviation inside := (in_loop X0 E0 cur l n a z).
Abbreviation at_loop X E cs := (running X E tp (task_at cur (Some w)) (ws_at w a z cs) n).

Lemma il_a cs ds X E : inside cs ds X E → a ∈ X.*1.
Proof. intros H. destruct (il_start H) as [id Hx]. apply list_elem_of_fmap. by exists (a, start_desc l id). Qed.

Lemma il_z cs ds X E : inside cs ds X E → z ∈ X.*1.
Proof. intros H. destruct (il_sink H) as [id Hx]. apply list_elem_of_fmap. by exists (z, new_desc id IMP_TASK). Qed.

Lemma il_last cs ds X E c : inside cs ds X E → last cs = Some c → ∃ ck id, (c, chunk_at n ck id) ∈ X.
Proof.
  intros H Hc%last_Some_elem_of. apply list_elem_of_lookup in Hc as [j Hj].
  destruct (Forall2_lookup_r _ _ _ _ _ (il_chunks H) Hj) as (ck & _ & id & ?). eauto.
Qed.

Lemma il_length cs ds X E : inside cs ds X E → length X = 2 + length (filter (fun c => ck_last c = false) ds) + length X0.
Proof.
  intros H. rewrite <- (length_fmap fst X), (Permutation_length (il_nodes H)). cbn [length].
  rewrite length_app, length_fmap, (Forall2_length _ _ _ (il_chunks H)). lia.
Qed.

(** The thread leaves the last chunk. *)
Lemma sr_leave cs ds X E (Q : unit → part → Prop) :
  inside cs ds X E → is_Some (last cs) → Q tt (at_loop X E cs) →
  tw (th ← act (load_thread (Some (st_objects T k)));
    endPapiCounters_p env (last cs) (th_papiEventset th);; add_time_now_p env (last cs)) (at_loop X E cs) Q.
Proof.
  intros H [c Hc] HQ. destruct (il_last _ _ _ _ _ H Hc) as (ck & id & Hx). rewrite Hc in *. step tr_load_thread.
  step (tr_endPapi T R k Hk env c (chunk_at n ck id)); [done|apply elem_of_app; by left|eapply running_nodup, (il_tidy H)| |].
  - cbn. destruct (Z.ltb_spec 0 papi); simpl; lia.
  - rule tr_add_time; [|done]. right. apply tidy_owns, list_elem_of_fmap. by exists (c, chunk_at n ck id).
Qed.

(** The node of a chunk joins the loop. *)
Lemma inside_snoc cs ds X E ck c id :
  inside cs ds X E → ck_last ck = false → fresh X c →
  inside (cs ++ [c]) (ds ++ [ck]) ((c, chunk_at n ck id) :: X) ((c, z) :: (a, c) :: E).
Proof.
  intros H Hck Hc. pose proof H as [H0 H1 H2 H3 H4 [i5 H5] [i6 H6] H7]. split.
  - done.
  - apply tidy_edge; [apply tidy_edge; [by apply tidy_fresh| |by left]|right; by left|].
    + right. right. by eapply il_a.
    + right. by eapply il_z.
  - cbn [fmap list_fmap fst]. rewrite H2, <- app_assoc. cbn [app]. rewrite <- Permutation_middle. by rewrite !(Permutation_swap c).
  - intros x Hx. right. auto.
  - intros u v. rewrite !elem_of_cons, H4, fan_snoc, elem_of_app, !elem_of_cons, elem_of_nil. tauto.
  - exists i5. by right.
  - exists i6. by right.
  - rewrite filter_app, filter_cons, decide_True by done. apply Forall2_app.
    + eapply Forall2_impl; [done|]. intros ? ? [i ?]. exists i. by right.
    + constructor; [|by constructor]. exists id. by left.
Qed.

Lemma inside_last cs ds X E ck : inside cs ds X E → ck_last ck = true → inside cs (ds ++ [ck]) X E.
Proof.
  intros [H0 H1 H2 H3 H4 H5 H6 H7] Hck. split; try done. rewrite filter_app, filter_cons, decide_False by congruence.
  by rewrite app_nil_r.
Qed.

Lemma sr_chunk_node cs ds X E ck :
  inside cs ds X E → ck_last ck = false → length (X ++ Y) < st_budget T k →
  tw (chunk_node ← create_new_node_p env CHUNK_TASK (Some a) true;
    act (modify_node (Some chunk_node) (setLowerUpper (ck_lower ck) (ck_upper ck)));;
    th ← act (load_thread (Some (st_objects T k)));
    act (modify_node (Some chunk_node) (setLoopCounter (th_loopCounter th)));;
    act (modify_node (Some chunk_node) (setThreadId (i32 (Z.of_nat k))));;
    act (modify_ws (Some w) (set_ws_last_chunk_node (Some chunk_node)));;
    connectNodes_p (Some chunk_node) (Some z);;
    num ← act (read g_papiNumEvents);
    act (initPapiVals (Some chunk_node) num);;
    act (startPapiCounters (Some chunk_node) (th_papiEventset th))) (at_loop X E cs)
    (fun _ g => ∃ cs' X' E', inside cs' (ds ++ [ck]) X' E' ∧ g = at_loop X' E' cs').
Proof.
  intros H Hck Hl. pose proof (il_a _ _ _ _ H) as Ha. pose proof (il_z _ _ _ _ H) as Hz.
  step (sr_create_new CHUNK_TASK a X E); [done|apply H|by right|]. intros id c Hc.
  step (sr_set c _ (MkDesc id CHUNK_TASK (ck_lower ck) (ck_upper ck) None None None)); [done|done|fields|done|done|].
  step tr_load_thread. cbn [p_loops running].
  step (sr_set c _ (MkDesc id CHUNK_TASK (ck_lower ck) (ck_upper ck) (Some (th_loopCounter (thread_at T k n))) None None));
    [done|done|fields|done|done|].
  step (sr_set c _ (MkDesc id CHUNK_TASK (ck_lower ck) (ck_upper ck) (Some (th_loopCounter (thread_at T k n))) (Some (i32 (Z.of_nat k))) None));
    [done|done|fields|done|done|].
  step tr_modify_ws; [done|].
  assert ((c, z) ∉ (a, c) :: E) as Hnew.
  { intros [[= Hca _]|Hx]%elem_of_cons; [apply (fresh_X _ _ Hc); by rewrite Hca|].
    pose proof (fresh_X _ _ Hc). destruct Hc as (_ & ? & ?).
    apply (ty_ends (il_tidy H)) in Hx as [[->|[?|?]] _]; [destruct (rd_node T R); congruence|done..]. }
  assert (tidy (c :: X.*1) ((a, c) :: E)) as Ht.
  { apply tidy_edge; [by apply tidy_fresh; [apply H|]|right; by right|by left]. }
  step tr_connect; [right; owned|right; owned| |done|done|].
  { left. split; [|right]; (split; [owned|eapply (tidy_bars _ _ _ Ht)]); [by left|by right]. }
  step tr_num_papi. apply twp_bind. unfold initPapiVals.
  rule (sr_set c _ (chunk_at n ck id)); [done|done| |done|done|].
  { intros nd E1. injection E1. intros. unfold desc_of, chunk_desc. cbn. destruct (0 <? papi)%Z; cbn; rewrite ?length_replicate; congruence. }
  apply tr_startPapi. exists (cs ++ [c]), ((c, chunk_at n ck id) :: X), ((c, z) :: (a, c) :: E).
  split; [by apply inside_snoc|by rewrite last_snoc].
Qed.

Lemma sr_chunk cs ds X E ck :
  inside cs ds X E → (ck_last ck = false → length (X ++ Y) < st_budget T k) →
  tw (run_event_p env (ExtChunk (Some (st_tasks T k)) (ck_lower ck) (ck_upper ck) (ck_last ck) (Some (st_threads T k))))
    (at_loop X E cs) (fun _ g => ∃ cs' X' E', inside cs' (ds ++ [ck]) X' E' ∧ g = at_loop X' E' cs').
Proof.
  intros H Hl. pose proof (il_a _ _ _ _ H) as Ha. unfold run_event_p, cb_ext_chunk_p. step tr_task_cell. step tr_thread_cell.
  step tr_load_task; [done|]. step tr_load_ws; [done|].
  cbn [ws_last_chunk_node ws_start_node ws_sink_node td_curr_ws_data td_threadNum task_at]. apply twp_bind.
  destruct (ck_last ck) eqn:Hck; case_bool_decide as Hc.
  - apply twp_done, twp_done. exists cs, X, E. split; [by apply inside_last|done].
  - rule tr_add_time; [right; by apply tidy_owns|]. apply twp_done. exists cs, X, E. split; [by apply inside_last|done].
  - apply (sr_leave cs ds); [done|done|]. by apply (sr_chunk_node cs ds); auto.
  - rule tr_add_time; [right; by apply tidy_owns|]. by apply (sr_chunk_node cs ds); auto.
Qed.

(** The calls of [cb_ext_chunk], and what follows. *)
Lemma sr_chunks calls rest cs ds X E (Q : unit → part → Prop) :
  inside cs ds X E → length (X ++ Y) + length (filter (fun c => ck_last c = false) calls) ≤ st_budget T k →
  (∀ cs' X' E', inside cs' (ds ++ calls) X' E' → tw (run_p env rest) (at_loop X' E' cs') Q) →
  tw (run_p env (((fun ck => ExtChunk (Some (st_tasks T k)) (ck_lower ck) (ck_upper ck) (ck_last ck) (Some (st_threads T k))) <$> calls)
    ++ rest)) (at_loop X E cs) Q.
Proof.
  revert cs ds X E. induction calls as [|ck calls IH]; intros cs ds X E H Hl HQ.
  - apply HQ. by rewrite app_nil_r.
  - cbn [fmap list_fmap app run_p]. rewrite filter_cons in Hl. apply twp_bind. eapply twp_mono.
    + apply (sr_chunk cs ds); [done|]. intros Hck. rewrite decide_True in Hl by done. cbn [length] in Hl. lia.
    + intros ? g (cs' & X' & E' & H' & ->). apply (IH cs' (ds ++ [ck])); [done| |by rewrite <- app_assoc].
      pose proof (il_length _ _ _ _ H) as L1. pose proof (il_length _ _ _ _ H') as L2. rewrite length_app in Hl |- *.
      rewrite filter_app, filter_cons, length_app in L2. case_decide; cbn [length] in *; rewrite ?filter_nil in L2; simpl in L2; lia.
Qed.

(** The end of the loop: without a chunk, its start leads to its sink. *)
Lemma sr_loop_end cs X E :
  inside cs (lo_calls l) X E →
  tw (run_event_p env (ExtLoop ompt_scope_end (Some (st_tasks T k)) (lo_lower l) (lo_upper l) (Some (st_threads T k))))
    (at_loop X E cs)
    (fun _ g => ∃ E', tidy X.*1 E' ∧ g = running X E' tp (task_at z None) None (S n) ∧
      ∀ u v, (u, v) ∈ E' ↔ (u, v) ∈ body_edges (MkLoopNodes a z cs) ∨ (u, v) = (cur, a) ∨ (u, v) ∈ E0).
Proof.
  intros H. pose proof (il_a _ _ _ _ H) as Ha. pose proof (il_z _ _ _ _ H) as Hz.
  unfold run_event_p, cb_ext_loop_p. do 2 (case_decide; try done). step tr_task_cell. step tr_thread_cell.
  apply twp_bind, twp_done. unfold loop_end_p. step tr_load_task; [done|]. step tr_load_ws; [done|].
  cbn [ws_last_chunk_node ws_start_node ws_sink_node td_curr_ws_data task_at].
  assert (∀ E', tidy X.*1 E' →
    (∀ u v, (u, v) ∈ E' ↔ (u, v) ∈ body_edges (MkLoopNodes a z cs) ∨ (u, v) = (cur, a) ∨ (u, v) ∈ E0) → 
    tw (act (modify_task (Some tp) (set_td_curr_task_node (Some z)));; set_last_time_now_p env (Some z);;
      p ← act (lift (non_null (Some w)));
      act (modify (fun s => set_worksharings (delete p (worksharings s)) s));;
      act (modify_task (Some tp) (set_td_curr_ws_data None));; act (modify_thread (Some (st_objects T k)) bump))
    (at_loop X E' cs) (fun _ g => ∃ E', tidy X.*1 E' ∧ g = running X E' tp (task_at z None) None (S n) ∧
      ∀ u v, (u, v) ∈ E' ↔ (u, v) ∈ body_edges (MkLoopNodes a z cs) ∨ (u, v) = (cur, a) ∨ (u, v) ∈ E0)) as Hend.
  { intros E' Ht HE. step tr_modify_task; [done|]. step tr_set_last_time; [right; by apply (tidy_owns X E')|].
    step (tr_read T k Hk (lift (non_null (Some w))) w); [done|]. step tr_free_ws; [done|].
    step tr_modify_task; [done|]. rule tr_bump_thread. exists E'. done. }
  apply twp_bind. case_bool_decide as Hc.
  - apply (sr_leave cs (lo_calls l)); [done|done|]. apply Hend; [apply H|]. intros u v. rewrite (il_edges H).
    unfold body_edges. cbn. destruct cs; [by destruct Hc|done].
  - assert (cs = []) as -> by (apply last_None; by apply eq_None_not_Some). step tr_add_time; [right; by apply tidy_owns|].
    pose proof (il_nodes H) as Hp. pose proof (ty_nodup (il_tidy H)) as Hn. rewrite Hp in Hn.
    apply NoDup_cons in Hn as [Hn _]. apply not_elem_of_cons in Hn as [Hne Hn]. cbn [app] in Hn.
    assert ((a, z) ∉ E) as Hnew.
    { rewrite (il_edges H). intros [[]%elem_of_nil|[[= _ ?]|Hx]]; [done|].
      apply (ty_ends (il_base H)) in Hx as [_ [?|?]]; [done|]. by apply (ty_new (il_tidy H)) in Hz as [_ ?]. }
    rule tr_connect; [right; by apply tidy_owns|right; by apply tidy_owns| |done|done|].
    { left. split; [|right]; (eapply tidy_priv; [apply H|done]). }
    apply (Hend ((a, z) :: E)); [by apply tidy_edge; [apply H|right|]|]. intros u v. rewrite elem_of_cons, (il_edges H).
    unfold body_edges, fan. cbn. rewrite elem_of_cons, elem_of_nil. tauto.
Qed.
End body.

(** *** All loops of the round *)

(** The ids that the loops draw. *)
Definition loops_cost (ls : list loop) : nat := sum_list_with (fun l => 2 + length (lo_chunks l)) ls.

(** At the start of the round the thread has the nodes [XB] and the edges [EB],
    and has run [nb] loops. *)
Section strand.
Context {XB : list (positive * desc)} {EB : list (positive * positive)} {nb : nat}.

(** What it has when it has run the loops [ls], from the first node [i] of the
    round to its current node [cur]. *)
Record strand i (ls : list loop) (L : list loop_nodes) X E cur : Prop := {
  sd_tidy : tidy X.*1 E;
  sd_nodes : X.*1 ≡ₚ i :: mjoin (nodes_of <$> L) ++ XB.*1;
  sd_base x : x ∈ XB → x ∈ X;
  sd_edges u v : (u, v) ∈ E ↔ (u, v) ∈ strand_edges i L ∨ (u, v) ∈ EB;
  sd_task : ∃ id, (i, new_desc id IMP_TASK) ∈ X;
  sd_length : length L = length ls;
  sd_loops n l ln : ls !! n = Some l → L !! n = Some ln → built (fun x d => (x, d) ∈ X) (nb + n) l ln;
  sd_cur : cur = strand_last i L }.
Arguments sd_tidy {_ _ _ _ _ _} _.
Arguments sd_nodes {_ _ _ _ _ _} _.
Arguments sd_base {_ _ _ _ _ _} _ _ _.
Arguments sd_edges {_ _ _ _ _ _} _ _ _.
Arguments sd_task {_ _ _ _ _ _} _.
Arguments sd_length {_ _ _ _ _ _} _.
Arguments sd_loops {_ _ _ _ _ _} _ _ _ _ _ _.
Arguments sd_cur {_ _ _ _ _ _} _.

Lemma strand_cur i ls L X E cur : strand i ls L X E cur → cur ∈ X.*1.
Proof.
  intros H. rewrite (sd_cur H), (sd_nodes H). unfold strand_last. destruct (last L) as [ln|] eqn:El; [|by left].
  apply last_Some_elem_of in El. right. apply elem_of_app. left. apply list_elem_of_join. exists (nodes_of ln).
  split; [right; by left|]. by apply list_elem_of_fmap_2.
Qed.

Lemma strand_loop i ls L X0 E0 cur l a z cs X E E' :
  strand i ls L X0 E0 cur → in_loop X0 E0 cur l (nb + length ls) a z cs (lo_calls l) X E → tidy X.*1 E' →
  (∀ u v, (u, v) ∈ E' ↔ (u, v) ∈ body_edges (MkLoopNodes a z cs) ∨ (u, v) = (cur, a) ∨ (u, v) ∈ E0) →
  strand i (ls ++ [l]) (L ++ [MkLoopNodes a z cs]) X E' z.
Proof.
  intros H H' Ht HE. split.
  - done.
  - rewrite (il_nodes H'), (sd_nodes H), fmap_app, join_app. cbn. rewrite app_nil_r. unfold nodes_of. cbn. solve_Permutation.
  - intros x Hx. by apply (il_old H'), (sd_base H).
  - intros u v. rewrite HE, (sd_edges H), strand_edges_snoc, <- (sd_cur H). cbn [ln_start].
    rewrite elem_of_app, elem_of_cons. tauto.
  - destruct (sd_task H) as [id Hx]. exists id. by apply (il_old H').
  - rewrite !length_app, (sd_length H). done.
  - intros n l' ln. rewrite !lookup_app_Some, (sd_length H). intros [Hl|[Hn Hl]] [HL|[Hn' HL]];
      [|apply lookup_lt_Some in Hl; lia|apply lookup_lt_Some in HL; rewrite (sd_length H) in HL; lia|].
    + eapply loop_built_mono; [|by eapply (sd_loops H)]. intros x d. apply (il_old H').
    + assert (n = length ls) as -> by (apply lookup_lt_Some in Hl; simpl in Hl; lia).
      rewrite Nat.sub_diag in *. cbn in *. simplify_eq. split_and!; [apply H'|apply H'|apply H'].
  - by rewrite strand_last_snoc.
Qed.

Lemma sr_loops rem rest i ls L X E cur tp (Q : unit → part → Prop) :
  strand i ls L X E cur → length (X ++ Y) + loops_cost rem ≤ st_budget T k →
  (∀ L' X' E' cur', strand i (ls ++ rem) L' X' E' cur' → length X' = length X + loops_cost rem →
     tw (run_p env rest) (running X' E' tp (task_at cur' None) None (nb + length (ls ++ rem))) Q) →
  tw (run_p env (mjoin (loop_events (st_tasks T k) (st_threads T k) <$> rem) ++ rest))
    (running X E tp (task_at cur None) None (nb + length ls)) Q.
Proof.
  revert ls L X E cur. induction rem as [|l rem IH]; intros ls L X E cur H Hl HQ.
  - rewrite app_nil_r in HQ. apply (HQ L X E cur); [done|]. cbn. lia.
  - assert (loops_cost (l :: rem) = 2 + length (lo_chunks l) + loops_cost rem) as Ec by done. rewrite Ec in *.
    rewrite fmap_cons. cbn [mjoin list_join]. unfold loop_events at 1. rewrite <- !app_assoc. cbn [app run_p].
    apply twp_bind. eapply twp_mono; [apply sr_loop_begin; [apply H|by eapply strand_cur|lia]|].
    intros ? g (a & z & w & X1 & E1 & H1 & ->). rewrite <- !app_assoc.
    pose proof (il_length _ _ _ _ H1) as Len. cbn in Len. rewrite !length_app in Hl.
    refine (sr_chunks (l := l) (lo_calls l) _ [] [] X1 E1 _ H1 _ _); [rewrite length_app; unfold lo_chunks in Hl; lia|].
    cbn [app]. intros cs X2 E2 H2.
    pose proof (il_length _ _ _ _ H2) as Len2. cbn [run_p].
    apply twp_bind. eapply twp_mono; [exact (sr_loop_end _ _ _ H2)|]. intros ? g (E' & Ht & -> & HE).
    pose proof (strand_loop _ _ _ _ _ _ _ _ _ _ _ _ _ H H2 Ht HE) as H'.
    replace (S (nb + length ls)) with (nb + length (ls ++ [l])) by (rewrite length_app; cbn; lia).
    assert (length X2 = length X + (2 + length (lo_chunks l))) as Len' by (unfold lo_chunks; lia).
    eapply IH; [exact H'|rewrite length_app; lia|]. intros L' X' E3 cur'. rewrite <- app_assoc. intros Hs HL.
    apply (HQ L'); [done|]. cbn [app]. lia.
Qed.
End strand.
End round.
End thread.

Arguments bk_nodup {_ _ _} _.
Arguments bk_known {_ _ _} _ _ _.
Arguments bk_new {_ _ _} _ _ _.
Arguments ty_bars {_ _ _ _ _} _.
Arguments ty_nodup {_ _ _ _ _} _.
Arguments ty_new {_ _ _ _ _} _ _ _.
Arguments ty_ends {_ _ _ _ _} _ _ _ _.
Arguments sd_tidy {_ _ _ _ _ _ _ _ _ _ _ _ _} _.
Arguments sd_nodes {_ _ _ _ _ _ _ _ _ _ _ _ _} _.
Arguments sd_base {_ _ _ _ _ _ _ _ _ _ _ _ _} _ _ _.
Arguments sd_edges {_ _ _ _ _ _ _ _ _ _ _ _ _} _ _ _.
Arguments sd_task {_ _ _ _ _ _ _ _ _ _ _ _ _} _.
Arguments sd_length {_ _ _ _ _ _ _ _ _ _ _ _ _} _.
Arguments sd_loops {_ _ _ _ _ _ _ _ _ _ _ _ _} _ _ _ _ _ _.
Arguments sd_cur {_ _ _ _ _ _ _ _ _ _ _ _ _} _.
