(* ===== verification/TeamRound.v ===== *)
(** * The team of a parallel region: one round of a thread

    The threads of a team start their implicit tasks, then in each round run loops
    and arrive at a barrier, and at the end of the last round end their tasks
    (callbacks.cc: [cb_implicit_task], [cb_ext_loop], [cb_ext_chunk],
    [cb_sync_region]), interleaved at every access and every lock operation.  This
    file follows one thread through one round. *)
From stdpp Require Import base numbers gmap sorting relations functions list.
From Stdlib Require Import ZArith Lia.
From S2P Require Import Prelude Float64 Graph Locks Callbacks Steps Discipline Threads ThreadLogic TeamInv TeamRules TeamLoops.

(** The callbacks of thread [k] in a round in which it runs the loops [ls]: it
    starts its task or leaves the barrier of the round before; it arrives at the
    barrier; in the last round it also leaves it and ends its task. *)
Definition barrier_events (T : site) (k : nat) (ep : ompt_scope_endpoint_t) : event :=
  SyncRegion ompt_sync_region_barrier ep (Some (st_cell T)) (Some (st_tasks T k)).

Definition task_event (T : site) (k : nat) (ep : ompt_scope_endpoint_t) : event :=
  ImplicitTask ep (Some (st_cell T)) (Some (st_tasks T k)) (Z.of_nat (st_size T)) (Z.of_nat k).

Definition member_round (T : site) (k : nat) (starts ends : bool) (ls : list loop) : list event :=
  (if starts then task_event T k ompt_scope_begin else barrier_events T k ompt_scope_end) ::
  mjoin (loop_events (st_tasks T k) (st_threads T k) <$> ls) ++
  barrier_events T k ompt_scope_begin ::
  (if ends then [barrier_events T k ompt_scope_end; task_event T k ompt_scope_end] else []).

(** The ids that the rounds with the loops [lss] draw: in each of them also for a
    barrier and for the node behind it. *)
Definition rounds_cost (lss : list (list loop)) : nat := sum_list_with (fun ls => 2 + loops_cost ls) lss.

(** ** What a thread has made in the rounds that are over *)

Record round_nodes : Type := MkRound {
  rn_first : positive;
  rn_loops : list loop_nodes;
  rn_barrier : positive }.

Definition members (r : round_nodes) : list positive := rn_first r :: mjoin (nodes_of <$> rn_loops r).

Fixpoint rounds_edges (u : positive) (H : list round_nodes) : list (positive * positive) :=
  match H with
  | [] => []
  | r :: H' =>
      (u, rn_first r) :: strand_edges (rn_first r) (rn_loops r) ++
      (strand_last (rn_first r) (rn_loops r), rn_barrier r) :: rounds_edges (rn_barrier r) H'
  end.

Definition last_barrier (u : positive) (H : list round_nodes) : positive := from_option rn_barrier u (last H).

Lemma rounds_edges_snoc u H r :
  rounds_edges u (H ++ [r]) = rounds_edges u H ++ (last_barrier u H, rn_first r) ::
    strand_edges (rn_first r) (rn_loops r) ++ [(strand_last (rn_first r) (rn_loops r), rn_barrier r)].
Proof.
  revert u. induction H as [|x H IH]; intros u; [done|]. cbn [app rounds_edges].
  rewrite IH, <- !app_assoc. unfold last_barrier. rewrite last_cons. cbn. by destruct (last H).
Qed.

Lemma last_barrier_snoc u H r : last_barrier u (H ++ [r]) = rn_barrier r.
Proof. unfold last_barrier. by rewrite last_snoc. Qed.

Section built.
Context (T : site) (k : nat) (D : positive → desc → Prop).

(** The nodes of a round are those of its loops; [n] loops were over before. *)
Definition round_built (n : nat) (ls : list loop) (r : round_nodes) : Prop :=
  (∃ id, D (rn_first r) (new_desc id IMP_TASK)) ∧ length (rn_loops r) = length ls ∧
  ∀ i l ln, ls !! i = Some l → rn_loops r !! i = Some ln →
    loop_built (thread_at T k) (i32 (Z.of_nat k)) (g_papiNumEvents (st_start T)) D (n + i) l ln.

Fixpoint rounds_built (n : nat) (lss : list (list loop)) (H : list round_nodes) : Prop :=
  match lss, H with
  | [], [] => True
  | ls :: lss', r :: H' => round_built n ls r ∧ rounds_built (n + length ls) lss' H'
  | _, _ => False
  end.

Lemma rounds_built_snoc n lss H ls r :
  rounds_built n lss H → round_built (n + sum_list_with length lss) ls r → rounds_built n (lss ++ [ls]) (H ++ [r]).
Proof.
  revert n H. induction lss as [|ls0 lss IH]; intros n [|r0 H]; cbn [rounds_built app sum_list_with]; try done.
  - intros _ Hr. split; [|done]. by rewrite Nat.add_0_r in Hr.
  - intros [H0 HH] Hr. split; [done|]. apply IH; [done|]. by rewrite <- Nat.add_assoc.
Qed.
End built.

Lemma round_built_mono T k (D D' : positive → desc → Prop) n ls r :
  (∀ x d, D x d → D' x d) → round_built T k D n ls r → round_built T k D' n ls r.
Proof.
  intros HD ([i H1] & H2 & H3). split_and!; [eauto|done|]. intros j l ln Hl HL. eapply loop_built_mono; [exact HD|eauto].
Qed.

Lemma rounds_built_mono T k (D D' : positive → desc → Prop) n lss H :
  (∀ x d, D x d → D' x d) → rounds_built T k D n lss H → rounds_built T k D' n lss H.
Proof.
  intros HD. revert n H. induction lss as [|ls lss IH]; intros n [|r H]; cbn [rounds_built]; try done.
  intros [? ?]. split; [by eapply round_built_mono|by apply IH].
Qed.

(** After the rounds with the loops [lss] thread [k] has the nodes [X] of these
    rounds and the edges [E]; the barriers [bs] are passed, the last one first. *)
Record history (T : site) (k : nat) (lss : list (list loop)) (H : list round_nodes) (X : list (positive * desc))
    (E : list (positive * positive)) (bs : list positive) : Prop := {
  hy_nodes : X.*1 ≡ₚ mjoin (members <$> H);
  hy_edges u v : (u, v) ∈ E ↔ (u, v) ∈ rounds_edges (st_node T) H;
  hy_built : rounds_built T k (fun x d => (x, d) ∈ X) 0 lss H;
  hy_bars : rn_barrier <$> H = reverse bs;
  hy_distinct : NoDup bs }.
Arguments hy_nodes {_ _ _ _ _ _ _} _.
Arguments hy_edges {_ _ _ _ _ _ _} _ _ _.
Arguments hy_built {_ _ _ _ _ _ _} _.
Arguments hy_bars {_ _ _ _ _ _ _} _.
Arguments hy_distinct {_ _ _ _ _ _ _} _.

(** A round is added: the loops [L] from [cur] to [z], the barrier [b]. *)
Lemma history_round T k lss H XB E0 cur bs ls L X E z b (Y : list (positive * desc)) :
  history T k lss H XB E0 bs → b ∉ bs →
  strand T k (Y := Y) (K := bs) (XB := XB) (EB := (last_barrier (st_node T) H, cur) :: E0)
    (nb := sum_list_with length lss) cur ls L X E z →
  history T k (lss ++ [ls]) (H ++ [MkRound cur L b]) X ((z, b) :: E) (b :: bs).
Proof.
  intros HH Hb Hs. split.
  - rewrite (sd_nodes Hs), (hy_nodes HH), fmap_app, join_app. cbn. unfold members at 2. cbn. rewrite app_nil_r. solve_Permutation.
  - intros u v. rewrite elem_of_cons, (sd_edges Hs), elem_of_cons, (hy_edges HH), rounds_edges_snoc.
    cbn [rn_first rn_loops rn_barrier]. rewrite <- (sd_cur Hs), elem_of_app, elem_of_cons, elem_of_app, list_elem_of_singleton. tauto.
  - apply rounds_built_snoc.
    + eapply rounds_built_mono; [|apply HH]. intros x d. apply (sd_base Hs).
    + split_and!; [apply Hs|apply Hs|]. intros i l ln Hl HL. by apply (sd_loops Hs).
  - rewrite fmap_app, (hy_bars HH), reverse_cons. done.
  - constructor; [done|apply HH].
Qed.

(** ** One thread *)

Section member.
Context (env : Env) (T : site) (R : ready T) (k : nat) (Hk : k < st_size T).
Abbreviation s0 := (st_start T).
Abbreviation N := (st_size T).
Abbreviation r := (st_cell T).
Abbreviation rp := (st_region T).
Abbreviation np := (st_node T).
Abbreviation sk := (st_sink T).
Abbreviation tp0 := (st_parent T).
Abbreviation c := (st_tasks T k).
Abbreviation tw := (twp (team_inv T) k).
Implicit Types (g : part) (X : list (positive * desc)) (E : list (positive * positive)).

Tactic Notation "rule" open_constr(L) := eapply L; try exact R; try exact Hk.
Tactic Notation "step" open_constr(L) := apply twp_bind; rule L.

Lemma member_begin (Q : unit → part → Prop) :
  1 ≤ st_budget T k →
  (∀ i id tp, nodes s0 !! i = None →
    Q tt (running (Y := []) (K := []) [(i, new_desc id IMP_TASK)] [(np, i)] tp (task_at T k (ob := None) i None) None 0)) →
  tw (run_event_p env (task_event T k ompt_scope_begin)) part0 Q.
Proof.
  intros Hl HQ. unfold task_event, run_event_p, cb_implicit_task_p. do 2 (case_decide; try done). apply twp_bind. unfold implicit_task_begin_p.
  step tr_region_cell. step tr_alloc_task; [done|]. intros tp.
  step (tr_region_field T R k Hk pr_parent_task_data (Some tp0)); [intros rd Hs; unfold region_statics, statics in Hs; congruence|].
  step tr_load_parent. intros d ->.
  step (tr_create_new env T R k Hk false); [cbn; lia|by intros ? ? ?%elem_of_nil|done|done|]. intros id i H1 H2 H3 _. part_simpl.
  split_and!; [left; left; apply R| |by intros ?%elem_of_nil|].
  { right; left. split; [left; apply R|]. split; [by left|]. part_simpl. by intros ?%elem_of_nil. }
  step tr_modify_task; [done|]. step (tr_region_field T R k Hk pr_sink_node (Some sk)); [intros rd Hs; unfold region_statics, statics in Hs; congruence|].
  do 2 (step tr_modify_task; [done|]). rule tr_set_task_cell. apply twp_done. by apply (HQ i id tp).
Qed.

(** The thread leaves a barrier. *)
Lemma member_leave tp d m g (Q : unit → part → Prop) :
  p_cell g = Some tp → p_obj g = Some (tp, d) → td_curr_task_node d = Some m → owns g m → Q tt g →
  tw (run_event_p env (barrier_events T k ompt_scope_end)) g Q.
Proof.
  intros Hc Hd Hm Ho HQ. unfold barrier_events, run_event_p, cb_sync_region_p. do 3 (case_decide; try done).
  step tr_task_cell. rewrite Hc. step tr_region_cell. apply twp_bind, twp_done.
  unfold barrier_end_p. step tr_real_team. step tr_load_task; [done|]. rewrite Hm.
  rule tr_set_last_time; [by right|done].
Qed.

(** *** The barrier *)

Section barrier.
Context {Y : list (positive * desc)} {K : list positive} {ob : option positive}.
Context {X : list (positive * desc)} {E : list (positive * positive)} {cur tp : positive} {n : nat}.
Context (Ht : tidy T (Y := Y) (K := K) X.*1 E) (Hcur : cur ∈ X.*1) (Hlen : length (X ++ Y) + 2 ≤ st_budget T k).
Abbreviation before := (running (Y := Y) (K := K) X E tp (task_at T k (ob := ob) cur None) None n).

(** The nodes of a thread that has passed the barrier: if it came first ([isb]),
    also the barrier [b]. *)
Definition new_bar (isb : bool) b id2 : list (positive * desc) := if isb then [(b, new_desc id2 BARRIER)] else [].
Definition made (isb : bool) b id2 : list (positive * desc) := new_bar isb b id2 ++ X ++ Y.

Definition knows (isb : bool) b id2 : known :=
  MkKnown (if isb then Some b else None) (Some b) (new_bar isb b id2 ++ Y).*1 (b :: K).

Definition at_barrier isb b id2 reg arr : part :=
  MkPart (ids_of (made isb b id2)) (made isb b id2) (tab_of (made isb b id2)) (knows isb b id2)
    ((cur, b) :: E) ((cur, b) :: E) (Some (tp, MkTask (Some cur) None (Some b) (Some sk) (i32 (Z.of_nat k)))) (Some tp)
    None n reg arr.

(** The region as the [A]-th arrival after the first leaves it. *)
Definition counted (rd : ParallelRegionData) (A : nat) (b : positive) : Prop :=
  pr_barrier_cnt rd = (if decide (S A = N) then 0 else Z.of_nat (S A))%Z ∧ pr_curr_barrier_node rd = Some b.

(** A barrier node that the thread has not seen. *)
Definition unseen b : Prop := (b ∉ X.*1) ∧ (b ∉ K) ∧ nodes s0 !! b = None.

Lemma count_up A : A < N → u32 (Z.of_nat A + 1) = Z.of_nat (S A).
Proof. intros HA. pose proof (rd_width _ R). rewrite u32_small; lia. Qed.

Lemma length_ids : length (ids_of (X ++ Y)) + 2 ≤ st_budget T k.
Proof. unfold ids_of. by rewrite length_fmap. Qed.

Lemma cur_priv : cur ∉ Y.*1.
Proof. by apply (tidy_bars _ _ _ _ Ht). Qed.

Lemma unseen_edge b u : unseen b → (u, b) ∉ E.
Proof. intros (? & ? & _) [_ [?|?]]%(ty_ends Ht); done. Qed.

Lemma member_first rd :
  region_statics T rd → pr_barrier_cnt rd = 0%Z →
  tw (arrive_p env (Some tp) (Some rp)) (set_reg (Some (rd, 0)) before)
    (fun r g' => ∃ b id2 rd', r = (Some b, true) ∧ unseen b ∧ (b ∉ Y.*1) ∧ counted rd' 0 b ∧
       g' = at_barrier true b id2 (Some (rd', 0)) false).
Proof.
  intros Hs Hc. pose proof (rd_size _ R). pose proof length_ids. unfold arrive_p. step tr_load_region; [done|].
  step tr_modify_region; [done|done|]. rewrite Hc, (decide_True _ _ eq_refl). part_simpl. apply twp_bind.
  step tr_load_task; [done|]. cbn [td_curr_task_node TeamLoops.task_at].
  step (tr_create_new env T R k Hk true); [cbn; lia|apply tab_in_ids|by eauto|done|].
  intros id2 b H1 H2 H3 _. cbn zeta. assert ((b ∉ X.*1) ∧ (b ∉ Y.*1)) as [Hb HbY].
  { unfold owns in H1. part_simpl. cbn in H1. rewrite fmap_app, elem_of_app in H1. tauto. }
  assert (unseen b) as Hu by done. assert (cur ≠ b) by (intros ->; done).
  assert (cur ∈ (X ++ Y).*1) as Hown by (rewrite fmap_app, elem_of_app; by left). split_and!.
  { right. by right. }
  { left. split; [split; [by right|]|left; right; by left]. cbn. apply not_elem_of_cons. split; [done|apply cur_priv]. }
  { by apply unseen_edge. }
  step tr_modify_region; [done|done|]. apply twp_done. step tr_modify_task; [done|].
  apply twp_done. eexists b, id2, _. split_and!; [done|done|done| |reflexivity]. split; [|done]. cbn.
  rewrite decide_False by lia. by apply (count_up 0); lia.
Qed.

Lemma member_next rd A b :
  region_statics T rd → 0 < A < N → pr_barrier_cnt rd = Z.of_nat A → pr_curr_barrier_node rd = Some b → unseen b →
  tw (arrive_p env (Some tp) (Some rp)) (learn b (set_reg (Some (rd, A)) before))
    (fun r g' => ∃ rd', r = (Some b, false) ∧ counted rd' A b ∧ g' = at_barrier false b 0 (Some (rd', A)) false).
Proof.
  intros Hs HA Hc Hb Hnb. unfold arrive_p. step tr_load_region; [done|].
  step tr_modify_region; [done|done|]. rewrite Hc, decide_False by lia. rewrite count_up by lia. part_simpl.
  apply twp_bind. step tr_load_region; [done|]. step tr_load_task; [done|].
  cbn [pr_curr_barrier_node set_pr_barrier_cnt td_curr_task_node TeamLoops.task_at].
  pose proof (unseen_edge b cur Hnb) as Hnew. assert (cur ∈ (X ++ Y).*1) as Hown by (rewrite fmap_app, elem_of_app; by left).
  rewrite Hb. step tr_connect; [by right|left; right; by left| |done|done|].
  { left. split; [split; [done|apply cur_priv]|left; right; by left]. }
  part_simpl. cbn [pr_team_size pr_barrier_cnt set_pr_barrier_cnt]. injection Hs as _ _ Hsize. rewrite Hsize.
  destruct (Z.leb_spec (Z.of_nat N) (Z.of_nat (S A))) as [Hle|Hle]; apply twp_bind.
  - rule tr_modify_region; [done|done|]. apply twp_done. step tr_modify_task; [done|]. apply twp_done.
    eexists. split_and!; [done| |reflexivity]. split; [|done]. cbn. by rewrite decide_True by lia.
  - apply twp_done, twp_done. step tr_modify_task; [done|]. apply twp_done.
    eexists. split_and!; [done| |reflexivity]. split; [|done]. cbn. by rewrite decide_False by lia.
Qed.

(** The part of a thread behind the barrier: its new node [m] is the last it made. *)
Definition behind isb b id2 id3 m : part :=
  MkPart (id3 :: ids_of (made isb b id2)) ((m, new_desc id3 IMP_TASK) :: made isb b id2) ((id3, m) :: tab_of (made isb b id2))
    (knows isb b id2) ((b, m) :: (cur, b) :: E) ((b, m) :: (cur, b) :: E)
    (Some (tp, MkTask (Some m) None (Some b) (Some sk) (i32 (Z.of_nat k)))) (Some tp) None n None true.

Definition behind_ok (isb : bool) b id2 id3 m : Prop :=
  unseen b ∧ (isb = true → b ∉ Y.*1) ∧ nodes s0 !! m = None ∧ m ≠ b ∧ (m ∉ K) ∧ (m ∉ (made isb b id2).*1) ∧
  (id3 ∉ ids_of (made isb b id2)).

Lemma made_old isb b id2 x : x ∈ X.*1 → x ∈ (made isb b id2).*1.
Proof. unfold made. rewrite !fmap_app, !elem_of_app. tauto. Qed.

Lemma made_bars isb b id2 m : m ∉ (made isb b id2).*1 → m ∉ (new_bar isb b id2 ++ Y).*1.
Proof. unfold made. rewrite !fmap_app, !elem_of_app. tauto. Qed.

Lemma member_behind isb b id2 (new : bool) (Q : unit → part → Prop) :
  new = isb → unseen b → (isb = true → b ∉ Y.*1) → (∀ id3 m, behind_ok isb b id2 id3 m → Q tt (behind isb b id2 id3 m)) →
  tw (node ← create_new_node_p env IMP_TASK (Some b) true;
      act (modify_task (Some tp) (set_td_curr_task_node (Some node)));;
      if new then d ← act (load_task (Some tp)); connectNodes_p (Some b) (td_curr_task_node d) else nop)
    (at_barrier isb b id2 None true) Q.
Proof.
  intros -> Hu HbY HQ. pose proof length_ids as Hl.
  step (tr_create_new env T R k Hk false); [by destruct isb; cbn in *; unfold ids_of in *; lia|apply tab_in_ids|done|done|].
  intros id3 m H1 H2 H3 H4. cbn zeta. assert (m ∉ (made isb b id2).*1) as Hm by done.
  cbn in H3. apply not_elem_of_cons in H3 as [Hmb HmK].
  assert ((b, m) ∉ (cur, b) :: E) as Hnew.
  { intros [[= _ ?]|[_ [?|?]]%(ty_ends Ht)]%elem_of_cons; [done| |done]. by apply Hm, made_old. }
  assert (∀ g, p_nodes g = (m, new_desc id3 IMP_TASK) :: made isb b id2 → p_bk g = knows isb b id2 → mine T k g b m) as Hmine.
  { intros g E1 E2. right; left. split; [right; rewrite E2; by left|]. split; [unfold owns; rewrite E1; by left|].
    rewrite E2. by apply made_bars. }
  split_and!; [left; right; by left|by apply Hmine|done|].
  step tr_modify_task; [done|]. assert (Q tt (behind isb b id2 id3 m)) as HQ' by (by apply HQ).
  destruct isb; [|exact HQ'].
  step tr_load_task; [done|]. rule tr_connect_again; [left; right; by left|by apply Hmine|by left|exact HQ'].
Qed.

Lemma member_arrive (Q : unit → part → Prop) :
  (∀ isb b id2 id3 m, behind_ok isb b id2 id3 m → Q tt (behind isb b id2 id3 m)) →
  tw (run_event_p env (barrier_events T k ompt_scope_begin)) before Q.
Proof.
  intros HQ. unfold barrier_events, run_event_p, cb_sync_region_p. do 3 (case_decide; try done).
  step tr_task_cell. step tr_region_cell. apply twp_bind.
  unfold barrier_begin_p. step tr_real_team. step tr_load_task; [done|].
  cbn [td_curr_task_node TeamLoops.task_at]. step tr_add_time; [right; by apply tidy_owns|].
  step (tr_read T k Hk (lift (non_null (Some rp))) rp); [done|]. step tr_lock_barrier; [done..| |].
  - intros rd Hs Hc. apply twp_bind. eapply twp_mono; [by apply member_first|].
    intros ? ? (b & id2 & rd' & -> & Hb & HbY & [Hc' Hcur'] & ->). step tr_unlock_barrier; [done..|].
    apply (member_behind true b id2 true); [done..|]. intros id3 m Hb'. apply twp_done. by apply HQ.
  - intros rd A b Hs HA Hc Hcur0 Hown HK Hnb. assert (unseen b) as Hb.
    { split_and!; [|done|done]. intros Hx. by apply Hown, tidy_owns. }
    apply twp_bind. eapply twp_mono; [by eapply member_next|].
    intros ? ? (rd' & -> & [Hc' Hcur'] & ->). step tr_unlock_barrier; [done..|].
    apply (member_behind false b 0 false); [done..|]. intros id3 m Hb'. apply twp_done. by apply HQ.
Qed.

(** The part of a thread that has ended its implicit task. *)
Definition final_edges b : list (positive * positive) := (if decide (k = 0) then [(b, sk)] else []) ++ (cur, b) :: E.

Definition ended isb b id2 id3 : part :=
  MkPart (id3 :: ids_of (made isb b id2)) (made isb b id2) (tab_of (made isb b id2)) (knows isb b id2)
    (final_edges b) (final_edges b) None None None n None true.

Lemma sink_edge b : unseen b → (b, sk) ∉ (cur, b) :: E.
Proof.
  intros (_ & _ & Hb). destruct (rd_sink _ R) as [x Hx].
  intros [[= -> <-]|[_ [Hs|Hs]]%(ty_ends Ht)]%elem_of_cons; [congruence| |].
  - apply (ty_new Ht) in Hs as [? _]. congruence.
  - apply (bk_new (ty_bars Ht)) in Hs. congruence.
Qed.

Lemma behind_edges isb b id2 id3 m : behind_ok isb b id2 id3 m → ∀ u v, (u, v) ∈ (cur, b) :: E → u ≠ m ∧ v ≠ m.
Proof.
  intros (_ & _ & Hm0 & Hmb & HmK & Hm & _). assert (∀ x, x ∈ X.*1 → x ≠ m) as Hx by (intros x Hx ->; by apply Hm, made_old).
  assert (∀ x, x ∈ K → x ≠ m) as HK by (by intros x Hx' ->).
  intros u v [[= -> ->]|[Hu Hv]%(ty_ends Ht)]%elem_of_cons; [by split; auto|]. split; [|by destruct Hv; auto].
  destruct Hu as [->|[?|?]]; [|by auto..]. intros <-. destruct (rd_node _ R). congruence.
Qed.

Lemma member_end isb b id2 id3 m (Q : unit → part → Prop) :
  behind_ok isb b id2 id3 m → Q tt (ended isb b id2 id3) →
  tw (run_event_p env (task_event T k ompt_scope_end)) (behind isb b id2 id3 m) Q.
Proof.
  intros Hok HQ. pose proof (behind_edges _ _ _ _ _ Hok) as Hold. destruct Hok as (Hu & _ & Hm0 & Hmb & HmK & Hm & Hid).
  pose proof (sink_edge b Hu) as Hsink. unfold task_event, run_event_p, cb_implicit_task_p. do 2 (case_decide; try done).
  apply twp_bind, twp_done. unfold implicit_task_end_p. step tr_task_cell. step tr_load_task; [done|].
  cbn [td_curr_barrier_node td_curr_task_node td_sink_node]. rewrite bool_decide_true by done. apply twp_bind.
  step (tr_disconnect T R k Hk b m _ ((cur, b) :: E)); [left; right; by left|right; by left|done|done| |].
  { intros Hx. by apply Hold in Hx as [_ ?]. }
  step tr_node_id; [by left|].
  step (tr_removeNode T R k Hk id3 m _ (tab_of (made isb b id2))); [done|by intros l' ?%tab_in_ids|].
  step (tr_delete T R k Hk m (new_desc id3 IMP_TASK) _ (made isb b id2)); [done|done|by apply made_bars| |].
  { intros u v Hx. apply Hold. by destruct Hx. }
  part_simpl.
  assert (∀ E', E' = final_edges b → tw (l ← act (lift (non_null (Some tp)));
    act (modify (fun s => set_tasks (delete l (tasks s)) s));; act (set_task_cell (Some c) None))
    (MkPart (id3 :: ids_of (made isb b id2)) (made isb b id2) (tab_of (made isb b id2)) (knows isb b id2)
      E' E' (Some (tp, MkTask (Some m) None (Some b) (Some sk) (i32 (Z.of_nat k)))) (Some tp) None n None true) Q) as Hfree.
  { intros E' ->. step (tr_read T k Hk (lift (non_null (Some tp))) tp); [done|].
    step tr_free_task; [done|]. rule tr_set_task_cell. done. }
  unfold final_edges in Hfree. clear Hlen. case_decide as Hk0; case_decide as Hk0'; try lia.
  - rule tr_connect; [left; right; by left|left; left; apply R| |done|done|by apply Hfree]. right; right. split_and!; [done|by left|done].
  - apply twp_done. by apply Hfree.
Qed.
End barrier.

(** *** A round *)

(** At the start of a round: the rounds with the loops [lss] are over. *)
Definition at_start (lss : list (list loop)) (bs : list positive) g : Prop :=
  ∃ Y ob H XB E id cur tp,
    tidy T (Y := Y) (K := bs) (cur :: XB.*1) ((last_barrier np H, cur) :: E) ∧
    (∀ x d, (x, d) ∈ Y → ∃ id, d = new_desc id BARRIER) ∧
    history T k lss H XB E bs ∧ length (XB ++ Y) ≤ rounds_cost lss ∧
    g = running (Y := Y) (K := bs) ((cur, new_desc id IMP_TASK) :: XB) ((last_barrier np H, cur) :: E) tp
      (task_at T k (ob := ob) cur None) None (sum_list_with length lss).

(** At the end of a round, behind the barrier [b]. *)
Definition at_rest (lss : list (list loop)) (bs : list positive) b g : Prop :=
  ∃ Y H X E cur tp isb id2 id3 m,
    behind_ok (Y := Y) (K := bs) (X := X) isb b id2 id3 m ∧ tidy T (Y := Y) (K := bs) X.*1 E ∧ cur ∈ X.*1 ∧
    (∀ x d, (x, d) ∈ Y → ∃ id, d = new_desc id BARRIER) ∧
    history T k lss H X ((cur, b) :: E) (b :: bs) ∧ length (X ++ new_bar isb b id2 ++ Y) ≤ rounds_cost lss ∧
    g = behind (Y := Y) (K := bs) (X := X) (E := E) (cur := cur) (tp := tp) (n := sum_list_with length lss) isb b id2 id3 m.

(** At the end of the last round. *)
Definition at_end (lss : list (list loop)) (bs : list positive) b g : Prop :=
  ∃ Y H X E cur isb id2 id3,
    unseen (K := bs) (X := X) b ∧ tidy T (Y := Y) (K := bs) X.*1 E ∧
    (∀ x d, (x, d) ∈ Y → ∃ id, d = new_desc id BARRIER) ∧
    history T k lss H X ((cur, b) :: E) (b :: bs) ∧
    g = ended (Y := Y) (K := bs) (X := X) (E := E) (cur := cur) (n := sum_list_with length lss) isb b id2 id3.

Lemma rounds_cost_snoc lss ls : rounds_cost (lss ++ [ls]) = rounds_cost lss + (2 + loops_cost ls).
Proof. unfold rounds_cost. rewrite sum_list_with_app. cbn [sum_list_with]. lia. Qed.

Lemma sum_length_snoc lss ls : sum_list_with length (lss ++ [ls]) = sum_list_with length lss + length (A := loop) ls.
Proof. rewrite sum_list_with_app. cbn. lia. Qed.

Context (Henv : ∀ n es, (Z.of_nat (length (PAPI_stop env n es)) ≤ g_papiNumEvents s0)%Z).

(** The loops and the arrival at the barrier. *)
Lemma member_body lss bs ls g rest (Q : unit → part → Prop) :
  at_start lss bs g → 1 + rounds_cost (lss ++ [ls]) ≤ st_budget T k →
  (∀ b g', at_rest (lss ++ [ls]) bs b g' → tw (run_p env rest) g' Q) →
  tw (run_p env (mjoin (loop_events c (st_threads T k) <$> ls) ++ barrier_events T k ompt_scope_begin :: rest)) g Q.
Proof.
  intros (Y & ob & H & XB & E & id & cur & tp & Ht & HY & HH & Hlen & ->) Hb HQ. rewrite rounds_cost_snoc in Hb.
  rewrite <- (Nat.add_0_r (sum_list_with length lss)).
  apply (sr_loops env T R k Hk Henv (XB := XB) (EB := (last_barrier np H, cur) :: E) ls _ cur [] []).
  - split; try done.
    + intros x Hx. by right.
    + intros u v. cbn. rewrite elem_of_nil. tauto.
    + exists id. by left.
  - rewrite length_app in *. cbn [length]. lia.
  - cbn [app]. intros L X' E' z Hs HX'. cbn [run_p]. apply twp_bind.
    pose proof (strand_cur _ _ _ _ _ _ _ _ Hs) as Hz. pose proof (sd_tidy Hs) as Ht'. cbn [length] in HX'.
    apply (member_arrive Ht' Hz); [rewrite length_app in *; lia|]. intros isb b id2 id3 m Hok. apply (HQ b).
    exists Y, (H ++ [MkRound cur L b]), X', E', z, tp, isb, id2, id3, m. split_and!; try done.
    + eapply history_round; [done|apply Hok|done].
    + rewrite rounds_cost_snoc, !length_app in *. unfold new_bar. destruct isb; cbn [length]; lia.
    + by rewrite sum_length_snoc.
Qed.

(** The first event of a round. *)
Lemma member_enter (starts : bool) lss bs g (Q : unit → part → Prop) :
  (if starts then lss = [] ∧ bs = [] ∧ g = part0 else at_start lss bs g) → 1 ≤ st_budget T k →
  (∀ g', at_start lss bs g' → Q tt g') →
  tw (run_event_p env (if starts then task_event T k ompt_scope_begin else barrier_events T k ompt_scope_end)) g Q.
Proof.
  intros Hg Hb HQ. destruct starts.
  - destruct Hg as (-> & -> & ->). apply member_begin; [done|]. intros i id tp Hi. apply HQ.
    exists [], None, [], [], [], id, i, tp. split_and!; [|by intros ? ? ?%elem_of_nil| |cbn; lia|done].
    + split.
      * split; [constructor|by intros ? ?%elem_of_nil|by intros ? ?%elem_of_nil].
      * apply NoDup_singleton.
      * intros x ->%list_elem_of_singleton. split; [done|by intros ?%elem_of_nil].
      * intros u v [= -> ->]%list_elem_of_singleton. split; left; [done|by left].
    + split; [done| |done|done|constructor]. intros u v. cbn. done.
  - pose proof Hg as (Y & ob & H & XB & E & id & cur & tp & _ & _ & _ & _ & Eg). rewrite Eg.
    eapply member_leave; [done|done|done|by left|]. rewrite <- Eg. by apply HQ.
Qed.

(** A round, and the last round. *)
Lemma member_round_run (starts ends : bool) lss bs ls g :
  (if starts then lss = [] ∧ bs = [] ∧ g = part0 else at_start lss bs g) →
  1 + rounds_cost (lss ++ [ls]) ≤ st_budget T k →
  tw (run_p env (member_round T k starts ends ls)) g
    (fun _ g' => ∃ b, if ends then at_end (lss ++ [ls]) bs b g' else at_rest (lss ++ [ls]) bs b g').
Proof.
  intros Hg Hb. unfold member_round. cbn [run_p]. apply twp_bind. eapply member_enter; [done|lia|].
  intros g1 H1. eapply (member_body lss bs ls); [done|done|]. intros b g2 H2. destruct ends; [|by apply twp_done; exists b].
  destruct H2 as (Y & H & X & E & cur & tp & isb & id2 & id3 & m & Hok & Ht & Hcur & HY & HH & Hlen & ->).
  cbn [run_p]. apply twp_bind. eapply member_leave; [done|done|done|by left|].
  apply twp_bind. apply (member_end Ht); [done..|].
  apply twp_done. exists b, Y, H, X, E, cur, isb, id2, id3. split_and!; [apply Hok|done..].
Qed.
End member.
