(* ===== verification/TeamRounds.v ===== *)
(** * The team of a parallel region: all threads in one round

    A barrier lets no thread go on before all have arrived.  This file shows what
    holds in the invariant when all threads of the team are through a round: every
    schedule of a round ends without undefined behaviour, and the threads can
    begin the next round. *)
From stdpp Require Import base numbers gmap sorting relations functions list.
From Stdlib Require Import ZArith Lia.
From S2P Require Import Prelude Float64 Graph Locks Callbacks Steps Discipline Threads ThreadLogic TeamInv TeamRules TeamLoops TeamRound.

Lemma finite_choice {A} `{!Inhabited A} (P : nat → A → Prop) (N : nat) :
  (∀ k, k < N → ∃ x, P k x) → ∃ f : nat → A, ∀ k, k < N → P k (f k).
Proof.
  induction N as [|N IH]; intros H; [exists (fun _ => inhabitant); lia|].
  destruct IH as [f Hf]; [auto with lia|]. destruct (H N) as [x Hx]; [lia|]. exists (<[N := x]> f). intros k Hk.
  destruct (decide (k = N)) as [->|Hne]; [by rewrite fn_lookup_insert|]. rewrite fn_lookup_insert_ne by done. apply Hf. lia.
Qed.

Lemma total_none N f : (∀ j : nat, f j = 0) → total N f = 0.
Proof. intros H. pose proof (total_bound N f 0 (fun j => Nat.eq_le_incl _ _ (H j))). lia. Qed.

#[global] Instance part_inhabited : Inhabited part := populate part0.

Section rounds.
Context (T : site) (R : ready T).
Abbreviation s0 := (st_start T).
Abbreviation N := (st_size T).
Abbreviation np := (st_node T).
Abbreviation Inv := (team_inv T).
Implicit Types (G : nat → part) (g : part).

Lemma team_zero : 0 < N.
Proof. pose proof (rd_size _ R). lia. Qed.

(** ** The start of the region *)

Lemma objs_start {A} (h : gmap positive A) nl0 nl : objs_inv h nl0 (fun _ => None) h nl.
Proof. by split. Qed.

Lemma team_inv_start : Inv (fun _ => part0) s0 ∅.
Proof.
  pose proof (rd_wf _ R) as W. destruct (rd_region _ R) as (rd & Hrd & _ & Hc).
  pose proof team_zero. split; try done.
  - split; try done; eauto; try (by intros ? ? []%elem_of_nil); by intros ? ? ? []%elem_of_nil.
  - split; try done; try (by intros ? ? []%elem_of_nil); try (by intros ? ? ? []%elem_of_nil).
    + rewrite total_none by done. lia.
    + intros k. simpl. lia.
    + intros id l. split; [auto|]. intros [?|[_ []%elem_of_nil]]; done.
  - split.
    + split; [|apply W|apply W]. intros u v. split; [auto|]. intros [?|[_ []%elem_of_nil]]. done.
    + split; [|apply W|apply W]. intros u v. rewrite <- (edge_entries _ _ _ W). split; [auto|]. intros [?|[_ []%elem_of_nil]]. done.
    + intros k u v [[]%elem_of_nil|[]%elem_of_nil].
  - split; try done. intros k Hk. by apply (rd_new _ R).
  - split; try done. intros k Hk. cbn. by destruct (threads s0 !! st_objects T k).
  - split; try done; try (by intros k []); [|by intros j k []].
    intros _. exists rd. split; [done|]. assert (arrived T (fun _ => part0) = 0) as -> by (by apply total_none).
    split; [|lia]. by rewrite decide_False by lia.
Qed.

(** ** The next round *)

(** The part [g'] of a thread in the next round, in which it has not arrived and
    knows no barrier; the order of its lists does not matter. *)
Record renewed g g' : Prop := {
  rw_ids : p_ids g' ≡ₚ p_ids g;
  rw_nodes : p_nodes g' ≡ₚ p_nodes g;
  rw_tab : p_tab g' ≡ₚ p_tab g;
  rw_bk : p_bk g' = MkKnown None None (p_bars g) (p_kbs g);
  rw_edges : p_ex g' = p_ex g ∧ p_en g' = p_en g;
  rw_objects : p_obj g' = p_obj g ∧ p_cell g' = p_cell g ∧ p_ws g' = p_ws g ∧ p_loops g' = p_loops g;
  rw_region : p_reg g' = None ∧ p_arr g' = false }.
Arguments rw_ids {_ _} _.
Arguments rw_nodes {_ _} _.
Arguments rw_tab {_ _} _.
Arguments rw_bk {_ _} _.
Arguments rw_edges {_ _} _.
Arguments rw_objects {_ _} _.
Arguments rw_region {_ _} _.

Section renew.
Context (G G' : nat → part) (H : ∀ k, renewed (G k) (G' k)).

Lemma renew_owns k l : owns (G' k) l ↔ owns (G k) l.
Proof. unfold owns. by rewrite (rw_nodes (H k)). Qed.

Lemma renew_isbar l : isbar G' l ↔ isbar G l.
Proof. unfold isbar. apply exist_proper. intros j. by rewrite (rw_bk (H j)). Qed.

Lemma renew_isnow l : ¬ isnow G' l.
Proof. intros [j Hj]. by rewrite (rw_bk (H j)) in Hj. Qed.

Lemma renew_nodes h nl : nodes_inv T G h nl → nodes_inv T G' h nl.
Proof.
  intros [H1 H2 H3 H4 H5 H6 H7 H8 H9 H10]. split.
  - done.
  - done.
  - intros k l d. rewrite (rw_nodes (H k)). apply H3.
  - intros l Hl%H4. by setoid_rewrite renew_owns.
  - intros j k l. rewrite !renew_owns. apply H5.
  - intros k b. rewrite renew_owns, (rw_bk (H k)). apply H6.
  - intros k b. rewrite renew_isbar, (rw_bk (H k)). apply H7.
  - intros k b. by rewrite (rw_bk (H k)).
  - intros k b. by rewrite (rw_bk (H k)).
  - by intros k b []%renew_isnow.
Qed.

Lemma renew_ids t nid : ids_inv T G t nid → ids_inv T G' t nid.
Proof.
  intros [H1 H2 H3 H4 H5 H6]. split.
  - intros k id. rewrite (rw_ids (H k)). apply H1.
  - intros j k id. rewrite (rw_ids (H j)), (rw_ids (H k)). apply H2.
  - rewrite H3. do 2 f_equal. apply total_ext. intros j. by rewrite (rw_ids (H j)).
  - intros k. rewrite (rw_ids (H k)). apply H4.
  - intros id l. rewrite H5. apply or_iff_compat_l, exist_proper. intros k. by rewrite (rw_tab (H k)).
  - intros k id l. rewrite (rw_tab (H k)), (rw_ids (H k)). apply H6.
Qed.

Lemma renew_mine k u v : mine T k (G k) u v → mine T k (G' k) u v.
Proof.
  unfold mine, priv, publ. rewrite !renew_owns, (rw_bk (H k)). done.
Qed.

Lemma renew_edges h : edges_inv T G h → edges_inv T G' h.
Proof.
  intros [H1 H2 H3]. split.
  - refine (half_ext s0 _ _ _ _ _ _ (fun _ => eq_refl) H1). intros k. apply (rw_edges (H k)).
  - refine (half_ext s0 _ _ _ _ _ _ (fun _ => eq_refl) H2). intros k. apply (rw_edges (H k)).
  - intros k u v. destruct (rw_edges (H k)) as [-> ->]. intros Hm%H3. by apply renew_mine.
Qed.

Lemma renew_region rs : arrived T G = N → region_inv T G rs ∅ → region_inv T G' rs ∅.
Proof.
  intros HA [H1 H2 H3 H4 H5 H6 H7]. assert (arrived T G' = 0) as HA'.
  { apply total_none. intros j. by destruct (rw_region (H j)) as [_ ->]. }
  split.
  - done.
  - done.
  - intros k Ho. done.
  - intros k. destruct (rw_region (H k)) as [-> _]. by intros [].
  - intros Ho. destruct (H5 Ho) as (rd & Hrd & Hc & _). exists rd. split; [done|]. rewrite HA'. split; [|lia].
    rewrite HA, decide_True in Hc by done. rewrite Hc. by case_decide.
  - intros k. rewrite (rw_bk (H k)). by intros [].
  - intros j k. rewrite (rw_bk (H j)). by intros [].
Qed.

Lemma renew_inv s : (∀ k, N ≤ k → G' k = part0) → arrived T G = N → Inv G s ∅ → Inv G' s ∅.
Proof.
  intros Hi HA V. split.
  - done.
  - apply renew_nodes, V.
  - apply renew_ids, V.
  - apply renew_edges, V.
  - eapply objs_keep; [|reflexivity|apply V]. intros k. apply (rw_objects (H k)).
  - destruct (ti_cells V) as [H1 H2]. split; [|done]. intros k Hk. destruct (rw_objects (H k)) as (_ & -> & _). auto.
  - eapply objs_keep; [|reflexivity|apply V]. intros k. apply (rw_objects (H k)).
  - destruct (ti_threads V) as [H1 H2]. split; [|done]. intros k Hk. destruct (rw_objects (H k)) as (_ & _ & _ & ->). auto.
  - apply renew_region; [done|apply V].
  - apply V.
Qed.
End renew.

(** A thread behind the barrier is at the start of the next round. *)
Lemma rest_tidy (Y X : list (positive * desc)) K E cur b isb id2 id3 m :
  behind_ok T (Y := Y) (K := K) (X := X) isb b id2 id3 m → tidy T (Y := Y) (K := K) X.*1 E → cur ∈ X.*1 →
  tidy T (Y := new_bar isb b id2 ++ Y) (K := b :: K) (m :: X.*1) ((b, m) :: (cur, b) :: E).
Proof.
  intros ((HbX & HbK & Hb0) & HbY & Hm0 & Hmb & HmK & Hm & _) [[B1 B2 B3] H1 H2 H3] Hcur. split.
  - split.
    + destruct isb; [|done]. constructor; [by apply HbY|done].
    + intros x. rewrite elem_of_cons. destruct isb; cbn; rewrite ?elem_of_cons; naive_solver.
    + intros x [->|?]%elem_of_cons; auto.
  - constructor; [|done]. intros Hx. by apply Hm, made_old.
  - intros x. rewrite !elem_of_cons. intros [->|Hx]; [naive_solver|]. destruct (H2 x Hx). split; [done|].
    intros [->|?]; done.
  - intros u v. rewrite !elem_of_cons. intros [[= -> ->]|[[= -> ->]|Hx%H3]]; tauto.
Qed.

Lemma at_rest_renew k lss bs b g : at_rest T k lss bs b g → ∃ g', renewed g g' ∧ at_start T k lss (b :: bs) g'.
Proof.
  intros (Y & H & X & E & cur & tp & isb & id2 & id3 & m & Hok & Ht & Hcur & HY & HH & Hlen & ->).
  exists (running (Y := new_bar isb b id2 ++ Y) (K := b :: bs) ((m, new_desc id3 IMP_TASK) :: X) ((b, m) :: (cur, b) :: E) tp
    (task_at T k (ob := Some b) m None) None (sum_list_with length lss)).
  assert (last_barrier np H = b) as Eb.
  { pose proof (hy_bars HH) as E1. rewrite reverse_cons in E1.
    unfold last_barrier. apply (f_equal last) in E1. rewrite last_snoc, fmap_last in E1. by destruct (last H) as [r|]; [injection E1 as <-|]. }
  assert (((m, new_desc id3 IMP_TASK) :: X) ++ new_bar isb b id2 ++ Y ≡ₚ (m, new_desc id3 IMP_TASK) :: made (Y := Y) (X := X) isb b id2) as Ep.
  { unfold made. cbn. solve_Permutation. }
  split.
  - split; try done; cbn [p_ids p_nodes p_tab running behind]; unfold ids_of, tab_of; by rewrite Ep.
  - exists (new_bar isb b id2 ++ Y), (Some b), H, X, ((cur, b) :: E), id3, m, tp. rewrite Eb.
    split_and!; [by eapply rest_tidy|..|reflexivity].
    + intros x d. rewrite elem_of_app. intros [Hx|?]; [|eauto]. destruct isb; [|by apply elem_of_nil in Hx].
      apply list_elem_of_singleton in Hx as [= -> ->]. by exists id2.
    + done.
    + by rewrite app_assoc in *.
Qed.

(** The threads of a round know the same barrier. *)
Lemma same_barrier G s : Inv G s ∅ → ∀ j k b b', p_kb (G j) = Some b → p_kb (G k) = Some b' → b' = b.
Proof.
  intros V j k b b' [i Hi]%(ni_here (ti_nodes V)) [i' Hi']%(ni_here (ti_nodes V)).
  assert (i = i') as -> by (apply (ri_one (ti_region V)); eauto). congruence.
Qed.

(** When all threads are behind the barrier, the next round can begin. *)
Lemma next_round G s lss bs :
  Inv G s ∅ → (∀ k, k < N → ∃ b, at_rest T k (lss k) bs b (G k)) →
  ∃ b G', Inv G' s ∅ ∧ ∀ k, k < N → at_start T k (lss k) (b :: bs) (G' k).
Proof.
  intros V Hall. destruct (Hall 0 team_zero) as [b Hb]. exists b.
  assert (∀ k b, at_rest T k (lss k) bs b (G k) → p_kb (G k) = Some b ∧ p_arr (G k) = true) as Hkb.
  { intros k x (? & ? & ? & ? & ? & ? & ? & ? & ? & ? & _ & _ & _ & _ & _ & _ & ->). done. }
  assert (∀ k, k < N → at_rest T k (lss k) bs b (G k)) as Hall'.
  { intros k Hk. destruct (Hall k Hk) as [x Hx].
    by rewrite <- (same_barrier _ _ V 0 k b x (proj1 (Hkb _ _ Hb)) (proj1 (Hkb _ _ Hx))). }
  destruct (finite_choice (fun k g' => renewed (G k) g' ∧ at_start T k (lss k) (b :: bs) g') N) as [f Hf].
  { intros k Hk. apply at_rest_renew. by apply Hall'. }
  exists (fun k => if decide (k < N) then f k else part0). split.
  - apply (renew_inv G); [| |by apply total_all; intros k Hk; destruct (Hkb k b (Hall' k Hk)) as [_ ->]|done].
    + intros k. case_decide as Hk; [by apply Hf|]. rewrite (ti_idle V k) by lia. by split.
    + intros k Hk. by rewrite decide_False by lia.
  - intros k Hk. rewrite decide_True by done. by apply Hf.
Qed.
End rounds.

(** ** Rounds *)

(** All threads in a round in which thread [k] runs the loops [ls k]. *)
Definition team_round (T : site) (starts ends : bool) (ls : nat → list loop) : list (list event) :=
  (fun k => member_round T k starts ends (ls k)) <$> List.seq 0 (st_size T).

Definition is_last {A} (l : list A) : bool := match l with [] => true | _ => false end.

(** The rounds that follow the first one. *)
Fixpoint team_rounds (T : site) (plan : list (nat → list loop)) : list (list (list event)) :=
  match plan with
  | [] => []
  | ls :: plan' => team_round T false (is_last plan') ls :: team_rounds T plan'
  end.

(** A step of the region, in the round of the configuration before the rounds
    [rest]: a step of a thread; when all threads are through, the barrier lets
    them into the next round. *)
Inductive rstep (env : Env) : conf * list (list (list event)) → conf * list (list (list event)) → Prop :=
  | rstep_thread c c' rest : pstep c c' → rstep env (c, rest) (c', rest)
  | rstep_barrier c evs rest :
      (∀ k, turn_of k c = TFinished) →
      rstep env (c, evs :: rest) (MkConf (cf_state c) (cf_owner c) (run_p env <$> evs), rest).

Lemma rstep_wf env x : Acc (flip (rstep env)) x.
Proof.
  destruct x as [c rest]. revert c. induction rest as [|evs rest IH]; intros c; induction (pstep_wf c) as [c _ IHc];
    constructor; intros x Hx; inversion Hx; subst; by auto.
Qed.

(** The loops of thread [k] in the rounds [past]. *)
Definition plan_loops (past : list (nat → list loop)) (k : nat) : list (list loop) := (fun ls => ls k) <$> past.

Section stages.
Context (env : Env) (T : site) (R : ready T).
Abbreviation Inv := (team_inv T).
Abbreviation N := (st_size T).
Context (Henv : ∀ n es, (Z.of_nat (length (PAPI_stop env n es)) ≤ g_papiNumEvents (st_start T))%Z).
Context (plan : list (nat → list loop)) (Hcost : ∀ k, k < N → 1 + rounds_cost (plan_loops plan k) ≤ st_budget T k).

(** Where thread [k] is after the round [ls] that follows the rounds [past]. *)
Definition through (past : list (nat → list loop)) (ls : nat → list loop) (last : bool) bs k (g : part) : Prop :=
  ∃ b, (if last then at_end else at_rest) T k (plan_loops past k ++ [ls k]) bs b g.

Definition begins (past : list (nat → list loop)) bs k (g : part) : Prop :=
  if is_last past then bs = [] ∧ g = part0 else at_start T k (plan_loops past k) bs g.

Definition stage (x : conf * list (list (list event))) : Prop :=
  ∃ past ls later bs G, plan = past ++ ls :: later ∧ x.2 = team_rounds T later ∧ length (cf_threads x.1) = N ∧
    pool_inv Inv (through past ls (is_last later) bs) x.1 G.

Lemma cost_mono {A} (f : A → nat) l l' : sum_list_with f l ≤ sum_list_with f (l ++ l').
Proof. rewrite sum_list_with_app. lia. Qed.

Lemma stage_begins past ls later bs G s :
  plan = past ++ ls :: later → addresses_ok s → Inv G s ∅ → (∀ k, k < N → begins past bs k (G k)) →
  stage (launch s (run_p env <$> team_round T (is_last past) (is_last later) ls), team_rounds T later).
Proof.
  intros Ep A V Hb. exists past, ls, later, bs, G. split_and!; [done|done| |].
  { unfold launch, team_round. cbn [cf_threads fst]. by rewrite !length_fmap, length_seq. }
  split; [by apply conf_ok_launch|]. split; [done|]. intros k p. cbn [launch cf_threads fst].
  unfold team_round. rewrite !list_lookup_fmap. destruct (List.seq 0 N !! k) as [j|] eqn:E; [|done]. intros [= <-].
  apply lookup_seq in E as [-> Hk]. cbn [Nat.add].
  assert (1 + rounds_cost (plan_loops past k ++ [ls k]) ≤ st_budget T k) as Hc.
  { specialize (Hcost k Hk). rewrite Ep in Hcost. unfold plan_loops in *. rewrite fmap_app in Hcost. cbn in Hcost.
    etrans; [|exact Hcost]. unfold rounds_cost. rewrite (cons_middle _ _ (_ <$> later)), app_assoc. apply le_n_S, cost_mono. }
  eapply twp_mono; [apply (member_round_run env T R k Hk Henv _ _ (plan_loops past k) bs (ls k)); [|done]|].
  - specialize (Hb k Hk). unfold begins in Hb. destruct past; [|done]. cbn in *. tauto.
  - intros _ g' [b Hg]. exists b. by destruct (is_last later).
Qed.

Lemma stage_finished past ls (later : list (nat → list loop)) bs G c :
  length (cf_threads c) = N → pool_inv Inv (through past ls (is_last later) bs) c G → (∀ k, turn_of k c = TFinished) →
  cf_owner c = ∅ ∧ Inv G (cf_state c) ∅ ∧ ∀ k, k < N → through past ls (is_last later) bs k (G k).
Proof.
  intros Hl P D. assert (cf_owner c = ∅) as Ho.
  { pose proof P as [C _]. destruct (pool_progress c C) as [(c' & k & E)|[(k & r & E)|[_ ?]]]; [|by rewrite D in E|done].
    by rewrite D in E. }
  split_and!; [done|by rewrite <- Ho; apply P|]. intros k Hk.
  eapply (pool_finished _ _ c); [done| |done]. apply lookup_lt_is_Some. lia.
Qed.

Lemma stage_step x x' : stage x → rstep env x x' → stage x'.
Proof.
  intros (past & ls & later & bs & G & Ep & Er & Hl & P) Hx. destruct Hx as [c c' rest Hs|c evs rest D]; cbn [fst snd] in *.
  - destruct (pool_step _ _ _ _ _ P Hs) as [G' P']. exists past, ls, later, bs, G'. split_and!; [done|done| |done].
    cbn [fst]. destruct (pstep_pool _ _ Hs) as (i & p & q & _ & _ & ->). by rewrite length_insert.
  - destruct (stage_finished _ _ _ _ _ _ Hl P D) as (Ho & V & Hall). destruct later as [|ls' later]; [done|].
    injection Er as -> ->. rewrite Ho.
    destruct (next_round T R G (cf_state c) (fun k => plan_loops past k ++ [ls k]) bs V Hall) as (b & G' & V' & Hst).
    replace false with (is_last (past ++ [ls])) by (by destruct past). apply (stage_begins _ _ _ (b :: bs) G').
    + by rewrite Ep, <- app_assoc.
    + apply P.
    + done.
    + intros k Hk. unfold begins. replace (is_last (past ++ [ls])) with false by (by destruct past).
      unfold plan_loops. rewrite fmap_app. by apply Hst.
Qed.

Lemma stage_steps x x' : stage x → rtc (rstep env) x x' → stage x'.
Proof. intros H Hx. induction Hx as [|x y z Hs _ IH]; [done|]. by eapply IH, stage_step. Qed.

(** A region goes on, or all threads are through its last round. *)
Lemma stage_progress c rest :
  stage (c, rest) → (∃ x', rstep env (c, rest) x') ∨
    rest = [] ∧ (∀ k, turn_of k c = TFinished) ∧ cf_owner c = ∅ ∧
    ∃ bs G, Inv G (cf_state c) ∅ ∧ ∀ k, k < N → ∃ b, at_end T k (plan_loops plan k) bs b (G k).
Proof.
  intros (past & ls & later & bs & G & Ep & Er & Hl & P). cbn [fst snd] in *. pose proof P as [C _].
  destruct (pool_progress c C) as [[c' Hs]|[(k & r & E)|[D _]]].
  - left. eexists. by apply rstep_thread.
  - by destruct (pool_no_stop _ _ _ _ _ _ P E).
  - destruct (stage_finished _ _ _ _ _ _ Hl P D) as (Ho & V & Hall). destruct rest as [|evs rest].
    + right. split_and!; [done..|]. destruct later; [|done]. exists bs, G. split; [done|]. intros k Hk. rewrite Ep.
      unfold plan_loops. rewrite fmap_app. by apply Hall.
    + left. eexists. by apply rstep_barrier.
Qed.
End stages.
