(* ===== verification/Team.v ===== *)
(** * The team of a parallel region: the graph it builds

    The threads of a team start their implicit tasks, run loops, arrive at
    barriers and end their tasks (callbacks.cc: [cb_implicit_task], [cb_ext_loop],
    [cb_ext_chunk], [cb_sync_region]), interleaved at every access and every lock
    operation.  On every schedule they all finish and leave the same graph: the
    fork, the loops of every thread, the barriers and the join. *)
From stdpp Require Import base numbers gmap sorting relations functions list.
From Stdlib Require Import ZArith Lia.
From S2P Require Import Prelude Float64 Graph Locks Callbacks Steps Discipline Threads ThreadLogic TeamInv TeamRules TeamLoops TeamRound TeamRounds.

Section all.
Context (T : site) (R : ready T).
Abbreviation s0 := (st_start T).
Abbreviation N := (st_size T).
Abbreviation np := (st_node T).
Abbreviation sk := (st_sink T).
Abbreviation rp := (st_region T).
Abbreviation Inv := (team_inv T).

(** Thread [k] is at its end with the nodes of [H], behind the barriers [bars]. *)
Definition over_with (k : nat) (lss : list (list loop)) (bs : list positive) (b : positive) (g : part)
    (H : list round_nodes) : Prop :=
  ∃ Y X E cur isb id2 id3,
    unseen T (K := bs) (X := X) b ∧ tidy T (Y := Y) (K := bs) X.*1 E ∧
    (∀ x d, (x, d) ∈ Y → ∃ id, d = new_desc id BARRIER) ∧
    history T k lss H X ((cur, b) :: E) (b :: bs) ∧
    g = ended T k (Y := Y) (K := bs) (X := X) (E := E) (cur := cur) (n := sum_list_with length lss) isb b id2 id3.

Lemma at_end_over k lss bs b g : at_end T k lss bs b g → ∃ H, over_with k lss bs b g H.
Proof. intros (Y & H & X & E & cur & isb & id2 & id3 & ?). exists H, Y, X, E, cur, isb, id2, id3. done. Qed.

Context (loops : nat → list (list loop)) (G : nat → part) (s : state) (V : Inv G s ∅).
Context (bs : list positive) (b : positive) (hist : nat → list round_nodes).
Context (Hover : ∀ k, k < N → over_with k (loops k) bs b (G k) (hist k)).

Abbreviation zero := (team_zero T R).

Lemma part_at k :
  (N ≤ k ∧ G k = part0) ∨ k < N ∧ over_with k (loops k) bs b (G k) (hist k).
Proof. destruct (decide (k < N)) as [Hk|Hk]; [right; auto|left]. split; [lia|]. apply (ti_idle V). lia. Qed.

(** Case analysis on part [k]. *)
Ltac at_part k :=
  let Hk := fresh "Hk" in let EG := fresh in
  destruct (part_at k) as [[Hk EG]|[Hk (Y & X & E & cur & isb & id2 & id3 & Hu & Ht & HY & HH & EG)]]; rewrite ?EG; clear EG.

Lemma kb_at k : k < N → p_kb (G k) = Some b.
Proof. intros Hk'. at_part k; [lia|done]. Qed.

(** The barriers, in the order in which the team passes them. *)
Definition bars : list positive := reverse (b :: bs).

Lemma bars_last : last bars = Some b.
Proof. unfold bars. by rewrite reverse_cons, last_snoc. Qed.

Lemma elem_of_bars l : l ∈ bars ↔ l = b ∨ l ∈ bs.
Proof. unfold bars. rewrite elem_of_reverse. apply elem_of_cons. Qed.

Lemma bars_at k l : l ∈ p_bars (G k) → l ∈ bars.
Proof.
  rewrite elem_of_bars. at_part k; [by intros ?%elem_of_nil|]. cbn. unfold new_bar.
  rewrite fmap_app, elem_of_app. intros [Hl|Hl%(bk_known (ty_bars Ht))]; [|by right].
  destruct isb; [|by apply elem_of_nil in Hl]. apply list_elem_of_singleton in Hl. by left.
Qed.

Lemma bars_made l : l ∈ bars → isbar G l.
Proof.
  intros Hl. apply (ni_kb (ti_nodes V) 0). pose proof zero. at_part 0; [lia|]. cbn. by rewrite elem_of_cons, <- elem_of_bars.
Qed.

Definition thread_nodes (H : list round_nodes) : list positive := mjoin (members <$> H).

Lemma owned_at k l : owns (G k) l ↔ k < N ∧ (l ∈ thread_nodes (hist k) ∨ l ∈ p_bars (G k)).
Proof.
  at_part k; [split; [by intros ?%elem_of_nil|lia]|]. unfold thread_nodes. rewrite <- (hy_nodes HH).
  unfold owns, ended, made. part_simpl. unfold knows. cbn [kn_bars]. rewrite !fmap_app, !elem_of_app. tauto.
Qed.

Lemma edge_at k u v :
  (u, v) ∈ p_ex (G k) ↔ k < N ∧ ((k = 0 ∧ u = b ∧ v = sk) ∨ (u, v) ∈ rounds_edges np (hist k)).
Proof.
  at_part k; [split; [by intros ?%elem_of_nil|lia]|]. unfold ended, final_edges. part_simpl.
  rewrite elem_of_app, (hy_edges HH). case_decide; rewrite ?list_elem_of_singleton, ?elem_of_nil; naive_solver.
Qed.

Lemma en_at k : p_en (G k) = p_ex (G k).
Proof. by at_part k. Qed.

Lemma tab_at k : p_tab (G k) = tab_of (p_nodes (G k)).
Proof. by at_part k. Qed.

Lemma thread_nodes_new k l : k < N → l ∈ thread_nodes (hist k) → owns (G k) l ∧ (l ∉ bars).
Proof.
  intros Hk Hl. split; [by apply owned_at; auto|]. rewrite elem_of_bars. revert Hl. at_part k; [lia|].
  unfold thread_nodes. rewrite <- (hy_nodes HH). intros Hl [->|Hb]; [by destruct Hu|]. by apply (ty_new Ht) in Hl as [_ ?].
Qed.

Lemma final_wf : wf (nodes s).
Proof.
  destruct (ti_edges V) as [[H1 H2 H3] [H4 H5 H6] _]. split; try done.
  intros [u v]. simpl. rewrite (H1 u v), (H4 u v). by setoid_rewrite en_at.
Qed.

(** What is at a node. *)
Definition shows (s : state) (x : positive) (d : desc) : Prop := ∃ n, nodes s !! x = Some n ∧ desc_of n = d.

Lemma owned_there k l d : (l, d) ∈ p_nodes (G k) → shows s l d.
Proof. intros Hl. by destruct (ni_new (ti_nodes V) _ _ _ Hl) as [_ ?]. Qed.

Lemma owns_elem k l : owns (G k) l → ∃ d, (l, d) ∈ p_nodes (G k).
Proof. intros ([? d] & -> & Hl)%list_elem_of_fmap. eauto. Qed.

Lemma final_table : table_ok (nodes s) (g_tdg s).
Proof.
  intros id l. rewrite (ii_tab (ti_ids V)), (rd_table _ R id l). split.
  - intros [(n0 & Hn0 & <-)|[k Hk]].
    + destruct (ni_old (ti_nodes V) l n0 Hn0) as (n & ? & Ed). exists n. split; [done|]. by injection Ed.
    + rewrite tab_at in Hk. apply list_elem_of_fmap in Hk as ([x d] & [= -> ->] & Hx).
      destruct (owned_there _ _ _ Hx) as (n & ? & <-). eauto.
  - intros (n & Hn & <-). destruct (ni_all (ti_nodes V) l) as [[n0 Hn0]|[k Hk]]; [eauto| |].
    + left. destruct (ni_old (ti_nodes V) l n0 Hn0) as (n' & ? & E). exists n0. split; [done|]. injection E. congruence.
    + right. exists k. rewrite tab_at. apply owns_elem in Hk as (d & Hx). apply list_elem_of_fmap.
      exists (l, d). split; [|done]. destruct (owned_there _ _ _ Hx) as (n' & ? & <-). simpl. congruence.
Qed.

Lemma final_edge u v : edge (nodes s) u v ↔
  edge (nodes s0) u v ∨ (last bars = Some u ∧ v = sk) ∨ ∃ k, k < N ∧ (u, v) ∈ rounds_edges np (hist k).
Proof.
  destruct (ti_edges V) as [[H1 _ _] _ _]. unfold edge at 1. rewrite (H1 u v). setoid_rewrite edge_at.
  rewrite bars_last. pose proof zero. naive_solver.
Qed.

Lemma final_live l :
  is_Some (nodes s !! l) ↔ is_Some (nodes s0 !! l) ∨ l ∈ bars ∨ ∃ k, k < N ∧ l ∈ thread_nodes (hist k).
Proof.
  split.
  - intros [?|[k [Hk [Hl|Hl%bars_at]]%owned_at]]%(ni_all (ti_nodes V)); eauto.
  - assert (∀ k, owns (G k) l → is_Some (nodes s !! l)) as Ho.
    { intros k (d & Hx)%owns_elem. destruct (owned_there _ _ _ Hx) as (n & ? & _). eauto. }
    intros [[n0 Hn]|[[c Hc]%bars_made|(k & Hk & Hl)]].
    + destruct (ni_old (ti_nodes V) l n0 Hn) as (n & ? & _). eauto.
    + by eapply Ho, (ni_bar (ti_nodes V)).
    + eapply Ho, owned_at. eauto.
Qed.

Lemma final_objects :
  tasks s = tasks s0 ∧ task_ptr s = task_ptr s0 ∧ worksharings s = worksharings s0.
Proof.
  split_and!; apply map_eq.
  - intros tp. apply (ob_old (ti_tasks V)). intros k d. by at_part k.
  - intros c. destruct (decide (c ∈ st_tasks T <$> List.seq 0 N)) as [Hc|Hc].
    + apply list_elem_of_fmap in Hc as (k & -> & Hk%elem_of_seq). rewrite (ta_cell (ti_cells V)) by lia.
      at_part k; [lia|]. symmetry. by apply (rd_new _ R).
    + apply (ta_other (ti_cells V)). intros k Hk ->. apply Hc, list_elem_of_fmap. exists k. split; [done|]. apply elem_of_seq. lia.
  - intros w. apply (ob_old (ti_ws V)). intros k d. by at_part k.
Qed.

Lemma final_thread k : k < N →
  threads s !! st_objects T k = Nat.iter (sum_list_with length (loops k)) bump <$> threads s0 !! st_objects T k.
Proof. intros Hk. rewrite (th_mine (ti_threads V)) by done. by at_part k; [lia|]. Qed.

Lemma final_region : ∃ rd, regions s !! rp = Some rd ∧ pr_barrier_cnt rd = 0%Z ∧ pr_curr_barrier_node rd = last bars.
Proof.
  pose proof (ti_region V) as U. destruct (ri_free U) as (rd & Hrd & Hc & Hb); [done|].
  assert (arrived T G = N) as EA by (apply total_all; intros k Hk; by at_part k; [lia|]).
  exists rd. split_and!; [done|by rewrite Hc, EA, decide_True|]. rewrite bars_last.
  destruct Hb as (x & -> & j & Hj); [rewrite EA; apply zero|].
  destruct (ni_here (ti_nodes V) _ _ (kb_at 0 zero)) as [c Hc'].
  assert (j = c) as -> by (apply (ri_one U); eauto). congruence.
Qed.

Lemma final_built k : k < N → rounds_built T k (shows s) 0 (loops k) (hist k) ∧ rn_barrier <$> hist k = bars.
Proof.
  intros Hk. pose proof (owned_there k) as HX. revert HX. at_part k; [lia|]. intros HX. split; [|apply HH].
  eapply rounds_built_mono; [|apply HH]. intros x d Hx. apply HX. cbn. unfold made. rewrite !elem_of_app. tauto.
Qed.

Lemma final_nodup k : k < N → NoDup (thread_nodes (hist k)).
Proof. intros Hk. at_part k; [lia|]. unfold thread_nodes. rewrite <- (hy_nodes HH). apply Ht. Qed.

Lemma bars_nodup : NoDup bars.
Proof. pose proof zero. at_part 0; [lia|]. unfold bars. rewrite reverse_Permutation. apply HH. Qed.

Lemma final_barrier l : l ∈ bars → nodes s0 !! l = None ∧ ∃ id, shows s l (new_desc id BARRIER).
Proof.
  intros [c Hc]%bars_made. split.
  { apply (ni_bar (ti_nodes V)) in Hc. by apply (owns_new _ R _ _ _ _ _ (ti_nodes V)) in Hc as [_ ?]. }
  pose proof (owned_there c) as HX. revert HX Hc. at_part c; [by intros _ ?%elem_of_nil|]. intros HX.
  cbn. intros ([x d] & -> & Hx)%list_elem_of_fmap. assert (∃ id, d = new_desc id BARRIER) as [id ->].
  { apply elem_of_app in Hx as [Hx|Hx]; [|eauto]. destruct isb; [|by apply elem_of_nil in Hx].
    apply list_elem_of_singleton in Hx as [= -> ->]. by exists id2. }
  exists id. apply HX. cbn. unfold made. rewrite !elem_of_app. rewrite elem_of_app in Hx. tauto.
Qed.
End all.

(** ** The theorem *)

(** [s] is the state in which the team started, with the fork, the loops of the
    threads in the rounds of [plan], the barriers [bs] in the order in which the
    team passes them, and the join: thread [k] has the nodes [H k]. *)
Record team_graph (T : site) (plan : list (nat → list loop)) (H : nat → list round_nodes) (bs : list positive)
    (s : state) : Prop := {
  tg_wf : wf (nodes s);
  tg_table : table_ok (nodes s) (g_tdg s);
  tg_nodup : NoDup bs ∧ ∀ k, k < st_size T → NoDup (thread_nodes (H k));
  tg_fresh k l : k < st_size T → l ∈ thread_nodes (H k) → nodes (st_start T) !! l = None ∧ (l ∉ bs);
  tg_disjoint j k l : j < st_size T → k < st_size T → l ∈ thread_nodes (H j) → l ∈ thread_nodes (H k) → j = k;
  tg_live l : is_Some (nodes s !! l) ↔
    is_Some (nodes (st_start T) !! l) ∨ l ∈ bs ∨ ∃ k, k < st_size T ∧ l ∈ thread_nodes (H k);
  tg_old l n0 : nodes (st_start T) !! l = Some n0 → shows s l (desc_of n0);
  tg_barrier b : b ∈ bs → nodes (st_start T) !! b = None ∧ ∃ id, shows s b (new_desc id BARRIER);
  tg_built k : k < st_size T → rounds_built T k (shows s) 0 (plan_loops plan k) (H k) ∧ rn_barrier <$> H k = bs;
  tg_edges u v : edge (nodes s) u v ↔
    edge (nodes (st_start T)) u v ∨ (last bs = Some u ∧ v = st_sink T) ∨
    ∃ k, k < st_size T ∧ (u, v) ∈ rounds_edges (st_node T) (H k);
  tg_objects : tasks s = tasks (st_start T) ∧ task_ptr s = task_ptr (st_start T) ∧
    worksharings s = worksharings (st_start T);
  tg_threads k : k < st_size T →
    threads s !! st_objects T k =
      Nat.iter (sum_list_with length (plan_loops plan k)) bump <$> threads (st_start T) !! st_objects T k;
  tg_region : ∃ rd, regions s !! st_region T = Some rd ∧ pr_barrier_cnt rd = 0%Z ∧ pr_curr_barrier_node rd = last bs }.

Lemma team_graph_final T plan G s bs b H :
  ready T → team_inv T G s ∅ → (∀ k, k < st_size T → over_with T k (plan_loops plan k) bs b (G k) (H k)) →
  team_graph T plan H (bars bs b) s.
Proof.
  intros R V Hover. assert (∀ k l, owns (G k) l → nodes (st_start T) !! l = None) as Hnew.
  { intros k l Ho. by apply (owns_new _ R _ _ _ _ _ (ti_nodes V)) in Ho as [_ ?]. }
  pose proof (fun k l => thread_nodes_new T _ G s V bs b H Hover k l) as Hn. split.
  - by eapply final_wf.
  - by eapply final_table.
  - split; [by eapply bars_nodup|by eapply final_nodup].
  - intros k l Hk Hl. destruct (Hn k l Hk Hl) as [Ho ?]. split; [by eapply Hnew|done].
  - intros j k l Hj Hk Hlj Hlk. eapply (ni_one (ti_nodes V)); [by apply (Hn j l)|by apply (Hn k l)].
  - by eapply final_live.
  - intros l n0 Hl. apply (ni_old (ti_nodes V)) in Hl as (n & ? & ?). by exists n.
  - by eapply final_barrier.
  - by eapply final_built.
  - by eapply final_edge.
  - by eapply final_objects.
  - by eapply final_thread.
  - by eapply final_region.
Qed.

(** All threads are at their end, behind the same barrier. *)
Lemma all_over T G s bs plan :
  ready T → team_inv T G s ∅ → (∀ k, k < st_size T → ∃ b, at_end T k (plan_loops plan k) bs b (G k)) →
  ∃ b H, ∀ k, k < st_size T → over_with T k (plan_loops plan k) bs b (G k) (H k).
Proof.
  intros R V Hall. destruct (Hall 0 (team_zero T R)) as [b Hb]. exists b. apply (finite_choice (fun k => over_with T k _ bs b (G k))).
  assert (∀ k b, at_end T k (plan_loops plan k) bs b (G k) → p_kb (G k) = Some b) as Hkb.
  { intros k x (? & ? & ? & ? & ? & ? & ? & ? & _ & _ & _ & _ & ->). done. }
  intros k Hk. destruct (Hall k Hk) as [x Hx]. apply at_end_over.
  by rewrite <- (same_barrier T G s V 0 k b x (Hkb _ _ Hb) (Hkb _ _ Hx)).
Qed.

(** The region at its start: the threads are in their first round, in which they
    run the loops [first]. *)
Definition region_begins (env : Env) (T : site) (first : nat → list loop) (later : list (nat → list loop)) :
    conf * list (list (list event)) :=
  (launch (st_start T) (run_p env <$> team_round T true (is_last later) first), team_rounds T later).

(** C4. The threads of a team build the same graph on every schedule.  After
    [cb_parallel_begin] for [N >= 2] threads, each thread starts its implicit task,
    runs any list of loops with any chunks and arrives at a barrier; any number of
    such rounds follow, each when all threads have arrived; in the last one the
    threads leave the barrier and end their tasks.  They are interleaved at every
    access and lock operation.  Every run ends, without undefined behaviour and
    with all mutexes free; then the graph is well-formed, the node table holds
    exactly the live nodes, and to the nodes and edges that were there the team has
    added, all distinct: one barrier node for each round; for each thread, behind
    the node of the parent or the barrier before, a node per round; for each of
    its loops a start node with the bounds of the loop, a sink, and a node for each
    chunk with the bounds, the loop counter, the thread number and the counters,
    all in sequence up to the barrier of the round; and the edge from the last
    barrier to the sink of the region.  The objects of the tasks and loops are
    freed, the loop counter of each thread has counted its loops and the barrier
    counter is zero. *)
Theorem team_builds_graph env T first later :
  ready T → (∀ k, k < st_size T → 1 + rounds_cost (plan_loops (first :: later) k) ≤ st_budget T k) →
  (∀ n es, (Z.of_nat (length (PAPI_stop env n es)) ≤ g_papiNumEvents (st_start T))%Z) →
  Acc (flip (rstep env)) (region_begins env T first later) ∧
  ∀ c rest, rtc (rstep env) (region_begins env T first later) (c, rest) →
    (∃ x, rstep env (c, rest) x) ∨
    rest = [] ∧ (∀ k, turn_of k c = TFinished) ∧ cf_owner c = ∅ ∧
    ∃ H bs, team_graph T (first :: later) H bs (cf_state c).
Proof.
  intros R Hcost Henv. split; [apply rstep_wf|]. intros c rest Hc.
  assert (stage T (first :: later) (c, rest)) as Hs.
  { eapply (stage_steps env T R Henv (first :: later) Hcost); [|exact Hc].
    apply (stage_begins env T R Henv _ Hcost [] first later [] (fun _ => part0)); [done|split; apply R|by apply team_inv_start|done]. }
  destruct (stage_progress env T (first :: later) c rest Hs) as [?|(-> & D & Ho & bs & G & V & Hall)]; [by left|right].
  destruct (all_over T G _ bs _ R V Hall) as (b & H & Hover). split_and!; [done..|].
  exists H, (bars bs b). by eapply team_graph_final.
Qed.

(** A region for two threads, with two counters. *)
Definition team_env : Env := {|
  ftimer k := dzero; PAPI_create_eventset _ := (0%Z, 0%Z); PAPI_add_event _ _ _ := 0%Z;
  PAPI_cleanup_eventset _ _ := 0%Z; PAPI_destroy_eventset _ _ := 0%Z; PAPI_stop _ _ := [7%Z; 8%Z] |}.

Definition region_start : list event :=
  [ThreadBegin (Some 30%positive); ThreadBegin (Some 31%positive);
   TaskCreate None (Some 10%positive) ompt_task_initial; ParallelBegin (Some 10%positive) (Some 20%positive) 2].

Definition region_state : state :=
  match run team_env region_start (init_state [1%Z; 2%Z]) with Ok (_, s) => s | _ => init_state [] end.

(** In the first round the first thread runs a loop with two chunks and an empty
    one, the second a loop with one chunk; in the second round only the second
    thread runs a loop. *)
Definition round_one (k : nat) : list loop :=
  match k with
  | 0 => [MkLoop 0 20 [MkChunk 0 5 false; MkChunk 5 10 false; MkChunk 0 0 true]; MkLoop 0 1 [MkChunk 0 0 true]]
  | _ => [MkLoop 0 20 [MkChunk 10 20 false]]
  end.

Definition round_two (k : nat) : list loop :=
  match k with 0 => [] | _ => [MkLoop 0 3 [MkChunk 0 3 false; MkChunk 0 0 true]] end.

Definition two_threads : site := {|
  st_start := region_state; st_size := 2; st_cell := 20; st_region := 5; st_sink := 6; st_parent := 3; st_node := 4;
  st_tasks k := match k with O => 11%positive | _ => 12%positive end; st_threads k := match k with O => 30%positive | _ => 31%positive end;
  st_objects k := match k with O => 1%positive | _ => 2%positive end;
  st_budget k := 1 + rounds_cost (plan_loops [round_one; round_two] k) |}.

Lemma region_state_run : run team_env region_start (init_state [1%Z; 2%Z]) = Ok (tt, region_state).
Proof. by vm_compute. Qed.

Lemma no_edges_wf (h : heap) :
  bool_decide (map_Forall (fun _ n => _exitEdges n = [] ∧ _entryEdges n = []) h) = true → wf h.
Proof.
  intros H%bool_decide_eq_true. assert (∀ u, exits h u = [] ∧ entries h u = []) as E.
  { intros u. unfold exits, entries. destruct (h !! u) as [n|] eqn:Hn; [|done]. by apply (H u n). }
  split; intros *; rewrite ?(proj1 (E _)), ?(proj2 (E _)), ?elem_of_nil; try done; apply NoDup_nil_2.
Qed.

(** The addresses of an object map, by evaluation. *)
Lemma addresses_eval {A} (h : gmap positive A) (m : positive) :
  bool_decide (map_Forall (fun l _ => (l < m)%positive) h) = true → ∀ l, is_Some (h !! l) → (l < m)%positive.
Proof. intros H%bool_decide_eq_true l [x Hx]. by apply (H l x). Qed.

Lemma region_ready : ready two_threads.
Proof.
  split; cbn [st_start st_size st_cell st_region st_sink st_parent st_node st_tasks st_threads st_objects two_threads].
  - lia.
  - lia.
  - apply no_edges_wf. by vm_compute.
  - apply table_ok_eval. by vm_compute.
  - apply addresses_eval. by vm_compute.
  - apply addresses_eval. by vm_compute.
  - apply addresses_eval. by vm_compute.
  - apply addresses_eval. by vm_compute.
  - refine (proj1 (bool_decide_eq_true (map_Forall (fun id _ => (id < next_id region_state)%Z) (g_tdg region_state))) _).
    by vm_compute.
  - by vm_compute.
  - refine (proj1 (bool_decide_eq_true (is_Some _)) _). by vm_compute.
  - by vm_compute.
  - exists (MkRegion (Some 3%positive) (Some 6%positive) 2 0 None). split_and!; by vm_compute.
  - exists (MkTask (Some 4%positive) None None None 0). split; by vm_compute.
  - refine (proj1 (bool_decide_eq_true (is_Some _)) _). by vm_compute.
  - intros [|[|j]] [|[|k]] Hj Hk; try lia; done.
  - intros [|[|k]] Hk; [by vm_compute..|lia].
  - intros [|[|k]] Hk; [by vm_compute..|lia].
  - intros [|[|k]] Hk; [refine (proj1 (bool_decide_eq_true (is_Some _)) _); by vm_compute..|lia].
  - intros [|[|j]] [|[|k]] Hj Hk; try lia; done.
Qed.

(** In turn, step by step, both threads run to the first barrier, and then to
    their end. *)
Definition turns : list nat := mjoin (repeat [0; 1] 400).

Definition first_start : conf :=
  launch (st_start two_threads) (run_p team_env <$> team_round two_threads true false round_one).

Definition first_end : conf := schedule_p turns first_start.

Definition second_start : conf :=
  MkConf (cf_state first_end) (cf_owner first_end) (run_p team_env <$> team_round two_threads false true round_two).

Definition region_end : conf := schedule_p turns second_start.

Lemma first_over k : turn_of k first_end = TFinished.
Proof. destruct k as [|[|k]]; vm_compute; reflexivity. Qed.

Lemma region_over k : turn_of k region_end = TFinished.
Proof. destruct k as [|[|k]]; vm_compute; reflexivity. Qed.

Lemma rstep_threads env c c' rest : rtc pstep c c' → rtc (rstep env) (c, rest) (c', rest).
Proof. intros H. induction H as [|c c1 c' Hs _ IH]; [done|]. eapply rtc_l; [by apply rstep_thread|done]. Qed.

Lemma rstep_over env c x : (∀ k, turn_of k c = TFinished) → rstep env (c, []) x → False.
Proof.
  intros D Hx. remember (c, @nil (list (list event))) as y eqn:Ey. destruct Hx as [c1 c' rest [k Es]|c1 evs rest _]; [|done].
  injection Ey as -> _. by rewrite D in Es.
Qed.

Lemma first_reached : rtc pstep first_start first_end.
Proof. apply schedule_p_rtc. Qed.

Lemma region_reached : rtc pstep second_start region_end.
Proof. apply schedule_p_rtc. Qed.

Lemma region_steps : rtc (rstep team_env) (region_begins team_env two_threads round_one [round_two]) (region_end, []).
Proof.
  change (region_begins team_env two_threads round_one [round_two]) with (first_start, [team_round two_threads false true round_two]).
  transitivity (first_end, [team_round two_threads false true round_two]); [apply rstep_threads, first_reached|].
  eapply rtc_l; [apply rstep_barrier, first_over|]. apply rstep_threads, region_reached.
Qed.

Lemma team_builds_graph_witness :
  ∃ H bs, team_graph two_threads [round_one; round_two] H bs (cf_state region_end).
Proof.
  assert (∀ (n : nat) (es : Z), (Z.of_nat (length (PAPI_stop team_env n es)) ≤ g_papiNumEvents (st_start two_threads))%Z) as Hp
    by (intros n es; vm_compute; discriminate).
  destruct (team_builds_graph team_env two_threads round_one [round_two] region_ready (fun k _ => le_n _) Hp) as [_ H].
  destruct (H region_end [] region_steps) as [[x E]|(_ & _ & _ & E)]; [|exact E].
  destruct (rstep_over _ _ _ region_over E).
Defined.
