(* ===== verification/NodeData.v ===== *)
(** * What the callbacks leave in the nodes

    Two facts about the data of the nodes, for every sequence of callbacks that
    returns, whatever its order: a chunk always carries what the printers read
    of it, and with a clock that does not run backwards the accumulated times
    are finite and not negative.  Both are instances of one rule: a predicate
    on nodes that every single assignment keeps is kept by every callback. *)
From stdpp Require Import base numbers gmap list sorting strings.
From Stdlib Require Import ZArith Lia SpecFloat.
From S2P Require Import Prelude Float64 Graph Dag TopoSort CriticalPath Stats Output Callbacks.

(** ** Partial correctness of computations *)

(** If [m] returns from a state with [P], its result satisfies [Q]. *)
Definition hoare {A} (P : state → Prop) (m : M A) (Q : A → state → Prop) : Prop :=
  ∀ s a s', P s → m s = Ok (a, s') → Q a s'.

Lemma hoare_bind {A B} P (m : M A) (f : A → M B) (R : A → state → Prop) Q :
  hoare P m R → (∀ a, hoare (R a) (f a) Q) → hoare P (m ≫= f) Q.
Proof.
  intros Hm Hf s b s'' HP E. unfold mbind, M_bind in E.
  destruct (m s) as [[a s']| | |] eqn:Em; try discriminate E. by eapply Hf; [eapply Hm|].
Qed.

Lemma hoare_ret {A} (P : state → Prop) (a : A) : hoare P (mret a) (fun a' s => a' = a ∧ P s).
Proof. intros s a' s' HP [= <- <-]. done. Qed.

Lemma hoare_weaken {A} P (m : M A) (Q Q' : A → state → Prop) :
  hoare P m Q → (∀ a s, Q a s → Q' a s) → hoare P m Q'.
Proof. intros H HQ s a s' HP E. apply HQ. by eapply H. Qed.

(** Computations that keep [P]. *)
Definition keeps_inv {A} (P : state → Prop) (m : M A) : Prop := hoare P m (fun _ => P).

Lemma keeps_bind {A B} P (m : M A) (f : A → M B) :
  keeps_inv P m → (∀ a, keeps_inv P (f a)) → keeps_inv P (m ≫= f).
Proof. apply hoare_bind. Qed.

Lemma keeps_inv_refl {A} P (m : M A) : keeps_inv P m → hoare P m (fun _ => P).
Proof. done. Qed.

Lemma keeps_lift {A} P (r : res A) : keeps_inv P (lift r).
Proof. intros s a s' HP E. unfold lift in E. destruct r; try discriminate E. by injection E as _ <-. Qed.

Lemma keeps_read {A} P (f : state → A) : keeps_inv P (read f).
Proof. intros s a s' HP E. by injection E as _ <-. Qed.

Lemma keeps_ret {A} P (a : A) : keeps_inv P (mret a).
Proof. intros s a' s' HP E. by injection E as _ <-. Qed.

Lemma keeps_modify (P : state → Prop) f : (∀ s, P s → P (f s)) → keeps_inv P (modify f).
Proof. intros Hf s a s' HP E. injection E as _ <-. by apply Hf. Qed.

Lemma keeps_exit {A} P code : keeps_inv P (exit (A := A) code).
Proof. intros s a s' HP E. discriminate E. Qed.

Lemma modify_node_inv p f s a s' :
  modify_node p f s = Ok (a, s') →
  ∃ l n, p = Some l ∧ nodes s !! l = Some n ∧ s' = set_nodes (<[l := f n]> (nodes s)) s.
Proof.
  intros E. unfold modify_node in E. destruct p as [l|]; [|discriminate E].
  cbn in E. unfold load_node, lift, read, modify, mbind, M_bind, lookup_obj in E. cbn in E.
  destruct (nodes s !! l) as [n|] eqn:El; [|discriminate E]. injection E as _ <-. eauto.
Qed.

(** ** A predicate on the nodes *)

Section nodes_inv.
Context (env : Env).

(** [Q l k n]: the node [n] at address [l] after [k] calls to the outside. *)
Definition nodes_inv (Q : positive → nat → Node → Prop) (s : state) : Prop :=
  ∀ l n, nodes s !! l = Some n → Q l (ext_calls s) n.

(** The assignments that the callbacks make, new chunks apart. *)
Record stable (Q : positive → nat → Node → Prop) : Prop := {
  sb_later : ∀ l k k' n, Q l k n → k ≤ k' → Q l k' n;
  sb_exits : ∀ l k n es, Q l k n → Q l k (setExits es n);
  sb_entries : ∀ l k n es, Q l k n → Q l k (setEntries es n);
  sb_add_time : ∀ l k n, Q l k n → Q l (S k) (addTime (ftimer env k) n);
  sb_last_time : ∀ l k n, Q l k n → Q l (S k) (setLastTime (ftimer env k) n);
  sb_bounds : ∀ l k n lo up, Q l k n → Q l k (setLowerUpper lo up n);
  sb_papi : ∀ l k n vs arr, Q l k n → write_vals (_papiValsArr n) vs = Ok arr →
    Q l k (setPapi (_numPapiEvents n) arr n) }.

Definition fresh_ok (Q : positive → nat → Node → Prop) : Prop :=
  ∀ l k id ty, ty ≠ CHUNK_TASK → Q l k (new_Node id ty dzero).

Section rules.
Context (Q : positive → nat → Node → Prop) (St : stable Q).
Abbreviation P := (nodes_inv Q).

Lemma keeps_alloc : keeps_inv P alloc.
Proof. intros s a s' HP [= _ <-]. exact HP. Qed.

Lemma keeps_tick : keeps_inv P tick.
Proof. intros s a s' HP [= _ <-] l n Hn. eapply (sb_later _ St); [by apply HP|simpl; lia]. Qed.

Lemma keeps_nextId : keeps_inv P Node_nextId.
Proof. intros s a s' HP [= _ <-]. exact HP. Qed.

(** Everything that does not touch the nodes. *)
Lemma keeps_other f :
  (∀ s, nodes (f s) = nodes s ∧ ext_calls (f s) = ext_calls s) → keeps_inv P (modify f).
Proof. intros Hf. apply keeps_modify. intros s HP l n. destruct (Hf s) as [-> ->]. apply HP. Qed.

Lemma keeps_load_node p : hoare P (load_node p) (fun n s => P s ∧ ∃ l, p = Some l ∧ nodes s !! l = Some n).
Proof.
  intros s n s' HP E. unfold load_node in E. destruct p as [l|]; [|discriminate E].
  cbn in E. unfold lift, read, mbind, M_bind, lookup_obj in E. cbn in E.
  destruct (nodes s !! l) eqn:El; [|discriminate E]. injection E as <- <-. eauto.
Qed.

Lemma hoare_modify_node (Q' : positive → nat → Node → Prop) p f :
  (∀ l k n, p = Some l → Q l k n → Q' l k (f n)) →
  (∀ l k n, p ≠ Some l → Q l k n → Q' l k n) →
  hoare P (modify_node p f) (fun _ => nodes_inv Q').
Proof.
  intros H1 H2 s [] s' HP E. apply modify_node_inv in E as (l & n & -> & Hn & ->).
  intros l' n'. st_simpl. rewrite lookup_insert_Some. intros [[<- <-]|[Hne Hn']].
  - apply H1; [done|by apply HP].
  - apply H2; [congruence|by apply HP].
Qed.

Lemma keeps_modify_node p f : (∀ l k n, Q l k n → Q l k (f n)) → keeps_inv P (modify_node p f).
Proof. intros Hf. apply hoare_modify_node; auto. Qed.

Lemma insert_nodes s h l n :
  P (set_nodes h s) → Q l (ext_calls s) n → P (set_nodes (<[l := n]> h) s).
Proof.
  intros HP Hn l' n'. st_simpl. rewrite lookup_insert_Some.
  intros [[<- <-]|[_ Hl']]; [done|by apply (HP l' n')].
Qed.

Lemma nodes_inv_connect s h u v h' :
  P (set_nodes h s) → connectNodes h u v = Ok h' → P (set_nodes h' s).
Proof.
  intros HP E. unfold connectNodes in E. apply bind_Ok_inv in E as ([] & _ & E); run_inv; [done|].
  pose proof (HP u _ H) as Hu. assert (P (set_nodes (<[u := pushExit (MkEdge u v) v0]> h) s)) as HP'
    by (apply insert_nodes; [done|by apply (sb_exits _ St)]).
  apply insert_nodes; [done|]. by apply (sb_entries _ St), (HP' v).
Qed.

Lemma nodes_inv_disconnect s h u v h' :
  P (set_nodes h s) → disconnectNodes h u v = Ok h' → P (set_nodes h' s).
Proof.
  intros HP E. unfold disconnectNodes in E. run_inv.
  pose proof (HP u _ H) as Hu. assert (P (set_nodes (<[u := eraseExit v v0]> h) s)) as HP'
    by (apply insert_nodes; [done|by apply (sb_exits _ St)]).
  apply insert_nodes; [done|]. by apply (sb_entries _ St), (HP' v).
Qed.

(** A computation on the store of nodes. *)
Lemma keeps_graph (r : heap → res heap) :
  (∀ s h', P s → r (nodes s) = Ok h' → P (set_nodes h' s)) →
  keeps_inv P (h ← read nodes; h' ← lift (r h); modify (set_nodes h')).
Proof.
  intros Hr s [] s' HP E. unfold read, lift, modify, mbind, M_bind in E. cbn in E.
  destruct (r (nodes s)) as [h'| | |] eqn:Er; try discriminate E. injection E as <-. by apply Hr.
Qed.

Lemma keeps_connect p q : keeps_inv P (Graph_connectNodes p q).
Proof.
  apply keeps_bind; [apply keeps_lift|intros u]. apply keeps_bind; [apply keeps_lift|intros v].
  apply (keeps_graph (fun h => connectNodes h u v)). intros s h' HP. by apply nodes_inv_connect.
Qed.

Lemma keeps_disconnect p q : keeps_inv P (Graph_disconnectNodes p q).
Proof.
  apply keeps_bind; [apply keeps_lift|intros u]. apply keeps_bind; [apply keeps_lift|intros v].
  apply (keeps_graph (fun h => disconnectNodes h u v)). intros s h' HP. by apply nodes_inv_disconnect.
Qed.

Lemma keeps_delete_node {A} l (m : M A) :
  keeps_inv P m → keeps_inv P (h ← read nodes; h' ← lift (delete_Node h l); modify (set_nodes h');; m).
Proof.
  intros Hm s a s' HP E. unfold read, lift, modify, delete_Node, mbind, M_bind in E. cbn in E.
  destruct (nodes s !! l); [|discriminate E]. cbn in E. eapply Hm; [|exact E].
  intros l' n'. st_simpl. rewrite lookup_delete_Some. intros [_ Hl']. by apply (HP l').
Qed.

(** An assignment that uses the clock. *)
Lemma keeps_clock (f : double → Node → Node) p :
  (∀ l k n, Q l k n → Q l (S k) (f (ftimer env k) n)) →
  keeps_inv P (t ← ftimer_msec env; modify_node p (f t)).
Proof.
  intros Hf s [] s' HP E. unfold mbind, M_bind, ftimer_msec, tick in E. cbn in E.
  apply modify_node_inv in E as (l & n & -> & Hn & ->). apply insert_nodes; [|by apply Hf, HP].
  intros l' n' Hn'. eapply (sb_later _ St); [by apply HP|simpl; lia].
Qed.

Lemma keeps_add_time p : keeps_inv P (add_time_now env p).
Proof. apply (keeps_clock addTime), St. Qed.

Lemma keeps_set_last_time p : keeps_inv P (set_last_time_now env p).
Proof. apply (keeps_clock setLastTime), St. Qed.

Lemma keeps_endPapi p e : keeps_inv P (endPapiCounters env p e).
Proof.
  unfold endPapiCounters. apply keeps_bind; [apply keeps_tick|intros k].
  intros s [] s' HP E. unfold mbind, M_bind at 1 in E.
  destruct (load_node p s) as [[n s1]| | |] eqn:El; try discriminate E.
  apply keeps_load_node in El as (HP1 & l & -> & Hn); [|done].
  unfold lift, M_bind in E. destruct (write_vals (_papiValsArr n) _) as [arr| | |] eqn:Ew; try discriminate E.
  cbn in E. apply modify_node_inv in E as (l' & n' & [= <-] & Hn' & ->).
  rewrite Hn in Hn'. injection Hn' as <-. apply insert_nodes; [exact HP1|].
  eapply (sb_papi _ St); [by apply HP1|done].
Qed.

Lemma keeps_startPapi p e : keeps_inv P (startPapiCounters p e).
Proof. apply keeps_bind; [apply keeps_tick|]. intros _. apply keeps_ret. Qed.

Lemma keeps_clean_node ty b : ty ≠ CHUNK_TASK → fresh_ok Q → keeps_inv P (create_clean_node ty b).
Proof.
  intros Hty Fr. unfold create_clean_node. apply keeps_bind; [destruct b; [apply keeps_nextId|apply keeps_ret]|].
  intros nid. apply keeps_bind.
  - apply keeps_bind; [apply keeps_alloc|intros l]. apply keeps_bind; [|intros; apply keeps_ret].
    apply keeps_modify. intros s HP. by apply insert_nodes; [|apply Fr].
  - intros l. apply keeps_bind; [by apply keeps_other|intros; apply keeps_ret].
Qed.

Lemma keeps_new_node ty p b : ty ≠ CHUNK_TASK → fresh_ok Q → keeps_inv P (create_new_node env ty p b).
Proof.
  intros Hty Fr. unfold create_new_node. apply keeps_bind; [by apply keeps_clean_node|intros l].
  apply keeps_bind; [case_bool_decide; [apply keeps_connect|apply keeps_ret]|intros _].
  apply keeps_bind; [|intros; apply keeps_ret]. destruct b; [|apply keeps_ret].
  apply (keeps_clock setLastTime), St.
Qed.

End rules.

(** Every computation built from the rules above. *)
Ltac keep :=
  repeat (intros; first
    [ apply keeps_ret | apply keeps_lift | apply keeps_read | apply keeps_exit | apply keeps_alloc
    | apply keeps_tick; assumption | apply keeps_connect; assumption | apply keeps_disconnect; assumption
    | apply keeps_add_time; assumption | apply keeps_set_last_time; assumption
    | apply keeps_endPapi; assumption | apply keeps_startPapi; assumption
    | apply keeps_clean_node; (assumption || done) | apply keeps_new_node; (assumption || done)
    | apply keeps_modify_node; intros; by apply sb_bounds
    | apply keeps_other; by intros | apply keeps_delete_node | apply keeps_bind
    | match goal with
      | |- keeps_inv _ (if ?b then _ else _) => destruct b
      | |- keeps_inv _ (let '(_, _) := ?x in _) => destruct x
      end ]).

Section callbacks.
Context (Q : positive → nat → Node → Prop) (St : stable Q) (Fr : fresh_ok Q).
Abbreviation P := (nodes_inv Q).

Lemma keeps_add_events e n es : keeps_inv P (add_events env e n es).
Proof. revert es. induction n as [|n IH]; intros [|? es]; cbn [add_events]; keep. apply IH. Qed.

Lemma keeps_thread_begin th : keeps_inv P (cb_thread_begin env th).
Proof. unfold cb_thread_begin, set_thread_cell. keep. apply keeps_add_events. Qed.

Lemma keeps_thread_end th : keeps_inv P (cb_thread_end env th).
Proof. unfold cb_thread_end, thread_cell, load_thread. keep. Qed.

Lemma keeps_implicit_task ep pd td ts tn : keeps_inv P (cb_implicit_task env ep pd td ts tn).
Proof.
  unfold cb_implicit_task, region_cell, task_cell, alloc_TaskData, modify_task, load_region, load_task,
    load_node, set_task_cell. keep.
Qed.

Lemma keeps_parallel_begin td pd n : keeps_inv P (cb_parallel_begin env td pd n).
Proof. unfold cb_parallel_begin, task_cell, modify_region, load_region, load_task, set_region_cell. keep. Qed.

Lemma keeps_delete_region p : keeps_inv P (delete_ParallelRegionData p).
Proof. destruct p as [l|]; cbn [delete_ParallelRegionData]; [|unfold skip]; keep. Qed.

Lemma keeps_parallel_end pd : keeps_inv P (cb_parallel_end env pd).
Proof.
  unfold cb_parallel_end, region_cell, modify_task, load_region, load_task, set_region_cell. keep.
  apply keeps_delete_region.
Qed.

Lemma keeps_task_create pt nt ty : keeps_inv P (cb_task_create env pt nt ty).
Proof. unfold cb_task_create, task_cell, modify_task, load_task, set_task_cell, alloc_TaskData. keep. Qed.

Lemma keeps_task_schedule t1 t2 : keeps_inv P (cb_task_schedule env t1 t2).
Proof. unfold cb_task_schedule, task_cell, load_task. keep. Qed.

Lemma keeps_sync_region kd ep pd td : keeps_inv P (cb_sync_region env kd ep pd td).
Proof.
  unfold cb_sync_region, task_cell, region_cell, real_team, arrive, modify_region, modify_task, load_task, load_region.
  keep.
Qed.

Lemma keeps_ext_loop ep td lo up th : keeps_inv P (cb_ext_loop env ep td lo up th).
Proof.
  unfold cb_ext_loop, task_cell, thread_cell, modify_ws, modify_thread, modify_task, load_task, load_ws, load_thread.
  keep.
Qed.
End callbacks.

(** ** New chunks *)

(** The node at [c] satisfies [R], the others [Q]. *)
Definition at_node (c : positive) (R : nat → Node → Prop) (Q : positive → nat → Node → Prop)
    (l : positive) (k : nat) (n : Node) : Prop :=
  if decide (l = c) then R k n else Q l k n.

Lemma stable_at_node c R Q : stable (fun _ => R) → stable Q → stable (at_node c R Q).
Proof.
  intros [A1 A2 A3 A4 A5 A6 A7] [B1 B2 B3 B4 B5 B6 B7].
  split; unfold at_node; intros l; case_decide; eauto.
Qed.

(** What a new chunk satisfies until it has its loop number, and until it has
    its thread. *)
Record chunk_stages (Q : positive → nat → Node → Prop) (R0 R1 : nat → Node → Prop) : Prop := {
  cs_new : ∀ k id, R0 k (new_Node id CHUNK_TASK dzero);
  cs_loop : ∀ k n c, R0 k n → R1 k (setLoopCounter c n);
  cs_thread : ∀ l k n t, R1 k n → Q l k (setThreadId t n);
  cs_papi : ∀ l k n num, Q l k n → Q l k (setPapi num
    (if (0 <? num)%Z then Some (replicate (Z.to_nat num) 0%Z) else _papiValsArr n) n);
  cs_stable0 : stable (fun _ => R0);
  cs_stable1 : stable (fun _ => R1) }.

Section chunk.
Context (Q : positive → nat → Node → Prop) (R0 R1 : nat → Node → Prop).
Context (St : stable Q) (Cs : chunk_stages Q R0 R1).

Lemma hoare_new_chunk p b :
  hoare (nodes_inv Q) (create_new_node env CHUNK_TASK p b) (fun l => nodes_inv (at_node l R0 Q)).
Proof.
  assert (∀ l, stable (at_node l R0 Q)) as St0 by (intros; by apply stable_at_node; [apply Cs|]).
  unfold create_new_node. apply (hoare_bind _ _ _ (fun l => nodes_inv (at_node l R0 Q))).
  - unfold create_clean_node. apply (hoare_bind _ _ _ (fun _ => nodes_inv Q)).
    { case_bool_decide; [by apply keeps_nextId|by apply keeps_ret]. }
    intros nid. apply (hoare_bind _ _ _ (fun l => nodes_inv (at_node l R0 Q))).
    + intros s l s' HP [= <- <-] l' n'. st_simpl. unfold at_node. rewrite lookup_insert_Some.
      intros [[<- <-]|[Hne Hn']]; [rewrite decide_True by done; apply Cs|].
      rewrite decide_False by done. by apply (HP l').
    + intros l s l' s' HP [= <- <-]. exact HP.
  - intros l. apply (hoare_bind _ _ _ (fun _ => nodes_inv (at_node l R0 Q))).
    { case_bool_decide; [by apply keeps_connect|apply keeps_ret]. }
    intros []. apply (hoare_bind _ _ _ (fun _ => nodes_inv (at_node l R0 Q))).
    { destruct b; [|apply keeps_ret]. apply (keeps_clock (at_node l R0 Q) (St0 l) setLastTime), St0. }
    intros []. eapply hoare_weaken; [apply hoare_ret|]. by intros l' s' [-> ?].
Qed.

Lemma hoare_at_node c (R : nat → Node → Prop) (Q' : positive → nat → Node → Prop) f :
  (∀ k n, R k n → Q' c k (f n)) → (∀ l k n, l ≠ c → Q l k n → Q' l k n) →
  hoare (nodes_inv (at_node c R Q)) (modify_node (Some c) f) (fun _ => nodes_inv Q').
Proof.
  intros H1 H2. apply hoare_modify_node; intros l k n Hl; unfold at_node.
  - injection Hl as <-. rewrite decide_True by done. apply H1.
  - rewrite decide_False by congruence. apply H2. congruence.
Qed.

Lemma keeps_ext_chunk td lo up last th : keeps_inv (nodes_inv Q) (cb_ext_chunk env td lo up last th).
Proof.
  assert (∀ c R, stable (fun _ => R) → stable (at_node c R Q)) as Sa by (intros; by apply stable_at_node).
  unfold cb_ext_chunk, task_cell, thread_cell, load_task, load_ws, load_thread.
  do 5 (apply keeps_bind; [keep|intros]).
  destruct last; [apply keeps_ret|].
  eapply hoare_bind; [apply hoare_new_chunk|]. intros c.
  eapply hoare_bind; [apply (keeps_modify_node (at_node c R0 Q)); intros; apply sb_bounds; [|done]; by apply Sa, Cs|].
  intros ?. cbn beta.
  eapply hoare_bind; [apply (keeps_inv_refl (nodes_inv (at_node c R0 Q))); keep|]. intros t.
  eapply hoare_bind.
  { apply (hoare_at_node c R0 (at_node c R1 Q)); intros; unfold at_node.
    - rewrite decide_True by done. by apply Cs.
    - by rewrite decide_False. }
  intros ?. eapply hoare_bind; [apply (hoare_at_node c R1 Q); [intros; by apply Cs|done]|].
  intros ?. cbn beta. apply keeps_bind; [unfold modify_ws; keep|intros _].
  apply keeps_bind; [keep|intros _]. apply keeps_bind; [keep|intros num].
  apply keeps_bind; [|keep]. unfold initPapiVals. apply keeps_modify_node. intros; by apply Cs.
Qed.
End chunk.
End nodes_inv.

Section runs.
Context (env : Env).

Lemma keeps_event Q R0 R1 e :
  stable env Q → fresh_ok Q → chunk_stages env Q R0 R1 → keeps_inv (nodes_inv Q) (run_event env e).
Proof.
  intros St Fr Cs. destruct e; cbn [run_event]; try apply keeps_ret.
  - by apply keeps_thread_begin.
  - by apply keeps_thread_end.
  - by apply keeps_implicit_task.
  - by apply keeps_parallel_begin.
  - by apply keeps_parallel_end.
  - by apply keeps_task_create.
  - by apply keeps_task_schedule.
  - by apply keeps_sync_region.
  - by apply keeps_ext_loop.
  - by apply (keeps_ext_chunk env Q R0 R1).
Qed.

Lemma keeps_run Q R0 R1 es :
  stable env Q → fresh_ok Q → chunk_stages env Q R0 R1 → keeps_inv (nodes_inv Q) (run env es).
Proof.
  intros St Fr Cs. induction es as [|e es IH]; cbn [run]; [apply keeps_ret|].
  apply keeps_bind; [by eapply keeps_event|done].
Qed.

(** ** Every chunk can be printed *)

Definition papi_fits (n : Node) : Prop :=
  Z.to_nat (_numPapiEvents n) ≤ length (default [] (_papiValsArr n)).

Lemma write_vals_length arr vs arr' :
  write_vals arr vs = Ok arr' → length (default [] arr') = length (default [] arr).
Proof.
  unfold write_vals. destruct arr as [a|]; [case_decide|destruct vs]; try discriminate; intros [= <-]; [|done].
  simpl. rewrite length_app, length_drop. lia.
Qed.

Lemma stable_printable : stable env (fun _ _ => printable).
Proof.
  split; intros; match goal with H : printable _ |- _ => destruct H end; split; try done.
  simpl. by erewrite write_vals_length.
Qed.

Lemma stable_fits (R : Node → Prop) :
  (∀ n n', _loopCounter n = _loopCounter n' → R n → R n') → stable env (fun _ _ n => papi_fits n ∧ R n).
Proof.
  intros HR. split; intros; match goal with H : papi_fits _ ∧ _ |- _ => destruct H end;
    (split; [|eapply HR; [|eassumption]; done]); try done.
  unfold papi_fits. simpl. by erewrite write_vals_length.
Qed.

Lemma printable_stages :
  chunk_stages env (fun _ _ => printable) (fun _ n => papi_fits n ∧ True)
    (fun _ n => papi_fits n ∧ is_Some (_loopCounter n)).
Proof.
  split.
  - intros k id. split; [|done]. unfold papi_fits. simpl. lia.
  - intros k n c [H _]. by split.
  - intros l k n t [H1 H2]. by split.
  - intros l k n num [H1 H2 H3]. split; try done. simpl.
    destruct (Z.ltb_spec 0 num); simpl; [by rewrite length_replicate|lia].
  - apply stable_fits. done.
  - apply stable_fits. by intros n n' ->.
Qed.

Lemma run_printable es s s' :
  nodes_inv (fun _ _ => printable) s → run env es s = Ok (tt, s') → nodes_inv (fun _ _ => printable) s'.
Proof.
  eapply (keeps_run _ _ _ es stable_printable); [|apply printable_stages].
  intros l k id ty Hty. split; [done..|]. simpl. lia.
Qed.

(** ** Times *)

(** A clock that does not run backwards, and stays below [2^970] milliseconds
    (the values count units of [2^-1074]). *)
Definition TMAX : Z := 2 ^ 2044.

Record clock_ok : Prop := {
  clk_fin : ∀ k, is_fin (ftimer env k);
  clk_bound : ∀ k, (0 ≤ dval (ftimer env k) ≤ TMAX)%Z;
  clk_mono : ∀ j k, j ≤ k → (dval (ftimer env j) ≤ dval (ftimer env k))%Z }.

(** The number of calls for which the sums are known not to overflow. *)
Definition MAX_CALLS : Z := 2 ^ 52.

Definition time_ok (k : nat) (n : Node) : Prop :=
  (Z.of_nat k ≤ MAX_CALLS)%Z →
  is_fin (_totalTime n) ∧ (0 ≤ dval (_totalTime n) ≤ Z.of_nat k * TMAX)%Z ∧
  is_fin (_lastTime n) ∧ (0 ≤ dval (_lastTime n))%Z ∧
  ∀ j, k ≤ j → (dval (_lastTime n) ≤ dval (ftimer env j))%Z.

Lemma TMAX_pos : (0 < TMAX)%Z.
Proof. apply pow2_pos. lia. Qed.

(** Multiples of [TMAX] are exact. *)
Lemma rndZ_TMAX m : (0 ≤ m ≤ 2 ^ 52)%Z → rndZ (m * TMAX) = (m * TMAX)%Z.
Proof.
  intros Hm. destruct (Z.eq_dec m 0) as [->|Hm0]; [done|]. unfold rndZ, TMAX.
  pose proof (pow2_pos 2044 ltac:(lia)) as HT. rewrite Z.sgn_pos, Z.abs_eq by nia.
  rewrite rnd_exact by lia.
  rewrite Z.min_l; [lia|]. unfold HUGE. change 2098%Z with (52 + 2 + 2044)%Z.
  rewrite (Z.pow_add_r 2 (52 + 2) 2044) by lia. apply Z.mul_le_mono_nonneg_r; lia.
Qed.


(** The result of an operation with a bounded exact value is finite. *)
Lemma num_bounded_fin x m : is_num x → (0 ≤ dval x ≤ m * TMAX)%Z → (m ≤ 2 ^ 52)%Z → is_fin x.
Proof.
  intros Hx Hb Hm. destruct (is_num_cases _ Hx) as [?|[s ->]]; [done|exfalso].
  pose proof TMAX_pos. assert (m * TMAX < HUGE)%Z.
  { unfold HUGE, TMAX. change 2098%Z with (54 + 2044)%Z. rewrite (Z.pow_add_r 2 54 2044) by lia.
    apply Z.mul_lt_mono_pos_r; [apply pow2_pos; lia|]. change (2 ^ 54)%Z with (4 * 2 ^ 52)%Z. lia. }
  pose proof HUGE_pos. destruct s; cbn [dval cond_Zopp] in Hb; lia.
Qed.

Lemma rndZ_bounded X m : (0 ≤ X ≤ m * TMAX)%Z → (0 ≤ m ≤ 2 ^ 52)%Z → (0 ≤ rndZ X ≤ m * TMAX)%Z.
Proof.
  intros HX Hm. rewrite <- (rndZ_TMAX m) by done. change 0%Z with (rndZ 0).
  split; apply rndZ_mono; lia.
Qed.

(** The time since the last mark. *)
Lemma elapsed_ok x y :
  is_fin x → is_fin y → (0 ≤ dval y ≤ dval x)%Z → (dval x ≤ TMAX)%Z →
  is_fin (dsub x y) ∧ (0 ≤ dval (dsub x y) ≤ TMAX)%Z.
Proof.
  intros Hx Hy H0 Hm. destruct (dsub_correct x y Hx Hy) as [Hn E].
  pose proof (rndZ_bounded (dval x - dval y) 1 ltac:(lia) ltac:(lia)) as Hb.
  rewrite <- E in Hb. split; [by eapply (num_bounded_fin _ 1)|lia].
Qed.

Lemma accumulate_ok x y m :
  is_fin x → is_fin y → (0 ≤ dval x ≤ m * TMAX)%Z → (0 ≤ dval y ≤ TMAX)%Z → (0 ≤ m)%Z → (m + 1 ≤ 2 ^ 52)%Z →
  is_fin (dadd x y) ∧ (0 ≤ dval (dadd x y) ≤ (m + 1) * TMAX)%Z.
Proof.
  intros Hx Hy Hbx Hby H0 Hm. destruct (dadd_correct x y Hx Hy) as [Hn E].
  pose proof (rndZ_bounded (dval x + dval y) (m + 1) ltac:(lia) ltac:(lia)) as Hb.
  rewrite <- E in Hb. split; [by eapply (num_bounded_fin _ (m + 1))|lia].
Qed.

Section clock.
Context (Clk : clock_ok).

Lemma time_ok_later k k' n : time_ok k n → k ≤ k' → time_ok k' n.
Proof.
  intros H Hk Hm. destruct H as (H1 & H2 & H3 & H4 & H5); [lia|]. pose proof TMAX_pos.
  split; [done|]. split; [nia|]. split; [done|]. split; [done|]. intros j Hj. apply H5. lia.
Qed.

Lemma time_ok_add k n : time_ok k n → time_ok (S k) (addTime (ftimer env k) n).
Proof.
  intros H Hm. unfold MAX_CALLS in *. destruct H as (H1 & H2 & H3 & H4 & H5); [unfold MAX_CALLS; lia|].
  pose proof (clk_bound Clk k) as Hb. pose proof (clk_fin Clk k) as Hf.
  destruct (elapsed_ok (ftimer env k) (_lastTime n) Hf H3) as [E1 E2]; [|lia|].
  { split; [done|]. by apply H5. }
  destruct (accumulate_ok _ _ _ H1 E1 H2 E2) as [A1 A2]; [lia..|]. rewrite Nat2Z.inj_succ. simpl.
  split; [done|]. split; [lia|]. split; [done|]. split; [lia|]. intros j Hj. apply (clk_mono Clk). lia.
Qed.

Lemma time_ok_last k n : time_ok k n → time_ok (S k) (setLastTime (ftimer env k) n).
Proof.
  intros H%(time_ok_later k (S k)) Hm; [|lia]. destruct H as (H1 & H2 & H3 & H4 & H5); [done|]. simpl.
  split; [done|]. split; [done|]. split; [apply Clk|]. split; [apply Clk|].
  intros j Hj. apply (clk_mono Clk). lia.
Qed.

Lemma time_ok_new k id ty : time_ok k (new_Node id ty dzero).
Proof.
  intros Hm. pose proof TMAX_pos. simpl. split; [done|]. split; [nia|]. split; [done|]. split; [done|].
  intros j _. apply Clk.
Qed.

Lemma stable_time : stable env (fun _ => time_ok).
Proof.
  split; intros; try done; [by eapply time_ok_later|by apply time_ok_add|by apply time_ok_last].
Qed.

Lemma time_stages : chunk_stages env (fun _ => time_ok) time_ok time_ok.
Proof. split; intros; try done; try apply time_ok_new; apply stable_time. Qed.

Lemma run_times es s s' :
  nodes_inv (fun _ => time_ok) s → run env es s = Ok (tt, s') → nodes_inv (fun _ => time_ok) s'.
Proof.
  eapply (keeps_run _ _ _ es stable_time); [|apply time_stages]. intros l k id ty _. apply time_ok_new.
Qed.
End clock.
End runs.
