(* ===== verification/Protocol.v ===== *)
(** * The runtime's side of the callbacks

    An OpenMP runtime does not call the callbacks in an arbitrary order.  This
    file states which sequences of callbacks it may produce, as a state machine
    over the runtime's own notions (tasks, teams, barriers), without reference
    to what the tool stores.  [rt_step] is executable: it rejects a callback
    that the runtime would not make.

    The rules are those of the OMPT interface that the tool relies on:
    - a cell is attached to one live thread, task or region at a time;
    - the team a parallel region is granted has the requested size;
    - a thread that has arrived at a barrier does not arrive again before the
      whole team has arrived;
    - an implicit task of a team that has met a barrier ends right after its
      last barrier; the thread that encountered the region ends its implicit
      task (number 0) before it reports the end of the region, the others may
      report theirs later;
    - a task that opened a region does nothing else until the region ends;
    - chunks are reported inside loops, and by live threads. *)
From stdpp Require Import base gmap list sorting.
From Stdlib Require Import ZArith Lia.
From S2P Require Import Prelude Float64 Graph Callbacks.

Inductive task_kind : Type :=
  | TInitial
  | TImplicit (region : positive) (thread_num : Z)
  | TLate                 (** an implicit task whose region has ended *)
  | TExplicit.

#[export] Instance task_kind_eq_dec : EqDecision task_kind.
Proof. solve_decision. Defined.

Record rtask : Type := MkRTask {
  rt_kind : task_kind;
  rt_loop : bool;             (** inside a loop *)
  rt_open : option positive;  (** the region the task has opened *)
  rt_barrier : bool;          (** has met a barrier of its team *)
  rt_fresh : bool }.          (** has done nothing since its last barrier *)

Record rregion : Type := MkRRegion {
  rr_parent : positive;
  rr_size : Z;
  rr_round : nat;             (** completed barriers *)
  rr_arrived : gset positive }.  (** the tasks that wait at the current barrier *)

Record rt : Type := MkRt {
  rt_tasks : gmap positive rtask;
  rt_regions : gmap positive rregion;
  rt_threads : gset positive;
  rt_started : bool }.

Definition rt_init : rt := MkRt ∅ ∅ ∅ false.

Definition set_rt_task (c : positive) (k : rtask) (R : rt) : rt :=
  MkRt (<[c := k]> (rt_tasks R)) (rt_regions R) (rt_threads R) (rt_started R).
Definition set_rt_region (r : positive) (rr : rregion) (R : rt) : rt :=
  MkRt (rt_tasks R) (<[r := rr]> (rt_regions R)) (rt_threads R) (rt_started R).
Definition set_rt_threads (ths : gset positive) (R : rt) : rt :=
  MkRt (rt_tasks R) (rt_regions R) ths (rt_started R).

(** A task between its events. *)
Definition idle (k : rtask) : Prop := rt_open k = None ∧ rt_kind k ≠ TLate.

Definition touched (k : rtask) : rtask :=
  MkRTask (rt_kind k) (rt_loop k) (rt_open k) (rt_barrier k) false.
Definition set_open (r : option positive) (k : rtask) : rtask :=
  MkRTask (rt_kind k) (rt_loop k) r (rt_barrier k) (rt_fresh k).
Definition set_loop (b : bool) (k : rtask) : rtask :=
  MkRTask (rt_kind k) b (rt_open k) (rt_barrier k) (rt_fresh k).
Definition set_passed (k : rtask) : rtask :=
  MkRTask (rt_kind k) (rt_loop k) (rt_open k) true true.

Definition new_rtask (k : task_kind) : rtask := MkRTask k false None false false.

(** The cell of a new explicit task: unused, or left by another explicit task. *)
Definition reusable (k : option rtask) : Prop :=
  match k with None => True | Some k => rt_kind k = TExplicit ∧ rt_open k = None end.

(** Whether a task may end while its region is open. *)
Definition may_end (R : rt) (c : positive) (k : rtask) (thread_num : Z) : Prop :=
  match rt_kind k with
  | TImplicit r tn =>
      tn = thread_num ∧
      (rt_barrier k = false ∨
       rt_fresh k = true ∧ c ∉ from_option rr_arrived ∅ (rt_regions R !! r))
  | TLate => thread_num ≠ 0%Z
  | _ => False
  end.

(** The members of a team that outlive it have passed the last barrier. *)
Definition may_outlive (r : positive) (c : positive) (k : rtask) : Prop :=
  match rt_kind k with
  | TImplicit r' tn => r' = r → rt_fresh k = true ∧ tn ≠ 0%Z
  | _ => True
  end.

Definition make_late (r : positive) (k : rtask) : rtask :=
  match rt_kind k with
  | TImplicit r' _ =>
      if decide (r' = r) then MkRTask TLate (rt_loop k) (rt_open k) (rt_barrier k) (rt_fresh k) else k
  | _ => k
  end.

(** A task arrives at the barrier of its team; the last arrival completes it. *)
Definition rr_arrive (c : positive) (rr : rregion) : rregion :=
  let a := {[c]} ∪ rr_arrived rr in
  if decide (rr_size rr ≤ Z.of_nat (size a))%Z then MkRRegion (rr_parent rr) (rr_size rr) (S (rr_round rr)) ∅
  else MkRRegion (rr_parent rr) (rr_size rr) (rr_round rr) a.

#[export] Instance idle_dec k : Decision (idle k).
Proof. unfold idle. apply _. Defined.
#[export] Instance reusable_dec k : Decision (reusable k).
Proof. unfold reusable. destruct k; apply _. Defined.
#[export] Instance may_end_dec R c k tn : Decision (may_end R c k tn).
Proof. unfold may_end. destruct (rt_kind k); apply _. Defined.
#[export] Instance may_outlive_dec r c k : Decision (may_outlive r c k).
Proof. unfold may_outlive. destruct (rt_kind k); apply _. Defined.

(** The runtime enters a barrier. *)
Definition rt_barrier_begin (R : rt) (r c : positive) : option rt :=
  match rt_regions R !! r with
  | None => Some R
  | Some rr =>
      if decide (rr_size rr ≤ 1)%Z then Some R
      else
        k ← rt_tasks R !! c;
        match rt_kind k with
        | TImplicit r' _ =>
            if decide (r' = r ∧ idle k ∧ rt_loop k = false ∧ c ∉ rr_arrived rr)
            then Some (set_rt_task c (set_passed k) (set_rt_region r (rr_arrive c rr) R))
            else None
        | _ => None
        end
  end.

Definition rt_step (R : rt) (e : event) : option rt :=
  match e with
  | ThreadBegin (Some th) =>
      if decide (th ∉ rt_threads R) then Some (set_rt_threads ({[th]} ∪ rt_threads R) R) else None
  | ThreadEnd (Some th) =>
      if decide (th ∈ rt_threads R) then Some (set_rt_threads (rt_threads R ∖ {[th]}) R) else None
  | ImplicitTask ompt_scope_begin (Some r) (Some c) ts tn =>
      rr ← rt_regions R !! r;
      if decide (rt_tasks R !! c = None ∧ ts = rr_size rr)
      then Some (set_rt_task c (new_rtask (TImplicit r tn)) R) else None
  | ImplicitTask ompt_scope_end _ (Some c) _ tn =>
      k ← rt_tasks R !! c;
      if decide (rt_open k = None ∧ rt_loop k = false ∧ may_end R c k tn)
      then Some (MkRt (delete c (rt_tasks R)) (rt_regions R) (rt_threads R) (rt_started R)) else None
  | ParallelBegin (Some p) (Some r) n =>
      k ← rt_tasks R !! p;
      if decide (idle k ∧ rt_regions R !! r = None ∧ (0 ≤ n < 2 ^ 32)%Z)
      then Some (set_rt_task p (touched (set_open (Some r) k)) (set_rt_region r (MkRRegion p n 0 ∅) R))
      else None
  | ParallelEnd (Some r) =>
      rr ← rt_regions R !! r;
      k ← rt_tasks R !! rr_parent rr;
      if decide (map_Forall (may_outlive r) (rt_tasks R))
      then Some (MkRt (make_late r <$> <[rr_parent rr := set_open None k]> (rt_tasks R))
                      (delete r (rt_regions R)) (rt_threads R) (rt_started R))
      else None
  | TaskCreate _ (Some c) ompt_task_initial =>
      if decide (rt_started R = false ∧ rt_tasks R !! c = None)
      then Some (MkRt (<[c := new_rtask TInitial]> (rt_tasks R)) (rt_regions R) (rt_threads R) true)
      else None
  | TaskCreate (Some p) (Some c) ompt_task_explicit =>
      k ← rt_tasks R !! p;
      if decide (rt_kind k ≠ TLate ∧ p ≠ c ∧ reusable (rt_tasks R !! c))
      then Some (set_rt_task c (new_rtask TExplicit) (set_rt_task p (touched k) R)) else None
  | TaskCreate _ _ ompt_task_implicit => Some R
  | TaskCreate _ _ ompt_task_target => Some R
  | TaskSchedule (Some _) (Some _) => Some R
  | TaskDependences _ _ => Some R
  | TaskDependence _ _ => Some R
  | Work _ _ _ _ => Some R
  | SyncRegion ompt_sync_region_barrier ompt_scope_begin (Some r) (Some c) => rt_barrier_begin R r c
  | SyncRegion ompt_sync_region_barrier ompt_scope_end (Some r) (Some c) =>
      if decide (rt_regions R !! r = None ∨ is_Some (rt_tasks R !! c)) then Some R else None
  | SyncRegion _ _ (Some _) (Some _) => Some R
  | ExtLoop ompt_scope_begin (Some c) _ _ (Some _) =>
      k ← rt_tasks R !! c;
      if decide (idle k ∧ rt_loop k = false)
      then Some (set_rt_task c (touched (set_loop true k)) R) else None
  | ExtLoop ompt_scope_end (Some c) _ _ (Some th) =>
      k ← rt_tasks R !! c;
      if decide (idle k ∧ rt_loop k = true ∧ th ∈ rt_threads R)
      then Some (set_rt_task c (touched (set_loop false k)) R) else None
  | ExtChunk (Some c) _ _ _ (Some th) =>
      k ← rt_tasks R !! c;
      if decide (idle k ∧ rt_loop k = true ∧ th ∈ rt_threads R) then Some R else None
  | _ => None
  end.

(** The runtime's state after a sequence of callbacks it may make. *)
Fixpoint rt_run (R : rt) (es : list event) : option rt :=
  match es with
  | [] => Some R
  | e :: es' => R' ← rt_step R e; rt_run R' es'
  end.
