(* ===== verification/Invariant.v ===== *)
(** * The invariant of the callbacks

    What holds of the tool's objects and of the graph between two callbacks of
    a run that the protocol allows, and how single steps on the graph keep it.

    Every node carries a ghost label, a list of numbers: the serial part of a
    task numbers its nodes, a region prefixes the labels of its team with the
    label of the node it forks from, followed by the number of barriers the
    thread has passed.  Every edge increases the label, which is why the graph
    stays acyclic.  The invariant says which label the node in each pointer of
    the tool has. *)
From stdpp Require Import base numbers gmap list sorting relations functions.
From Stdlib Require Import ZArith Lia.
From S2P Require Import Prelude Float64 Graph Dag Callbacks Protocol.

(** ** Views of the state through the cells *)

Definition tdata (s : state) (c : positive) : option TaskData :=
  p ← task_ptr s !! c; tasks s !! p.
Definition rdata (s : state) (r : positive) : option ParallelRegionData :=
  p ← region_ptr s !! r; regions s !! p.
Definition thdata (s : state) (th : positive) : option ThreadData :=
  p ← thread_ptr s !! th; threads s !! p.
Definition wdata (s : state) (c : positive) : option WorksharingData :=
  d ← tdata s c; w ← td_curr_ws_data d; worksharings s !! w.

(** The places that hold pointers to nodes. *)
Inductive slot : Type :=
  | SCur (c : positive) | SBar (c : positive) | SSink (c : positive)
  | SStart (c : positive) | SWsSink (c : positive) | SLast (c : positive)
  | RSink (r : positive) | RBar (r : positive) | SFinal.

#[export] Instance slot_eq_dec : EqDecision slot.
Proof. solve_decision. Defined.

Definition points (s : state) (k : slot) : option positive :=
  match k with
  | SCur c => d ← tdata s c; td_curr_task_node d
  | SBar c => d ← tdata s c; td_curr_barrier_node d
  | SSink c => d ← tdata s c; td_sink_node d
  | SStart c => w ← wdata s c; ws_start_node w
  | SWsSink c => w ← wdata s c; ws_sink_node w
  | SLast c => w ← wdata s c; ws_last_chunk_node w
  | RSink r => d ← rdata s r; pr_sink_node d
  | RBar r => d ← rdata s r; pr_curr_barrier_node d
  | SFinal => g_finalNode s
  end.

(** ** The invariant *)

(** Labels of the nodes; the label of the node from which a region forks; the
    common prefix of the labels of a task's nodes. *)
Record ghost : Type := MkGhost {
  lab : positive → list nat;
  base : positive → list nat;
  pre : positive → list nat }.

(** A node as the callbacks leave it to the metrics. *)
Definition clean (n : Node) : Prop :=
  _visited n = false ∧ _level n = (-1)%Z ∧ _pathLength n = 0%Z ∧ _pathTime n = dzero ∧
  _prevCritical n = None ∧ _isCritical n = false.

Record graph_inv (lo : Z) (lab : positive → list nat) (s : state) : Prop := {
  gi_wf : wf (nodes s);
  gi_table : table_ok (nodes s) (g_tdg s);
  gi_ids : ∀ l n, nodes s !! l = Some n → (lo ≤ _id n < next_id s)%Z;
  gi_lo : (0 ≤ lo ≤ 1)%Z;
  gi_next : (1 ≤ next_id s < 2 ^ 63)%Z;
  gi_addr : ∀ l, is_Some (nodes s !! l) → (l < next_loc s)%positive;
  gi_lab : ∀ u v, edge (nodes s) u v → lex (lab u) (lab v);
  gi_clean : ∀ l n, nodes s !! l = Some n → clean n }.

(** The id 0 is used by the first task only. *)
Definition least_id (R : rt) : Z := if rt_started R then 0 else 1.

(** The counter array of a chunk has the size PAPI writes. *)
Definition papi_ready (num : Z) (n : Node) : Prop :=
  match _papiValsArr n with
  | None => (num ≤ 0)%Z
  | Some a => Z.of_nat (length a) = num
  end.

(** A node known to one task only: its current node right after a barrier. *)
Definition private (s : state) (c b n : positive) : Prop :=
  exits (nodes s) n = [] ∧ entries (nodes s) n = [MkEdge b n] ∧
  ∀ k, points s k = Some n → k = SCur c.

Definition loop_ok (G : ghost) (s : state) (c : positive) : Prop :=
  ∃ w st sk i, wdata s c = Some w ∧ ws_start_node w = Some st ∧ ws_sink_node w = Some sk ∧
    lab G st = pre G c ++ [i; 0] ∧ lab G sk = pre G c ++ [S i] ∧
    ∀ x n, ws_last_chunk_node w = Some x → nodes s !! x = Some n → papi_ready (g_papiNumEvents s) n.

Definition member_ok (G : ghost) (R : rt) (s : state) (c : positive) (d : TaskData) (r : positive) (fresh : bool) : Prop :=
  ∃ rr rd m, rt_regions R !! r = Some rr ∧ rdata s r = Some rd ∧
    td_sink_node d = pr_sink_node rd ∧ pre G c = base G r ++ [m] ∧
    m ≤ (if decide (c ∈ rr_arrived rr) then S (rr_round rr) else rr_round rr) ∧
    (fresh = true → c ∈ rr_arrived rr → td_curr_barrier_node d = pr_curr_barrier_node rd) ∧
    ∀ b, td_curr_barrier_node d = Some b → ∃ i, lab G b = base G r ++ [i].

Lemma member_ok_touched G R s c d r fresh : member_ok G R s c d r fresh → member_ok G R s c d r false.
Proof. intros (rr & rd & m & ? & ? & ? & ? & ? & _ & ?). by exists rr, rd, m. Qed.

Definition task_ok (G : ghost) (R : rt) (s : state) (c : positive) (k : rtask) : Prop :=
  ∃ d n j, tdata s c = Some d ∧ td_curr_task_node d = Some n ∧ lab G n = pre G c ++ [j] ∧
    (is_Some (td_curr_barrier_node d) ↔ rt_barrier k = true) ∧
    (rt_loop k = true → loop_ok G s c) ∧
    (rt_fresh k = true → ∃ b, td_curr_barrier_node d = Some b ∧ private s c b n) ∧
    match rt_kind k with
    | TImplicit r _ => member_ok G R s c d r (rt_fresh k)
    | TLate => rt_fresh k = true
    | _ => True
    end.

Definition region_ok (G : ghost) (R : rt) (s : state) (r : positive) (rr : rregion) : Prop :=
  ∃ rd kp dp np sk j, rdata s r = Some rd ∧
    rt_tasks R !! rr_parent rr = Some kp ∧ rt_open kp = Some r ∧
    pr_parent_task_data rd = task_ptr s !! rr_parent rr ∧
    tdata s (rr_parent rr) = Some dp ∧ td_curr_task_node dp = Some np ∧ rt_fresh kp = false ∧
    lab G np = base G r ∧ base G r = pre G (rr_parent rr) ++ [j] ∧
    pr_sink_node rd = Some sk ∧ lab G sk = pre G (rr_parent rr) ++ [S j] ∧
    pr_team_size rd = rr_size rr ∧ (0 ≤ rr_size rr < 2 ^ 32)%Z ∧
    pr_barrier_cnt rd = Z.of_nat (size (rr_arrived rr)) ∧
    ((1 < rr_size rr)%Z → (Z.of_nat (size (rr_arrived rr)) < rr_size rr)%Z) ∧
    (rr_arrived rr ≠ ∅ →
       ∃ b, pr_curr_barrier_node rd = Some b ∧ lab G b = base G r ++ [S (rr_round rr)]).

(** The facts about the objects that do not mention labels. *)
Record objects_ok (R : rt) (s : state) : Prop := {
  ob_live : ∀ k x, points s k = Some x → is_Some (nodes s !! x);
  ob_task_dom : ∀ c, is_Some (task_ptr s !! c) ↔ is_Some (rt_tasks R !! c);
  ob_task_cur : ∀ c, is_Some (task_ptr s !! c) → is_Some (points s (SCur c));
  ob_task_inj : ∀ c c' p, task_ptr s !! c = Some p → task_ptr s !! c' = Some p → c = c';
  ob_region_dom : ∀ r, is_Some (region_ptr s !! r) ↔ is_Some (rt_regions R !! r);
  ob_region_data : ∀ r, is_Some (region_ptr s !! r) → is_Some (rdata s r);
  ob_region_inj : ∀ r r' p, region_ptr s !! r = Some p → region_ptr s !! r' = Some p → r = r';
  ob_ws_inj : ∀ c c' d d' w, tdata s c = Some d → tdata s c' = Some d' →
    td_curr_ws_data d = Some w → td_curr_ws_data d' = Some w → c = c';
  ob_ws_addr : ∀ c d w, tdata s c = Some d → td_curr_ws_data d = Some w → (w < next_loc s)%positive;
  ob_thread : ∀ th, th ∈ rt_threads R → is_Some (thdata s th);
  ob_thread_inj : ∀ th th' p, th ∈ rt_threads R → th' ∈ rt_threads R →
    thread_ptr s !! th = Some p → thread_ptr s !! th' = Some p → th = th';
  ob_tasks_addr : ∀ l, is_Some (tasks s !! l) → (l < next_loc s)%positive;
  ob_regions_addr : ∀ l, is_Some (regions s !! l) → (l < next_loc s)%positive;
  ob_ws_heap_addr : ∀ l, is_Some (worksharings s !! l) → (l < next_loc s)%positive;
  ob_threads_addr : ∀ l, is_Some (threads s !! l) → (l < next_loc s)%positive;
  ob_papi : g_papiNumEvents s = Z.of_nat (length (g_papiEvents s)) }.

(** The invariant.  The tasks of [X] and the regions of [Y] are being worked on
    by a callback: their own clauses are suspended. *)
Record inv (X Y : gset positive) (G : ghost) (R : rt) (s : state) : Prop := {
  inv_graph : graph_inv (least_id R) (lab G) s;
  inv_objects : objects_ok R s;
  inv_tasks : ∀ c k, c ∉ X → rt_tasks R !! c = Some k → task_ok G R s c k;
  inv_regions : ∀ r rr, r ∉ Y → rt_regions R !! r = Some rr → region_ok G R s r rr }.

(** ** Executing a computation *)

(** [m] returns, with a result and a state that satisfy [Q]. *)
Definition wp {A} (m : M A) (Q : A → state → Prop) (s : state) : Prop :=
  ∃ a s', m s = Ok (a, s') ∧ Q a s'.

Section wp.
Context {A B : Type}.

Lemma wp_ret (a : A) Q s : Q a s → wp (mret a) Q s.
Proof. intros. by exists a, s. Qed.

Lemma wp_skip Q s : Q tt s → wp skip Q s.
Proof. intros. by exists tt, s. Qed.

Lemma wp_bind (m : M A) (f : A → M B) Q s : wp m (fun a s' => wp (f a) Q s') s → wp (m ≫= f) Q s.
Proof.
  intros (a & s' & E & b & s'' & E' & HQ). exists b, s''. split; [|done].
  unfold mbind, M_bind. by rewrite E.
Qed.

Lemma wp_mono (m : M A) (Q Q' : A → state → Prop) s :
  wp m Q s → (∀ a s', Q a s' → Q' a s') → wp m Q' s.
Proof. intros (a & s' & E & HQ) H. exists a, s'. auto. Qed.

Lemma wp_lift (r : res A) (a : A) Q s : r = Ok a → Q a s → wp (lift r) Q s.
Proof. intros -> HQ. by exists a, s. Qed.

Lemma wp_read (f : state → A) Q s : Q (f s) s → wp (read f) Q s.
Proof. intros. by exists (f s), s. Qed.
End wp.

Lemma wp_modify f (Q : unit → state → Prop) s : Q tt (f s) → wp (modify f) Q s.
Proof. intros. by exists tt, (f s). Qed.

Lemma wp_alloc (Q : positive → state → Prop) s :
  Q (next_loc s) (set_next_loc (Pos.succ (next_loc s)) s) → wp alloc Q s.
Proof. intros. by eexists _, _. Qed.

Lemma wp_tick (Q : nat → state → Prop) s :
  Q (ext_calls s) (set_ext_calls (S (ext_calls s)) s) → wp tick Q s.
Proof. intros. by eexists _, _. Qed.

Lemma wp_load_task l d (Q : TaskData → state → Prop) s :
  tasks s !! l = Some d → Q d s → wp (load_task (Some l)) Q s.
Proof. intros H HQ. exists d, s. split; [|done]. unfold load_task, lift, read, mbind, M_bind. simpl.
  by rewrite (lookup_obj_Some _ _ _ H). Qed.

Lemma wp_load_region l d (Q : ParallelRegionData → state → Prop) s :
  regions s !! l = Some d → Q d s → wp (load_region (Some l)) Q s.
Proof. intros H HQ. exists d, s. split; [|done]. unfold load_region, lift, read, mbind, M_bind. simpl.
  by rewrite (lookup_obj_Some _ _ _ H). Qed.

Lemma wp_delete_region l d (Q : unit → state → Prop) s :
  regions s !! l = Some d → Q tt (set_regions (delete l (regions s)) s) → wp (delete_ParallelRegionData (Some l)) Q s.
Proof. intros H HQ. exists tt, (set_regions (delete l (regions s)) s). split; [|done].
  unfold delete_ParallelRegionData, mbind, M_bind. cbn. by rewrite H. Qed.

Lemma wp_load_ws l d (Q : WorksharingData → state → Prop) s :
  worksharings s !! l = Some d → Q d s → wp (load_ws (Some l)) Q s.
Proof. intros H HQ. exists d, s. split; [|done]. unfold load_ws, lift, read, mbind, M_bind. simpl.
  by rewrite (lookup_obj_Some _ _ _ H). Qed.

Lemma wp_load_thread l d (Q : ThreadData → state → Prop) s :
  threads s !! l = Some d → Q d s → wp (load_thread (Some l)) Q s.
Proof. intros H HQ. exists d, s. split; [|done]. unfold load_thread, lift, read, mbind, M_bind. simpl.
  by rewrite (lookup_obj_Some _ _ _ H). Qed.

Lemma wp_load_node l d (Q : Node → state → Prop) s :
  nodes s !! l = Some d → Q d s → wp (load_node (Some l)) Q s.
Proof. intros H HQ. exists d, s. split; [|done]. unfold load_node, lift, read, mbind, M_bind. simpl.
  by rewrite (lookup_obj_Some _ _ _ H). Qed.

Lemma wp_modify_task l d f (Q : unit → state → Prop) s :
  tasks s !! l = Some d → Q tt (set_tasks (<[l := f d]> (tasks s)) s) → wp (modify_task (Some l) f) Q s.
Proof.
  intros H HQ. apply wp_bind, (wp_lift _ l); [done|]. apply wp_bind, (wp_load_task _ d); [done|].
  by apply wp_modify.
Qed.

Lemma wp_modify_region l d f (Q : unit → state → Prop) s :
  regions s !! l = Some d → Q tt (set_regions (<[l := f d]> (regions s)) s) → wp (modify_region (Some l) f) Q s.
Proof.
  intros H HQ. apply wp_bind, (wp_lift _ l); [done|]. apply wp_bind, (wp_load_region _ d); [done|].
  by apply wp_modify.
Qed.

Lemma wp_modify_ws l d f (Q : unit → state → Prop) s :
  worksharings s !! l = Some d → Q tt (set_worksharings (<[l := f d]> (worksharings s)) s) →
  wp (modify_ws (Some l) f) Q s.
Proof.
  intros H HQ. apply wp_bind, (wp_lift _ l); [done|]. apply wp_bind, (wp_load_ws _ d); [done|].
  by apply wp_modify.
Qed.

Lemma wp_modify_thread l d f (Q : unit → state → Prop) s :
  threads s !! l = Some d → Q tt (set_threads (<[l := f d]> (threads s)) s) →
  wp (modify_thread (Some l) f) Q s.
Proof.
  intros H HQ. apply wp_bind, (wp_lift _ l); [done|]. apply wp_bind, (wp_load_thread _ d); [done|].
  by apply wp_modify.
Qed.

Lemma wp_modify_node l d f (Q : unit → state → Prop) s :
  nodes s !! l = Some d → Q tt (set_nodes (<[l := f d]> (nodes s)) s) → wp (modify_node (Some l) f) Q s.
Proof.
  intros H HQ. apply wp_bind, (wp_lift _ l); [done|]. apply wp_bind, (wp_load_node _ d); [done|].
  by apply wp_modify.
Qed.

Lemma wp_thread_cell c (Q : option positive → state → Prop) s :
  Q (thread_ptr s !! c) s → wp (thread_cell (Some c)) Q s.
Proof. intros. apply wp_bind, (wp_lift _ c); [done|]. by apply wp_bind, wp_read, wp_ret. Qed.

Lemma wp_task_cell c (Q : option positive → state → Prop) s :
  Q (task_ptr s !! c) s → wp (task_cell (Some c)) Q s.
Proof. intros. apply wp_bind, (wp_lift _ c); [done|]. by apply wp_bind, wp_read, wp_ret. Qed.

Lemma wp_region_cell c (Q : option positive → state → Prop) s :
  Q (region_ptr s !! c) s → wp (region_cell (Some c)) Q s.
Proof. intros. apply wp_bind, (wp_lift _ c); [done|]. by apply wp_bind, wp_read, wp_ret. Qed.

(** ** Steps on the graph *)

Definition same_objects (s s' : state) : Prop :=
  tasks s' = tasks s ∧ worksharings s' = worksharings s ∧ regions s' = regions s ∧
  threads s' = threads s ∧ thread_ptr s' = thread_ptr s ∧ task_ptr s' = task_ptr s ∧
  region_ptr s' = region_ptr s ∧ g_finalNode s' = g_finalNode s ∧
  g_papiNumEvents s' = g_papiNumEvents s ∧ g_papiEvents s' = g_papiEvents s.

Lemma same_objects_refl s : same_objects s s.
Proof. repeat split. Qed.

Lemma same_objects_trans s s' s'' : same_objects s s' → same_objects s' s'' → same_objects s s''.
Proof. unfold same_objects. intuition congruence. Qed.

(** The same objects in the cells; objects outside the cells may differ. *)
Record same_views (s s' : state) : Prop := {
  tdata_same : ∀ c, tdata s' c = tdata s c;
  rdata_same : ∀ r, rdata s' r = rdata s r;
  thdata_same : ∀ th, thdata s' th = thdata s th;
  wdata_same : ∀ c, wdata s' c = wdata s c;
  thread_ptr_same : thread_ptr s' = thread_ptr s;
  task_ptr_same : task_ptr s' = task_ptr s;
  region_ptr_same : region_ptr s' = region_ptr s;
  final_same : g_finalNode s' = g_finalNode s;
  num_same : g_papiNumEvents s' = g_papiNumEvents s;
  events_same : g_papiEvents s' = g_papiEvents s }.
Arguments tdata_same {s s'}.
Arguments rdata_same {s s'}.
Arguments thdata_same {s s'}.
Arguments wdata_same {s s'}.

Lemma same_objects_views s s' : same_objects s s' → same_views s s'.
Proof.
  intros (E1&E2&E3&E4&E5&E6&E7&E8&E9&E10).
  split; try done; intros; unfold wdata, tdata, rdata, thdata; by rewrite ?E1, ?E2, ?E3, ?E4, ?E5, ?E6, ?E7.
Qed.

Lemma points_views {s s'} (V : same_views s s') k : points s' k = points s k.
Proof.
  destruct k; simpl; rewrite ?(tdata_same V), ?(wdata_same V), ?(rdata_same V); try done. apply V.
Qed.

Lemma points_same {s s'} (O : same_objects s s') k : points s' k = points s k.
Proof. by apply points_views, same_objects_views. Qed.

(** The addresses in use. *)
Definition addr_ok (s : state) : Prop :=
  (∀ l, is_Some (tasks s !! l) → (l < next_loc s)%positive) ∧
  (∀ l, is_Some (regions s !! l) → (l < next_loc s)%positive) ∧
  (∀ l, is_Some (worksharings s !! l) → (l < next_loc s)%positive) ∧
  (∀ l, is_Some (threads s !! l) → (l < next_loc s)%positive).

Lemma addr_same s s' :
  same_objects s s' → (next_loc s ≤ next_loc s')%positive → addr_ok s → addr_ok s'.
Proof.
  intros (E1&E2&E3&E4&_) Hl (A1 & A2 & A3 & A4). unfold addr_ok. rewrite E1, E2, E3, E4.
  split_and!; intros l Hx; [apply A1 in Hx|apply A2 in Hx|apply A3 in Hx|apply A4 in Hx]; lia.
Qed.

(** What a step on the graph keeps of the existing nodes; only the nodes in
    [E] get other edges and only those in [P] another counter array. *)
Definition keeps (E P : positive → Prop) (h h' : heap) : Prop :=
  ∀ w n, h !! w = Some n → ∃ n', h' !! w = Some n' ∧
    (¬ P w → length <$> _papiValsArr n' = length <$> _papiValsArr n) ∧
    (¬ E w → _exitEdges n' = _exitEdges n ∧ _entryEdges n' = _entryEdges n).

(** [w] is not the private node of a task. *)
Definition shared (X : gset positive) (R : rt) (s : state) (w : positive) : Prop :=
  ∀ c k, c ∉ X → rt_tasks R !! c = Some k → rt_fresh k = true → points s (SCur c) ≠ Some w.

Definition set_lab (f : positive → list nat) (G : ghost) : ghost := MkGhost f (base G) (pre G).

Lemma set_lab_id G : set_lab (lab G) G = G.
Proof. by destruct G. Qed.

Section graph_step.
Context (X Y : gset positive) (G : ghost) (R : rt) (s s' : state) (E P : positive → Prop).
Context (f : positive → list nat).
Context (I : inv X Y G R s) (O : same_views s s') (Haddr : addr_ok s') (Hloc : (next_loc s ≤ next_loc s')%positive).
Context (K : keeps E P (nodes s) (nodes s')) (HE : ∀ w, E w → shared X R s w).
Context (HP : ∀ w, P w → ∀ c, c ∉ X → points s (SLast c) ≠ Some w).
Context (Hlab : ∀ w, is_Some (nodes s !! w) → f w = lab G w).

Abbreviation G' := (set_lab f G).

Lemma gs_live w : is_Some (nodes s !! w) → is_Some (nodes s' !! w).
Proof. intros [n Hn]. destruct (K w n Hn) as (n' & H & _). eauto. Qed.

Lemma gs_points_lab k x : points s k = Some x → f x = lab G x.
Proof. intros H. by eapply Hlab, ob_live, H; apply I. Qed.

Lemma gs_objects : objects_ok R s'.
Proof.
  destruct Haddr as (A1 & A2 & A3 & A4). pose proof (thread_ptr_same _ _ O) as E1.
  pose proof (task_ptr_same _ _ O) as E2. pose proof (region_ptr_same _ _ O) as E3.
  destruct (inv_objects _ _ _ _ _ I) as [H1 H2 H3 H4 H5 H5' H6 H7 H8 H9 H10 H11 H12 H13 H14 H15].
  split; rewrite ?E1, ?E2, ?E3; try done.
  - intros k x. rewrite (points_views O). intros Hk%H1. by apply gs_live.
  - intros c Hc. rewrite (points_views O). by apply H3.
  - intros r Hr. rewrite (rdata_same O). by apply H5'.
  - intros c c' d d' w. rewrite !(tdata_same O). apply H7.
  - intros c d w. rewrite (tdata_same O). intros Hd Hw. specialize (H8 c d w Hd Hw). lia.
  - intros th Hth. rewrite (thdata_same O). by apply H9.
  - by rewrite (num_same _ _ O), (events_same _ _ O).
Qed.

Lemma gs_private c k b n :
  c ∉ X → rt_tasks R !! c = Some k → rt_fresh k = true → points s (SCur c) = Some n →
  private s c b n → private s' c b n.
Proof.
  intros Hc Hk Hf Hn (P1 & P2 & P3).
  assert (is_Some (nodes s !! n)) as [nd Hnd] by (eapply ob_live, Hn; apply I).
  destruct (K n nd Hnd) as (nd' & Hnd' & _ & Hed).
  destruct Hed as [H1 H2]; [intros HEn; by eapply HE|].
  unfold private, exits, entries in *. rewrite Hnd in *. rewrite Hnd'. simpl in *.
  rewrite H1, H2. split_and!; try done. intros k'. rewrite (points_views O). apply P3.
Qed.

Lemma gs_loop c : c ∉ X → loop_ok G s c → loop_ok G' s' c.
Proof.
  intros Hc (w & st & sk & i & Hw & H1 & H2 & L1 & L2 & HQ). exists w, st, sk, i.
  rewrite (wdata_same O). simpl. split_and!; try done.
  - rewrite <- L1. apply (gs_points_lab (SStart c)). simpl. by rewrite Hw.
  - rewrite <- L2. apply (gs_points_lab (SWsSink c)). simpl. by rewrite Hw.
  - intros x n' Hx Hn'. rewrite (num_same _ _ O).
    assert (points s (SLast c) = Some x) as Hpt by (simpl; by rewrite Hw).
    assert (is_Some (nodes s !! x)) as [n Hn].
    { apply (ob_live R s (inv_objects _ _ _ _ _ I) (SLast c) x Hpt). }
    destruct (K x n Hn) as (n'' & Hn'' & HL & _). assert (n'' = n') as -> by congruence.
    specialize (HL (fun HPx => HP x HPx c Hc Hpt)). specialize (HQ x n Hx Hn). unfold papi_ready in *.
    destruct (_papiValsArr n), (_papiValsArr n'); simpl in HL; simplify_eq; congruence.
Qed.

Lemma gs_task c k : c ∉ X → rt_tasks R !! c = Some k → task_ok G' R s' c k.
Proof.
  intros Hc Hk.
  destruct (inv_tasks _ _ _ _ _ I c k Hc Hk) as (d & n & j & Hd & Hn & HL & Hb & Hlp & Hf & Hm).
  exists d, n, j. rewrite (tdata_same O). split; [done|]. split; [done|].
  assert (points s (SCur c) = Some n) as Hcur by (simpl; by rewrite Hd).
  split; [cbn [set_lab lab pre]; rewrite <- HL; by apply (gs_points_lab (SCur c))|]. split; [done|]. split.
  { intros. by apply gs_loop, Hlp. }
  split.
  { intros Hfr. destruct (Hf Hfr) as (b & Hbar & Hp). exists b. split; [done|]. by eapply gs_private. }
  destruct (rt_kind k); try done. destruct Hm as (rr & rd & m & ? & Hrd & ? & ? & ? & HA & HB).
  exists rr, rd, m. rewrite (rdata_same O). split_and!; try done.
  intros b Hbar. destruct (HB b Hbar) as [i Hi]. exists i. cbn [set_lab lab base]. rewrite <- Hi.
  apply (gs_points_lab (SBar c)). simpl. by rewrite Hd.
Qed.

Lemma gs_region r rr : r ∉ Y → rt_regions R !! r = Some rr → region_ok G' R s' r rr.
Proof.
  intros Hr Hrr.
  destruct (inv_regions _ _ _ _ _ I r rr Hr Hrr)
    as (rd & kp & dp & np & sk & j & Hrd & Hkp & Ho & Hpp & Hdp & Hnp & Hfp & L1 & L2 & Hsk & L3 & T1 & T2 & T3 & T4 & T5).
  pose proof (task_ptr_same _ _ O) as E6.
  exists rd, kp, dp, np, sk, j. rewrite (rdata_same O), (tdata_same O), E6. simpl. split_and!; try done; try lia.
  - rewrite <- L1. apply (gs_points_lab (SCur (rr_parent rr))). simpl. by rewrite Hdp.
  - rewrite <- L3. apply (gs_points_lab (RSink r)). simpl. by rewrite Hrd.
  - intros Ha. destruct (T5 Ha) as (b & Hb & HB). exists b. split; [done|]. rewrite <- HB.
    apply (gs_points_lab (RBar r)). simpl. by rewrite Hrd.
Qed.

Lemma inv_step : graph_inv (least_id R) f s' → inv X Y G' R s'.
Proof.
  intros HG. split; [done|apply gs_objects|apply gs_task|apply gs_region].
Qed.
End graph_step.

Lemma inv_addr X Y G R s : inv X Y G R s → addr_ok s.
Proof. intros [_ [] _ _]. by split_and!. Qed.

Lemma inv_graph_step X Y G R s s' (E P : positive → Prop) f :
  inv X Y G R s → same_objects s s' → (next_loc s ≤ next_loc s')%positive →
  keeps E P (nodes s) (nodes s') → (∀ w, E w → shared X R s w) →
  (∀ w, P w → ∀ c, c ∉ X → points s (SLast c) ≠ Some w) →
  (∀ w, is_Some (nodes s !! w) → f w = lab G w) →
  graph_inv (least_id R) f s' → inv X Y (set_lab f G) R s'.
Proof.
  intros I O Hl K HE HP Hf GI. apply (inv_step X Y G R s s' E P f); try done.
  - by apply same_objects_views.
  - by eapply addr_same, inv_addr.
Qed.

(** Changes outside the cells. *)
Lemma inv_views X Y G R s s' :
  inv X Y G R s → same_views s s' → addr_ok s' → (next_loc s ≤ next_loc s')%positive →
  nodes s' = nodes s → g_tdg s' = g_tdg s → next_id s' = next_id s → inv X Y G R s'.
Proof.
  intros I V A Hl En Eg Ei. rewrite <- (set_lab_id G).
  apply (inv_step X Y G R s s' (fun _ => False) (fun _ => False)); try done.
  - rewrite En. intros w n Hn. by exists n.
  - destruct (inv_graph _ _ _ _ _ I) as [W T I1 I0 I2 I3 I4 I5].
    split; rewrite ?En, ?Eg, ?Ei; try done. intros l Hx%I3. lia.
Qed.

(** A step on the graph, as a whole. *)
Definition gstep (E P : positive → Prop) (k : Z) (s s' : state) : Prop :=
  same_objects s s' ∧ (next_loc s ≤ next_loc s')%positive ∧ (next_id s' ≤ next_id s + k)%Z ∧
  keeps E P (nodes s) (nodes s').

Definition none (w : positive) : Prop := False.

Lemma keeps_refl E P h : keeps E P h h.
Proof. intros w n Hn. by exists n. Qed.

Lemma keeps_trans E P h h' h'' : keeps E P h h' → keeps E P h' h'' → keeps E P h h''.
Proof.
  intros K1 K2 w n Hn. destruct (K1 w n Hn) as (n' & Hn' & P1 & E1).
  destruct (K2 w n' Hn') as (n'' & Hn'' & P2 & E2). exists n''. split; [done|]. split.
  - intros HP. by rewrite P2, P1.
  - intros HE. destruct (E1 HE), (E2 HE). split; congruence.
Qed.

Lemma keeps_mono (E E' P P' : positive → Prop) h h' :
  (∀ w, E w → E' w) → (∀ w, P w → P' w) → keeps E P h h' → keeps E' P' h h'.
Proof. intros HE HP K w n Hn. destruct (K w n Hn) as (n' & ? & ? & ?). exists n'. naive_solver. Qed.

Lemma gstep_trans E P k k' s s' s'' :
  gstep E P k s s' → gstep E P k' s' s'' → gstep E P (k + k') s s''.
Proof.
  intros (O1 & L1 & N1 & K1) (O2 & L2 & N2 & K2).
  split_and!; [by eapply same_objects_trans|lia|lia|by eapply keeps_trans].
Qed.

Lemma gstep_mono (E E' P P' : positive → Prop) k k' s s' :
  (∀ w, E w → E' w) → (∀ w, P w → P' w) → (k ≤ k')%Z → gstep E P k s s' → gstep E' P' k' s s'.
Proof. intros HE HP Hk (O & L & N & K). split_and!; [done..|lia|by eapply keeps_mono]. Qed.

Lemma gstep_live E P k s s' w : gstep E P k s s' → is_Some (nodes s !! w) → is_Some (nodes s' !! w).
Proof. intros (_ & _ & _ & K) [n Hn]. destruct (K w n Hn) as (n' & H & _). eauto. Qed.

Lemma shared_same X R s s' w : same_objects s s' → shared X R s w → shared X R s' w.
Proof. intros O H c k Hc Hk Hf. rewrite (points_same O). by eapply H. Qed.

(** Updates of a node that the invariant does not see. *)
Definition silent (f : Node → Node) : Prop :=
  ∀ n, _id (f n) = _id n ∧ _exitEdges (f n) = _exitEdges n ∧ _entryEdges (f n) = _entryEdges n ∧
    (clean n → clean (f n)).
Definition same_papi (f : Node → Node) : Prop :=
  ∀ n, length <$> _papiValsArr (f n) = length <$> _papiValsArr n.

Lemma graph_inv_touch lo lab s x f :
  silent f → graph_inv lo lab s → graph_inv lo lab (set_nodes (alter f x (nodes s)) s).
Proof.
  intros Hf [W T I1 I0 I2 I3 I4 I5]. split; cbn [nodes g_tdg next_id next_loc set_nodes]; try done.
  - apply wf_alter_same; [apply Hf..|done].
  - apply table_ok_alter; [apply Hf|done].
  - intros l n. rewrite lookup_alter. case_decide; subst; [|apply I1].
    destruct (nodes s !! l) as [n0|] eqn:E; simpl; intros [= <-].
    destruct (Hf n0) as (-> & _). by eapply I1.
  - intros l. rewrite is_Some_alter. apply I3.
  - intros u v He. apply (edge_ext (nodes s)) in He; [by apply I4|]. intros. apply exits_alter_same, Hf.
  - intros l n. rewrite lookup_alter. case_decide; subst; [|apply I5].
    destruct (nodes s !! l) as [n0|] eqn:E; simpl; intros [= <-]. eapply Hf, I5, E.
Qed.

Lemma keeps_alter (E P : positive → Prop) h x f :
  silent f →
  (¬ P x → ∀ n, h !! x = Some n → length <$> _papiValsArr (f n) = length <$> _papiValsArr n) →
  keeps E P h (alter f x h).
Proof.
  intros Hf Hp w n Hn. rewrite lookup_alter. case_decide; subst.
  - exists (f n). rewrite Hn. split; [done|]. split; [intros; by apply Hp|].
    intros _. destruct (Hf n) as (_ & ? & ? & _). done.
  - exists n. done.
Qed.

Section graph_steps.
Context (X Y : gset positive) (G : ghost) (R : rt).

Lemma inv_tick s k : inv X Y G R s → inv X Y G R (set_ext_calls k s).
Proof.
  intros I. rewrite <- (set_lab_id G).
  apply (inv_graph_step X Y G R s _ none none); try done; try (by intros ? []).
  - apply keeps_refl.
  - by destruct (inv_graph _ _ _ _ _ I).
Qed.

Lemma wp_modify_silent s x f (P : positive → Prop) (Q : unit → state → Prop) :
  inv X Y G R s → is_Some (nodes s !! x) → silent f →
  (¬ P x → ∀ n, nodes s !! x = Some n → length <$> _papiValsArr (f n) = length <$> _papiValsArr n) →
  (∀ w, P w → ∀ c, c ∉ X → points s (SLast c) ≠ Some w) →
  (∀ s', inv X Y G R s' → gstep none P 0 s s' →
     (∀ n, nodes s !! x = Some n → nodes s' !! x = Some (f n)) → Q tt s') →
  wp (modify_node (Some x) f) Q s.
Proof.
  intros I [n Hn] Hf Hp HP HQ. apply (wp_modify_node _ n); [done|]. rewrite (insert_alter f) by done.
  apply HQ.
  - rewrite <- (set_lab_id G). apply (inv_graph_step X Y G R s _ none P); try done; try (by intros ? []).
    + by apply keeps_alter.
    + by apply graph_inv_touch, I.
  - split_and!; try done; simpl; [lia|by apply keeps_alter].
  - intros n' Hn'. simpl. by rewrite lookup_alter_eq, Hn'.
Qed.
End graph_steps.

(** *** New nodes *)

Lemma graph_inv_new lo lab s l nid ty L :
  graph_inv lo lab s → l = next_loc s → g_tdg s !! nid = None → (lo ≤ nid)%Z →
  ∀ s', nodes s' = <[l := new_Node nid ty dzero]> (nodes s) → g_tdg s' = addNode (g_tdg s) nid l →
  (next_id s ≤ next_id s')%Z → (nid < next_id s' < 2 ^ 63)%Z → next_loc s' = Pos.succ l →
  graph_inv lo (<[l := L]> lab) s'.
Proof.
  intros [W T I1 I0 I2 I3 I4 I5] -> Hnid Hlo s' En Eg Hid Hid' El.
  assert (nodes s !! next_loc s = None) as Hfr.
  { apply eq_None_not_Some. intros H%I3. lia. }
  split; rewrite ?En, ?Eg, ?El; try lia.
  - by apply wf_insert_fresh.
  - by apply (table_ok_add _ _ _ (new_Node nid ty dzero)).
  - intros l n. rewrite lookup_insert. case_decide; subst; [intros [= <-]; simpl; lia|].
    intros Hn%I1. lia.
  - intros l. rewrite lookup_insert. case_decide; subst; [lia|]. intros Hl%I3. lia.
  - intros u v He. apply (edge_ext (nodes s)) in He; [|intros; by apply exits_insert_fresh].
    assert (u ≠ next_loc s) by (intros ->; apply edge_live_l, I3 in He; lia).
    assert (v ≠ next_loc s) by (intros ->; apply edge_live_r, I3 in He; [lia|done]).
    rewrite !fn_lookup_insert_ne by done. by apply I4.
  - intros l n. rewrite lookup_insert. case_decide; subst; [intros [= <-]; done|apply I5].
Qed.

Lemma keeps_insert_fresh E P (h : heap) l n : h !! l = None → keeps E P h (<[l := n]> h).
Proof.
  intros Hl w m Hm. exists m. rewrite lookup_insert_ne; [done|]. intros ->. congruence.
Qed.

Lemma table_bound lo lab s id : graph_inv lo lab s → (id < lo ∨ next_id s ≤ id)%Z → g_tdg s !! id = None.
Proof.
  intros [_ T I1 _ _ _ _ _] Hid. apply eq_None_not_Some. intros [l (n & Hn%I1 & <-)%T]. lia.
Qed.

Section new_nodes.
Context (X Y : gset positive) (G : ghost) (R : rt).

Abbreviation at_label l L := (set_lab (<[l := L]> (lab G)) G).

Lemma inv_new s l nid ty L s' :
  inv X Y G R s → l = next_loc s → g_tdg s !! nid = None → (least_id R ≤ nid)%Z →
  same_objects s s' → nodes s' = <[l := new_Node nid ty dzero]> (nodes s) →
  g_tdg s' = addNode (g_tdg s) nid l → (next_id s ≤ next_id s')%Z →
  (nid < next_id s' < 2 ^ 63)%Z → next_loc s' = Pos.succ l →
  inv X Y (at_label l L) R s' ∧ keeps none none (nodes s) (nodes s') ∧ nodes s !! l = None ∧
  ∀ k, points s' k ≠ Some l.
Proof.
  intros I -> Hg Hlo O En Eg Hid Hid' El.
  assert (nodes s !! next_loc s = None) as Hfr.
  { apply eq_None_not_Some. intros H%(gi_addr _ _ _ (inv_graph _ _ _ _ _ I)). lia. }
  assert (keeps none none (nodes s) (nodes s')) as K by (rewrite En; by apply keeps_insert_fresh).
  split_and!; try done.
  - apply (inv_graph_step X Y G R s s' none none); try done; try (by intros ? []); try lia.
    + intros w [n Hn]. rewrite fn_lookup_insert_ne; [done|]. congruence.
    + eapply graph_inv_new; try done; apply I.
  - intros k. rewrite (points_same O). intros Hk%(ob_live R s (inv_objects _ _ _ _ _ I)).
    rewrite Hfr in Hk. by destruct Hk.
Qed.

Lemma wp_create_clean_node s ty L (Q : positive → state → Prop) :
  inv X Y G R s → (next_id s + 1 < 2 ^ 63)%Z →
  (∀ l s', inv X Y (at_label l L) R s' → gstep none none 1 s s' → nodes s !! l = None →
     (∀ k, points s' k ≠ Some l) → nodes s' !! l = Some (new_Node (next_id s) ty dzero) → Q l s') →
  wp (create_clean_node ty true) Q s.
Proof.
  intros I Hid HQ. unfold create_clean_node, alloc_Node.
  apply wp_bind. eexists (next_id s), _. split; [reflexivity|].
  apply wp_bind, wp_bind, wp_alloc, wp_bind, wp_modify, wp_ret. cbn [set_next_id next_loc].
  apply wp_bind, wp_modify, wp_ret.
  pose proof (inv_graph _ _ _ _ _ I) as GI. pose proof (gi_next _ _ _ GI). pose proof (gi_lo _ _ _ GI).
  assert (i64 (next_id s + 1) = next_id s + 1)%Z as Ei.
  { unfold i64. rewrite Z.mod_small by lia. lia. }
  cbv beta. lazymatch goal with |- Q _ ?st =>
    edestruct (inv_new s (next_loc s) (next_id s) ty L st) as (I' & K & Hfr & Hpt);
      [..|apply HQ; try done] end; try done; simpl; rewrite ?Ei; try lia.
  - apply (table_bound _ _ _ _ GI). lia.
  - unfold gstep. simpl. rewrite ?Ei. split_and!; try done; lia.
  - by rewrite lookup_insert_eq.
Qed.
End new_nodes.

(** *** Edges *)

Lemma graph_inv_edge lo lab s u v :
  graph_inv lo lab s → is_Some (nodes s !! u) → is_Some (nodes s !! v) → ¬ edge (nodes s) u v →
  lex (lab u) (lab v) → graph_inv lo lab (set_nodes (add_edge u v (nodes s)) s).
Proof.
  intros [W T I1 I0 I2 I3 I4 I5] Hu Hv He Hl. split; cbn [nodes g_tdg next_id next_loc set_nodes]; try done.
  - by apply wf_add_edge.
  - by apply table_ok_add_edge.
  - intros l n. unfold add_edge. rewrite !lookup_alter. intros Hn.
    assert (∃ n0, nodes s !! l = Some n0 ∧ _id n = _id n0) as (n0 & Hn0%I1 & ->); [|done].
    repeat case_decide; subst; destruct (nodes s !! l); simplify_eq/=; eauto.
  - intros l. rewrite is_Some_add_edge. apply I3.
  - intros a b. rewrite edge_add_edge by done. intros [?|[-> ->]]; [by apply I4|done].
  - intros l n. unfold add_edge. rewrite !lookup_alter. intros Hn.
    assert (∃ n0, nodes s !! l = Some n0 ∧ (clean n0 → clean n)) as (n0 & Hn0%I5 & H); [|auto].
    repeat case_decide; subst; destruct (nodes s !! l); simplify_eq/=; eauto.
Qed.

Lemma keeps_add_edge P (h : heap) u v : keeps (fun w => w = u ∨ w = v) P h (add_edge u v h).
Proof.
  intros w n Hn. unfold add_edge. rewrite !lookup_alter. repeat case_decide; subst; rewrite Hn; simpl;
    eexists; (split; [done|]); split; try done; intros []; tauto.
Qed.

Section edges.
Context (env : Env) (X Y : gset positive) (G : ghost) (R : rt).

Lemma inv_connect s u v :
  inv X Y G R s → shared X R s u → shared X R s v → is_Some (nodes s !! u) → is_Some (nodes s !! v) →
  lex (lab G u) (lab G v) →
  ∃ h', connectNodes (nodes s) u v = Ok h' ∧ inv X Y G R (set_nodes h' s) ∧
    keeps (fun w => w = u ∨ w = v) none (nodes s) h' ∧
    (h' = nodes s ∧ edge (nodes s) u v ∨ h' = add_edge u v (nodes s) ∧ ¬ edge (nodes s) u v).
Proof.
  intros I Su Sv Hu Hv Hl. pose proof (inv_graph _ _ _ _ _ I) as GI.
  destruct (connectNodes_run (nodes s) u v) as (h' & E & W & HC); [apply GI|done..|].
  assert (keeps (fun w => w = u ∨ w = v) none (nodes s) h') as K.
  { destruct HC as [[-> _]|[-> _]]; [apply keeps_refl|apply keeps_add_edge]. }
  exists h'. split_and!; try done.
  rewrite <- (set_lab_id G). apply (inv_graph_step X Y G R s _ (fun w => w = u ∨ w = v) none);
    try done; try (by intros ? []).
  - by intros w [->| ->].
  - destruct HC as [[-> _]|[-> He]]; [|by apply graph_inv_edge].
    by replace (set_nodes (nodes s) s) with s by (by destruct s).
Qed.

Lemma wp_connect s u v (Q : unit → state → Prop) :
  inv X Y G R s → shared X R s u → shared X R s v → is_Some (nodes s !! u) → is_Some (nodes s !! v) →
  lex (lab G u) (lab G v) →
  (∀ s', inv X Y G R s' → gstep (fun w => w = u ∨ w = v) none 0 s s' →
     (nodes s' = nodes s ∧ edge (nodes s) u v ∨ nodes s' = add_edge u v (nodes s) ∧ ¬ edge (nodes s) u v) →
     Q tt s') →
  wp (Graph_connectNodes (Some u) (Some v)) Q s.
Proof.
  intros I Su Sv Hu Hv Hl HQ. destruct (inv_connect s u v) as (h' & E & I' & K & HC); [done..|].
  unfold Graph_connectNodes.
  apply wp_bind, (wp_lift _ u); [done|]. apply wp_bind, (wp_lift _ v); [done|].
  apply wp_bind, wp_read. apply wp_bind, (wp_lift _ h'); [done|]. apply wp_modify.
  apply HQ; try done. unfold gstep. simpl. split_and!; try done; lia.
Qed.

Lemma wp_touch_now s x (f : double → Node → Node) (Q : unit → state → Prop) :
  inv X Y G R s → is_Some (nodes s !! x) → (∀ t, silent (f t)) → (∀ t, same_papi (f t)) →
  (∀ s', inv X Y G R s' → gstep none none 0 s s' → Q tt s') →
  wp (t ← ftimer_msec env; modify_node (Some x) (f t)) Q s.
Proof.
  intros I Hx Hs Hp HQ. apply wp_bind. unfold ftimer_msec. apply wp_bind, wp_tick, wp_ret.
  eapply (wp_modify_silent X Y G R _ x _ none); [by apply inv_tick|done|done|intros; by apply Hp|by intros ? []|].
  intros s' I' (O & L & N & K) _. apply HQ; [done|]. by split_and!.
Qed.

Lemma wp_add_time s x (Q : unit → state → Prop) :
  inv X Y G R s → is_Some (nodes s !! x) →
  (∀ s', inv X Y G R s' → gstep none none 0 s s' → Q tt s') → wp (add_time_now env (Some x)) Q s.
Proof. intros I Hx HQ. by apply (wp_touch_now s x addTime). Qed.

Lemma wp_set_last_time s x (Q : unit → state → Prop) :
  inv X Y G R s → is_Some (nodes s !! x) →
  (∀ s', inv X Y G R s' → gstep none none 0 s s' → Q tt s') → wp (set_last_time_now env (Some x)) Q s.
Proof. intros I Hx HQ. by apply (wp_touch_now s x setLastTime). Qed.
End edges.

Lemma keeps_edges E P h h' w :
  keeps E P h h' → is_Some (h !! w) → ¬ E w →
  exits h' w = exits h w ∧ entries h' w = entries h w.
Proof.
  intros K [n Hn] He. destruct (K w n Hn) as (n' & Hn' & _ & H). destruct (H He).
  unfold exits, entries. by rewrite Hn, Hn'.
Qed.

Section new_child.
Context (env : Env) (X Y : gset positive) (G : ghost) (R : rt).

Abbreviation at_label l L := (set_lab (<[l := L]> (lab G)) G).

Lemma wp_create_new_node s ty p L (Q : positive → state → Prop) :
  inv X Y G R s → shared X R s p → is_Some (nodes s !! p) → lex (lab G p) L → (next_id s + 1 < 2 ^ 63)%Z →
  (∀ l s', inv X Y (at_label l L) R s' → gstep (eq p) none 1 s s' → nodes s !! l = None →
     (∀ k, points s' k ≠ Some l) → is_Some (nodes s' !! l) →
     exits (nodes s') l = [] → entries (nodes s') l = [MkEdge p l] →
     (∀ nd, nodes s' !! l = Some nd → _papiValsArr nd = None) → Q l s') →
  wp (create_new_node env ty (Some p) true) Q s.
Proof.
  intros I Sp Hp HL Hid HQ. unfold create_new_node. rewrite bool_decide_true by (by eexists).
  apply wp_bind, (wp_create_clean_node X Y G R s ty L); [done..|].
  intros l s1 I1 (O1 & L1 & N1 & K1) Hl Hpt Hn.
  assert (p ≠ l) as Hpl by (intros ->; rewrite Hl in Hp; by destruct Hp).
  assert (is_Some (nodes s1 !! p)) as Hp1 by (by eapply gstep_live).
  apply wp_bind, (wp_connect X Y (at_label l L) R s1); try done.
  { by eapply shared_same. }
  { intros c k _ _ _. apply Hpt. }
  { simpl. by rewrite fn_lookup_insert, fn_lookup_insert_ne. }
  intros s2 I2 (O2 & L2 & N2 & K2) Hed.
  assert (exits (nodes s1) l = [] ∧ entries (nodes s1) l = []) as [Ex En].
  { unfold exits, entries. by rewrite Hn. }
  assert (exits (nodes s2) l = [] ∧ entries (nodes s2) l = [MkEdge p l]) as [Ex2 En2].
  { destruct Hed as [[_ He]|[-> _]].
    - apply edge_entries in He; [|apply I1]. rewrite En in He. by apply elem_of_nil in He.
    - rewrite exits_add_edge, entries_add_edge by (done || by rewrite Hn). rewrite Ex, En.
      by rewrite decide_False, decide_True by done. }
  assert (is_Some (nodes s2 !! l)) as Hl2 by (eapply gstep_live; [by split_and!|by rewrite Hn]).
  apply wp_bind, (wp_set_last_time env X Y (at_label l L) R s2); [done|done|].
  intros s3 I3 (O3 & L3 & N3 & K3). apply wp_ret.
  destruct (keeps_edges _ _ _ _ l K3 Hl2) as [Ex3 En3]; [by intros []|].
  apply HQ; try done.
  - split_and!; [by do 2 (eapply same_objects_trans; [done|])|lia|lia|].
    intros w n Hw. destruct (K1 w n Hw) as (n1 & Hw1 & P1 & E1). destruct (K2 w n1 Hw1) as (n2 & Hw2 & P2 & E2).
    destruct (K3 w n2 Hw2) as (n3 & Hw3 & P3 & E3). exists n3. split; [done|]. split.
    + intros Hnp. by rewrite P3, P2, P1.
    + intros Hne. assert (w ≠ l) by congruence. destruct E3 as [-> ->]; [by intros []|].
      destruct E2 as [-> ->]; [by intros [->| ->]|]. apply E1. by intros [].
  - intros k. rewrite (points_same O3), (points_same O2). apply Hpt.
  - eapply gstep_live; [|exact Hl2]. by split_and!.
  - by rewrite Ex3.
  - by rewrite En3.
  - intros nd Hnd. destruct (K2 l _ Hn) as (n2 & Hn2 & P2 & _). destruct (K3 l _ Hn2) as (n3 & Hn3 & P3 & _).
    assert (n3 = nd) as -> by congruence. apply (fmap_None length). by rewrite P3, P2 by (by intros []).
Qed.
End new_child.

(** *** Removing a node *)

Lemma keeps_but_removed (h : heap) b n w m :
  b ≠ n → w ≠ n → h !! w = Some m →
  ∃ m', delete n (del_edge b n h) !! w = Some m' ∧ _papiValsArr m' = _papiValsArr m ∧ _id m' = _id m ∧
    (clean m → clean m') ∧ _entryEdges m' = _entryEdges m ∧ (w ≠ b → _exitEdges m' = _exitEdges m).
Proof.
  intros Hb Hw Hm. unfold del_edge. rewrite lookup_delete_ne by done. rewrite lookup_alter_ne by done.
  rewrite lookup_alter. case_decide; subst; rewrite Hm; simpl; eexists; by split_and!.
Qed.

Lemma graph_inv_remove lo lab s b n nd :
  graph_inv lo lab s → nodes s !! n = Some nd → b ≠ n → exits (nodes s) n = [] →
  entries (nodes s) n = [MkEdge b n] →
  graph_inv lo lab (set_g_tdg (removeNode (g_tdg s) (_id nd)) (set_nodes (delete n (del_edge b n (nodes s))) s)).
Proof.
  intros [W T I1 I0 I2 I3 I4 I5] Hn Hb Hex Hen.
  assert (∀ w, exits (delete n (del_edge b n (nodes s))) w = exits (del_edge b n (nodes s)) w) as EX.
  { intros w. apply exits_delete. rewrite exits_del_edge. by rewrite decide_False. }
  assert (entries (del_edge b n (nodes s)) n = []) as EN.
  { rewrite entries_del_edge, decide_True, Hen by done. simpl. by rewrite bool_decide_true. }
  assert (del_edge b n (nodes s) !! n = Some (eraseEntry b nd)) as Hnd.
  { unfold del_edge. rewrite lookup_alter_eq, lookup_alter_ne, Hn by done. done. }
  assert (∀ l m', delete n (del_edge b n (nodes s)) !! l = Some m' →
    ∃ m, nodes s !! l = Some m ∧ _id m' = _id m ∧ (clean m → clean m')) as HB.
  { intros l m'. rewrite lookup_delete. case_decide; [done|]. unfold del_edge.
    rewrite !lookup_alter. repeat case_decide; subst; destruct (nodes s !! l); intros ?; simplify_eq/=; eauto. }
  split; cbn [nodes g_tdg next_id next_loc set_nodes set_g_tdg]; try done.
  - apply wf_delete; [by rewrite exits_del_edge, decide_False|done|by apply wf_del_edge].
  - change (_id nd) with (_id (eraseEntry b nd)). by apply table_ok_remove; [apply table_ok_del_edge|].
  - intros l m' (m & Hm%I1 & -> & _)%HB. done.
  - intros l [m' (m & Hm & _)%HB]. apply I3. eauto.
  - intros u v He. unfold edge in He. rewrite EX in He. apply exits_del_elem in He as [He _]; [|done]. by apply I4.
  - intros l m' (m & Hm%I5 & _ & H)%HB. auto.
Qed.

Lemma inv_remove_node X Y G R s b n nd :
  inv X Y G R s → nodes s !! n = Some nd → b ≠ n → exits (nodes s) n = [] →
  entries (nodes s) n = [MkEdge b n] → (∀ k, points s k ≠ Some n) → shared X R s b →
  inv X Y G R (set_g_tdg (removeNode (g_tdg s) (_id nd)) (set_nodes (delete n (del_edge b n (nodes s))) s)).
Proof.
  intros I Hn Hb Hex Hen Hun Hsh. set (s' := set_g_tdg _ _).
  assert (∀ k, points s' k = points s k) as VP by (by intros []).
  assert (∀ w m, w ≠ n → nodes s !! w = Some m → ∃ m', nodes s' !! w = Some m' ∧
    _papiValsArr m' = _papiValsArr m ∧ _id m' = _id m ∧ (clean m → clean m') ∧
    _entryEdges m' = _entryEdges m ∧ (w ≠ b → _exitEdges m' = _exitEdges m)) as K.
  { intros w m Hw Hm. by apply keeps_but_removed. }
  split.
  - by apply graph_inv_remove; [apply I|..].
  - destruct (inv_objects _ _ _ _ _ I) as [H1 H2 H3 H4 H5 H5' H6 H7 H8 H9 H10 H11 H12 H13 H14 H15].
    split; try done. intros k x. rewrite VP. intros Hk. destruct (H1 k x Hk) as [m Hm].
    destruct (K x m) as (m' & Hm' & _); [intros ->; by eapply Hun|done|eauto].
  - intros c k Hc Hk.
    destruct (inv_tasks _ _ _ _ _ I c k Hc Hk) as (d & x & j & Hd & Hx & HL & Hba & Hlp & Hf & Hm).
    assert (points s (SCur c) = Some x) as Hcur by (simpl; by rewrite Hd).
    exists d, x, j. split_and!; try done.
    + intros Hlo. destruct (Hlp Hlo) as (w & st & sk & i & Hw & ? & ? & ? & ? & HQ).
      exists w, st, sk, i. split_and!; try done. intros y m' Hy Hm'.
      assert (points s (SLast c) = Some y) as Hpt by (simpl; by rewrite Hw).
      assert (is_Some (nodes s !! y)) as [m Hmm] by (by eapply (ob_live R s); [apply I|]).
      destruct (K y m) as (m'' & Hm'' & Ep & _); [intros ->; by eapply Hun|done|].
      assert (m'' = m') as -> by congruence. specialize (HQ y m Hy Hmm). unfold papi_ready in *. by rewrite Ep.
    + intros Hfr. destruct (Hf Hfr) as (b' & Hbar & P1 & P2 & P3). exists b'. split; [done|].
      assert (is_Some (nodes s !! x)) as [m Hmm] by (by eapply (ob_live R s); [apply I|]).
      destruct (K x m) as (m' & Hm' & _ & _ & _ & E1 & E2); [intros ->; by eapply Hun|done|].
      unfold private, exits, entries in *. rewrite Hmm in *. rewrite Hm'. simpl in *.
      rewrite E1, E2; [split_and!; try done; intros k'; rewrite VP; apply P3|].
      intros ->. by eapply Hsh.
  - intros r rr Hr Hrr. exact (inv_regions _ _ _ _ _ I r rr Hr Hrr).
Qed.
