(* ===== verification/Objects.v ===== *)
(** * Steps on the tool's objects

    How the invariant survives the updates that callbacks make to their own
    objects: while a callback works on a task or a region, the clauses of that
    task or region are suspended, and restored when it is done. *)
From stdpp Require Import base numbers gmap list sorting relations functions.
From Stdlib Require Import ZArith Lia.
From S2P Require Import Prelude Float64 Graph Dag Callbacks Protocol Invariant.

(** ** Steps on the objects *)

Lemma inv_mono X X' Y Y' G R s : inv X Y G R s → X ⊆ X' → Y ⊆ Y' → inv X' Y' G R s.
Proof. intros [GI OB T Rg] HX HY. split; [done|done| |]; intros; [apply T|apply Rg]; set_solver. Qed.

Lemma shared_slot X Y G R s k x :
  inv X Y G R s → points s k = Some x →
  (∀ c kk, k = SCur c → c ∉ X → rt_tasks R !! c = Some kk → rt_fresh kk = false) → shared X R s x.
Proof.
  intros I Hk Hc c kk HcX Hkk Hf Hn.
  destruct (inv_tasks _ _ _ _ _ I c kk HcX Hkk) as (d & n & j & Hd & Hcur & _ & _ & _ & Hfr & _).
  destruct (Hfr Hf) as (b & _ & _ & _ & Hu). simpl in Hn. rewrite Hd in Hn. simpl in Hn.
  assert (n = x) as -> by congruence. apply Hu in Hk. subst k.
  by rewrite (Hc c kk) in Hf.
Qed.

Lemma inv_live X Y G R s k x : inv X Y G R s → points s k = Some x → is_Some (nodes s !! x).
Proof. intros I. apply (ob_live R s), I. Qed.

(** The barrier node of a region changes only while no task waits. *)
Definition bar_kept (R : rt) (s s' : state) (r : positive) : Prop :=
  pr_curr_barrier_node <$> rdata s' r = pr_curr_barrier_node <$> rdata s r ∨
  from_option rr_arrived ∅ (rt_regions R !! r) = ∅.

Lemma bar_kept_same R s s' r : rdata s' r = rdata s r → bar_kept R s s' r.
Proof. intros E. left. by rewrite E. Qed.

(** A step of the tool and of the runtime that leaves the graph alone and
    changes only what is suspended. *)
Lemma inv_pstep_rt X Y G R R' s s' :
  inv X Y G R s → nodes s' = nodes s → g_tdg s' = g_tdg s → next_id s' = next_id s →
  (next_loc s ≤ next_loc s')%positive → g_papiNumEvents s' = g_papiNumEvents s →
  rt_started R' = rt_started R →
  (∀ c, c ∉ X → rt_tasks R' !! c = rt_tasks R !! c ∧ tdata s' c = tdata s c ∧ wdata s' c = wdata s c) →
  (∀ c k r tn, c ∉ X → rt_tasks R !! c = Some k → rt_kind k = TImplicit r tn →
     rt_regions R' !! r = rt_regions R !! r ∧
     pr_sink_node <$> rdata s' r = pr_sink_node <$> rdata s r ∧ bar_kept R s s' r) →
  (∀ k x, points s' k = Some x → points s k = Some x ∨ is_Some (nodes s !! x) ∧ shared X R s x) →
  (∀ r rr, r ∉ Y → rt_regions R' !! r = Some rr →
     rt_regions R !! r = Some rr ∧ rdata s' r = rdata s r ∧
     points s' (SCur (rr_parent rr)) = points s (SCur (rr_parent rr)) ∧
     task_ptr s' !! rr_parent rr = task_ptr s !! rr_parent rr ∧
     rt_tasks R' !! rr_parent rr = rt_tasks R !! rr_parent rr) →
  objects_ok R' s' → inv X Y G R' s'.
Proof.
  intros I En Eg Ei El Ep Es HT HM HP HC OB. split; [| done | |].
  - destruct (inv_graph _ _ _ _ _ I) as [W T I1 I0 I2 I3 I4 I5]. unfold least_id in *.
    split; rewrite ?En, ?Eg, ?Ei, ?Es; try done. intros l Hx%I3. lia.
  - intros c k Hc Hk. destruct (HT c Hc) as (ER & Et & Ew). rewrite ER in Hk.
    destruct (inv_tasks _ _ _ _ _ I c k Hc Hk) as (d & n & j & Hd & Hn & HL & Hb & Hlp & Hf & Hm).
    exists d, n, j. rewrite Et. split_and!; try done.
    + intros Hlo. destruct (Hlp Hlo) as (w & st & sk & i & Hw & ? & ? & ? & ? & HQ).
      exists w, st, sk, i. rewrite Ew, En, Ep. by split_and!.
    + intros Hfr. destruct (Hf Hfr) as (b & Hbar & P1 & P2 & P3). exists b. split; [done|].
      unfold private. rewrite En. split_and!; try done. intros k' [Hk'|[_ Hs]]%HP; [by apply P3|].
      exfalso. apply (Hs c k Hc Hk Hfr). simpl. by rewrite Hd.
    + destruct (rt_kind k) eqn:Ek; try done. destruct Hm as (rr & rd & m & Hrr & Hrd & Hsk & ? & ? & HA & ?).
      destruct (HM c k _ _ Hc Hk Ek) as (HR & HS & HB). unfold bar_kept in HB. rewrite Hrd, Hrr in HB. rewrite Hrd in HS.
      destruct (rdata s' region) as [rd'|] eqn:Hrd'; [|done].
      injection HS as HS. exists rr, rd', m. rewrite HR. split_and!; try done; [by rewrite HS|].
      intros Hfr Ha. destruct HB as [[= ->]|E]; [auto|]. simpl in E. set_solver.
  - intros r rr Hr Hrr. destruct (HC r rr Hr Hrr) as (Hrr0 & Erd & Ec & Ept & Ert).
    destruct (inv_regions _ _ _ _ _ I r rr Hr Hrr0)
      as (rd & kp & dp & np & sk & j & Hrd & Hkp & Ho & Hpp & Hdp & Hnp & HREST).
    simpl in Ec. rewrite Hdp in Ec. simpl in Ec. rewrite Hnp in Ec.
    destruct (tdata s' (rr_parent rr)) as [dp'|] eqn:Hdp'; [|done].
    exists rd, kp, dp', np, sk, j. rewrite Erd, Ept, Ert. split_and!; try done; naive_solver.
Qed.

(** The same without a step of the runtime. *)
Lemma inv_pstep X Y G R s s' :
  inv X Y G R s → nodes s' = nodes s → g_tdg s' = g_tdg s → next_id s' = next_id s →
  (next_loc s ≤ next_loc s')%positive → g_papiNumEvents s' = g_papiNumEvents s →
  (∀ c, c ∉ X → tdata s' c = tdata s c ∧ wdata s' c = wdata s c) →
  (∀ r, pr_sink_node <$> rdata s' r = pr_sink_node <$> rdata s r ∧ bar_kept R s s' r) →
  (∀ r, r ∉ Y → rdata s' r = rdata s r) →
  (∀ k x, points s' k = Some x → points s k = Some x ∨ is_Some (nodes s !! x) ∧ shared X R s x) →
  (∀ r rr, r ∉ Y → rt_regions R !! r = Some rr →
     points s' (SCur (rr_parent rr)) = points s (SCur (rr_parent rr)) ∧
     task_ptr s' !! rr_parent rr = task_ptr s !! rr_parent rr) →
  objects_ok R s' → inv X Y G R s'.
Proof.
  intros I En Eg Ei El Ep HT HR HR' HP HC OB. apply (inv_pstep_rt X Y G R R s); try done.
  - intros c Hc. destruct (HT c Hc). by split_and!.
  - intros r rr Hr Hrr. destruct (HC r rr Hr Hrr). split_and!; try done. by apply HR'.
Qed.

(** *** One task *)

Definition slot_task (k : slot) : option positive :=
  match k with
  | SCur c | SBar c | SSink c | SStart c | SWsSink c | SLast c => Some c
  | _ => None
  end.

Section update_task.
Context (R : rt) (s : state) (c tp : positive) (d d' : TaskData).
Context (OB : objects_ok R s) (Hc : task_ptr s !! c = Some tp) (Hd : tasks s !! tp = Some d).
Abbreviation s' := (set_tasks (<[tp := d']> (tasks s)) s).

Lemma tdata_upd : tdata s' c = Some d'.
Proof. unfold tdata. simpl. rewrite Hc. simpl. by rewrite lookup_insert_eq. Qed.

Lemma tdata_upd_ne c' : c' ≠ c → tdata s' c' = tdata s c'.
Proof.
  intros Hne. unfold tdata. simpl. destruct (task_ptr s !! c') as [p|] eqn:E; [|done]. simpl.
  rewrite lookup_insert_ne; [done|]. intros ->. apply Hne. by eapply (ob_task_inj _ _ OB).
Qed.

Lemma tdata_at : tdata s c = Some d.
Proof. unfold tdata. by rewrite Hc. Qed.

Lemma wdata_upd_ne c' : c' ≠ c → wdata s' c' = wdata s c'.
Proof. intros Hne. unfold wdata. by rewrite tdata_upd_ne. Qed.

Lemma points_upd_ne k : slot_task k ≠ Some c → points s' k = points s k.
Proof.
  intros Hk. destruct k as [c'|c'|c'|c'|c'|c'| | |]; simpl in *;
    rewrite ?tdata_upd_ne, ?wdata_upd_ne by congruence; done.
Qed.

Lemma objects_upd :
  (∀ k x, slot_task k = Some c → points s' k = Some x → is_Some (nodes s !! x)) →
  is_Some (td_curr_task_node d') →
  (∀ w, td_curr_ws_data d' = Some w → (w < next_loc s)%positive ∧
     ∀ c' d1, c' ≠ c → tdata s c' = Some d1 → td_curr_ws_data d1 ≠ Some w) →
  objects_ok R s'.
Proof.
  intros HL HC HW. destruct OB as [H1 H2 H3 H4 H5 H5' H6 H7 H8 H9 H10 H11 H12 H13 H14 H15].
  split; try done.
  - intros k x Hk. destruct (decide (slot_task k = Some c)) as [E|E]; [by eapply HL|].
    rewrite points_upd_ne in Hk by done. by eapply H1.
  - intros c' Hc'. destruct (decide (c' = c)) as [->|Hne]; [|rewrite points_upd_ne by (simpl; congruence); by apply H3].
    cbn [points]. by rewrite tdata_upd.
  - intros c1 c2 d1 d2 w. destruct (decide (c1 = c)) as [->|N1], (decide (c2 = c)) as [->|N2];
      rewrite ?tdata_upd, ?tdata_upd_ne by done; [done| | |apply H7].
    + intros [= <-] Hd2 Hw1 Hw2. by apply (proj2 (HW w Hw1) c2 d2) in Hd2.
    + intros Hd1 [= <-] Hw1 Hw2. by apply (proj2 (HW w Hw2) c1 d1) in Hd1.
  - intros c1 d1 w. destruct (decide (c1 = c)) as [->|N1]; rewrite ?tdata_upd, ?tdata_upd_ne by done; [|apply H8].
    intros [= <-] Hw. by apply HW.
  - intros l. simpl. rewrite lookup_insert. case_decide; subst; [|apply H11]. intros _. apply H11. eauto.
Qed.
End update_task.

Lemma inv_set_task X Y G R s c tp d d' :
  inv X Y G R s → c ∈ X → task_ptr s !! c = Some tp → tasks s !! tp = Some d →
  let s' := set_tasks (<[tp := d']> (tasks s)) s in
  (∀ k x, slot_task k = Some c → points s' k = Some x →
     points s k = Some x ∨ is_Some (nodes s !! x) ∧ shared X R s x) →
  is_Some (td_curr_task_node d') →
  (∀ w, td_curr_ws_data d' = Some w → (w < next_loc s)%positive ∧
     ∀ c' d1, c' ≠ c → tdata s c' = Some d1 → td_curr_ws_data d1 ≠ Some w) →
  (∀ r rr, r ∉ Y → rt_regions R !! r = Some rr → rr_parent rr = c →
     td_curr_task_node d' = td_curr_task_node d) →
  inv X Y G R s'.
Proof.
  intros I HX Hc Hd s' HP HC HW HR. pose proof (inv_objects _ _ _ _ _ I) as OB.
  apply (inv_pstep X Y G R s); try done.
  - intros c' Hc'. assert (c' ≠ c) by congruence.
    split; [by eapply (tdata_upd_ne R)|by eapply (wdata_upd_ne R)].
  - intros r. split; [done|by left].
  - intros k x Hk. destruct (decide (slot_task k = Some c)); [by apply HP|].
    left. rewrite <- Hk. symmetry. by eapply (points_upd_ne R).
  - intros r rr Hr Hrr. split; [|done]. destruct (decide (rr_parent rr = c)) as [E|E].
    + simpl. unfold s'. rewrite E, (tdata_upd s c tp d' Hc), (tdata_at s c tp d Hc Hd). simpl. by eapply HR.
    + eapply (points_upd_ne R); [done..|]. simpl. congruence.
  - eapply objects_upd; try done. intros k x Hk Hx.
    destruct (HP k x Hk Hx) as [H|[H _]]; [by eapply (ob_live _ _ OB)|done].
Qed.

(** Changing the current node, the barrier node or the loop of a task. *)
Lemma inv_set_cur X Y G R s c tp d x :
  inv X Y G R s → c ∈ X → task_ptr s !! c = Some tp → tasks s !! tp = Some d →
  is_Some (nodes s !! x) → shared X R s x →
  (∀ r rr, r ∉ Y → rt_regions R !! r = Some rr → rr_parent rr ≠ c) →
  inv X Y G R (set_tasks (<[tp := set_td_curr_task_node (Some x) d]> (tasks s)) s).
Proof.
  intros I HX Hc Hd Hx Hs HR. pose proof (tdata_at s c tp d Hc Hd) as Htd.
  apply (inv_set_task X Y G R s c tp d); try done.
  - intros k y Hk. destruct k; simpl in Hk; simplify_eq; cbn [points]; unfold wdata;
      rewrite (tdata_upd s c tp _ Hc), ?Htd; try (intros ?; by left).
    simpl. intros [= <-]. by right.
  - intros w Hw. simpl in Hw. split; [by eapply (ob_ws_addr R s); [apply I|..]|].
    intros c' d1 Hne Hd1 Hw1. apply Hne. by eapply (ob_ws_inj R s); [apply I|..].
  - intros r rr Hr Hrr E. by destruct (HR r rr Hr Hrr).
Qed.

Lemma inv_set_bar X Y G R s c tp d x :
  inv X Y G R s → c ∈ X → task_ptr s !! c = Some tp → tasks s !! tp = Some d →
  is_Some (nodes s !! x) → shared X R s x →
  inv X Y G R (set_tasks (<[tp := set_td_curr_barrier_node (Some x) d]> (tasks s)) s).
Proof.
  intros I HX Hc Hd Hx Hs. pose proof (tdata_at s c tp d Hc Hd) as Htd.
  pose proof (inv_objects _ _ _ _ _ I) as OB.
  apply (inv_set_task X Y G R s c tp d); try done.
  - intros k y Hk. destruct k; simpl in Hk; simplify_eq; cbn [points]; unfold wdata;
      rewrite (tdata_upd s c tp _ Hc), ?Htd; try (intros ?; by left).
    simpl. intros [= <-]. by right.
  - destruct (ob_task_cur R s OB c) as [y Hy]; [by eauto|]. simpl in Hy. rewrite Htd in Hy. simpl in *. eauto.
  - intros w Hw. simpl in Hw. split; [by eapply (ob_ws_addr R s)|].
    intros c' d1 Hne Hd1 Hw1. apply Hne. by eapply (ob_ws_inj R s).
Qed.

(** *** One loop *)

Section update_ws.
Context (R : rt) (s : state) (c w : positive) (d : TaskData) (wd wd' : WorksharingData).
Context (OB : objects_ok R s) (Hd : tdata s c = Some d) (Hw : td_curr_ws_data d = Some w).
Context (Hwd : worksharings s !! w = Some wd).
Abbreviation s' := (set_worksharings (<[w := wd']> (worksharings s)) s).

Lemma wdata_at : wdata s c = Some wd.
Proof. unfold wdata. rewrite Hd. simpl. rewrite Hw. done. Qed.

Lemma wdata_ws : wdata s' c = Some wd'.
Proof.
  unfold wdata. change (tdata s' c) with (tdata s c). rewrite Hd. simpl. rewrite Hw. simpl.
  by rewrite lookup_insert_eq.
Qed.

Lemma wdata_ws_ne c' : c' ≠ c → wdata s' c' = wdata s c'.
Proof.
  intros Hne. unfold wdata. change (tdata s' c') with (tdata s c').
  destruct (tdata s c') as [d'|] eqn:E; [|done]. simpl.
  destruct (td_curr_ws_data d') as [w'|] eqn:E'; [|done]. simpl.
  rewrite lookup_insert_ne; [done|]. intros <-. apply Hne. by eapply (ob_ws_inj R s).
Qed.

End update_ws.

Lemma inv_set_ws X Y G R s c w d wd wd' :
  inv X Y G R s → c ∈ X → tdata s c = Some d → td_curr_ws_data d = Some w →
  worksharings s !! w = Some wd →
  (ws_start_node wd' = ws_start_node wd) → (ws_sink_node wd' = ws_sink_node wd) →
  (∀ x, ws_last_chunk_node wd' = Some x → is_Some (nodes s !! x) ∧ shared X R s x) →
  inv X Y G R (set_worksharings (<[w := wd']> (worksharings s)) s).
Proof.
  intros I HX Hd Hw Hwd E1 E2 HP. pose proof (inv_objects _ _ _ _ _ I) as OB.
  set (s' := set_worksharings _ s).
  assert (∀ k x, points s' k = Some x → points s k = Some x ∨ is_Some (nodes s !! x) ∧ shared X R s x) as HPT.
  { intros k x. destruct k as [c'|c'|c'|c'|c'|c'|r|r|]; try (by left); cbn [points];
      (destruct (decide (c' = c)) as [->|Hne];
        [|unfold s'; rewrite (wdata_ws_ne R s c w d wd') by done; by left]);
      unfold s'; rewrite (wdata_ws s c w d wd' Hd Hw), (wdata_at s c w d wd Hd Hw Hwd); simpl.
    - rewrite E1. by left.
    - rewrite E2. by left.
    - intros Hx. right. by apply HP. }
  apply (inv_pstep X Y G R s); try done.
  - intros c' Hc'. split; [done|]. eapply (wdata_ws_ne R); try done. intros ->; done.
  - intros r. split; [done|by left].
  - destruct OB as [H1 H2 H3 H4 H5 H5' H6 H7 H8 H9 H10 H11 H12 H13 H14 H15]. split; try done.
    + intros k x Hk. destruct (HPT k x Hk) as [?|[? _]]; [by eapply H1|done].
    + intros l. simpl. rewrite lookup_insert. case_decide; subst; [|apply H13]. intros _. apply H13. eauto.
Qed.

(** *** One region *)

Section update_region.
Context (R : rt) (s : state) (r rp : positive) (rd rd' : ParallelRegionData).
Context (OB : objects_ok R s) (Hr : region_ptr s !! r = Some rp) (Hrd : regions s !! rp = Some rd).
Abbreviation s' := (set_regions (<[rp := rd']> (regions s)) s).

Lemma rdata_at : rdata s r = Some rd.
Proof. unfold rdata. by rewrite Hr. Qed.

Lemma rdata_upd : rdata s' r = Some rd'.
Proof. unfold rdata. simpl. rewrite Hr. simpl. by rewrite lookup_insert_eq. Qed.

Lemma rdata_upd_ne r' : r' ≠ r → rdata s' r' = rdata s r'.
Proof.
  intros Hne. unfold rdata. simpl. destruct (region_ptr s !! r') as [p|] eqn:E; [|done]. simpl.
  rewrite lookup_insert_ne; [done|]. intros ->. apply Hne. by eapply (ob_region_inj _ _ OB).
Qed.
End update_region.

Lemma inv_set_region X Y G R s r rp rd rd' :
  inv X Y G R s → r ∈ Y → region_ptr s !! r = Some rp → regions s !! rp = Some rd →
  pr_sink_node rd' = pr_sink_node rd →
  (∀ b, pr_curr_barrier_node rd' = Some b →
     pr_curr_barrier_node rd = Some b ∨ is_Some (nodes s !! b) ∧ shared X R s b) →
  pr_curr_barrier_node rd' = pr_curr_barrier_node rd ∨ from_option rr_arrived ∅ (rt_regions R !! r) = ∅ →
  inv X Y G R (set_regions (<[rp := rd']> (regions s)) s).
Proof.
  intros I HY Hr Hrd Hsk HB HA. pose proof (inv_objects _ _ _ _ _ I) as OB.
  set (s' := set_regions _ s).
  assert (∀ k x, points s' k = Some x → points s k = Some x ∨ is_Some (nodes s !! x) ∧ shared X R s x) as HPT.
  { intros k x. destruct k as [c'|c'|c'|c'|c'|c'|r'|r'|]; try (by left); cbn [points];
      (destruct (decide (r' = r)) as [->|Hne];
        [|unfold s'; rewrite (rdata_upd_ne R s r rp rd rd' OB Hr Hrd r' Hne); by left]);
      unfold s'; rewrite (rdata_upd s r rp rd' Hr), (rdata_at s r rp rd Hr Hrd); simpl.
    - rewrite Hsk. by left.
    - apply HB. }
  apply (inv_pstep X Y G R s); try done.
  - intros r'. destruct (decide (r' = r)) as [->|Hne].
    + unfold bar_kept, s'. rewrite (rdata_upd s r rp rd' Hr), (rdata_at s r rp rd Hr Hrd). simpl. rewrite Hsk.
      split; [done|]. destruct HA as [->|?]; [by left|by right].
    + unfold bar_kept, s'. rewrite (rdata_upd_ne R s r rp rd rd') by done. split; [done|by left].
  - intros r' Hr'. eapply (rdata_upd_ne R); try done. congruence.
  - destruct OB as [H1 H2 H3 H4 H5 H5' H6 H7 H8 H9 H10 H11 H12 H13 H14 H15]. split; try done.
    + intros k x Hk. destruct (HPT k x Hk) as [?|[? _]]; [by eapply H1|done].
    + intros r' Hr'. destruct (decide (r' = r)) as [->|Hne].
      * unfold s'. by rewrite (rdata_upd s r rp rd' Hr).
      * unfold s'. rewrite (rdata_upd_ne R s r rp rd rd'); try done; by apply H5'.
    + intros l. simpl. rewrite lookup_insert. case_decide; subst; [|apply H12]. intros _. apply H12. eauto.
Qed.

(** *** The last node *)

Lemma inv_set_final X Y G R s x :
  inv X Y G R s → is_Some (nodes s !! x) → shared X R s x → inv X Y G R (set_g_finalNode (Some x) s).
Proof.
  intros I Hx Hs. pose proof (inv_objects _ _ _ _ _ I) as OB.
  assert (∀ k y, points (set_g_finalNode (Some x) s) k = Some y → points s k = Some y ∨ is_Some (nodes s !! y) ∧ shared X R s y) as HPT.
  { intros k y. destruct k; try (by left). simpl. intros [= <-]. by right. }
  apply (inv_pstep X Y G R s); try done.
  { intros r. split; [done|by left]. }
  destruct OB as [H1 H2 H3 H4 H5 H5' H6 H7 H8 H9 H10 H11 H12 H13 H14 H15]. split; try done.
  intros k y Hk. destruct (HPT k y Hk) as [?|[? _]]; [by eapply H1|done].
Qed.

(** *** Objects in no cell *)

Lemma views_fresh_task s l d :
  (∀ c, task_ptr s !! c ≠ Some l) → same_views s (set_tasks (<[l := d]> (tasks s)) s).
Proof.
  intros Hl.
  assert (∀ c, tdata (set_tasks (<[l := d]> (tasks s)) s) c = tdata s c) as HT.
  { intros c. unfold tdata. simpl. destruct (task_ptr s !! c) as [p|] eqn:E; [|done]. simpl.
    rewrite lookup_insert_ne; [done|]. intros ->. by eapply Hl. }
  split; try done. intros c. unfold wdata. by rewrite HT.
Qed.

Lemma views_fresh_region s l d :
  (∀ r, region_ptr s !! r ≠ Some l) → same_views s (set_regions (<[l := d]> (regions s)) s).
Proof.
  intros Hl. split; try done. intros r. unfold rdata. simpl.
  destruct (region_ptr s !! r) as [p|] eqn:E; [|done]. simpl.
  rewrite lookup_insert_ne; [done|]. intros ->. by eapply Hl.
Qed.

Lemma views_fresh_ws s l d :
  (∀ c td, tdata s c = Some td → td_curr_ws_data td ≠ Some l) →
  same_views s (set_worksharings (<[l := d]> (worksharings s)) s).
Proof.
  intros Hl. split; try done. intros c. unfold wdata.
  change (tdata (set_worksharings _ s) c) with (tdata s c). destruct (tdata s c) as [td|] eqn:E; [|done]. simpl.
  destruct (td_curr_ws_data td) as [w|] eqn:E'; [|done]. simpl.
  rewrite lookup_insert_ne; [done|]. intros ->. by eapply Hl.
Qed.

Lemma inv_fresh_task X Y G R s l d :
  inv X Y G R s → (∀ c, task_ptr s !! c ≠ Some l) → (l < next_loc s)%positive →
  inv X Y G R (set_tasks (<[l := d]> (tasks s)) s).
Proof.
  intros I Hl Hlt. destruct (inv_addr _ _ _ _ _ I) as (A1 & A2 & A3 & A4).
  apply (inv_views X Y G R s); try done; [by apply views_fresh_task|].
  split_and!; try done. intros l'. simpl. rewrite lookup_insert. case_decide; subst; [done|apply A1].
Qed.

Lemma inv_fresh_region X Y G R s l d :
  inv X Y G R s → (∀ r, region_ptr s !! r ≠ Some l) → (l < next_loc s)%positive →
  inv X Y G R (set_regions (<[l := d]> (regions s)) s).
Proof.
  intros I Hl Hlt. destruct (inv_addr _ _ _ _ _ I) as (A1 & A2 & A3 & A4).
  apply (inv_views X Y G R s); try done; [by apply views_fresh_region|].
  split_and!; try done. intros l'. simpl. rewrite lookup_insert. case_decide; subst; [done|apply A2].
Qed.

Lemma inv_fresh_ws X Y G R s l d :
  inv X Y G R s → (∀ c td, tdata s c = Some td → td_curr_ws_data td ≠ Some l) → (l < next_loc s)%positive →
  inv X Y G R (set_worksharings (<[l := d]> (worksharings s)) s).
Proof.
  intros I Hl Hlt. destruct (inv_addr _ _ _ _ _ I) as (A1 & A2 & A3 & A4).
  apply (inv_views X Y G R s); try done; [by apply views_fresh_ws|].
  split_and!; try done. intros l'. simpl. rewrite lookup_insert. case_decide; subst; [done|apply A3].
Qed.

Lemma inv_alloc X Y G R s : inv X Y G R s → inv X Y G R (set_next_loc (Pos.succ (next_loc s)) s).
Proof.
  intros I. destruct (inv_addr _ _ _ _ _ I) as (A1 & A2 & A3 & A4).
  apply (inv_views X Y G R s); try done; simpl; [|lia].
  split_and!; simpl; intros l Hl; [apply A1 in Hl|apply A2 in Hl|apply A3 in Hl|apply A4 in Hl]; lia.
Qed.

(** The next address is in no cell. *)
Lemma next_loc_task X Y G R s c : inv X Y G R s → task_ptr s !! c ≠ Some (next_loc s).
Proof.
  intros I E. destruct (ob_task_cur R s (inv_objects _ _ _ _ _ I) c) as [x Hx]; [by eauto|].
  simpl in Hx. unfold tdata in Hx. rewrite E in Hx. simpl in Hx.
  destruct (tasks s !! next_loc s) eqn:E'; [|done].
  destruct (inv_addr _ _ _ _ _ I) as (A1 & _).
  specialize (A1 (next_loc s)). rewrite E' in A1. specialize (A1 ltac:(by eexists)). lia.
Qed.

Lemma next_loc_region X Y G R s r : inv X Y G R s → region_ptr s !! r ≠ Some (next_loc s).
Proof.
  intros I E. destruct (ob_region_data R s (inv_objects _ _ _ _ _ I) r) as [x Hx]; [by eauto|].
  unfold rdata in Hx. rewrite E in Hx. simpl in Hx.
  destruct (inv_addr _ _ _ _ _ I) as (_ & A2 & _).
  specialize (A2 (next_loc s)). rewrite Hx in A2. specialize (A2 ltac:(by eexists)). lia.
Qed.

Lemma next_loc_ws X Y G R s c td :
  inv X Y G R s → tdata s c = Some td → td_curr_ws_data td ≠ Some (next_loc s).
Proof.
  intros I Hd Hw. pose proof (ob_ws_addr R s (inv_objects _ _ _ _ _ I) c td _ Hd Hw). lia.
Qed.

(** ** Steps of the runtime *)

Lemma task_ok_rt G R R' s c k :
  task_ok G R s c k →
  (∀ r tn rr, rt_kind k = TImplicit r tn → rt_regions R !! r = Some rr →
     ∃ rr', rt_regions R' !! r = Some rr' ∧ (c ∈ rr_arrived rr' → c ∈ rr_arrived rr) ∧
       (if decide (c ∈ rr_arrived rr) then S (rr_round rr) else rr_round rr) ≤
       (if decide (c ∈ rr_arrived rr') then S (rr_round rr') else rr_round rr')) →
  task_ok G R' s c k.
Proof.
  intros (d & n & j & Hd & Hn & HL & Hb & Hlp & Hf & Hm) HR. exists d, n, j. split_and!; try done.
  destruct (rt_kind k); try done. destruct Hm as (rr & rd & m & Hrr & ? & ? & ? & Hle & HA & ?).
  destruct (HR _ _ rr eq_refl Hrr) as (rr' & Hrr' & Ha & Hle'). exists rr', rd, m. split_and!; try done; [lia|auto].
Qed.

Lemma region_ok_rt G R R' s r rr :
  region_ok G R s r rr →
  (∀ kp, rt_tasks R !! rr_parent rr = Some kp → rt_open kp = Some r → rt_fresh kp = false →
     ∃ kp', rt_tasks R' !! rr_parent rr = Some kp' ∧ rt_open kp' = Some r ∧ rt_fresh kp' = false) →
  region_ok G R' s r rr.
Proof.
  intros (rd & kp & dp & np & sk & j & Hrd & Hkp & Ho & Hpp & Hdp & Hnp & Hfp & HREST) HR.
  destruct (HR kp Hkp Ho Hfp) as (kp' & Hkp' & Ho' & Hfp').
  exists rd, kp', dp, np, sk, j. by split_and!; try naive_solver.
Qed.

Lemma objects_rt R R' s :
  objects_ok R s → rt_threads R' = rt_threads R →
  (∀ c, is_Some (rt_tasks R' !! c) ↔ is_Some (rt_tasks R !! c)) →
  (∀ r, is_Some (rt_regions R' !! r) ↔ is_Some (rt_regions R !! r)) → objects_ok R' s.
Proof.
  intros [H1 H2 H3 H4 H5 H5' H6 H7 H8 H9 H10 H11 H12 H13 H14 H15] Et HT HR.
  split; rewrite ?Et; try done; intros; [by rewrite HT|by rewrite HR].
Qed.

(** A suspended task changes its state. *)
Lemma inv_rt_task X Y G R s c k k' :
  inv X Y G R s → c ∈ X → rt_tasks R !! c = Some k →
  (∀ r rr, r ∉ Y → rt_regions R !! r = Some rr → rr_parent rr = c →
     rt_open k' = rt_open k ∧ (rt_fresh k = false → rt_fresh k' = false)) →
  inv X Y G (set_rt_task c k' R) s.
Proof.
  intros [GI OB T Rg] HX Hk Ho. split.
  - done.
  - apply (objects_rt R); try done. intros c'. simpl. rewrite lookup_insert.
    case_decide; subst; [|done]. rewrite Hk. split; by eexists.
  - intros c' k1 Hc'. simpl. rewrite lookup_insert_ne by congruence. intros Hk1.
    apply (task_ok_rt G R); [by apply T|]. intros r tn rr _ Hrr. by exists rr.
  - intros r rr Hr Hrr. apply (region_ok_rt G R); [by apply Rg|]. intros kp Hkp Hop Hfp. simpl.
    rewrite lookup_insert. case_decide as E; [|by exists kp]. exists k'. rewrite <- E in Hkp.
    assert (kp = k) as -> by congruence.
    destruct (Ho r rr Hr Hrr (eq_sym E)) as [E1 E2]. split_and!; [done|congruence|auto].
Qed.

(** The clauses of a task or a region are restored. *)
Lemma inv_close_task X Y G R s c k :
  inv ({[c]} ∪ X) Y G R s → rt_tasks R !! c = Some k → task_ok G R s c k → inv X Y G R s.
Proof.
  intros [GI OB T Rg] Hk Hok. split; try done. intros c' k' Hc' Hk'.
  destruct (decide (c' = c)) as [->|]; [by simplify_eq|]. apply T; [set_solver|done].
Qed.

Lemma inv_close_region X Y G R s r :
  inv X ({[r]} ∪ Y) G R s → (∀ rr, rt_regions R !! r = Some rr → region_ok G R s r rr) → inv X Y G R s.
Proof.
  intros [GI OB T Rg] Hok. split; try done. intros r' rr Hr' Hrr.
  destruct (decide (r' = r)) as [->|]; [by apply Hok|]. apply Rg; [set_solver|done].
Qed.

Lemma inv_gone_task X Y G R s c :
  inv ({[c]} ∪ X) Y G R s → rt_tasks R !! c = None → inv X Y G R s.
Proof.
  intros [GI OB T Rg] Hk. split; try done. intros c' k' Hc' Hk'.
  apply T; [|done]. assert (c' ≠ c) by congruence. set_solver.
Qed.

(** A task goes on: it leaves its barrier, opens or closes a region, or ends a
    loop. *)
Lemma inv_change_task X Y G R s c k k' :
  inv X Y G R s → rt_tasks R !! c = Some k → rt_kind k ≠ TLate →
  rt_kind k' = rt_kind k → rt_barrier k' = rt_barrier k → (rt_loop k' = true → rt_loop k = true) →
  rt_fresh k' = false →
  (∀ r rr, r ∉ Y → rt_regions R !! r = Some rr → rr_parent rr = c → rt_open k' = rt_open k) →
  inv X Y G (set_rt_task c k' R) s.
Proof.
  intros I Hk Hlate Ek Eb El Ef Ho.
  destruct (decide (c ∈ X)) as [HX|HX].
  { apply (inv_rt_task X Y G R s c k); try done. intros r rr Hr Hrr E. split; [by eapply Ho|done]. }
  apply (inv_close_task X Y G _ s c k').
  - apply (inv_rt_task _ Y G R s c k); try done.
    + by apply (inv_mono X _ Y); [|set_solver|].
    + set_solver.
    + intros r rr Hr Hrr E. split; [by eapply Ho|done].
  - simpl. by rewrite lookup_insert_eq.
  - destruct (inv_tasks _ _ _ _ _ I c k HX Hk) as (d & n & j & Hd & Hn & HL & Hb & Hlp & Hf & Hm).
    exists d, n, j. rewrite Ek, Eb. split_and!; try done; [auto|congruence|]. rewrite Ef.
    destruct (rt_kind k); try done. by eapply member_ok_touched.
Qed.

Lemma inv_touched X Y G R s c k :
  inv X Y G R s → rt_tasks R !! c = Some k → rt_kind k ≠ TLate →
  inv X Y G (set_rt_task c (touched k) R) s.
Proof. intros I Hk Hl. by apply (inv_change_task X Y G R s c k). Qed.

(** The labels of a suspended task, and the fork label of a region not yet open. *)
Definition set_pre (c : positive) (L : list nat) (G : ghost) : ghost :=
  MkGhost (lab G) (base G) (<[c := L]> (pre G)).
Definition set_base (r : positive) (L : list nat) (G : ghost) : ghost :=
  MkGhost (lab G) (<[r := L]> (base G)) (pre G).

Lemma inv_set_pre X Y G R s c L :
  inv X Y G R s → c ∈ X → (∀ r rr, r ∉ Y → rt_regions R !! r = Some rr → rr_parent rr ≠ c) →
  inv X Y (set_pre c L G) R s.
Proof.
  intros [GI OB T Rg] HX HR. split; try done.
  - intros c' k' Hc' Hk'.
    destruct (T c' k' Hc' Hk') as (d & n & j & Hd & Hn & HL & Hb & Hlp & Hf & Hm).
    assert (<[c := L]> (pre G) c' = pre G c') as Ep by (apply fn_lookup_insert_ne; congruence).
    exists d, n, j. split_and!; try done; unfold loop_ok, member_ok; simpl; by rewrite Ep.
  - intros r rr Hr Hrr. specialize (Rg r rr Hr Hrr). specialize (HR r rr Hr Hrr).
    assert (<[c := L]> (pre G) (rr_parent rr) = pre G (rr_parent rr)) as Ep
      by (apply fn_lookup_insert_ne; congruence).
    unfold region_ok. simpl. by rewrite Ep.
Qed.

Lemma inv_set_base X Y G R s r L :
  inv X Y G R s → rt_regions R !! r = None → inv X Y (set_base r L G) R s.
Proof.
  intros [GI OB T Rg] Hr. split; try done.
  - intros c' k' Hc' Hk'.
    destruct (T c' k' Hc' Hk') as (d & n & j & Hd & Hn & HL & Hb & Hlp & Hf & Hm).
    exists d, n, j. split_and!; try done. destruct (rt_kind k') as [|r'| |]; try done.
    destruct Hm as (rr & rd & m & Hrr & HREST). exists rr, rd, m. split; [done|].
    simpl. rewrite fn_lookup_insert_ne by congruence. done.
  - intros r' rr Hr' Hrr. specialize (Rg r' rr Hr' Hrr). unfold region_ok. simpl.
    by rewrite fn_lookup_insert_ne by congruence.
Qed.

(** ** Attaching and detaching objects *)

Section attach_task.
Context (s : state) (c l : positive).
Abbreviation s' := (set_task_ptr (<[c := l]> (task_ptr s)) s).

Lemma tdata_attach : tdata s' c = tasks s !! l.
Proof. unfold tdata. simpl. by rewrite lookup_insert_eq. Qed.

Lemma tdata_attach_ne c' : c' ≠ c → tdata s' c' = tdata s c'.
Proof. intros Hne. unfold tdata. simpl. by rewrite lookup_insert_ne. Qed.

Lemma wdata_attach_ne c' : c' ≠ c → wdata s' c' = wdata s c'.
Proof. intros Hne. unfold wdata. by rewrite tdata_attach_ne. Qed.

Lemma points_attach_ne k : slot_task k ≠ Some c → points s' k = points s k.
Proof.
  intros Hk. destruct k as [c'|c'|c'|c'|c'|c'| | |]; simpl in *;
    rewrite ?tdata_attach_ne, ?wdata_attach_ne by congruence; done.
Qed.
End attach_task.

Lemma inv_attach_task X Y G R s c l d n k :
  inv X Y G R s → c ∈ X → (∀ c', task_ptr s !! c' ≠ Some l) → tasks s !! l = Some d →
  td_curr_task_node d = Some n → is_Some (nodes s !! n) → shared X R s n →
  td_curr_barrier_node d = None → td_curr_ws_data d = None →
  (∀ x, td_sink_node d = Some x → is_Some (nodes s !! x) ∧ shared X R s x) →
  (∀ r rr, rt_regions R !! r = Some rr → rr_parent rr ≠ c) →
  inv X Y G (set_rt_task c k R) (set_task_ptr (<[c := l]> (task_ptr s)) s).
Proof.
  intros I HX Hl Hd Hn Hln Hsn Hb Hw Hsk HR. set (s' := set_task_ptr _ s).
  assert (tdata s' c = Some d) as Hd' by (unfold s'; by rewrite tdata_attach).
  assert (∀ c', c' ≠ c → tdata s' c' = tdata s c') as Hne by (intros; by apply tdata_attach_ne).
  assert (∀ k x, points s' k = Some x → points s k = Some x ∨ is_Some (nodes s !! x) ∧ shared X R s x) as HPT.
  { intros kk x. destruct (decide (slot_task kk = Some c)) as [E|E].
    - destruct kk; simpl in E; simplify_eq; cbn [points]; unfold wdata; rewrite Hd'; simpl;
        rewrite ?Hn, ?Hb, ?Hw; try done; [intros [= <-]; by right|intros Hx; right; by apply Hsk].
    - intros Hx. left. rewrite <- Hx. symmetry. by apply points_attach_ne. }
  apply (inv_pstep_rt X Y G R _ s); try done.
  - intros c' Hc'. assert (c' ≠ c) by congruence. simpl. rewrite lookup_insert_ne by done.
    split_and!; [done|by apply tdata_attach_ne|by apply wdata_attach_ne].
  - intros c1 k1 r1 tn _ _ _. split_and!; [done..|by left].
  - intros r rr Hr Hrr. specialize (HR r rr Hrr). simpl. rewrite !lookup_insert_ne by done.
    split_and!; try done. by rewrite Hne.
  - destruct (inv_objects _ _ _ _ _ I) as [H1 H2 H3 H4 H5 H5' H6 H7 H8 H9 H10 H11 H12 H13 H14 H15].
    split; try done.
    + intros kk x Hk. destruct (HPT kk x Hk) as [?|[? _]]; [by eapply H1|done].
    + intros c'. simpl. rewrite !lookup_insert. case_decide; subst; [|apply H2]. split; by eexists.
    + intros c'. destruct (decide (c' = c)) as [->|Hx].
      * intros _. cbn [points]. rewrite Hd'. by eexists.
      * simpl. rewrite lookup_insert_ne by done. rewrite Hne by done. apply H3.
    + intros c1 c2 p. simpl. rewrite !lookup_insert. repeat case_decide; subst; try done.
      * intros [= ->] Hx. by destruct (Hl c2).
      * intros Hx [= ->]. by destruct (Hl c1).
      * apply H4.
    + intros c1 c2 d1 d2 w. destruct (decide (c1 = c)) as [->|], (decide (c2 = c)) as [->|]; [done|..];
        rewrite ?Hd', ?Hne by done; [..|apply H7]; congruence.
    + intros c1 d1 w. destruct (decide (c1 = c)) as [->|]; rewrite ?Hd', ?Hne by done; [congruence|apply H8].
Qed.

Lemma inv_detach_task X Y G R s c tp :
  inv X Y G R s → c ∈ X → task_ptr s !! c = Some tp →
  (∀ r rr, rt_regions R !! r = Some rr → rr_parent rr ≠ c) →
  inv X Y G (MkRt (delete c (rt_tasks R)) (rt_regions R) (rt_threads R) (rt_started R))
    (set_task_ptr (delete c (task_ptr s)) (set_tasks (delete tp (tasks s)) s)).
Proof.
  intros I HX Hc HR. set (s' := set_task_ptr _ _).
  pose proof (inv_objects _ _ _ _ _ I) as OB.
  assert (tdata s' c = None) as Hd'.
  { unfold tdata, s'. simpl. by rewrite lookup_delete_eq. }
  assert (∀ c', c' ≠ c → tdata s' c' = tdata s c') as Hne.
  { intros c' Hne. unfold tdata, s'. simpl. rewrite lookup_delete_ne by done.
    destruct (task_ptr s !! c') as [p|] eqn:E; [|done]. simpl. rewrite lookup_delete_ne; [done|].
    intros ->. apply Hne. by eapply (ob_task_inj R s). }
  assert (∀ c', c' ≠ c → wdata s' c' = wdata s c') as Hwe.
  { intros c' Hx. unfold wdata. by rewrite Hne. }
  assert (∀ k x, points s' k = Some x → points s k = Some x) as HPT.
  { intros k x. destruct k as [c'|c'|c'|c'|c'|c'| | |]; cbn [points]; try done; unfold wdata;
      (destruct (decide (c' = c)) as [->|]; [by rewrite Hd'|by rewrite Hne]). }
  apply (inv_pstep_rt X Y G R _ s); try done.
  - intros c' Hc'. assert (c' ≠ c) by congruence. simpl. rewrite lookup_delete_ne by done. auto.
  - intros c1 k1 r1 tn _ _ _. split_and!; [done..|by left].
  - intros k x Hk. left. auto.
  - intros r rr Hr Hrr. specialize (HR r rr Hrr). simpl. rewrite !lookup_delete_ne by done.
    split_and!; try done. by rewrite Hne.
  - destruct OB as [H1 H2 H3 H4 H5 H5' H6 H7 H8 H9 H10 H11 H12 H13 H14 H15]. split; try done.
    + intros k x Hk. eauto.
    + intros c'. simpl. rewrite !lookup_delete. case_decide; [|apply H2]. split; by intros [].
    + intros c'. simpl. rewrite lookup_delete. case_decide; [by intros []|]. rewrite Hne by done. apply H3.
    + intros c1 c2 p. simpl. rewrite !lookup_delete. repeat case_decide; subst; try done. apply H4.
    + intros c1 c2 d1 d2 w. destruct (decide (c1 = c)) as [->|], (decide (c2 = c)) as [->|];
        rewrite ?Hd', ?Hne by done; try done. apply H7.
    + intros c1 d1 w. destruct (decide (c1 = c)) as [->|]; rewrite ?Hd', ?Hne by done; [done|apply H8].
    + intros l. simpl. intros [x Hx]. apply lookup_delete_Some in Hx as [_ Hx]. apply H11. eauto.
Qed.

Lemma inv_attach_region X Y G R s r l rd rr :
  inv X Y G R s → r ∈ Y → rt_regions R !! r = None → (∀ r', region_ptr s !! r' ≠ Some l) →
  regions s !! l = Some rd → pr_curr_barrier_node rd = None →
  (∀ x, pr_sink_node rd = Some x → is_Some (nodes s !! x) ∧ shared X R s x) →
  inv X Y G (set_rt_region r rr R) (set_region_ptr (<[r := l]> (region_ptr s)) s).
Proof.
  intros I HY Hr Hl Hrd Hb Hsk. set (s' := set_region_ptr _ s).
  pose proof (inv_objects _ _ _ _ _ I) as OB.
  assert (rdata s' r = Some rd) as Hd'.
  { unfold rdata, s'. simpl. by rewrite lookup_insert_eq. }
  assert (∀ r', r' ≠ r → rdata s' r' = rdata s r') as Hne.
  { intros r' Hne. unfold rdata, s'. simpl. by rewrite lookup_insert_ne. }
  assert (∀ k x, points s' k = Some x → points s k = Some x ∨ is_Some (nodes s !! x) ∧ shared X R s x) as HPT.
  { intros k x. destruct k as [c'|c'|c'|c'|c'|c'|r'|r'|]; try (by left); cbn [points];
      (destruct (decide (r' = r)) as [->|]; [rewrite Hd'; simpl|rewrite Hne by done; by left]).
    - intros Hx. right. auto.
    - by rewrite Hb. }
  apply (inv_pstep_rt X Y G R _ s); try done.
  - intros c k r' tn Hc Hk Ek. simpl.
    destruct (inv_tasks _ _ _ _ _ I c k Hc Hk) as (d & n & j & _ & _ & _ & _ & _ & _ & Hm).
    rewrite Ek in Hm. destruct Hm as (rr' & ? & ? & Hrr' & _). assert (r' ≠ r) by congruence.
    rewrite lookup_insert_ne, Hne by done. split_and!; try done. by apply bar_kept_same, Hne.
  - intros r' rr' Hr'. assert (r' ≠ r) by congruence. simpl. rewrite lookup_insert_ne by done.
    intros Hrr'. rewrite Hne by done. done.
  - destruct OB as [H1 H2 H3 H4 H5 H5' H6 H7 H8 H9 H10 H11 H12 H13 H14 H15]. split; try done.
    + intros k x Hk. destruct (HPT k x Hk) as [?|[? _]]; [by eapply H1|done].
    + intros r'. simpl. rewrite !lookup_insert. case_decide; subst; [|apply H5]. split; by eexists.
    + intros r'. destruct (decide (r' = r)) as [->|Hx]; [rewrite Hd'; by eexists|].
      simpl. rewrite lookup_insert_ne by done. rewrite Hne by done. apply H5'.
    + intros r1 r2 p. simpl. rewrite !lookup_insert. repeat case_decide; subst; try done.
      * intros [= ->] Hx. by destruct (Hl r2).
      * intros Hx [= ->]. by destruct (Hl r1).
      * apply H6.
Qed.

Lemma inv_detach_region X Y G R s r rp :
  inv X Y G R s → r ∈ Y → region_ptr s !! r = Some rp →
  (∀ c k r' tn, c ∉ X → rt_tasks R !! c = Some k → rt_kind k = TImplicit r' tn → r' ≠ r) →
  inv X Y G (MkRt (rt_tasks R) (delete r (rt_regions R)) (rt_threads R) (rt_started R))
    (set_region_ptr (delete r (region_ptr s)) (set_regions (delete rp (regions s)) s)).
Proof.
  intros I HY Hr HM. set (s' := set_region_ptr _ _).
  pose proof (inv_objects _ _ _ _ _ I) as OB.
  assert (rdata s' r = None) as Hd'.
  { unfold rdata, s'. simpl. by rewrite lookup_delete_eq. }
  assert (∀ r', r' ≠ r → rdata s' r' = rdata s r') as Hne.
  { intros r' Hne. unfold rdata, s'. simpl. rewrite lookup_delete_ne by done.
    destruct (region_ptr s !! r') as [p|] eqn:E; [|done]. simpl. rewrite lookup_delete_ne; [done|].
    intros ->. apply Hne. by eapply (ob_region_inj R s). }
  assert (∀ k x, points s' k = Some x → points s k = Some x) as HPT.
  { intros k x. destruct k as [c'|c'|c'|c'|c'|c'|r'|r'|]; try done; cbn [points];
      (destruct (decide (r' = r)) as [->|]; [by rewrite Hd'|by rewrite Hne]). }
  apply (inv_pstep_rt X Y G R _ s); try done.
  - intros c k r' tn Hc Hk Ek. specialize (HM c k r' tn Hc Hk Ek). simpl.
    rewrite lookup_delete_ne, Hne by done. split_and!; try done. by apply bar_kept_same, Hne.
  - intros k x Hk. left. auto.
  - intros r' rr' Hr'. assert (r' ≠ r) by congruence. simpl. rewrite lookup_delete_ne by done.
    intros Hrr'. rewrite Hne by done. done.
  - destruct OB as [H1 H2 H3 H4 H5 H5' H6 H7 H8 H9 H10 H11 H12 H13 H14 H15]. split; try done.
    + intros k x Hk. eauto.
    + intros r'. simpl. rewrite !lookup_delete. case_decide; [|apply H5]. split; by intros [].
    + intros r'. simpl. rewrite lookup_delete. case_decide; [by intros []|]. rewrite Hne by done. apply H5'.
    + intros r1 r2 p. simpl. rewrite !lookup_delete. repeat case_decide; subst; try done. apply H6.
    + intros l. simpl. intros [x Hx]. apply lookup_delete_Some in Hx as [_ Hx]. apply H12. eauto.
Qed.
