(* ===== verification/SafeTasks.v ===== *)
(** * The callbacks of threads and tasks keep the invariant

    Threads begin and end, tasks are created and scheduled, and the waits that
    the tool does not model have no effect. *)
From stdpp Require Import base numbers gmap list sorting relations functions.
From Stdlib Require Import ZArith Lia.
From S2P Require Import Prelude Float64 Graph Dag Callbacks Protocol Invariant Objects.

(** ** One callback *)

(** What every callback establishes. *)
Definition good (R' : rt) (s s' : state) : Prop :=
  (∃ G', inv ∅ ∅ G' R' s') ∧ (next_id s' ≤ next_id s + 2)%Z ∧
  g_papiNumEvents s' = g_papiNumEvents s.

(** The PAPI library works as documented: its calls succeed, and [PAPI_stop]
    writes at most one value for each of the [num] events of the set. *)
Record papi_ok (env : Env) (num : Z) : Prop := {
  po_create : ∀ k, (PAPI_create_eventset env k).1 = PAPI_OK;
  po_add : ∀ k es e, PAPI_add_event env k es e = PAPI_OK;
  po_cleanup : ∀ k es, PAPI_cleanup_eventset env k es = PAPI_OK;
  po_destroy : ∀ k es, PAPI_destroy_eventset env k es = PAPI_OK;
  po_stop : ∀ k es, (Z.of_nat (length (PAPI_stop env k es)) ≤ num)%Z }.

Lemma inv_task_at X Y G R s c tp :
  inv X Y G R s → task_ptr s !! c = Some tp →
  ∃ d n, tasks s !! tp = Some d ∧ td_curr_task_node d = Some n ∧ is_Some (nodes s !! n) ∧
    tdata s c = Some d ∧ points s (SCur c) = Some n.
Proof.
  intros I Hc. destruct (ob_task_cur R s (inv_objects _ _ _ _ _ I) c) as [n Hn]; [by eauto|].
  assert (is_Some (nodes s !! n)) by (by eapply inv_live).
  pose proof Hn as Hn'. simpl in Hn. unfold tdata in Hn. rewrite Hc in Hn. simpl in Hn.
  destruct (tasks s !! tp) as [d|] eqn:Hd; [|done]. simpl in Hn. exists d, n.
  split_and!; try done. unfold tdata. by rewrite Hc.
Qed.

Lemma inv_task_cell X Y G R s c k :
  inv X Y G R s → rt_tasks R !! c = Some k → ∃ tp, task_ptr s !! c = Some tp.
Proof. intros I Hk. apply (ob_task_dom R s (inv_objects _ _ _ _ _ I)). eauto. Qed.

Lemma inv_region_cell X Y G R s r rr :
  inv X Y G R s → rt_regions R !! r = Some rr →
  ∃ rp rd, region_ptr s !! r = Some rp ∧ regions s !! rp = Some rd ∧ rdata s r = Some rd.
Proof.
  intros I Hr. pose proof (inv_objects _ _ _ _ _ I) as OB.
  destruct (proj2 (ob_region_dom R s OB r)) as [rp Hrp]; [by eauto|].
  destruct (ob_region_data R s OB r) as [rd Hrd]; [by eauto|].
  exists rp, rd. pose proof Hrd as Hrd'. unfold rdata in Hrd. rewrite Hrp in Hrd. by split_and!.
Qed.

Lemma inv_no_region X Y G R s r : inv X Y G R s → rt_regions R !! r = None → region_ptr s !! r = None.
Proof.
  intros I Hr. apply eq_None_not_Some. intros H%(ob_region_dom R s (inv_objects _ _ _ _ _ I)).
  rewrite Hr in H. by destruct H.
Qed.

Section callbacks.
Context (env : Env).

Lemma good_refl G R s : inv ∅ ∅ G R s → good R s s.
Proof. intros I. split; [by exists G|]. split; [lia|done]. Qed.

Lemma good_gstep E P k G R s s' : (k ≤ 2)%Z → gstep E P k s s' → inv ∅ ∅ G R s' → good R s s'.
Proof.
  intros Hk (O & _ & N & _) I. split; [by exists G|]. split; [lia|]. apply O.
Qed.

(** The time of the current node of a task, if the cell has one. *)
Lemma wp_task_time (f : double → Node → Node) G R s c (Q : unit → state → Prop) :
  inv ∅ ∅ G R s → (∀ t, silent (f t)) → (∀ t, same_papi (f t)) →
  (∀ s', inv ∅ ∅ G R s' → gstep none none 0 s s' → Q tt s') →
  wp (if bool_decide (is_Some (task_ptr s !! c)) then
        d ← load_task (task_ptr s !! c);
        t ← ftimer_msec env; modify_node (td_curr_task_node d) (f t)
      else skip) Q s.
Proof.
  intros I Hf Hp HQ. destruct (task_ptr s !! c) as [tp|] eqn:Hc.
  - rewrite bool_decide_true by (by eexists).
    destruct (inv_task_at _ _ _ _ _ c tp I Hc) as (d & n & Hd & Hn & Hl & _).
    apply wp_bind, (wp_load_task _ d); [done|]. rewrite Hn. by eapply wp_touch_now.
  - rewrite bool_decide_false by (by intros []). apply wp_skip, HQ; [done|].
    split_and!; try done; [lia|apply keeps_refl].
Qed.

Lemma safe_task_schedule G R s c1 c2 :
  inv ∅ ∅ G R s → wp (cb_task_schedule env (Some c1) (Some c2)) (fun _ => good R s) s.
Proof.
  intros I. unfold cb_task_schedule. apply wp_bind, wp_task_cell, wp_bind, wp_task_cell.
  apply wp_bind, (wp_task_time addTime G R); try done. intros s1 I1 GS1.
  pose proof GS1 as ((E1&E2&E3&E4&E5&E6&E7&_) & _). rewrite <- E6.
  apply (wp_task_time setLastTime G R); try done. intros s2 I2 GS2.
  eapply (good_gstep none none (0 + 0)); [done|by eapply gstep_trans|done].
Qed.

Lemma wp_real_team s rp rd (Q : bool → state → Prop) :
  regions s !! rp = Some rd → Q (1 <? pr_team_size rd)%Z s → wp (real_team (Some rp)) Q s.
Proof.
  intros Hrd HQ. unfold real_team. rewrite bool_decide_true by (by eexists).
  apply wp_bind, (wp_load_region _ rd); [done|]. by apply wp_ret.
Qed.

Lemma wp_no_team s (Q : bool → state → Prop) : Q false s → wp (real_team None) Q s.
Proof. intros HQ. unfold real_team. rewrite bool_decide_false by (by intros []). by apply wp_ret. Qed.

Lemma safe_barrier_end G R s r c :
  inv ∅ ∅ G R s → rt_regions R !! r = None ∨ is_Some (rt_tasks R !! c) →
  wp (cb_sync_region env ompt_sync_region_barrier ompt_scope_end (Some r) (Some c)) (fun _ => good R s) s.
Proof.
  intros I Hor. unfold cb_sync_region. apply wp_bind, wp_task_cell, wp_bind, wp_region_cell.
  apply wp_bind, wp_skip. rewrite !decide_True by done. apply wp_bind.
  destruct (rt_regions R !! r) as [rr|] eqn:Hr.
  - destruct Hor as [|[k Hk]]; [done|].
    destruct (inv_region_cell _ _ _ _ _ r rr I Hr) as (rp & rd & -> & Hrd & _).
    apply (wp_real_team s rp rd); [done|].
    destruct (1 <? pr_team_size rd)%Z; [|by eapply wp_skip, good_refl].
    destruct (inv_task_cell _ _ _ _ _ c k I Hk) as [tp Hc]. rewrite Hc.
    destruct (inv_task_at _ _ _ _ _ c tp I Hc) as (d & n & Hd & Hn & Hl & _).
    apply wp_bind, (wp_load_task _ d); [done|]. rewrite Hn.
    apply (wp_set_last_time env ∅ ∅ G R); [done..|]. intros s1 I1 GS1. by apply (good_gstep none none 0 G).
  - rewrite (inv_no_region _ _ _ _ _ r I Hr). apply wp_no_team. by eapply wp_skip, good_refl.
Qed.

Lemma safe_sync_other G R s kind ep r c :
  inv ∅ ∅ G R s → kind ≠ ompt_sync_region_barrier →
  wp (cb_sync_region env kind ep (Some r) (Some c)) (fun _ => good R s) s.
Proof.
  intros I Hk. unfold cb_sync_region. apply wp_bind, wp_task_cell, wp_bind, wp_region_cell.
  destruct kind, ep; try done; apply wp_bind, wp_skip, wp_skip; by eapply good_refl.
Qed.

(** *** Threads *)

Lemma inv_threads G R s s' ths' :
  inv ∅ ∅ G R s → nodes s' = nodes s → g_tdg s' = g_tdg s → next_id s' = next_id s →
  tasks s' = tasks s → worksharings s' = worksharings s → regions s' = regions s →
  task_ptr s' = task_ptr s → region_ptr s' = region_ptr s → g_finalNode s' = g_finalNode s →
  g_papiNumEvents s' = g_papiNumEvents s → g_papiEvents s' = g_papiEvents s →
  (∀ th, th ∈ ths' → ∃ p, thread_ptr s' !! th = Some p ∧ is_Some (threads s' !! p)) →
  (∀ th th' p, th ∈ ths' → th' ∈ ths' → thread_ptr s' !! th = Some p →
     thread_ptr s' !! th' = Some p → th = th') →
  (∀ l, is_Some (threads s' !! l) → (l < next_loc s')%positive) → (next_loc s ≤ next_loc s')%positive →
  inv ∅ ∅ G (set_rt_threads ths' R) s'.
Proof.
  intros I En Eg Ei Et Ew Er Etp Erp Ef Ep Ee HT HI HA Hnl. pose proof (inv_objects _ _ _ _ _ I) as OB.
  assert (∀ c, tdata s' c = tdata s c) as Vt by (intros; unfold tdata; by rewrite Et, Etp).
  assert (∀ c, wdata s' c = wdata s c) as Vw by (intros; unfold wdata; by rewrite Vt, Ew).
  assert (∀ r, rdata s' r = rdata s r) as Vr by (intros; unfold rdata; by rewrite Er, Erp).
  assert (∀ k, points s' k = points s k) as Vp by (intros []; simpl; by rewrite ?Vt, ?Vw, ?Vr).
  apply (inv_pstep_rt ∅ ∅ G R _ s); try done.
  - intros c k r tn _ _ _. split_and!; [done|by rewrite Vr|by apply bar_kept_same].
  - intros k x. rewrite Vp. by left.
  - intros r rr _ Hr. by rewrite Vr, Vp, Etp.
  - destruct OB as [H1 H2 H3 H4 H5 H5' H6 H7 H8 H9 H10 H11 H12 H13 H14 H15].
    split; rewrite ?Etp, ?Erp, ?Et, ?Ew, ?Er; try done.
    + intros k x. rewrite Vp, En. apply H1.
    + intros c Hc. rewrite Vp. by apply H3.
    + intros r Hr. rewrite Vr. by apply H5'.
    + intros c c' d d' w. rewrite !Vt. apply H7.
    + intros c d w. rewrite Vt. intros Hd Hw. specialize (H8 c d w Hd Hw). lia.
    + intros th Hth. unfold thdata. destruct (HT th Hth) as (p & -> & Hp). done.
    + intros l Hl%H11. lia.
    + intros l Hl%H12. lia.
    + intros l Hl%H13. lia.
    + by rewrite Ep, Ee.
Qed.

Lemma wp_add_events num eventset events (Q : unit → state → Prop) s :
  papi_ok env num → (∀ k, Q tt (set_ext_calls k s)) →
  wp (add_events env eventset (length events) events) Q s.
Proof.
  intros PO. revert s. induction events as [|e events IH]; intros s HQ; cbn [add_events length].
  - apply wp_skip. specialize (HQ (ext_calls s)). by destruct s.
  - apply wp_bind, wp_tick. rewrite decide_True by apply PO. apply IH. intros k. apply HQ.
Qed.

Lemma safe_thread_begin G R s th :
  inv ∅ ∅ G R s → papi_ok env (g_papiNumEvents s) → th ∉ rt_threads R →
  wp (cb_thread_begin env (Some th)) (fun _ => good (set_rt_threads ({[th]} ∪ rt_threads R) R) s) s.
Proof.
  intros I PO Hth. unfold cb_thread_begin. apply wp_bind, wp_alloc, wp_bind, wp_tick.
  pose proof (po_create _ _ PO) as Hc. simpl. specialize (Hc (ext_calls s)).
  destruct (PAPI_create_eventset env (ext_calls s)) as [rc es]. simpl in Hc. subst rc.
  apply wp_bind, wp_modify, wp_bind, wp_skip, wp_bind, wp_read, wp_bind, wp_read. simpl.
  pose proof (inv_objects _ _ _ _ _ I) as OB.
  rewrite (ob_papi R s OB), Nat2Z.id. apply wp_bind, (wp_add_events (g_papiNumEvents s)); [done|].
  intros k. unfold set_thread_cell. apply wp_bind, (wp_lift _ th); [done|]. apply wp_modify.
  split; [|split; [simpl; lia|done]]. exists G.
  assert (∀ th', th' ∈ rt_threads R → thread_ptr s !! th' ≠ Some (next_loc s)) as Hfr.
  { intros th' Hth' E. destruct (ob_thread R s OB th' Hth') as [x Hx].
    unfold thdata in Hx. rewrite E in Hx. simpl in Hx.
    assert (next_loc s < next_loc s)%positive by (apply (ob_threads_addr R s OB); eauto). lia. }
  apply (inv_threads G R s); try done; st_simpl; [| | |lia].
  - intros th' [->%elem_of_singleton|Hth']%elem_of_union.
    + exists (next_loc s). rewrite !lookup_insert_eq. split; [done|by eexists].
    + rewrite lookup_insert_ne by congruence. destruct (ob_thread R s OB th' Hth') as [x Hx].
      unfold thdata in Hx. destruct (thread_ptr s !! th') as [p|] eqn:E; [|done]. simpl in Hx.
      exists p. split; [done|]. rewrite lookup_insert. case_decide; [by eexists|eauto].
  - intros t1 t2 p. rewrite !elem_of_union, !elem_of_singleton, !lookup_insert.
    intros [->|T1] [->|T2]; repeat case_decide; subst; try done.
    + intros [= <-] Hx. by apply Hfr in Hx.
    + intros Hx [= <-]. by apply Hfr in Hx.
    + by apply (ob_thread_inj R s OB).
  - intros l. rewrite lookup_insert. case_decide; subst; [lia|].
    intros Hl%(ob_threads_addr R s OB). lia.
Qed.

Lemma safe_thread_end G R s th :
  inv ∅ ∅ G R s → papi_ok env (g_papiNumEvents s) → th ∈ rt_threads R →
  wp (cb_thread_end env (Some th)) (fun _ => good (set_rt_threads (rt_threads R ∖ {[th]}) R) s) s.
Proof.
  intros I PO Hth. unfold cb_thread_end. apply wp_bind, wp_thread_cell.
  pose proof (inv_objects _ _ _ _ _ I) as OB. destruct (ob_thread R s OB th Hth) as [x Hx].
  unfold thdata in Hx. destruct (thread_ptr s !! th) as [p|] eqn:E; [|done]. simpl in Hx.
  apply wp_bind, (wp_load_thread _ x); [done|].
  apply wp_bind, wp_tick. rewrite decide_True by apply PO. apply wp_bind, wp_skip.
  apply wp_bind, wp_tick. rewrite decide_True by apply PO. apply wp_bind, wp_skip.
  apply wp_bind, (wp_lift _ p); [done|]. apply wp_modify. simpl.
  split; [|split; [simpl; lia|done]]. exists G.
  apply (inv_threads G R s); try done; st_simpl.
  - intros t [Ht Hne]%elem_of_difference. destruct (ob_thread R s OB t Ht) as [y Hy].
    unfold thdata in Hy. destruct (thread_ptr s !! t) as [q|] eqn:E'; [|done]. simpl in Hy.
    exists q. split; [done|]. rewrite lookup_delete_ne; [eauto|]. intros ->.
    apply Hne, elem_of_singleton. by eapply (ob_thread_inj R s OB).
  - intros t1 t2 q [H1 _]%elem_of_difference [H2 _]%elem_of_difference. by apply (ob_thread_inj R s OB).
  - intros l [y [_ Hy]%lookup_delete_Some]. apply (ob_threads_addr R s OB). eauto.
Qed.
End callbacks.

(** *** New tasks *)

Lemma parent_open X Y G R s r rr :
  inv X Y G R s → r ∉ Y → rt_regions R !! r = Some rr →
  ∃ kp, rt_tasks R !! rr_parent rr = Some kp ∧ rt_open kp = Some r.
Proof.
  intros I Hr Hrr. destruct (inv_regions _ _ _ _ _ I r rr Hr Hrr) as (rd & kp & ? & ? & ? & ? & _ & ? & ? & _).
  eauto.
Qed.

Lemma not_parent X Y G R s c r rr :
  inv X Y G R s → r ∉ Y → rt_regions R !! r = Some rr →
  (∀ k, rt_tasks R !! c = Some k → rt_open k = None) → rr_parent rr ≠ c.
Proof.
  intros I Hr Hrr Hc <-. destruct (parent_open _ _ _ _ _ _ _ I Hr Hrr) as (kp & Hkp & Ho).
  by rewrite (Hc kp Hkp) in Ho.
Qed.

Lemma shared_unknown X R s x : (∀ k, points s k ≠ Some x) → shared X R s x.
Proof. intros H c k _ _ _. apply H. Qed.

Lemma inv_new_task G R s c l d n L j kind :
  inv ∅ ∅ G R s → (∀ c', task_ptr s !! c' ≠ Some l) → tasks s !! l = Some d →
  td_curr_task_node d = Some n → is_Some (nodes s !! n) → (∀ k, points s k ≠ Some n) →
  td_curr_barrier_node d = None → td_curr_ws_data d = None →
  (∀ x, td_sink_node d = Some x → ∃ r, points s (RSink r) = Some x) →
  reusable (rt_tasks R !! c) → lab G n = L ++ [j] →
  match kind with
  | TImplicit r _ => ∃ rr rd m, rt_regions R !! r = Some rr ∧ rdata s r = Some rd ∧
      td_sink_node d = pr_sink_node rd ∧ L = base G r ++ [m] ∧ m ≤ rr_round rr
  | TLate => False
  | _ => True
  end →
  inv ∅ ∅ (set_pre c L G) (set_rt_task c (new_rtask kind) R)
    (set_task_ptr (<[c := l]> (task_ptr s)) s).
Proof.
  intros I Hl Hd Hn Hln Hun Hb Hw Hsk Hre HL Hkind.
  assert (∀ r rr, r ∉ (∅ : gset positive) → rt_regions R !! r = Some rr → rr_parent rr ≠ c) as Hnp.
  { intros r rr Hr Hrr. eapply (not_parent ∅ ∅); try done. intros k Hk. rewrite Hk in Hre. apply Hre. }
  apply (inv_close_task ∅ ∅ _ _ _ c (new_rtask kind)).
  - apply (inv_attach_task _ _ _ _ _ _ _ d n); try done; try set_solver.
    + apply (inv_set_pre _ ∅); [by apply (inv_mono ∅ _ ∅); [|set_solver|]|set_solver|done].
    + by apply shared_unknown.
    + intros x Hx. destruct (Hsk x Hx) as [r Hr]. split; [by eapply inv_live|].
      intros c' k' _ Hk' Hf. by apply (shared_slot ∅ ∅ G R s (RSink r) x I Hr ltac:(done) c' k').
  - simpl. by rewrite lookup_insert_eq.
  - exists d, n, j. rewrite tdata_attach. simpl. rewrite fn_lookup_insert.
    split_and!; try done; [rewrite Hb; split; [by intros []|done]|].
    destruct kind; try done. destruct Hkind as (rr & rd & m & ? & ? & ? & -> & ?).
    exists rr, rd, m. simpl. rewrite fn_lookup_insert. split_and!; try done; [|by rewrite Hb].
    case_decide; lia.
Qed.

(** [new TaskData]. *)
Lemma wp_alloc_TaskData X Y G R s (Q : option positive → state → Prop) :
  inv X Y G R s →
  (∀ l s', inv X Y G R s' → l = next_loc s → tasks s' = <[l := new_TaskData]> (tasks s) →
     (∀ c, task_ptr s' !! c ≠ Some l) → (l < next_loc s')%positive →
     nodes s' = nodes s → next_id s' = next_id s → worksharings s' = worksharings s → regions s' = regions s →
     task_ptr s' = task_ptr s → region_ptr s' = region_ptr s → g_papiNumEvents s' = g_papiNumEvents s →
     Q (Some l) s') →
  wp alloc_TaskData Q s.
Proof.
  intros I HQ. unfold alloc_TaskData. apply wp_bind, wp_alloc, wp_bind, wp_modify, wp_ret.
  apply HQ; try done.
  - apply inv_fresh_task; [by apply inv_alloc|intros c; by apply (next_loc_task X Y G R s c)|simpl; lia].
  - intros c. by apply (next_loc_task X Y G R s c).
  - simpl. lia.
Qed.

Lemma new_task_addr X Y G R s c tp : inv X Y G R s → task_ptr s !! c = Some tp → tp ≠ next_loc s.
Proof. intros I Hc ->. by eapply next_loc_task. Qed.

Section create.
Context (env : Env).

Lemma safe_task_explicit G R s p c k :
  inv ∅ ∅ G R s → (next_id s + 2 < 2 ^ 63)%Z → rt_tasks R !! p = Some k → rt_kind k ≠ TLate → p ≠ c →
  reusable (rt_tasks R !! c) →
  wp (cb_task_create env (Some p) (Some c) ompt_task_explicit)
    (fun _ => good (set_rt_task c (new_rtask TExplicit) (set_rt_task p (touched k) R)) s) s.
Proof.
  intros I Hid Hk Hlate Hpc Hre. unfold cb_task_create. apply wp_bind, wp_skip.
  rewrite decide_True by done.
  destruct (inv_task_cell _ _ _ _ _ p k I Hk) as [tp Hp].
  destruct (inv_task_at _ _ _ _ _ p tp I Hp) as (dp & np & Hdp & Hnp & Hlp & Htd & Hcur).
  destruct (inv_tasks _ _ _ _ _ I p k ltac:(set_solver) Hk) as (dp' & np' & j & Hd' & Hn' & HL & _).
  assert (dp' = dp) as -> by congruence. assert (np' = np) as -> by congruence.
  pose proof (inv_touched _ _ _ _ _ p k I Hk Hlate) as I0. set (R0 := set_rt_task p (touched k) R) in *.
  apply wp_bind, wp_task_cell. rewrite Hp. apply wp_bind, (wp_alloc_TaskData _ _ _ _ _ _ I0).
  intros l s1 I1 -> Et1 Hun1 Hlt1 En1 Ei1 Ew1 Er1 Etp1 Erp1 Epn1.
  rewrite bool_decide_true by (by eexists). apply wp_bind, wp_bind, (wp_load_task _ dp).
  { rewrite Et1, lookup_insert_ne; [done|]. by apply not_eq_sym; eapply new_task_addr. }
  apply wp_ret. rewrite Hnp.
  apply wp_bind, (wp_create_new_node env ∅ ∅ G R0 s1 EXP_TASK np ((pre G p ++ [j]) ++ [0])).
  - done.
  - apply (shared_slot ∅ ∅ G R0 s1 (SCur p)); [done| |].
    + simpl. unfold tdata. rewrite Etp1, Hp. simpl. rewrite Et1, lookup_insert_ne; [by rewrite Hdp|].
      by apply not_eq_sym; eapply new_task_addr.
    + intros c' kk [= <-] _. simpl. rewrite lookup_insert_eq. by intros [= <-].
  - by rewrite En1.
  - rewrite HL. apply lex_prefix.
  - lia.
  - intros n s2 I2 GS2 Hfr Hun2 Hln _ _ _. pose proof GS2 as ((T1&T2&T3&T4&T5&T6&T7&T8&T9&T10)&L2&N2&_).
    apply wp_bind, (wp_modify_task _ new_TaskData); [by rewrite T1, Et1, lookup_insert_eq|].
    unfold set_task_cell. apply wp_bind, (wp_lift _ c); [done|]. apply wp_modify.
    split; [|split; [simpl; lia|simpl; congruence]]. eexists.
    eapply (inv_new_task _ R0 _ c (next_loc s) (set_td_curr_task_node (Some n) new_TaskData) n (pre G p ++ [j]) 0); try done.
    + apply inv_fresh_task; [done|by rewrite T6|lia].
    + st_simpl. rewrite T6. done.
    + st_simpl. by rewrite lookup_insert_eq.
    + intros kk. rewrite (points_views (views_fresh_task s2 _ _ ltac:(by rewrite T6))). apply Hun2.
    + simpl. rewrite lookup_insert_ne by done. done.
    + simpl. by rewrite fn_lookup_insert.
Qed.
End create.

(** *** The first task *)

Definition start (R : rt) : rt := MkRt (rt_tasks R) (rt_regions R) (rt_threads R) true.

Lemma inv_start X Y G R s : inv X Y G R s → inv X Y G (start R) s.
Proof.
  intros [GI OB T Rg]. split; try done.
  - destruct GI as [W Tb I1 I0 I2 I3 I4 I5]. split; try done.
    intros l n Hn%I1. unfold least_id in *. simpl. destruct (rt_started R); lia.
  - by destruct OB.
Qed.

Section first.
Context (env : Env).

Lemma wp_create_root G R s (Q : positive → state → Prop) :
  inv ∅ ∅ G R s → rt_started R = false →
  (∀ l s', inv ∅ ∅ (set_lab (<[l := [0]]> (lab G)) G) (start R) s' → gstep none none 0 s s' →
     (∀ k, points s' k ≠ Some l) → is_Some (nodes s' !! l) → Q l s') →
  wp (create_new_node env ROOT_TASK None true) Q s.
Proof.
  intros I Hst HQ. unfold create_new_node. rewrite bool_decide_false by (by intros []).
  unfold create_clean_node, alloc_Node. apply wp_bind, wp_bind, wp_ret.
  apply wp_bind, wp_bind, wp_alloc, wp_bind, wp_modify, wp_ret, wp_bind, wp_modify, wp_ret, wp_bind, wp_skip.
  pose proof (inv_graph _ _ _ _ _ I) as GI. pose proof (gi_next _ _ _ GI).
  assert (g_tdg s !! 0%Z = None) as Hg.
  { apply (table_bound _ _ _ _ GI). unfold least_id. rewrite Hst. lia. }
  lazymatch goal with |- wp _ _ ?st =>
    destruct (inv_new ∅ ∅ G (start R) s (next_loc s) 0 ROOT_TASK [0] st) as (I1 & K1 & Hfr & Hpt) end;
    try done; simpl; try lia; [by apply inv_start|].
  apply wp_bind. eapply (wp_set_last_time env ∅ ∅ _ (start R)); [exact I1|st_simpl; by rewrite lookup_insert_eq|].
  intros s2 I2 GS2. apply wp_ret. pose proof GS2 as (O2 & L2 & N2 & K2). apply HQ; try done.
  - split; [exact O2|]. simpl in L2, N2. split; [lia|]. split; [lia|]. by eapply keeps_trans.
  - intros k. rewrite (points_same O2). apply Hpt.
  - eapply gstep_live; [done|]. simpl. by rewrite lookup_insert_eq.
Qed.

Lemma safe_task_initial G R s pt c :
  inv ∅ ∅ G R s → rt_started R = false → rt_tasks R !! c = None →
  wp (cb_task_create env pt (Some c) ompt_task_initial)
    (fun _ => good (MkRt (<[c := new_rtask TInitial]> (rt_tasks R)) (rt_regions R) (rt_threads R) true) s) s.
Proof.
  intros I Hst Hc. unfold cb_task_create. apply wp_bind, wp_bind, (wp_alloc_TaskData _ _ _ _ _ _ I).
  intros l s1 I1 -> Et1 Hun1 Hlt1 En1 Ei1 Ew1 Er1 Etp1 Erp1 Epn1.
  apply wp_bind, (wp_create_root G R s1); [done..|]. intros n s2 I2 GS2 Hun2 Hln.
  pose proof GS2 as ((T1&T2&T3&T4&T5&T6&T7&T8&T9&T10)&L2&N2&_).
  apply wp_bind, (wp_modify_task _ new_TaskData); [by rewrite T1, Et1, lookup_insert_eq|].
  unfold set_task_cell. apply wp_bind, wp_bind, (wp_lift _ c); [done|]. apply wp_modify, wp_modify, wp_skip.
  split; [|split; [simpl; lia|simpl; congruence]]. eexists.
  apply inv_set_final.
  - eapply (inv_new_task _ (start R) _ c (next_loc s) (set_td_curr_task_node (Some n) new_TaskData) n [] 0); try done.
    + apply inv_fresh_task; [done|by rewrite T6|lia].
    + st_simpl. by rewrite T6.
    + st_simpl. by rewrite lookup_insert_eq.
    + intros kk. rewrite (points_views (views_fresh_task s2 _ _ ltac:(by rewrite T6))). apply Hun2.
    + simpl. by rewrite Hc.
    + simpl. by rewrite fn_lookup_insert.
  - done.
  - intros c' k _. cbn [rt_tasks set_rt_task start]. rewrite lookup_insert. case_decide; [by intros [= <-]|].
    intros Hk Hf. cbn [points store_ptr]. rewrite tdata_attach_ne by done.
    rewrite (tdata_same (views_fresh_task s2 _ _ ltac:(by rewrite T6))). apply (Hun2 (SCur c')).
Qed.
End first.
