(* ===== verification/SafeRegions.v ===== *)
(** * The callbacks of parallel regions keep the invariant

    Regions and their implicit tasks begin and end. *)
From stdpp Require Import base numbers gmap list sorting relations functions.
From Stdlib Require Import ZArith Lia.
From S2P Require Import Prelude Float64 Graph Dag Callbacks Protocol Invariant Objects SafeTasks.

(** *** Parallel regions begin *)

Section regions_begin.
Context (env : Env).

(** A new member of a team: its task object, its node [n] at the round of the
    region. *)
Lemma inv_new_member G R s r c l n sk tn rr rd :
  inv ∅ ∅ G R s → rt_regions R !! r = Some rr → rdata s r = Some rd → pr_sink_node rd = Some sk →
  rt_tasks R !! c = None → (∀ c', task_ptr s !! c' ≠ Some l) → (l < next_loc s)%positive →
  (∀ k, points s k ≠ Some n) → is_Some (nodes s !! n) → lab G n = (base G r ++ [rr_round rr]) ++ [0] →
  ∃ G', inv ∅ ∅ G' (set_rt_task c (new_rtask (TImplicit r tn)) R)
    (set_task_ptr (<[c := l]> (task_ptr s))
       (set_tasks (<[l := MkTask (Some n) None None (Some sk) (i32 tn)]> (tasks s)) s)).
Proof.
  intros I Hrr Hrd Hsk Hc Hun Hlt Hunn Hln HL. eexists.
  set (s3 := set_tasks _ s).
  change (task_ptr s) with (task_ptr s3).
  assert (same_views s s3) as V by (by apply views_fresh_task).
  eapply (inv_new_task _ R _ c l _ n (base G r ++ [rr_round rr]) 0); try done.
  - by apply inv_fresh_task.
  - unfold s3. st_simpl. by rewrite lookup_insert_eq.
  - done.
  - intros kk. rewrite (points_views V). apply Hunn.
  - done.
  - done.
  - intros x [= <-]. exists r. rewrite (points_views V). simpl. by rewrite Hrd.
  - by rewrite Hc.
  - exists rr, rd, (rr_round rr). rewrite (rdata_same V). split_and!; try done.
Qed.

Lemma safe_implicit_begin G R s r c ts tn rr :
  inv ∅ ∅ G R s → (next_id s + 2 < 2 ^ 63)%Z → rt_regions R !! r = Some rr → rt_tasks R !! c = None →
  wp (cb_implicit_task env ompt_scope_begin (Some r) (Some c) ts tn)
    (fun _ => good (set_rt_task c (new_rtask (TImplicit r tn)) R) s) s.
Proof.
  intros I Hid Hrr Hc. unfold cb_implicit_task.
  destruct (inv_region_cell _ _ _ _ _ r rr I Hrr) as (rp & rd & Hrp & Hrd & Hrdata).
  destruct (inv_regions _ _ _ _ _ I r rr ltac:(set_solver) Hrr)
    as (rd' & kp & dp & np & sk & j & Hrd' & Hkp & Ho & Hpp & Hdp & Hnp & Hfp & L1 & L2 & Hsk & _).
  assert (rd' = rd) as -> by congruence.
  pose proof Hdp as Hdp'. unfold tdata in Hdp'. destruct (task_ptr s !! rr_parent rr) as [tp|] eqn:Htp; [|done].
  simpl in Hdp'. apply wp_bind, wp_bind, wp_region_cell. rewrite Hrp.
  apply wp_bind, (wp_alloc_TaskData _ _ _ _ _ _ I).
  intros l s1 I1 -> Et1 Hun1 Hlt1 En1 Ei1 Ew1 Er1 Etp1 Erp1 Epn1.
  assert (tasks s1 !! tp = Some dp) as Hd1.
  { rewrite Et1, lookup_insert_ne; [done|]. by apply not_eq_sym; eapply new_task_addr. }
  assert (points s1 (SCur (rr_parent rr)) = Some np) as Hcur1.
  { simpl. unfold tdata. rewrite Etp1, Htp. simpl. by rewrite Hd1. }
  apply wp_bind, (wp_load_region _ rd); [by rewrite Er1|]. rewrite Hpp.
  apply wp_bind, (wp_load_task _ dp); [done|]. rewrite Hnp.
  apply wp_bind, (wp_create_new_node env ∅ ∅ G R s1 IMP_TASK np ((base G r ++ [rr_round rr]) ++ [0])).
  - done.
  - apply (shared_slot ∅ ∅ G R s1 (SCur (rr_parent rr))); [done..|].
    intros c' kk [= <-] _ Hkk. congruence.
  - by eapply inv_live.
  - rewrite L1, <- app_assoc. apply lex_prefix.
  - lia.
  - intros n s2 I2 GS2 Hfr Hun2 Hln _ _ _. pose proof GS2 as ((T1&T2&T3&T4&T5&T6&T7&T8&T9&T10)&LL2&N2&_).
    apply wp_bind, (wp_modify_task _ new_TaskData); [by rewrite T1, Et1, lookup_insert_eq|].
    apply wp_bind, (wp_load_region _ rd); [st_simpl; by rewrite T3, Er1|]. rewrite Hsk.
    apply wp_bind. eapply wp_modify_task; [st_simpl; by rewrite lookup_insert_eq|].
    apply wp_bind. eapply wp_modify_task; [st_simpl; by rewrite lookup_insert_eq|].
    unfold set_task_cell. apply wp_bind, (wp_lift _ c); [done|]. apply wp_modify. st_simpl.
    rewrite !insert_insert_eq. apply wp_skip.
    split; [|split; [simpl; lia|simpl; congruence]].
    eapply (inv_new_member _ R s2 r c (next_loc s) n sk tn rr rd); try done.
    + unfold rdata. rewrite T7, Erp1, Hrp. simpl. by rewrite T3, Er1.
    + by rewrite T6.
    + lia.
    + simpl. by rewrite fn_lookup_insert.
Qed.

(** A new region, opened by the task [p] at its node [np]. *)
Lemma inv_open_region G R s p r l tp n k dp np sk j :
  inv ∅ ∅ G R s → rt_tasks R !! p = Some k → rt_open k = None → rt_kind k ≠ TLate → rt_regions R !! r = None →
  (0 ≤ n < 2 ^ 32)%Z → (∀ r', region_ptr s !! r' ≠ Some l) → (l < next_loc s)%positive →
  task_ptr s !! p = Some tp → tdata s p = Some dp → td_curr_task_node dp = Some np →
  lab G np = pre G p ++ [j] → lab G sk = pre G p ++ [S j] → is_Some (nodes s !! sk) → (∀ kk, points s kk ≠ Some sk) →
  inv ∅ ∅ (set_base r (pre G p ++ [j]) G)
    (set_rt_task p (touched (set_open (Some r) k)) (set_rt_region r (MkRRegion p n 0 ∅) R))
    (set_region_ptr (<[r := l]> (region_ptr s))
       (set_regions (<[l := MkRegion (Some tp) (Some sk) n 0 None]> (regions s)) s)).
Proof.
  intros I Hk Hop Hlate Hr Hn Hun Hlt Hp Hd Hnp L1 L2 Hsk Hunk.
  set (rd := MkRegion (Some tp) (Some sk) n 0 None). set (s4 := set_regions _ s).
  change (region_ptr s) with (region_ptr s4).
  assert (same_views s s4) as V by (by apply views_fresh_region).
  apply (inv_close_region ∅ ∅ _ _ _ r).
  - apply (inv_change_task _ _ _ (set_rt_region r (MkRRegion p n 0 ∅) R) _ p k); try done.
    + apply (inv_attach_region _ _ _ R _ r l rd); try done.
      * apply inv_set_base; [|done]. apply (inv_mono ∅ _ ∅); [|done|set_solver]. by apply inv_fresh_region.
      * set_solver.
      * unfold s4. st_simpl. by rewrite lookup_insert_eq.
      * intros x [= <-]. split; [done|]. apply shared_unknown. intros kk. rewrite (points_views V). apply Hunk.
    + intros r' rr' Hr' Hrr' E. assert (r' ≠ r) by set_solver. simpl in Hrr'.
      rewrite lookup_insert_ne in Hrr' by done.
      destruct (parent_open ∅ ∅ G R s r' rr') as (kp & Hkp & Hop'); [done|set_solver|done|].
      assert (kp = k) by congruence. congruence.
  - intros rr0. cbn [rt_regions set_rt_task set_rt_region]. rewrite lookup_insert_eq. intros [= <-].
    assert (rdata (set_region_ptr (<[r := l]> (region_ptr s4)) s4) r = Some rd) as Hrd.
    { unfold rdata, s4. st_simpl. rewrite lookup_insert_eq. simpl. by rewrite lookup_insert_eq. }
    exists rd, (touched (set_open (Some r) k)), dp, np, sk, j. rewrite Hrd. split_and!; try done; simpl; try lia.
    + by rewrite lookup_insert_eq.
    + by rewrite fn_lookup_insert.
    + by rewrite fn_lookup_insert.
    + intros ?. change (0 < n)%Z. lia.
Qed.

Lemma safe_parallel_begin G R s p r n k :
  inv ∅ ∅ G R s → (next_id s + 2 < 2 ^ 63)%Z → rt_tasks R !! p = Some k → idle k →
  rt_regions R !! r = None → (0 ≤ n < 2 ^ 32)%Z →
  wp (cb_parallel_begin env (Some p) (Some r) n)
    (fun _ => good (set_rt_task p (touched (set_open (Some r) k)) (set_rt_region r (MkRRegion p n 0 ∅) R)) s) s.
Proof.
  intros I Hid Hk [Hop Hlate] Hr Hn. unfold cb_parallel_begin. apply wp_bind, wp_alloc, wp_bind, wp_modify.
  assert (∀ r', region_ptr s !! r' ≠ Some (next_loc s)) as Hun by (intros; by eapply next_loc_region).
  destruct (inv_task_cell _ _ _ _ _ p k I Hk) as [tp Hp].
  destruct (inv_task_at _ _ _ _ _ p tp I Hp) as (dp & np & Hdp & Hnp & Hlp & Htd & Hcur).
  apply wp_bind, wp_task_cell. change (task_ptr _ !! p) with (task_ptr s !! p). rewrite Hp.
  apply wp_bind. eapply wp_modify_region; [st_simpl; by rewrite lookup_insert_eq|]. st_simpl. rewrite insert_insert_eq.
  set (rd1 := set_pr_parent_task_data (Some tp) new_ParallelRegionData).
  apply wp_bind, (wp_load_task _ dp); [done|]. rewrite Hnp.
  lazymatch goal with |- wp _ _ ?st => set (s1 := st) end.
  assert (I1 : inv ∅ ∅ G R s1).
  { unfold s1. apply (inv_fresh_region ∅ ∅ G R (set_next_loc (Pos.succ (next_loc s)) s));
      [by apply inv_alloc|done|simpl; lia]. }
  apply wp_bind, (wp_add_time env ∅ ∅ G R s1); [done|done|]. intros s2 I2 GS2.
  pose proof GS2 as ((T1&T2&T3&T4&T5&T6&T7&T8&T9&T10)&LL2&N2&_).
  destruct (inv_tasks _ _ _ _ _ I2 p k ltac:(set_solver) Hk) as (dp' & np' & j & Hd' & Hn' & HL & _).
  assert (tdata s2 p = Some dp) as Hd2 by (unfold tdata; rewrite T6, T1; exact Htd).
  assert (dp' = dp) as -> by congruence. assert (np' = np) as -> by congruence.
  assert (next_id s2 ≤ next_id s)%Z as Hid2 by (etransitivity; [exact N2|]; simpl; lia).
  apply wp_bind, (wp_create_clean_node ∅ ∅ G R s2 IMP_TASK (pre G p ++ [S j])); [done|lia|].
  intros sk s3 I3 GS3 Hfr Hunk Hsk. pose proof GS3 as ((U1&U2&U3&U4&U5&U6&U7&U8&U9&U10)&LL3&N3&_).
  apply wp_bind, (wp_modify_region _ rd1); [by rewrite U3, T3; unfold s1; st_simpl; rewrite lookup_insert_eq|].
  apply wp_bind. eapply wp_modify_region; [st_simpl; by rewrite lookup_insert_eq|]. st_simpl. rewrite insert_insert_eq.
  unfold set_region_cell. apply wp_bind, (wp_lift _ r); [done|]. apply wp_modify. st_simpl.
  split; [|split; [simpl; lia|simpl; by rewrite U9, T9]].
  assert (np ≠ sk) as Hne by (intros ->; destruct (gstep_live _ _ _ s1 s2 sk GS2 Hlp); congruence).
  unfold s1 in LL2. simpl in LL2. eexists.
  eapply (inv_open_region _ R s3 p r (next_loc s) tp n k dp np sk j I3); try done.
  - intros r'. rewrite U7, T7. apply Hun.
  - lia.
  - by rewrite U6, T6.
  - unfold tdata. by rewrite U6, U1.
  - simpl. by rewrite fn_lookup_insert_ne.
  - simpl. by rewrite fn_lookup_insert.
Qed.
End regions_begin.

(** *** Tasks and regions end *)

(** A task moves on to another node. *)
Lemma inv_move_cur X Y G R s c tp d k x j :
  inv X Y G R s → c ∉ X → rt_tasks R !! c = Some k → rt_fresh k = false → rt_kind k ≠ TLate →
  task_ptr s !! c = Some tp → tasks s !! tp = Some d → is_Some (nodes s !! x) → shared X R s x →
  lab G x = pre G c ++ [j] →
  (∀ r rr, r ∉ Y → rt_regions R !! r = Some rr → rr_parent rr ≠ c) →
  inv X Y G R (set_tasks (<[tp := set_td_curr_task_node (Some x) d]> (tasks s)) s).
Proof.
  intros I HX Hk Hf Hlate Hc Hd Hx Hs HL HR.
  apply (inv_close_task X Y G R _ c k); [|done|].
  - apply (inv_set_cur _ Y G R s c tp d x); try done.
    + by apply (inv_mono X _ Y); [|set_solver|].
    + set_solver.
    + intros c' k' Hc' Hk' Hf'. apply (Hs c' k'); [set_solver|done..].
  - destruct (inv_tasks _ _ _ _ _ I c k HX Hk) as (d0 & n & j0 & Hd0 & Hn & _ & Hb & Hlp & _ & Hm).
    assert (d0 = d) as -> by (pose proof (tdata_at s c tp d Hc Hd); congruence).
    exists (set_td_curr_task_node (Some x) d), x, j. rewrite (tdata_upd s c tp _ Hc).
    split_and!; try done; [|congruence].
    intros Hlo. destruct (Hlp Hlo) as (w & st & sk & i & Hw & HREST). exists w, st, sk, i.
    split; [|exact HREST]. revert Hw. unfold wdata. by rewrite (tdata_upd s c tp _ Hc), Hd0.
Qed.

(** The region of a team ends: its remaining members become late. *)
Definition end_region (r p : positive) (k : rtask) (R : rt) : rt :=
  MkRt (make_late r <$> <[p := set_open None k]> (rt_tasks R)) (rt_regions R) (rt_threads R) (rt_started R).

Lemma make_late_kind r k r' tn : rt_kind (make_late r k) = TImplicit r' tn → rt_kind k = TImplicit r' tn ∧ r' ≠ r.
Proof.
  unfold make_late. destruct (rt_kind k) eqn:E; simpl; try congruence.
  case_decide; simpl; [done|]. rewrite E. intros [= -> ->]. done.
Qed.

Lemma task_ok_late G R R' s c k r :
  task_ok G R s c k → may_outlive r c k → rt_regions R' = rt_regions R → task_ok G R' s c (make_late r k).
Proof.
  intros (d & n & j & Hd & Hn & HL & Hb & Hlp & Hf & Hm) HO ER. unfold make_late.
  assert (task_ok G R' s c k) as Hsame.
  { exists d, n, j. split_and!; try done. destruct (rt_kind k); try done.
    unfold member_ok in *. by rewrite ER. }
  destruct (rt_kind k) as [|r' tn| |] eqn:Ek; try done. case_decide as E; [|done].
  unfold may_outlive in HO. rewrite Ek in HO. destruct (HO E) as [Hfr _].
  exists d, n, j. by split_and!.
Qed.

Lemma inv_end_region G R s r rr k :
  inv ∅ {[r]} G R s → rt_regions R !! r = Some rr → rt_tasks R !! rr_parent rr = Some k →
  rt_open k = Some r → rt_fresh k = false → map_Forall (may_outlive r) (rt_tasks R) →
  inv ∅ {[r]} G (end_region r (rr_parent rr) k R) s.
Proof.
  intros I Hrr Hk Ho Hf HM. pose proof I as [GI OB T Rg]. split.
  - done.
  - apply (objects_rt R); try done. intros c. cbn [rt_tasks end_region]. rewrite lookup_fmap, fmap_is_Some. rewrite lookup_insert.
    case_decide as E; [|done]. rewrite <- E, Hk. split; by eexists.
  - intros c k' Hc. simpl. rewrite lookup_fmap. intros (k0 & Hk0 & ->)%fmap_Some.
    rewrite lookup_insert in Hk0. case_decide as E.
    + injection Hk0 as <-. subst c. apply (task_ok_late G R); [| |done].
      * destruct (T (rr_parent rr) k ltac:(set_solver) Hk) as (d & n & j & ? & ? & ? & ? & ? & ? & ?).
        exists d, n, j. by split_and!.
      * specialize (HM _ _ Hk). exact HM.
    + apply (task_ok_late G R); [apply T; [done|]|by apply (HM c)|]; done.
  - intros r' rr' Hr' Hrr'. apply (region_ok_rt G R); [by apply Rg|]. intros kp Hkp Hop Hfp. simpl.
    rewrite lookup_fmap, lookup_insert. case_decide as E.
    + rewrite <- E in Hkp. assert (kp = k) by congruence. assert (r' = r) by congruence. set_solver.
    + rewrite Hkp. eexists. split; [done|]. unfold make_late. destruct (rt_kind kp); try done. by case_decide.
Qed.

Section ends.
Context (env : Env).

Lemma safe_parallel_end G R s r rr k :
  inv ∅ ∅ G R s → rt_regions R !! r = Some rr → rt_tasks R !! rr_parent rr = Some k →
  map_Forall (may_outlive r) (rt_tasks R) →
  wp (cb_parallel_end env (Some r))
    (fun _ => good (MkRt (make_late r <$> <[rr_parent rr := set_open None k]> (rt_tasks R))
       (delete r (rt_regions R)) (rt_threads R) (rt_started R)) s) s.
Proof.
  intros I Hrr Hk HM. unfold cb_parallel_end.
  destruct (inv_region_cell _ _ _ _ _ r rr I Hrr) as (rp & rd & Hrp & Hrd & Hrdata).
  destruct (inv_regions _ _ _ _ _ I r rr ltac:(set_solver) Hrr)
    as (rd' & kp & dp & np & sk & j & Hrd' & Hkp & Ho & Hpp & Hdp & Hnp & Hfp & L1 & L2 & Hsk & L3 & _).
  assert (rd' = rd) as -> by congruence. assert (kp = k) as -> by congruence.
  assert (rt_kind k ≠ TLate) as Hnl.
  { destruct (inv_tasks _ _ _ _ _ I (rr_parent rr) k ltac:(set_solver) Hk) as (?&?&?&_&_&_&_&_&_&Hm).
    intros E. rewrite E in Hm. congruence. }
  pose proof Hdp as Hdp'. unfold tdata in Hdp'. destruct (task_ptr s !! rr_parent rr) as [tp|] eqn:Htp; [|done].
  simpl in Hdp'. apply wp_bind, wp_region_cell. rewrite Hrp.
  apply wp_bind, (wp_load_region _ rd); [done|]. rewrite Hpp, Hsk.
  apply wp_bind, (wp_modify_task _ dp); [done|].
  assert (inv ∅ {[r]} G R s) as I0 by (by apply (inv_mono ∅ _ ∅); [|done|set_solver]).
  assert (points s (RSink r) = Some sk) as Psk by (simpl; by rewrite Hrdata).
  assert (is_Some (nodes s !! sk)) as Hlsk by (by eapply inv_live).
  lazymatch goal with |- wp _ _ ?st => set (s1 := st) end.
  assert (inv ∅ {[r]} G R s1) as I1.
  { apply (inv_move_cur ∅ _ G R s (rr_parent rr) tp dp k sk (S j)); try done.
    - by apply (shared_slot ∅ ∅ G R s (RSink r)).
    - intros r' rr' Hr' Hrr' E. destruct (parent_open ∅ ∅ G R s r' rr') as (kp & Hkp' & Ho'); [done|set_solver|done|].
      rewrite E in Hkp'. assert (kp = k) by congruence. assert (r' = r) by congruence. set_solver. }
  assert (points s1 (RSink r) = Some sk) as Psk1 by exact Psk.
  apply wp_bind, (wp_set_last_time env ∅ {[r]} G R s1); [done|done|]. intros s2 I2 GS2.
  pose proof GS2 as (O2&LL2&N2&_). pose proof O2 as (T1&T2&T3&T4&T5&T6&T7&T8&T9&T10).
  assert (points s2 (RSink r) = Some sk) as Psk2 by (by rewrite (points_same O2)).
  apply wp_bind, wp_modify.
  assert (inv ∅ {[r]} G R (set_g_finalNode (Some sk) s2)) as I3.
  { apply inv_set_final; [done|by eapply inv_live|by apply (shared_slot ∅ {[r]} G R s2 (RSink r))]. }
  apply wp_bind, (wp_delete_region _ rd); [by st_simpl; rewrite T3|].
  unfold set_region_cell. apply wp_bind, (wp_lift _ r); [done|]. apply wp_modify.
  split; [|split; [simpl in *; lia|simpl in *; by rewrite T9]]. exists G.
  apply (inv_close_region ∅ ∅ G _ _ r); [|intros rr'; simpl; by rewrite lookup_delete_eq].
  rewrite union_empty_r_L.
  apply (inv_end_region G R _ r rr k) in I3; try done.
  apply (inv_detach_region _ _ _ _ _ r rp) in I3; [exact I3|set_solver|by st_simpl; rewrite T7|].
  intros c k' r' tn _. simpl. rewrite lookup_fmap. intros (k0 & _ & ->)%fmap_Some. by intros [_ ?]%make_late_kind.
Qed.
End ends.

(** *** Implicit tasks end *)

Definition end_task (c : positive) (R : rt) : rt :=
  MkRt (delete c (rt_tasks R)) (rt_regions R) (rt_threads R) (rt_started R).

Definition drop_task (c tp : positive) (s : state) : state :=
  set_task_ptr (delete c (task_ptr s)) (set_tasks (delete tp (tasks s)) s).

Lemma inv_drop_task G R s c tp k :
  inv ∅ ∅ G R s → task_ptr s !! c = Some tp → rt_tasks R !! c = Some k → rt_open k = None →
  inv ∅ ∅ G (end_task c R) (drop_task c tp s) ∧
  (∀ kk, slot_task kk = Some c → points (drop_task c tp s) kk = None) ∧
  (∀ kk, slot_task kk ≠ Some c → points (drop_task c tp s) kk = points s kk).
Proof.
  intros I Hc Hk Ho. pose proof (inv_objects _ _ _ _ _ I) as OB.
  assert (tdata (drop_task c tp s) c = None) as E0.
  { unfold tdata, drop_task. st_simpl. by rewrite lookup_delete_eq. }
  assert (∀ c', c' ≠ c → tdata (drop_task c tp s) c' = tdata s c') as E1.
  { intros c' Hne. unfold tdata, drop_task. st_simpl. rewrite lookup_delete_ne by done.
    destruct (task_ptr s !! c') as [p|] eqn:E; [|done]. simpl. rewrite lookup_delete_ne; [done|].
    intros ->. apply Hne. by eapply (ob_task_inj R s). }
  split_and!.
  - apply (inv_gone_task ∅ ∅ G _ _ c); [|simpl; by rewrite lookup_delete_eq].
    apply inv_detach_task; [by apply (inv_mono ∅ _ ∅); [|set_solver|]|set_solver|done|].
    intros r rr Hrr. apply (not_parent ∅ ∅ G R s c r rr); [done|set_solver|done|]. intros k' Hk'. congruence.
  - intros kk. destruct kk; simpl; intros ?; simplify_eq; unfold wdata; by rewrite E0.
  - intros kk Hne. destruct kk; simpl in *; try done; unfold wdata; by rewrite E1 by congruence.
Qed.

(** The labels of the sink of a team, and of the nodes that join it. *)
Lemma team_sink G R s c k r tn d :
  inv ∅ ∅ G R s → rt_tasks R !! c = Some k → rt_kind k = TImplicit r tn → tdata s c = Some d →
  ∃ sk, td_sink_node d = Some sk ∧ points s (RSink r) = Some sk ∧
    (∀ n, points s (SCur c) = Some n → lex (lab G n) (lab G sk)) ∧
    (∀ b, points s (SBar c) = Some b → lex (lab G b) (lab G sk)).
Proof.
  intros I Hk Ek Hd.
  destruct (inv_tasks _ _ _ _ _ I c k ltac:(set_solver) Hk) as (d' & n & j & Hd' & Hn & HL & _ & _ & _ & Hm).
  assert (d' = d) as -> by congruence.
  rewrite Ek in Hm. destruct Hm as (rr & rd & m & Hrr & Hrd & Hsk & Hpre & _ & _ & HB).
  destruct (inv_regions _ _ _ _ _ I r rr ltac:(set_solver) Hrr)
    as (rd' & kp & dp & np & sk & jp & Hrd' & _ & _ & _ & _ & _ & _ & _ & L2 & Hsk' & L3 & _).
  assert (rd' = rd) as -> by congruence. exists sk. split; [congruence|].
  split; [simpl; by rewrite Hrd|]. split.
  - intros n'. simpl. rewrite Hd. simpl. rewrite Hn. intros [= <-].
    rewrite HL, Hpre, L3, L2, <- !app_assoc. simpl. apply lex_step. lia.
  - intros b. simpl. rewrite Hd. simpl. intros Hb. destruct (HB b Hb) as [i ->].
    rewrite L3, L2, <- app_assoc. simpl. apply lex_step. lia.
Qed.

Section implicit_end.
Context (env : Env).

(** The end of a task that has met a barrier: its node disappears. *)
Lemma safe_end_barrier G R s c tp d k n b tn (Q : unit → state → Prop) :
  inv ∅ ∅ G R s → task_ptr s !! c = Some tp → tdata s c = Some d → rt_tasks R !! c = Some k → rt_open k = None →
  td_curr_task_node d = Some n → td_curr_barrier_node d = Some b → private s c b n →
  (tn = 0%Z → ∃ r tn', rt_kind k = TImplicit r tn') →
  (∀ h g, inv ∅ ∅ G (end_task c R) (drop_task c tp (set_g_tdg g (set_nodes h s))) →
     Q tt (set_nodes h (set_g_tdg g s))) →
  wp (Graph_disconnectNodes (Some b) (Some n);;
      n0 ← load_node (Some n);
      modify (fun s => set_g_tdg (removeNode (g_tdg s) (_id n0)) s);;
      l ← lift (non_null (Some n));
      h ← read nodes;
      h' ← lift (delete_Node h l);
      modify (set_nodes h');;
      (if decide (tn = 0%Z) then Graph_connectNodes (Some b) (td_sink_node d) else skip)) Q s.
Proof.
  intros I Hc Hd Hk Ho Hn Hb (P1 & P2 & P3) Hz HQ.
  assert (points s (SCur c) = Some n) as Pn by (simpl; by rewrite Hd).
  assert (points s (SBar c) = Some b) as Pb by (simpl; by rewrite Hd).
  assert (is_Some (nodes s !! n)) as [nd Hnd] by (by eapply inv_live).
  assert (is_Some (nodes s !! b)) as Hlb by (by eapply inv_live).
  assert (b ≠ n) as Hbn by (intros ->; by apply P3 in Pb).
  destruct (inv_drop_task G R s c tp k) as (Id & D0 & D1); [done..|].
  assert (shared ∅ (end_task c R) (drop_task c tp s) b) as Hsb.
  { intros c' k' _ Hk' Hf. simpl in Hk'. apply lookup_delete_Some in Hk' as [Hne Hk'].
    rewrite D1 by (simpl; congruence). apply (shared_slot ∅ ∅ G R s (SBar c) b I Pb ltac:(done) c' k'); [set_solver|done..]. }
  pose proof (inv_remove_node ∅ ∅ G (end_task c R) (drop_task c tp s) b n nd Id Hnd Hbn P1 P2) as Ir.
  specialize (Ir ltac:(intros kk; destruct (decide (slot_task kk = Some c));
    [by rewrite D0|rewrite D1 by done; intros Hx%P3; by subst]) Hsb).
  apply wp_bind. unfold Graph_disconnectNodes. apply wp_bind, (wp_lift _ b); [done|].
  apply wp_bind, (wp_lift _ n); [done|]. apply wp_bind, wp_read, wp_bind, (wp_lift _ (del_edge b n (nodes s))).
  { apply disconnectNodes_eq; [done|by eexists]. }
  apply wp_modify.
  assert (del_edge b n (nodes s) !! n = Some (eraseEntry b nd)) as Hnd'.
  { unfold del_edge. rewrite lookup_alter_eq, lookup_alter_ne, Hnd by done. done. }
  apply wp_bind, (wp_load_node _ (eraseEntry b nd)); [done|].
  apply wp_bind, wp_modify, wp_bind, (wp_lift _ n); [done|]. apply wp_bind, wp_read.
  apply wp_bind, (wp_lift _ (delete n (del_edge b n (nodes s)))).
  { unfold delete_Node. st_simpl. by rewrite Hnd'. }
  apply wp_bind, wp_modify. st_simpl.
  case_decide as Ez; [|apply wp_skip; by apply HQ].
  destruct (Hz Ez) as (r & tn' & Ek). destruct (team_sink G R s c k r tn' d) as (sk & Hsk & Psk & _ & HLb); [done..|].
  rewrite Hsk.
  lazymatch type of Ir with inv _ _ _ _ ?st =>
    destruct (inv_connect ∅ ∅ G (end_task c R) st b sk) as (h2 & E2 & I2 & _); [done|done|..] end.
  - apply (shared_slot ∅ ∅ G _ _ (RSink r)); [exact Ir|exact Psk|done].
  - destruct Hlb as [bd Hbd]. destruct (keeps_but_removed (nodes s) b n b bd Hbn Hbn Hbd) as (m' & Hm' & _). eauto.
  - eapply (inv_live _ _ _ _ _ (RSink r)); [exact Ir|exact Psk].
  - by apply HLb.
  - unfold Graph_connectNodes. apply wp_bind, (wp_lift _ b); [done|]. apply wp_bind, (wp_lift _ sk); [done|].
    apply wp_bind, wp_read, wp_bind, (wp_lift _ h2); [exact E2|]. apply wp_modify. apply HQ. exact I2.
Qed.

(** The task object is deleted and the cell of the runtime cleared. *)
Lemma wp_drop_task c tp s (Q : unit → state → Prop) :
  Q tt (drop_task c tp s) →
  wp (l ← lift (non_null (Some tp));
      modify (fun s => set_tasks (delete l (tasks s)) s);;
      set_task_cell (Some c) None) Q s.
Proof.
  intros HQ. apply wp_bind, (wp_lift _ tp); [done|]. apply wp_bind, wp_modify.
  unfold set_task_cell. apply wp_bind, (wp_lift _ c); [done|]. by apply wp_modify.
Qed.

Lemma safe_implicit_end G R s pd c ts tn k :
  inv ∅ ∅ G R s → rt_tasks R !! c = Some k → rt_open k = None → may_end R c k tn →
  wp (cb_implicit_task env ompt_scope_end pd (Some c) ts tn) (fun _ => good (end_task c R) s) s.
Proof.
  intros I Hk Ho HM. unfold cb_implicit_task. apply wp_bind, wp_skip.
  destruct (inv_task_cell _ _ _ _ _ c k I Hk) as [tp Hc].
  destruct (inv_task_at _ _ _ _ _ c tp I Hc) as (d & n & Hd & Hn & Hl & Htd & Pn).
  destruct (inv_tasks _ _ _ _ _ I c k ltac:(set_solver) Hk) as (d' & n' & j & Hd' & Hn' & HL & Hb & _ & Hf & Hm).
  assert (d' = d) as -> by congruence. assert (n' = n) as -> by congruence.
  rewrite decide_True by done. apply wp_bind, wp_task_cell. rewrite Hc.
  apply wp_bind, (wp_load_task _ d); [done|]. rewrite Hn.
  destruct (td_curr_barrier_node d) as [b|] eqn:Hbar.
  - rewrite bool_decide_true by (by eexists). apply wp_bind.
    assert (rt_barrier k = true) as Eb by (apply Hb; by eexists).
    assert (rt_fresh k = true) as Hfr.
    { unfold may_end in HM. destruct (rt_kind k); try done. destruct HM as [_ [?|[? _]]]; congruence. }
    destruct (Hf Hfr) as (b' & Hb' & HP). assert (b' = b) as -> by congruence.
    eapply (safe_end_barrier G R s c tp d k n b tn); try done.
    { intros ->. unfold may_end in HM. destruct (rt_kind k); try done. eauto. }
    intros h g If. apply wp_drop_task.
    split; [exists G; exact If|]. split; [simpl; lia|done].
  - rewrite bool_decide_false by (by intros []).
    assert (rt_fresh k = false) as Hfr.
    { destruct (rt_fresh k) eqn:E; [|done]. by destruct (Hf eq_refl) as (b & ? & _). }
    destruct (rt_kind k) as [|r tn'| |] eqn:Ek; try (unfold may_end in HM; rewrite Ek in HM; done).
    2: { congruence. }
    destruct (team_sink G R s c k r tn' d) as (sk & Hsk & Psk & HLn & _); [done..|].
    apply wp_bind, wp_bind, (wp_add_time env ∅ ∅ G R s); [done|done|]. intros s1 I1 GS1.
    pose proof GS1 as (O1 & LL1 & N1 & _). rewrite Hsk.
    apply (wp_connect ∅ ∅ G R s1).
    + done.
    + apply (shared_slot ∅ ∅ G R s1 (SCur c)); [done|by rewrite (points_same O1)|].
      intros c' kk [= <-] _ Hkk. congruence.
    + apply (shared_slot ∅ ∅ G R s1 (RSink r)); [done|by rewrite (points_same O1)|done].
    + by eapply gstep_live.
    + eapply (inv_live _ _ _ _ _ (RSink r)); [exact I1|by rewrite (points_same O1)].
    + by apply HLn.
    + intros s2 I2 GS2 _. pose proof GS2 as (O2 & LL2 & N2 & _).
      apply wp_drop_task.
      pose proof (same_objects_trans _ _ _ O1 O2) as (T1&T2&T3&T4&T5&T6&T7&T8&T9&T10).
      destruct (inv_drop_task G R s2 c tp k) as (Id & _); [done|by rewrite T6|done..|].
      split; [exists G; exact Id|]. split; [simpl; lia|]. simpl. by rewrite T9.
Qed.
End implicit_end.
