(* ===== verification/SafeBarriers.v ===== *)
(** * The barrier callback keeps the invariant

    The arrival of a thread at a barrier: the tool's counter follows the
    runtime's barrier, and the new node of the thread is private to it. *)
From stdpp Require Import base numbers gmap list sorting relations functions.
From Stdlib Require Import ZArith Lia.
From S2P Require Import Prelude Float64 Graph Dag Callbacks Protocol Invariant Objects SafeTasks SafeRegions.

(** *** Barriers begin *)

(** A suspended region changes its state. *)
Lemma inv_rt_region X Y G R s r rr rr' :
  inv X Y G R s → r ∈ Y → rt_regions R !! r = Some rr →
  (∀ c, c ∉ X → (if decide (c ∈ rr_arrived rr) then S (rr_round rr) else rr_round rr) ≤
     (if decide (c ∈ rr_arrived rr') then S (rr_round rr') else rr_round rr')) →
  (∀ c, c ∉ X → c ∈ rr_arrived rr' → c ∈ rr_arrived rr) →
  inv X Y G (set_rt_region r rr' R) s.
Proof.
  intros [GI OB T Rg] HY Hr Hle Ha. split.
  - done.
  - apply (objects_rt R); try done. intros r'. simpl. rewrite lookup_insert.
    case_decide; subst; [|done]. rewrite Hr. split; by eexists.
  - intros c k Hc Hk. apply (task_ok_rt G R); [by apply T|]. intros r' tn rr0 _ Hrr0. simpl.
    rewrite lookup_insert. case_decide; subst; [|by exists rr0].
    exists rr'. assert (rr0 = rr) as -> by congruence. split_and!; [done|by apply Ha|by apply Hle].
  - intros r' rr0 Hr'. simpl. rewrite lookup_insert_ne by congruence. intros Hrr0.
    apply (region_ok_rt G R); [by apply Rg|]. intros kp ? ? ?. by exists kp.
Qed.

(** The counter of the tool after an arrival. *)
Definition next_cnt (rd : ParallelRegionData) : Z :=
  if (pr_team_size rd <=? pr_barrier_cnt rd + 1)%Z then 0 else pr_barrier_cnt rd + 1.

Section barrier.
Context (env : Env) (G : ghost) (R : rt) (s : state) (c r tp rp n : positive).
Context (d : TaskData) (rd : ParallelRegionData) (L : list nat).
Context (I : inv {[c]} {[r]} G R s) (Hid : (next_id s + 2 < 2 ^ 63)%Z).
Context (Hc : task_ptr s !! c = Some tp) (Hd : tasks s !! tp = Some d) (Hn : td_curr_task_node d = Some n).
Context (Hr : region_ptr s !! r = Some rp) (Hrd : regions s !! rp = Some rd).
Context (Hcnt : (0 ≤ pr_barrier_cnt rd < pr_team_size rd)%Z) (Hsz : (1 < pr_team_size rd < 2 ^ 32)%Z).
Context (HL : lex (lab G n) L).
Context (Hbar : pr_barrier_cnt rd ≠ 0%Z → ∃ b, pr_curr_barrier_node rd = Some b ∧ lab G b = L).
Context (Hnone : pr_barrier_cnt rd = 0%Z → from_option rr_arrived ∅ (rt_regions R !! r) = ∅).

(** The state [s'] after an arrival at the barrier node [b], with the task
    objects [ts]. *)
Definition arrive_state (ts : gmap positive TaskData) (b : positive) (s' : state) : Prop :=
  ∃ f, inv {[c]} {[r]} (set_lab f G) R s' ∧ f b = L ∧ (∀ w, is_Some (nodes s !! w) → f w = lab G w) ∧
    is_Some (nodes s' !! b) ∧ shared {[c]} R s' b ∧ (next_id s' ≤ next_id s + 1)%Z ∧
    (∀ w, is_Some (nodes s !! w) → is_Some (nodes s' !! w)) ∧
    tasks s' = ts ∧
    regions s' = <[rp := MkRegion (pr_parent_task_data rd) (pr_sink_node rd) (pr_team_size rd)
      (next_cnt rd) (Some b)]> (regions s) ∧
    worksharings s' = worksharings s ∧ task_ptr s' = task_ptr s ∧ region_ptr s' = region_ptr s ∧
    g_papiNumEvents s' = g_papiNumEvents s.

Definition arrive_post (b : positive) (s' : state) : Prop :=
  arrive_state (<[tp := set_td_curr_barrier_node (Some b) d]> (tasks s)) b s'.

(** The counter goes up. *)
Abbreviation rd1 := (set_pr_barrier_cnt (u32 (pr_barrier_cnt rd + 1)) rd).
Abbreviation s1 := (set_regions (<[rp := rd1]> (regions s)) s).

Lemma arrive_count : inv {[c]} {[r]} G R s1.
Proof. apply (inv_set_region _ _ _ _ _ r rp rd); try done; [set_solver| |by left]. intros b ?. by left. Qed.

Lemma arrive_cur : points s1 (SCur c) = Some n ∧ is_Some (nodes s !! n) ∧ shared {[c]} R s1 n.
Proof.
  assert (points s (SCur c) = Some n) as Hp by (simpl; by rewrite (tdata_at s c tp d Hc Hd)).
  split; [exact Hp|]. split; [by eapply inv_live|].
  apply (shared_slot {[c]} {[r]} G R s1 (SCur c)); [apply arrive_count|exact Hp|]. intros c' kk [= <-]. set_solver.
Qed.

Lemma arrive_cnt : u32 (pr_barrier_cnt rd + 1) = (pr_barrier_cnt rd + 1)%Z.
Proof. apply u32_small. lia. Qed.

(** The task remembers the barrier. *)
Lemma arrive_bar b s3 :
  arrive_state (tasks s) b s3 →
  arrive_post b (set_tasks (<[tp := set_td_curr_barrier_node (Some b) d]> (tasks s3)) s3).
Proof.
  intros (f & I3 & Hfb & Hfw & Hl & Hs & N3 & HL3 & F1 & F2 & F3 & F4 & F5 & F6).
  assert (task_ptr s3 !! c = Some tp) as Hc3 by congruence.
  lazymatch goal with |- arrive_post _ ?st => set (s4 := st) end.
  assert (inv {[c]} {[r]} (set_lab f G) R s4) as I4.
  { apply (inv_set_bar _ _ _ _ _ c); try done; [set_solver|congruence]. }
  exists f. unfold s4. split_and!; try done; st_simpl; [|by rewrite F1].
  apply (shared_slot {[c]} {[r]} (set_lab f G) R s4 (SBar c)); [done| |done].
  cbn [points]. unfold s4. by rewrite (tdata_upd s3 c tp _ Hc3).
Qed.

(** The first thread creates the barrier. *)
Lemma wp_arrive_first (Q : option positive * bool → state → Prop) :
  pr_barrier_cnt rd = 0%Z → (∀ b s', arrive_state (tasks s) b s' → Q (Some b, true) s') →
  wp (d ← load_task (Some tp);
      barrier_node ← create_new_node env BARRIER (td_curr_task_node d) true;
      modify_region (Some rp) (set_pr_curr_barrier_node (Some barrier_node));;
      mret (Some barrier_node, true)) Q s1.
Proof.
  intros E0 HQ. destruct arrive_cur as (Pn & Hln & Hsn). pose proof arrive_count as I1. pose proof arrive_cnt as Eu.
  apply wp_bind, (wp_load_task _ d); [done|]. rewrite Hn.
  apply wp_bind, (wp_create_new_node env {[c]} {[r]} G R s1 BARRIER n L); [done..|simpl; lia|].
  intros b s2 I2 GS2 Hfr Hun Hlb _ _ _. pose proof GS2 as (O2 & LL2 & N2 & K2).
  pose proof O2 as (T1&T2&T3&T4&T5&T6&T7&T8&T9&T10). simpl in T1, T2, T3, T6, T7, T9, N2.
  assert (regions s2 !! rp = Some rd1) as Hr2 by (by rewrite T3, lookup_insert_eq).
  assert (region_ptr s2 !! r = Some rp) as Hp2 by (by rewrite T7).
  apply wp_bind, (wp_modify_region _ rd1); [done|]. apply wp_ret.
  lazymatch goal with |- Q _ ?st => set (s3 := st) end.
  assert (I3 : inv {[c]} {[r]} (set_lab (<[b := L]> (lab G)) G) R s3).
  { apply (inv_set_region _ _ _ _ _ r rp rd1); try done; [set_solver| |right; auto].
    intros b' [= <-]. right. split; [done|]. by apply shared_unknown. }
  apply HQ. exists (<[b := L]> (lab G)). unfold s3. split_and!; try done; st_simpl.
  - by rewrite fn_lookup_insert.
  - intros w [m Hm]. apply fn_lookup_insert_ne. intros <-. simpl in Hfr. congruence.
  - apply (shared_slot {[c]} {[r]} _ R s3 (RBar r) b I3); [|done].
    cbn [points]. unfold s3. by rewrite (rdata_upd s2 r rp _ Hp2).
  - intros w Hw. by eapply (gstep_live _ _ _ s1).
  - rewrite T3, insert_insert_eq. f_equal. unfold set_pr_curr_barrier_node. simpl.
    f_equal. unfold next_cnt. rewrite Eu. destruct (Z.leb_spec (pr_team_size rd) (pr_barrier_cnt rd + 1)); lia.
Qed.

(** The counter starts again when the team is complete. *)
Lemma wp_arrive_reset b s2 :
  pr_curr_barrier_node rd = Some b → regions s2 !! rp = Some rd1 →
  wp (if (pr_team_size rd1 <=? pr_barrier_cnt rd1)%Z then modify_region (Some rp) (set_pr_barrier_cnt 0) else skip)
    (fun _ s' => s' = set_regions (<[rp := MkRegion (pr_parent_task_data rd) (pr_sink_node rd) (pr_team_size rd)
       (next_cnt rd) (Some b)]> (regions s2)) s2) s2.
Proof.
  intros Hb Hr2. pose proof arrive_cnt as Eu.
  unfold next_cnt. cbn [pr_team_size pr_barrier_cnt set_pr_barrier_cnt]. rewrite Eu.
  destruct (pr_team_size rd <=? pr_barrier_cnt rd + 1)%Z.
  - apply (wp_modify_region _ rd1); [done|]. unfold set_pr_barrier_cnt. simpl. by rewrite Hb.
  - apply wp_skip. destruct s2. unfold set_regions. simpl in *. f_equal. rewrite insert_id; [done|].
    rewrite Hr2. unfold set_pr_barrier_cnt. by rewrite Eu, Hb.
Qed.

(** The other threads join the barrier of the round. *)
Lemma wp_arrive_next (Q : option positive * bool → state → Prop) :
  pr_barrier_cnt rd ≠ 0%Z → (∀ b s', arrive_state (tasks s) b s' → Q (Some b, false) s') →
  wp (par ← load_region (Some rp);
      d ← load_task (Some tp);
      Graph_connectNodes (td_curr_task_node d) (pr_curr_barrier_node par);;
      (if (pr_team_size par <=? pr_barrier_cnt par)%Z then modify_region (Some rp) (set_pr_barrier_cnt 0) else skip);;
      mret (pr_curr_barrier_node par, false)) Q s1.
Proof.
  intros E0 HQ. destruct arrive_cur as (Pn & Hln & Hsn). pose proof arrive_count as I1.
  destruct (Hbar E0) as (b & Hb & HLb).
  assert (points s1 (RBar r) = Some b) as Pb.
  { cbn [points]. rewrite (rdata_upd s r rp _ Hr). done. }
  apply wp_bind, (wp_load_region _ rd1); [st_simpl; by rewrite lookup_insert_eq|].
  apply wp_bind, (wp_load_task _ d); [done|]. rewrite Hn. change (pr_curr_barrier_node rd1) with (pr_curr_barrier_node rd).
  rewrite Hb. apply wp_bind, (wp_connect {[c]} {[r]} G R s1); try done.
  { by apply (shared_slot {[c]} {[r]} G R s1 (RBar r)). }
  { eapply (inv_live _ _ _ _ _ (RBar r)); done. }
  { by rewrite HLb. }
  intros s2 I2 GS2 _. pose proof GS2 as (O2 & LL2 & N2 & K2).
  pose proof O2 as (T1&T2&T3&T4&T5&T6&T7&T8&T9&T10). simpl in T1, T2, T3, T6, T7, T9, N2.
  assert (regions s2 !! rp = Some rd1) as Hr2 by (by rewrite T3, lookup_insert_eq).
  assert (region_ptr s2 !! r = Some rp) as Hp2 by (by rewrite T7).
  apply wp_bind. eapply wp_mono; [by apply (wp_arrive_reset b)|]. intros [] ? ->. apply wp_ret, HQ.
  lazymatch goal with |- arrive_state _ _ ?st => set (s3 := st) end.
  assert (I3 : inv {[c]} {[r]} G R s3).
  { apply (inv_set_region _ _ _ _ _ r rp rd1); try done; [set_solver| |by left]. intros b' [= <-]. left. exact Hb. }
  assert (points s3 (RBar r) = Some b) as Pb3.
  { cbn [points]. unfold s3. by rewrite (rdata_upd s2 r rp _ Hp2). }
  exists (lab G). rewrite set_lab_id. split_and!; try done; try (unfold s3; st_simpl; done).
  - by eapply (inv_live _ _ _ _ _ (RBar r)).
  - by apply (shared_slot {[c]} {[r]} G R s3 (RBar r)).
  - unfold s3. st_simpl. lia.
  - intros w Hw'. unfold s3. st_simpl. by eapply (gstep_live _ _ _ s1).
  - unfold s3. st_simpl. by rewrite T3, insert_insert_eq.
Qed.

Lemma wp_arrive (Q : option positive * bool → state → Prop) :
  (∀ b new s', arrive_post b s' → Q (Some b, new) s') → wp (arrive env (Some tp) (Some rp)) Q s.
Proof.
  intros HQ. unfold arrive. apply wp_bind, (wp_load_region _ rd); [done|].
  apply wp_bind, (wp_modify_region _ rd); [done|]. apply wp_bind.
  assert (∀ b new s3, arrive_state (tasks s) b s3 →
    wp (modify_task (Some tp) (set_td_curr_barrier_node (Some b));; mret (Some b, new)) Q s3) as HREST.
  { intros b new s3 HA. pose proof (arrive_bar b s3 HA) as HP. destruct HA as (f & _ & _ & _ & _ & _ & _ & _ & F1 & _).
    apply wp_bind, (wp_modify_task _ d); [by rewrite F1|]. by apply wp_ret, HQ. }
  case_decide as E0.
  - apply wp_arrive_first; [done|]. intros b s'. apply HREST.
  - apply wp_arrive_next; [done|]. intros b s'. apply HREST.
Qed.
End barrier.

(** An arrival seen from a state with the same objects. *)
Lemma arrive_post_gstep G R s s1 c r tp rp d rd L b s2 :
  gstep none none 0 s s1 → arrive_post G R s1 c r tp rp d rd L b s2 → arrive_post G R s c r tp rp d rd L b s2.
Proof.
  intros GS (f & I2 & Hfb & Hfl & Hlb & Hsb & N2 & HL2 & F1 & F2 & F3 & F4 & F5 & F6).
  pose proof GS as ((E1&E2&E3&E4&E5&E6&E7&E8&E9&E10) & _ & N1 & _).
  exists f. split_and!; try done; try congruence; [|lia|].
  - intros w Hw. by apply Hfl; eapply gstep_live.
  - intros w Hw. by apply HL2; eapply gstep_live.
Qed.

(** The runtime's side of an arrival. *)
Lemma rr_arrive_bound c rr c' :
  (if decide (c' ∈ rr_arrived rr) then S (rr_round rr) else rr_round rr) ≤
  (if decide (c' ∈ rr_arrived (rr_arrive c rr)) then S (rr_round (rr_arrive c rr)) else rr_round (rr_arrive c rr)).
Proof. unfold rr_arrive. case_decide; simpl; repeat case_decide; try lia; set_solver. Qed.

Lemma rr_arrive_old c rr c' : c' ≠ c → c' ∈ rr_arrived (rr_arrive c rr) → c' ∈ rr_arrived rr.
Proof. unfold rr_arrive. case_decide; simpl; set_solver. Qed.

Lemma rr_arrive_self c rr :
  S (rr_round rr) ≤
  (if decide (c ∈ rr_arrived (rr_arrive c rr)) then S (rr_round (rr_arrive c rr)) else rr_round (rr_arrive c rr)).
Proof. unfold rr_arrive. case_decide; simpl; repeat case_decide; try lia; set_solver. Qed.

(** The counter of the tool agrees with the runtime. *)
Lemma next_cnt_arrive c rr rd :
  pr_team_size rd = rr_size rr → pr_barrier_cnt rd = Z.of_nat (size (rr_arrived rr)) → c ∉ rr_arrived rr →
  next_cnt rd = Z.of_nat (size (rr_arrived (rr_arrive c rr))) ∧ rr_size (rr_arrive c rr) = rr_size rr ∧
  rr_parent (rr_arrive c rr) = rr_parent rr ∧
  ((1 < rr_size rr)%Z → (Z.of_nat (size (rr_arrived (rr_arrive c rr))) < rr_size rr)%Z) ∧
  (rr_arrived (rr_arrive c rr) ≠ ∅ → rr_round (rr_arrive c rr) = rr_round rr).
Proof.
  intros Et Ec Hc. unfold next_cnt, rr_arrive. rewrite Et, Ec.
  assert (size ({[c]} ∪ rr_arrived rr) = S (size (rr_arrived rr))) as Es.
  { rewrite size_union by set_solver. by rewrite size_singleton. }
  rewrite Es.
  case_decide as Ed; simpl; destruct (Z.leb_spec (rr_size rr) (Z.of_nat (size (rr_arrived rr)) + 1)); try lia.
  split_and!; try done. intros ?. change (0 < rr_size rr)%Z. lia.
Qed.

(** Connecting two nodes that are connected. *)
Lemma wp_connect_again s u v (Q : unit → state → Prop) :
  wf (nodes s) → edge (nodes s) u v → Q tt s → wp (Graph_connectNodes (Some u) (Some v)) Q s.
Proof.
  intros W He HQ. destruct (connectNodes_run (nodes s) u v W) as (h' & E & _ & HC);
    [by eapply edge_live_l|by eapply edge_live_r|]. destruct HC as [[-> _]|[_ ?]]; [|done].
  unfold Graph_connectNodes. apply wp_bind, (wp_lift _ u); [done|]. apply wp_bind, (wp_lift _ v); [done|].
  apply wp_bind, wp_read, wp_bind, (wp_lift _ (nodes s)); [done|]. apply wp_modify. by destruct s.
Qed.

Section barrier_begin.
Context (env : Env).

(** After the arrival: the new node, and the clauses restored. *)
Lemma inv_barrier_done G R s0 s c r k tn tp rp d rd b x L f rr :
  inv {[c]} {[r]} (set_lab f G) R s → L = base G r ++ [S (rr_round rr)] →
  region_ok G R s0 r rr → (∀ w, is_Some (nodes s0 !! w) → f w = lab G w) → objects_ok R s0 →
  rt_tasks R !! c = Some k → rt_kind k = TImplicit r tn → rt_open k = None → rt_loop k = false →
  rt_regions R !! r = Some rr → c ∉ rr_arrived rr →
  rdata s0 r = Some rd → td_sink_node d = pr_sink_node rd →
  task_ptr s = task_ptr s0 → task_ptr s0 !! c = Some tp → region_ptr s !! r = Some rp →
  (∀ c', c' ≠ c → tdata s c' = tdata s0 c') →
  regions s !! rp = Some (MkRegion (pr_parent_task_data rd) (pr_sink_node rd) (pr_team_size rd) (next_cnt rd) (Some b)) →
  tasks s !! tp = Some (MkTask (Some x) (td_curr_ws_data d) (Some b) (td_sink_node d) (td_threadNum d)) →
  f b = L → f x = L ++ [0] → private s c b x →
  inv ∅ ∅ (set_pre c L (set_lab f G)) (set_rt_task c (set_passed k) (set_rt_region r (rr_arrive c rr) R)) s.
Proof.
  intros I HL RO Hf OB0 Hk Ek Ho Hlo Hrr Hca Hrd Hsk Etp Htp Hrp Htd Hr Ht Hfb Hfx HP.
  destruct RO as (rd' & kp & dp & np & sk & j & Hrd' & Hkp & Hop & Hpp & Hdp & Hnp & Hfp & L1 & L2 & Hsk' & L3 & T1 & T2 & T3 & T4 & T5).
  assert (rd' = rd) as -> by congruence.
  assert (rr_parent rr ≠ c) as Hpc by congruence.
  destruct (next_cnt_arrive c rr rd T1 T3 Hca) as (N1 & N2 & N3 & N4 & N5).
  assert (tdata s c = Some (MkTask (Some x) (td_curr_ws_data d) (Some b) (td_sink_node d) (td_threadNum d))) as Hdc.
  { unfold tdata. by rewrite Etp, Htp. }
  assert (rdata s r = Some (MkRegion (pr_parent_task_data rd) (pr_sink_node rd) (pr_team_size rd) (next_cnt rd) (Some b))) as Hrdata.
  { unfold rdata. by rewrite Hrp. }
  apply (inv_close_region ∅ ∅ _ _ _ r).
  - apply (inv_close_task ∅ _ _ _ _ c (set_passed k)).
    + rewrite !union_empty_r_L. apply (inv_rt_task _ _ _ _ _ c k); try done; [|set_solver|].
      * apply (inv_rt_region _ _ _ _ _ r rr); try done; [|set_solver|intros; apply rr_arrive_bound|].
        2: { intros c' Hc' Hin. apply (rr_arrive_old c); [set_solver|done]. }
        apply inv_set_pre; [done|set_solver|]. intros r' rr' Hr' Hrr'.
        apply (not_parent _ _ _ _ _ c r' rr' I); [done..|]. intros k' Hk'. congruence.
      * intros r' rr' Hr' Hrr' E. exfalso. simpl in Hrr'. rewrite lookup_insert_ne in Hrr' by set_solver.
        by apply (not_parent _ _ _ _ _ c r' rr' I) in E; [|set_solver|done|intros k' Hk'; congruence].
    + simpl. by rewrite lookup_insert_eq.
    + exists (MkTask (Some x) (td_curr_ws_data d) (Some b) (td_sink_node d) (td_threadNum d)), x, 0.
      simpl. rewrite fn_lookup_insert, Ek. split_and!; try done.
      * by rewrite Hlo.
      * intros _. by exists b.
      * exists (rr_arrive c rr). eexists _, (S (rr_round rr)). simpl. rewrite lookup_insert_eq, fn_lookup_insert.
        split_and!; try done; [by apply rr_arrive_self|]. intros b' [= <-]. exists (S (rr_round rr)). by rewrite Hfb.
  - intros rr'. simpl. rewrite lookup_insert_eq. intros [= <-].
    assert (is_Some (nodes s0 !! np)) as Hlnp.
    { apply (ob_live R s0 OB0 (SCur (rr_parent rr))). simpl. by rewrite Hdp. }
    assert (is_Some (nodes s0 !! sk)) as Hlsk.
    { apply (ob_live R s0 OB0 (RSink r)). simpl. by rewrite Hrd. }
    eexists _, kp, dp, np, sk, j. rewrite N3, N2. simpl. rewrite lookup_insert_ne, fn_lookup_insert_ne by done.
    split_and!; try done; try lia.
    + by rewrite Etp.
    + by rewrite Htd.
    + by rewrite Hf.
    + by rewrite Hf.
    + intros Ha. exists b. split; [done|]. rewrite Hfb, HL. by rewrite N5.
Qed.

(** A node that nothing refers to becomes the private node of a task. *)
Lemma private_fresh X Y G R s c tp d b x :
  inv X Y G R s → task_ptr s !! c = Some tp → tasks s !! tp = Some d → td_curr_barrier_node d = Some b → b ≠ x →
  (∀ kk, points s kk ≠ Some x) → exits (nodes s) x = [] → entries (nodes s) x = [MkEdge b x] →
  private (set_tasks (<[tp := set_td_curr_task_node (Some x) d]> (tasks s)) s) c b x.
Proof.
  intros I Hc Hd Hb Hbx Hun Hex Hen. pose proof (tdata_at s c tp d Hc Hd) as Htd.
  split; [exact Hex|]. split; [exact Hen|]. intros kk Hkk.
  destruct (decide (slot_task kk = Some c)) as [Es|Es].
  - specialize (Hun kk).
    destruct kk; simpl in Es; simplify_eq; try done; exfalso; revert Hkk Hun; cbn [points]; unfold wdata;
      rewrite (tdata_upd s c tp _ Hc), Htd; simpl; congruence.
  - exfalso. apply (Hun kk). rewrite <- Hkk. symmetry.
    eapply (points_upd_ne R s c tp d); try done. apply I.
Qed.

Section pass.
Context (G : ghost) (R : rt) (s s2 : state) (c r tp rp b : positive) (k : rtask) (rr : rregion).
Context (d : TaskData) (rd : ParallelRegionData) (tn : Z).
Context (I : inv ∅ ∅ G R s) (Hid : (next_id s + 2 < 2 ^ 63)%Z).
Context (Hk : rt_tasks R !! c = Some k) (Ek : rt_kind k = TImplicit r tn) (Ho : rt_open k = None)
  (Hlo : rt_loop k = false) (Hrr : rt_regions R !! r = Some rr) (Hca : c ∉ rr_arrived rr).
Context (Hc : task_ptr s !! c = Some tp) (Hrp : region_ptr s !! r = Some rp)
  (Hrdata : rdata s r = Some rd) (Hsk : td_sink_node d = pr_sink_node rd).
Abbreviation L := (base G r ++ [S (rr_round rr)]).
Context (A : arrive_post G R s c r tp rp d rd L b s2).
Abbreviation d2 := (set_td_curr_barrier_node (Some b) d).

(** The new node of the thread, with the clauses restored. *)
Lemma pass_good f x s3 :
  inv {[c]} {[r]} (set_lab (<[x := L ++ [0]]> f) G) R s3 → same_objects s2 s3 → (next_id s3 ≤ next_id s + 2)%Z →
  f b = L → b ≠ x → (∀ w, is_Some (nodes s !! w) → f w = lab G w) → nodes s !! x = None →
  is_Some (nodes s3 !! x) → (∀ kk, points s3 kk ≠ Some x) →
  exits (nodes s3) x = [] → entries (nodes s3) x = [MkEdge b x] →
  good (set_rt_task c (set_passed k) (set_rt_region r (rr_arrive c rr) R)) s
    (set_tasks (<[tp := set_td_curr_task_node (Some x) d2]> (tasks s3)) s3).
Proof.
  intros I3 (U1&U2&U3&U4&U5&U6&U7&U8&U9&U10) N3 Hfb Hbx Hfl Hfr Hlx Hun Hex Hen.
  destruct A as (_ & _ & _ & _ & _ & _ & _ & _ & F1 & F2 & F3 & F4 & F5 & F6).
  assert (tasks s3 !! tp = Some d2) as Hd3 by (by rewrite U1, F1, lookup_insert_eq).
  assert (task_ptr s3 !! c = Some tp) as Hc3 by congruence.
  lazymatch goal with |- good _ _ ?st => set (s4 := st) end.
  split; [|split; [unfold s4; st_simpl; lia|unfold s4; st_simpl; congruence]].
  eexists. eapply (inv_barrier_done G R s s4 c r k tn tp rp d rd b x L (<[x := L ++ [0]]> f) rr); try done.
  - apply (inv_set_cur _ _ _ _ _ c); try done; [set_solver|by apply shared_unknown|].
    intros r' rr' Hr' Hrr'. apply (not_parent _ _ _ _ _ c r' rr' I3); [done..|]. intros k' Hk'. congruence.
  - by apply (inv_regions _ _ _ _ _ I).
  - intros w [m Hw]. rewrite fn_lookup_insert_ne; [by apply Hfl|]. intros <-. congruence.
  - apply I.
  - unfold s4. st_simpl. congruence.
  - unfold s4. st_simpl. congruence.
  - intros c' Hne. unfold s4. rewrite (tdata_upd_ne R s3 c tp d2); try done; [|apply I3].
    unfold tdata. rewrite U6, F4, U1, F1. destruct (task_ptr s !! c') as [p|] eqn:Ep; [|done]. simpl.
    rewrite lookup_insert_ne; [done|]. intros <-. apply Hne. eapply (ob_task_inj R s); [apply I|done..].
  - unfold s4. st_simpl. rewrite U3, F2, lookup_insert_eq. done.
  - unfold s4. st_simpl. by rewrite lookup_insert_eq.
  - by rewrite fn_lookup_insert_ne.
  - by rewrite fn_lookup_insert.
  - by eapply private_fresh.
Qed.

(** The rest of the callback, after the arrival. *)
Lemma wp_pass (new : bool) (Q : unit → state → Prop) :
  (∀ s', good (set_rt_task c (set_passed k) (set_rt_region r (rr_arrive c rr) R)) s s' → Q tt s') →
  wp (node ← create_new_node env IMP_TASK (Some b) true;
      modify_task (Some tp) (set_td_curr_task_node (Some node));;
      if new then d ← load_task (Some tp); Graph_connectNodes (Some b) (td_curr_task_node d) else skip) Q s2.
Proof.
  intros HQ. pose proof A as (f & I2 & Hfb & Hfl & Hlb & Hsb & N2 & HL2 & F1 & _).
  apply wp_bind, (wp_create_new_node env {[c]} {[r]} (set_lab f G) R s2 IMP_TASK b (L ++ [0])); [done..| |lia|].
  { simpl. rewrite Hfb. apply lex_prefix. }
  intros x s3 I3 GS3 Hfr Hun Hlx Hex Hen _. pose proof GS3 as (O3 & LL3 & N3 & K3).
  pose proof O3 as (U1 & _).
  assert (b ≠ x) as Hbx by (intros ->; rewrite Hfr in Hlb; by destruct Hlb).
  assert (nodes s !! x = None) as Hfr0.
  { destruct (nodes s !! x) eqn:E; [|done]. destruct (HL2 x) as [? ?]; [by eexists|]. congruence. }
  apply wp_bind, (wp_modify_task _ d2); [by rewrite U1, F1, lookup_insert_eq|].
  pose proof (pass_good f x s3 I3 O3 ltac:(lia) Hfb Hbx Hfl Hfr0 Hlx Hun Hex Hen) as HG.
  lazymatch type of HG with good _ _ ?st => set (s4 := st) in * end.
  destruct new; [|by apply wp_skip, HQ].
  apply wp_bind, (wp_load_task _ (set_td_curr_task_node (Some x) d2)); [unfold s4; st_simpl; by rewrite lookup_insert_eq|].
  destruct (HG) as ((G' & I4) & _). apply wp_connect_again; [apply I4| |by apply HQ].
  apply edge_entries; [apply I4|]. unfold s4. st_simpl. rewrite Hen. by left.
Qed.
End pass.

Lemma safe_barrier_begin G R R' s r c :
  inv ∅ ∅ G R s → (next_id s + 2 < 2 ^ 63)%Z → rt_barrier_begin R r c = Some R' →
  wp (cb_sync_region env ompt_sync_region_barrier ompt_scope_begin (Some r) (Some c)) (fun _ => good R' s) s.
Proof.
  intros I Hid HR. unfold rt_barrier_begin in HR. unfold cb_sync_region.
  apply wp_bind, wp_task_cell, wp_bind, wp_region_cell, wp_bind.
  rewrite !(decide_True (P := _ = _)) by done. apply wp_bind.
  destruct (rt_regions R !! r) as [rr|] eqn:Hrr.
  2: { injection HR as <-. rewrite (inv_no_region _ _ _ _ _ r I Hrr). apply wp_no_team, wp_skip, wp_skip. by eapply good_refl. }
  destruct (inv_region_cell _ _ _ _ _ r rr I Hrr) as (rp & rd & Hrp & Hrd & Hrdata).
  pose proof (inv_regions _ _ _ _ _ I r rr ltac:(set_solver) Hrr)
    as (rd' & _ & _ & _ & _ & _ & Hrd' & _ & _ & _ & _ & _ & _ & _ & _ & _ & _ & T1 & T2 & T3 & T4 & T5).
  assert (rd' = rd) as -> by congruence.
  rewrite Hrp. apply (wp_real_team s rp rd); [done|]. rewrite T1.
  case_decide as Hsz.
  { injection HR as <-. destruct (Z.ltb_spec 1 (rr_size rr)); [lia|]. apply wp_skip, wp_skip. by eapply good_refl. }
  destruct (Z.ltb_spec 1 (rr_size rr)) as [Hsz'|]; [|lia].
  destruct (rt_tasks R !! c) as [k|] eqn:Hk; [|done]. simpl in HR.
  destruct (rt_kind k) as [|r' tn| |] eqn:Ek; try done. case_decide as HC; [|done].
  destruct HC as (-> & [Ho _] & Hlo & Hca). injection HR as <-.
  destruct (inv_task_cell _ _ _ _ _ c k I Hk) as [tp Hc]. rewrite Hc.
  destruct (inv_task_at _ _ _ _ _ c tp I Hc) as (d & n & Hd & Hn & Hl & Htd & Pn).
  destruct (inv_tasks _ _ _ _ _ I c k ltac:(set_solver) Hk) as (d' & n' & i & Hd' & Hn' & HL & _ & _ & _ & Hm).
  rewrite Ek in Hm. destruct Hm as (rr0 & rd0 & m & Hrr0 & Hrd0 & Hsk0 & Hpre & Hm & _).
  simplify_eq. rewrite decide_False in Hm by done.
  apply wp_bind, (wp_load_task _ d); [done|]. rewrite Hn.
  apply wp_bind, (wp_add_time env ∅ ∅ G R s); [done|done|]. intros s1 I1 GS1.
  pose proof GS1 as ((E1&E2&E3&E4&E5&E6&E7&E8&E9&E10) & LL1 & N1 & K1).
  assert (inv {[c]} {[r]} G R s1) as I1' by (apply (inv_mono ∅ _ ∅); [done|set_solver..]).
  apply wp_bind, (wp_arrive env G R s1 c r tp rp n d rd (base G r ++ [S (rr_round rr)])); try done; try congruence; try lia.
  { rewrite HL, Hpre, <- app_assoc. simpl. apply lex_step. lia. }
  { intros Hcnt. rewrite T3 in Hcnt. apply T5. intros E. rewrite E, size_empty in Hcnt. done. }
  { intros Hcnt. rewrite T3 in Hcnt. rewrite Hrr. cbn. apply leibniz_equiv, size_empty_inv. lia. }
  intros b new s2 HA%(arrive_post_gstep _ _ s); [|done].
  apply (wp_pass G R s s2 c r tp rp b k rr d rd tn); try done. intros s' Hs'. by apply wp_skip.
Qed.
End barrier_begin.
