(* ===== verification/SafeLoops.v ===== *)
(** * The loop and chunk callbacks keep the invariant *)
From stdpp Require Import base numbers gmap list sorting relations functions.
From Stdlib Require Import ZArith Lia.
From S2P Require Import Prelude Float64 Graph Dag Callbacks Protocol Invariant Objects SafeTasks SafeRegions.

(** *** Loops *)

(** The loop object of a suspended task. *)
Lemma inv_attach_ws G R s c tp d l wd st sk :
  inv {[c]} ∅ G R s → task_ptr s !! c = Some tp → tasks s !! tp = Some d →
  (∀ c' td, tdata s c' = Some td → td_curr_ws_data td ≠ Some l) → (l < next_loc s)%positive →
  worksharings s !! l = Some wd → ws_start_node wd = Some st → ws_sink_node wd = Some sk →
  ws_last_chunk_node wd = None → is_Some (nodes s !! st) → shared {[c]} R s st →
  is_Some (nodes s !! sk) → shared {[c]} R s sk →
  inv {[c]} ∅ G R (set_tasks (<[tp := set_td_curr_ws_data (Some l) d]> (tasks s)) s).
Proof.
  intros I Hc Hd Hun Hlt Hwd Hst Hsk Hla L1 S1 L2 S2. pose proof (tdata_at s c tp d Hc Hd) as Htd.
  pose proof (inv_objects _ _ _ _ _ I) as OB.
  apply (inv_set_task _ _ G R s c tp d); try done.
  - set_solver.
  - intros k y Hk. destruct k; simpl in Hk; simplify_eq; cbn [points]; unfold wdata;
      rewrite (tdata_upd s c tp _ Hc), ?Htd; try (intros ?; by left); simpl; rewrite Hwd; simpl;
      rewrite ?Hst, ?Hsk, ?Hla; try done; intros [= <-]; by right.
  - destruct (ob_task_cur R s OB c) as [y Hy]; [by eauto|]. simpl in Hy. rewrite Htd in Hy. simpl in *. eauto.
  - intros w [= <-]. split; [done|]. intros c' d1 _ Hd1. by eapply Hun.
Qed.

Lemma inv_detach_ws G R s c tp d w :
  inv {[c]} ∅ G R s → task_ptr s !! c = Some tp → tasks s !! tp = Some d → td_curr_ws_data d = Some w →
  inv {[c]} ∅ G R (set_tasks (<[tp := set_td_curr_ws_data None d]> (tasks s))
    (set_worksharings (delete w (worksharings s)) s)).
Proof.
  intros I Hc Hd Hw. pose proof (tdata_at s c tp d Hc Hd) as Htd.
  pose proof (inv_objects _ _ _ _ _ I) as OB.
  set (s1 := set_tasks (<[tp := set_td_curr_ws_data None d]> (tasks s)) s).
  assert (inv {[c]} ∅ G R s1) as I1.
  { apply (inv_set_task _ _ G R s c tp d); try done.
    - set_solver.
    - intros k y Hk. destruct k; simpl in Hk; simplify_eq; cbn [points]; unfold wdata;
        rewrite (tdata_upd s c tp _ Hc), ?Htd; by left.
    - destruct (ob_task_cur R s OB c) as [y Hy]; [by eauto|]. simpl in Hy. rewrite Htd in Hy. simpl in *. eauto. }
  lazymatch goal with |- inv _ _ _ _ ?st => change st with (set_worksharings (delete w (worksharings s1)) s1) end.
  destruct (inv_addr _ _ _ _ _ I1) as (A1 & A2 & A3 & A4).
  apply (inv_views _ _ G R s1); try done.
  - split; try done. intros c'. unfold wdata.
    change (tdata (set_worksharings _ s1) c') with (tdata s1 c'). destruct (tdata s1 c') as [td|] eqn:E; [|done]. simpl.
    destruct (td_curr_ws_data td) as [w'|] eqn:E'; [|done]. simpl. rewrite lookup_delete_ne; [done|]. intros <-.
    destruct (decide (c' = c)) as [->|Hne].
    + unfold s1 in E. rewrite (tdata_upd s c tp _ Hc) in E. injection E as <-. done.
    + unfold s1 in E. rewrite (tdata_upd_ne R s c tp d) in E by done. apply Hne.
      by eapply (ob_ws_inj R s OB).
  - split_and!; try done. intros l. st_simpl. intros [x [_ Hx]%lookup_delete_Some]. apply A3. eauto.
Qed.

Section loops.
Context (env : Env).

Lemma write_vals_ok num n vs :
  papi_ready num n → (Z.of_nat (length vs) ≤ num)%Z →
  ∃ arr, write_vals (_papiValsArr n) vs = Ok arr ∧ length <$> arr = length <$> _papiValsArr n.
Proof.
  unfold papi_ready, write_vals. destruct (_papiValsArr n) as [a|]; intros Hp Hl.
  - rewrite decide_True by lia. eexists. split; [done|]. simpl. f_equal.
    rewrite length_app, length_drop. lia.
  - destruct vs; [by eexists|]. simpl in Hl. lia.
Qed.

(** The counters and the time of the last chunk are taken. *)
Lemma wp_stop_chunk G R s c k w x th es (Q : unit → state → Prop) :
  inv ∅ ∅ G R s → papi_ok env (g_papiNumEvents s) → rt_tasks R !! c = Some k → rt_loop k = true →
  wdata s c = Some w → ws_last_chunk_node w = Some x → threads s !! th = Some es →
  (∀ s', inv ∅ ∅ G R s' → gstep none none 0 s s' → Q tt s') →
  wp (t ← load_thread (Some th); endPapiCounters env (Some x) (th_papiEventset t);; add_time_now env (Some x)) Q s.
Proof.
  intros I PO Hk Hlo Hw Hx Hth HQ. apply wp_bind, (wp_load_thread _ es); [done|].
  destruct (inv_tasks _ _ _ _ _ I c k ltac:(set_solver) Hk) as (d & n0 & j & _ & _ & _ & _ & Hlp & _).
  destruct (Hlp Hlo) as (w' & st & sk & i & Hw' & _ & _ & _ & _ & HP). assert (w' = w) as -> by congruence.
  assert (points s (SLast c) = Some x) as Px by (simpl; by rewrite Hw).
  assert (is_Some (nodes s !! x)) as [n Hn] by (by eapply inv_live).
  specialize (HP x n Hx Hn).
  destruct (write_vals_ok _ _ (PAPI_stop env (ext_calls s) (th_papiEventset es)) HP) as (arr & Ea & El); [apply PO|].
  apply wp_bind. unfold endPapiCounters. apply wp_bind, wp_tick.
  apply wp_bind, (wp_load_node _ n); [done|]. apply wp_bind, (wp_lift _ arr); [done|].
  eapply (wp_modify_silent ∅ ∅ G R _ x _ none); [by apply inv_tick|by eexists|by intros m; split_and!| |by intros ? []|].
  { intros _ m Hm. simpl in Hm. assert (m = n) as -> by congruence. exact El. }
  intros s1 I1 GS1 _. assert (gstep none none 0 s s1) as GS1'.
  { destruct GS1 as (O & LL & N & K). split_and!; [exact O|exact LL|exact N|exact K]. }
  apply (wp_add_time env ∅ ∅ G R s1); [done|eapply gstep_live; [exact GS1'|by eexists]|].
  intros s2 I2 GS2. apply HQ; [done|]. replace 0%Z with (0 + 0)%Z by done. by eapply gstep_trans.
Qed.

(** The object of a loop that no task has entered: [l] holds the nodes
    [st] and [sk] of the loop of the task [c] at its position [j]. *)
Definition new_loop (G : ghost) (R : rt) (s : state) (c : positive) (j : nat) (l : positive) : Prop :=
  ∃ wd st sk, (∀ c' td, tdata s c' = Some td → td_curr_ws_data td ≠ Some l) ∧ (l < next_loc s)%positive ∧
    worksharings s !! l = Some wd ∧ ws_start_node wd = Some st ∧ ws_sink_node wd = Some sk ∧
    ws_last_chunk_node wd = None ∧ is_Some (nodes s !! st) ∧ shared {[c]} R s st ∧
    is_Some (nodes s !! sk) ∧ shared {[c]} R s sk ∧
    lab G st = pre G c ++ [j; 0] ∧ lab G sk = pre G c ++ [S j].

(** The task enters the loop. *)
Lemma inv_enter_loop G R s c tp d k l j :
  inv ∅ ∅ G (set_rt_task c (touched k) R) s → task_ptr s !! c = Some tp → tasks s !! tp = Some d →
  new_loop G (set_rt_task c (touched k) R) s c j l →
  inv ∅ ∅ G (set_rt_task c (touched (set_loop true k)) R)
    (set_tasks (<[tp := set_td_curr_ws_data (Some l) d]> (tasks s)) s).
Proof.
  intros I Hc Hd (wd & st & sk & Hun & Hlt & Hwd & Hst & Hsk & Hla & L1 & S1 & L2 & S2 & E1 & E2).
  set (R0 := set_rt_task c (touched k) R) in *. set (s' := set_tasks _ s).
  assert (I' : inv {[c]} ∅ G R0 s').
  { apply (inv_attach_ws _ _ _ c tp d l wd st sk); try done. by apply (inv_mono ∅ _ ∅); [|set_solver|]. }
  apply (inv_close_task ∅ ∅ _ _ _ c (touched (set_loop true k))).
  - rewrite union_empty_r_L. replace (set_rt_task c (touched (set_loop true k)) R) with
      (set_rt_task c (touched (set_loop true k)) R0) by (unfold R0, set_rt_task; simpl; by rewrite insert_insert_eq).
    apply (inv_rt_task _ _ _ _ _ c (touched k)); try done; [set_solver|simpl; by rewrite lookup_insert_eq].
  - simpl. by rewrite lookup_insert_eq.
  - destruct (inv_tasks _ _ _ _ _ I c (touched k) ltac:(set_solver)) as (d' & n' & j' & Hd' & Hn' & HL' & Hb' & _ & _ & Hm').
    { simpl. by rewrite lookup_insert_eq. }
    assert (d' = d) as -> by (pose proof (tdata_at s c tp d Hc Hd); congruence).
    assert (tdata s' c = Some (set_td_curr_ws_data (Some l) d)) as Hd8.
    { unfold s'. by rewrite (tdata_upd s c tp _ Hc). }
    exists (set_td_curr_ws_data (Some l) d), n', j'. split_and!; try done.
    intros _. exists wd, st, sk, j. unfold wdata. rewrite Hd8. simpl. split_and!; try done. congruence.
Qed.

(** The loop object and its nodes are created; [K] is the rest of the
    callback. *)
Lemma wp_new_loop G R s c n j lo up (K : positive → M unit) (Q : unit → state → Prop) :
  inv ∅ ∅ G R s → (next_id s + 2 < 2 ^ 63)%Z → points s (SCur c) = Some n → shared ∅ R s n →
  lab G n = pre G c ++ [j] →
  (∀ G' l s', inv ∅ ∅ G' R s' → new_loop G' R s' c j l → tasks s' = tasks s → task_ptr s' = task_ptr s →
     g_papiNumEvents s' = g_papiNumEvents s → (next_id s' ≤ next_id s + 2)%Z → wp (K l) Q s') →
  wp (l ← alloc;
      modify (fun s => set_worksharings (<[l := new_WorksharingData]> (worksharings s)) s);;
      start ← create_new_node env WS_TASK (Some n) true;
      modify_ws (Some l) (set_ws_start_node (Some start));;
      modify_node (Some start) (setLowerUpper lo up);;
      sink ← create_clean_node IMP_TASK true;
      modify_ws (Some l) (set_ws_sink_node (Some sink));;
      K l) Q s.
Proof.
  intros I Hid Pn Sn HL HQ. apply wp_bind, wp_alloc, wp_bind, wp_modify. set (l := next_loc s).
  assert (∀ c' td, tdata s c' = Some td → td_curr_ws_data td ≠ Some l) as Hun by (intros; by eapply next_loc_ws).
  lazymatch goal with |- wp _ _ ?st => set (s2 := st) end.
  assert (I2 : inv ∅ ∅ G R s2).
  { apply (inv_fresh_ws ∅ ∅ G R (set_next_loc (Pos.succ l) s)); [by apply inv_alloc|done|simpl; lia]. }
  apply wp_bind, (wp_create_new_node env ∅ ∅ G R s2 WS_TASK n ((pre G c ++ [j]) ++ [0])); [done|exact Sn|..].
  { apply (inv_live _ _ _ _ _ (SCur c) n I Pn). }
  { rewrite HL. apply lex_prefix. }
  { unfold s2. simpl. lia. }
  intros st s3 I3 GS3 Hfr Hunst Hlst _ _ _. pose proof GS3 as ((U1&U2&U3&U4&U5&U6&U7&U8&U9&U10) & LL3 & N3 & K3).
  unfold s2 in U1, U2, U6, U9, N3, LL3. simpl in U1, U2, U6, U9, N3, LL3.
  apply wp_bind. eapply (wp_modify_ws _ new_WorksharingData); [by rewrite U2, lookup_insert_eq|].
  lazymatch goal with |- wp _ _ ?stt => set (s4 := stt) end.
  assert (∀ c' td, tdata s3 c' = Some td → td_curr_ws_data td ≠ Some l) as Hun3.
  { intros c' td. unfold tdata. rewrite U6, U1. exact (Hun c' td). }
  assert (V4 : same_views s3 s4) by (by apply views_fresh_ws).
  assert (l < next_loc s3)%positive as Hlt3 by (unfold l; lia).
  assert (I4 : inv ∅ ∅ _ R s4) by (by apply inv_fresh_ws).
  apply wp_bind, (wp_modify_silent ∅ ∅ _ R s4 st _ none _ I4); [done|done|done|by intros ? []|].
  intros s5 I5 GS5 _. pose proof GS5 as (O5 & LL5 & N5 & K5). pose proof O5 as (V1&V2&V3&_&_&V6&_&_&V9&_).
  unfold s4 in V1, V2, V6, V9, N5, LL5. simpl in V1, V2, V6, V9, N5, LL5.
  apply wp_bind, (wp_create_clean_node ∅ ∅ _ R s5 IMP_TASK (pre G c ++ [S j]) _ I5); [lia|].
  intros sk s6 I6 GS6 Hfr6 Hunsk Hnsk. pose proof GS6 as (O6 & LL6 & N6 & K6). pose proof O6 as (W1&W2&W3&_&_&W6&_&_&W9&_).
  apply wp_bind. eapply wp_modify_ws; [by rewrite W2, V2, lookup_insert_eq|].
  assert (∀ c' td, tdata s6 c' = Some td → td_curr_ws_data td ≠ Some l) as Hun6.
  { intros c' td. unfold tdata. rewrite W6, W1, V6, V1. exact (Hun3 c' td). }
  lazymatch goal with |- wp _ _ ?stt => set (s7 := stt) end.
  assert (V7 : same_views s6 s7) by (by apply views_fresh_ws).
  assert (is_Some (nodes s5 !! st)) as Hlst5 by (by eapply gstep_live).
  assert (st ≠ sk) as Hne by (intros ->; rewrite Hfr6 in Hlst5; by destruct Hlst5).
  eapply HQ; [apply inv_fresh_ws; [exact I6|done|lia]| |unfold s7; st_simpl; congruence..|unfold s7; st_simpl; lia].
  eexists _, st, sk. unfold s7. st_simpl. cbn [lab pre set_lab]. rewrite lookup_insert_eq, fn_lookup_insert, fn_lookup_insert_ne, fn_lookup_insert by done.
  split_and!; try done; [lia|by eapply gstep_live|..|by rewrite <- app_assoc]; intros c' kk _ _ _; rewrite (points_views V7).
  - rewrite (points_same O6), (points_same O5), (points_views V4). apply Hunst.
  - apply Hunsk.
Qed.

Lemma safe_loop_begin G R s c lo up th k :
  inv ∅ ∅ G R s → (next_id s + 2 < 2 ^ 63)%Z → rt_tasks R !! c = Some k → idle k →
  wp (cb_ext_loop env ompt_scope_begin (Some c) lo up (Some th))
    (fun _ => good (set_rt_task c (touched (set_loop true k)) R) s) s.
Proof.
  intros I Hid Hk [Ho Hlate]. unfold cb_ext_loop. apply wp_bind, wp_task_cell, wp_bind, wp_thread_cell.
  destruct (inv_task_cell _ _ _ _ _ c k I Hk) as [tp Hc]. rewrite Hc.
  destruct (inv_task_at _ _ _ _ _ c tp I Hc) as (d & n & Hd & Hn & Hl & Htd & Pn).
  destruct (inv_tasks _ _ _ _ _ I c k ltac:(set_solver) Hk) as (d' & n' & j & Hd' & Hn' & HL & _). simplify_eq.
  pose proof (inv_touched _ _ _ _ _ c k I Hk Hlate) as I0. set (R0 := set_rt_task c (touched k) R) in *.
  apply wp_bind, wp_bind, (wp_load_task _ d); [done|]. rewrite Hn.
  apply wp_bind, (wp_add_time env ∅ ∅ G R0 s); [done|done|]. intros s1 I1 (O1 & LL1 & N1 & K1).
  pose proof O1 as (E1&E2&E3&E4&E5&E6&E7&E8&E9&E10).
  assert (points s1 (SCur c) = Some n) as Pn1 by (by rewrite (points_same O1)).
  apply (wp_new_loop G R0 s1 c n j); try done; [lia| |].
  { apply (shared_slot ∅ ∅ G R0 s1 (SCur c)); [done..|]. intros c' kk [= <-] _. simpl. rewrite lookup_insert_eq. by intros [= <-]. }
  intros G' l s' I' HN Et Etp En Ei. apply (wp_modify_task _ d); [by rewrite Et, E1|]. apply wp_skip.
  split; [|split; [st_simpl; lia|st_simpl; congruence]].
  exists G'. apply (inv_enter_loop G' R s' c tp d k l j); try done; congruence.
Qed.
End loops.

(** What the invariant says about a task inside a loop. *)
Lemma loop_at G R s c k :
  inv ∅ ∅ G R s → rt_tasks R !! c = Some k → rt_loop k = true →
  ∃ tp d w wd st sk i, task_ptr s !! c = Some tp ∧ tasks s !! tp = Some d ∧ tdata s c = Some d ∧
    td_curr_ws_data d = Some w ∧ worksharings s !! w = Some wd ∧ wdata s c = Some wd ∧
    ws_start_node wd = Some st ∧ ws_sink_node wd = Some sk ∧
    lab G st = pre G c ++ [i; 0] ∧ lab G sk = pre G c ++ [S i] ∧
    points s (SStart c) = Some st ∧ points s (SWsSink c) = Some sk.
Proof.
  intros I Hk Hlo. destruct (inv_task_cell _ _ _ _ _ c k I Hk) as [tp Hc].
  destruct (inv_task_at _ _ _ _ _ c tp I Hc) as (d & n & Hd & Hn & Hl & Htd & Pn).
  destruct (inv_tasks _ _ _ _ _ I c k ltac:(set_solver) Hk) as (d' & n' & j & _ & _ & _ & _ & Hlp & _).
  destruct (Hlp Hlo) as (wd & st & sk & i & Hw & Hst & Hsk & L1 & L2 & _).
  pose proof Hw as Hw'. unfold wdata in Hw'. rewrite Htd in Hw'. simpl in Hw'.
  destruct (td_curr_ws_data d) as [w|] eqn:Ew; [|done]. simpl in Hw'.
  exists tp, d, w, wd, st, sk, i. split_and!; try done; simpl; by rewrite Hw.
Qed.

Lemma thread_at G R s th :
  inv ∅ ∅ G R s → th ∈ rt_threads R → ∃ p es, thread_ptr s !! th = Some p ∧ threads s !! p = Some es.
Proof.
  intros I Hth. destruct (ob_thread R s (inv_objects _ _ _ _ _ I) th Hth) as [es Hes].
  unfold thdata in Hes. destruct (thread_ptr s !! th) as [p|] eqn:E; [|done]. by exists p, es.
Qed.

(** The loop counter of a thread. *)
Lemma inv_set_thread G R s p es es' :
  inv ∅ ∅ G R s → threads s !! p = Some es → inv ∅ ∅ G R (set_threads (<[p := es']> (threads s)) s).
Proof.
  intros I Hp. pose proof (inv_objects _ _ _ _ _ I) as OB.
  replace R with (set_rt_threads (rt_threads R) R) at 1 by (by destruct R).
  apply (inv_threads G R s); try done; st_simpl.
  - intros th Hth. destruct (thread_at G R s th I Hth) as (q & es0 & Hq & Hes0). exists q. split; [done|].
    rewrite lookup_insert. case_decide; [by eexists|by rewrite Hes0].
  - apply OB.
  - intros l. rewrite lookup_insert. case_decide; subst; [|apply OB]. intros _. apply (ob_threads_addr R s OB). by rewrite Hp.
Qed.

Section loop_end.
Context (env : Env).

(** The loop object of the task is gone. *)
Lemma inv_leave_loop G R s c k tp d w :
  inv ∅ ∅ G (set_rt_task c (touched k) R) s → task_ptr s !! c = Some tp → tasks s !! tp = Some d →
  td_curr_ws_data d = Some w →
  (∀ r rr, r ∉ (∅ : gset positive) → rt_regions R !! r = Some rr → rr_parent rr ≠ c) →
  inv ∅ ∅ G (set_rt_task c (touched (set_loop false k)) R)
    (set_tasks (<[tp := set_td_curr_ws_data None d]> (tasks s)) (set_worksharings (delete w (worksharings s)) s)).
Proof.
  intros I Hc Hd Hw Hnp. set (R0 := set_rt_task c (touched k) R) in *.
  assert (rt_tasks R0 !! c = Some (touched k)) as Hk0 by (simpl; by rewrite lookup_insert_eq).
  apply (inv_close_task ∅ ∅ _ _ _ c (touched (set_loop false k))).
  - rewrite union_empty_r_L. replace (set_rt_task c (touched (set_loop false k)) R) with
      (set_rt_task c (touched (set_loop false k)) R0) by (unfold R0, set_rt_task; simpl; by rewrite insert_insert_eq).
    apply (inv_rt_task _ _ _ _ _ c (touched k)); try done; [|set_solver].
    apply (inv_detach_ws G R0 s c tp d w); try done. by apply (inv_mono ∅ _ ∅); [|set_solver|].
  - simpl. by rewrite lookup_insert_eq.
  - destruct (inv_tasks _ _ _ _ _ I c (touched k) ltac:(set_solver) Hk0) as (d' & n' & j' & Hd' & Hn' & HL' & Hb' & _ & _ & Hm').
    assert (d' = d) as -> by (pose proof (tdata_at s c tp d Hc Hd); congruence).
    exists (set_td_curr_ws_data None d), n', j'. split_and!; try done.
    unfold tdata. st_simpl. rewrite Hc. simpl. by rewrite lookup_insert_eq.
Qed.

(** The rest of the callback, once the graph is done. *)
Lemma wp_leave_loop G R s c k tp d w sk i p es (Q : unit → state → Prop) :
  inv ∅ ∅ G (set_rt_task c (touched k) R) s → rt_kind k ≠ TLate →
  task_ptr s !! c = Some tp → tasks s !! tp = Some d → td_curr_ws_data d = Some w →
  points s (SWsSink c) = Some sk → lab G sk = pre G c ++ [S i] → threads s !! p = Some es →
  (∀ r rr, r ∉ (∅ : gset positive) → rt_regions R !! r = Some rr → rr_parent rr ≠ c) →
  (∀ s', inv ∅ ∅ G (set_rt_task c (touched (set_loop false k)) R) s' → (next_id s' ≤ next_id s)%Z →
     g_papiNumEvents s' = g_papiNumEvents s → Q tt s') →
  wp (modify_task (Some tp) (set_td_curr_task_node (Some sk));;
      set_last_time_now env (Some sk);;
      l ← lift (non_null (Some w));
      modify (fun s => set_worksharings (delete l (worksharings s)) s);;
      modify_task (Some tp) (set_td_curr_ws_data None);;
      modify_thread (Some p) (fun th => MkThread (u64 (th_loopCounter th + 1)) (th_papiEventset th))) Q s.
Proof.
  intros I Hlate Hc Hd Hw Psk Hlab Hes Hnp HQ. set (R0 := set_rt_task c (touched k) R) in *.
  apply wp_bind, (wp_modify_task _ d); [done|].
  set (d2 := set_td_curr_task_node (Some sk) d). set (s2 := set_tasks _ s).
  assert (is_Some (nodes s !! sk)) as Hlsk by (by eapply inv_live).
  assert (I2 : inv ∅ ∅ G R0 s2).
  { apply (inv_move_cur ∅ ∅ G R0 s c tp d (touched k) sk (S i)); try done.
    - simpl. by rewrite lookup_insert_eq.
    - by apply (shared_slot ∅ ∅ G R0 s (SWsSink c)). }
  apply wp_bind, (wp_set_last_time env ∅ ∅ G R0 s2); [done|done|].
  intros s3 I3 ((U1&U2&U3&U4&U5&U6&U7&U8&U9&U10) & LL3 & N3 & K3).
  unfold s2 in U1, U2, U4, U6, U9, N3. simpl in U1, U2, U4, U6, U9, N3.
  assert (task_ptr s3 !! c = Some tp) as Hc3 by congruence.
  assert (tasks s3 !! tp = Some d2) as Hd3 by (by rewrite U1, lookup_insert_eq).
  apply wp_bind, (wp_lift _ w); [done|]. apply wp_bind, wp_modify.
  apply wp_bind, (wp_modify_task _ d2); [done|].
  apply (wp_modify_thread _ es); [st_simpl; congruence|].
  apply HQ; [|st_simpl; lia|st_simpl; congruence].
  eapply inv_set_thread; [|st_simpl; rewrite U4; exact Hes]. exact (inv_leave_loop G R s3 c k tp d2 w I3 Hc3 Hd3 Hw Hnp).
Qed.

Lemma safe_loop_end G R s c lo up th k :
  inv ∅ ∅ G R s → papi_ok env (g_papiNumEvents s) → rt_tasks R !! c = Some k → idle k →
  rt_loop k = true → th ∈ rt_threads R →
  wp (cb_ext_loop env ompt_scope_end (Some c) lo up (Some th))
    (fun _ => good (set_rt_task c (touched (set_loop false k)) R) s) s.
Proof.
  intros I PO Hk [Ho Hlate] Hlo Hth. unfold cb_ext_loop. apply wp_bind, wp_task_cell, wp_bind, wp_thread_cell.
  apply wp_bind, wp_skip.
  destruct (thread_at G R s th I Hth) as (p & es & Hp & Hes). rewrite Hp.
  pose proof (inv_touched _ _ _ _ _ c k I Hk Hlate) as I0. set (R0 := set_rt_task c (touched k) R) in *.
  assert (rt_tasks R0 !! c = Some (touched k)) as Hk0 by (simpl; by rewrite lookup_insert_eq).
  destruct (loop_at G R0 s c (touched k) I0 Hk0 Hlo)
    as (tp & d & w & wd & st & sk & i & Hc & Hd & Htd & Hw & Hwd & Hwdata & Hst & Hsk & L1 & L2 & Pst & Psk).
  rewrite Hc, decide_True by done. apply wp_bind, (wp_load_task _ d); [done|]. rewrite Hw.
  apply wp_bind, (wp_load_ws _ wd); [done|]. rewrite Hst, Hsk.
  assert (∀ r rr, r ∉ (∅ : gset positive) → rt_regions R !! r = Some rr → rr_parent rr ≠ c) as Hnp.
  { intros r rr Hr Hrr. apply (not_parent ∅ ∅ G R s c r rr I); [done..|]. intros k' Hk'. congruence. }
  apply wp_bind.
  eapply (wp_mono _ (fun _ s1 => inv ∅ ∅ G R0 s1 ∧ gstep (fun _ => True) none 0 s s1)).
  2: { intros [] s1 (I1 & O1 & LL1 & N1 & _). pose proof O1 as (E1&E2&E3&E4&E5&E6&E7&E8&E9&E10).
    apply (wp_leave_loop G R s1 c k tp d w sk i p es); try done; try congruence.
    - by rewrite (points_same O1).
    - intros s' I' N' En. split; [by exists G|]. split; [lia|congruence]. }
  destruct (ws_last_chunk_node wd) as [x|] eqn:Hx.
  - rewrite bool_decide_true by (by eexists).
    apply (wp_stop_chunk env G R0 s c (touched k) wd x p es); try done.
    intros s1 I1 GS1. split; [done|]. by eapply gstep_mono; [..|exact GS1].
  - rewrite bool_decide_false by (by intros []).
    apply wp_bind, (wp_add_time env ∅ ∅ G R0 s); [done|by eapply inv_live|]. intros s1 I1 GS1.
    pose proof GS1 as (O1 & _). rewrite <- (points_same O1) in Pst, Psk.
    apply (wp_connect ∅ ∅ G R0 s1); try done; try by eapply inv_live.
    + by apply (shared_slot ∅ ∅ G R0 s1 (SStart c)).
    + by apply (shared_slot ∅ ∅ G R0 s1 (SWsSink c)).
    + rewrite L1, L2. apply lex_step. lia.
    + intros s2 I2 GS2 _. split; [done|].
      replace 0%Z with (0 + 0)%Z by done. eapply gstep_trans; (eapply gstep_mono; [..|eassumption]; done).
Qed.
End loop_end.

(** *** Chunks *)

Section chunk.
Context (env : Env).

(** The new chunk node and its own fields; [K] is the rest of the callback. *)
Lemma wp_chunk_node G R s st p es L (lower upper tid : Z) (K : positive → ThreadData → M unit) (Q : unit → state → Prop) :
  inv ∅ ∅ G R s → (next_id s + 2 < 2 ^ 63)%Z → shared ∅ R s st → is_Some (nodes s !! st) → lex (lab G st) L →
  threads s !! p = Some es →
  (∀ x s', inv ∅ ∅ (set_lab (<[x := L]> (lab G)) G) R s' → same_objects s s' → (next_id s' ≤ next_id s + 1)%Z →
     nodes s !! x = None → (∀ kk, points s' kk ≠ Some x) → is_Some (nodes s' !! x) →
     (∀ nd, nodes s' !! x = Some nd → _papiValsArr nd = None) → wp (K x es) Q s') →
  wp (chunk_node ← create_new_node env CHUNK_TASK (Some st) true;
      modify_node (Some chunk_node) (setLowerUpper lower upper);;
      th ← load_thread (Some p);
      modify_node (Some chunk_node) (setLoopCounter (th_loopCounter th));;
      modify_node (Some chunk_node) (setThreadId tid);;
      K chunk_node th) Q s.
Proof.
  intros I Hid Sst Hst HL Hp HQ.
  apply wp_bind, (wp_create_new_node env ∅ ∅ G R s CHUNK_TASK st L); [done..|lia|].
  intros x s1 I1 GS1 Hfr Hun Hlx _ _ Hpx. set (G1 := set_lab (<[x := L]> (lab G)) G) in *.
  apply wp_bind, (wp_modify_silent ∅ ∅ G1 R s1 x _ none); [done|done|done|done|by intros ? []|].
  intros s2 I2 GS2 _. pose proof GS1 as (O1 & _ & N1 & _). pose proof GS2 as (O2 & _).
  apply wp_bind, (wp_load_thread _ es); [destruct O1 as (?&?&?&?&_), O2 as (?&?&?&?&_); congruence|].
  assert (is_Some (nodes s2 !! x)) as Hl2 by (by eapply gstep_live).
  apply wp_bind, (wp_modify_silent ∅ ∅ G1 R s2 x _ none); [done|done|done|done|by intros ? []|].
  intros s3 I3 GS3 _. assert (is_Some (nodes s3 !! x)) as Hl3 by (by eapply gstep_live).
  apply wp_bind, (wp_modify_silent ∅ ∅ G1 R s3 x _ none); [done|done|done|done|by intros ? []|].
  intros s4 I4 GS4 _.
  assert (GS14 : gstep none none (0 + (0 + 0)) s1 s4) by (eapply gstep_trans; [done|by eapply gstep_trans]).
  pose proof GS14 as (O14 & _ & N14 & K14).
  apply HQ; try done; [by eapply same_objects_trans|lia| |by eapply gstep_live|].
  - intros kk. rewrite (points_same O14). apply Hun.
  - intros nd Hnd. destruct Hlx as [n1 Hn1]. destruct (K14 x n1 Hn1) as (n4 & Hn4 & P4 & _).
    assert (n4 = nd) as -> by congruence. apply (fmap_None length). rewrite P4 by (by intros []). by rewrite (Hpx n1 Hn1).
Qed.

(** The array of a chunk node that had none fits the events. *)
Lemma initPapiVals_ready num n :
  (0 ≤ num)%Z → _papiValsArr n = None →
  papi_ready num (setPapi num (if (0 <? num)%Z then Some (replicate (Z.to_nat num) 0%Z) else _papiValsArr n) n).
Proof.
  intros H0 Hn. unfold papi_ready. simpl. rewrite Hn.
  destruct (Z.ltb_spec 0 num); simpl; [rewrite length_replicate|]; lia.
Qed.

Section attach.
Context (G : ghost) (R : rt) (s : state) (c w x st sk : positive) (k : rtask) (d : TaskData) (wd : WorksharingData) (i : nat).
Context (I : inv ∅ ∅ G R s) (Hk : rt_tasks R !! c = Some k).
Context (Hd : tdata s c = Some d) (Hw : td_curr_ws_data d = Some w).
Context (Hwd : worksharings s !! w = Some wd) (Hst : ws_start_node wd = Some st) (Hsk : ws_sink_node wd = Some sk).
Context (L1 : lab G st = pre G c ++ [i; 0]) (L2 : lab G sk = pre G c ++ [S i]) (Lx : lab G x = pre G c ++ [i; 1]).
Context (Hun : ∀ kk, points s kk ≠ Some x) (Hlx : is_Some (nodes s !! x)).
Context (Hpx : ∀ nd, nodes s !! x = Some nd → _papiValsArr nd = None).
Abbreviation wd' := (set_ws_last_chunk_node (Some x) wd).
Abbreviation s' := (set_worksharings (<[w := wd']> (worksharings s)) s).

(** The chunk becomes the last chunk of the loop. *)
Lemma inv_attach_chunk : inv {[c]} ∅ G R s'.
Proof.
  apply (inv_set_ws _ _ _ _ _ c w d wd); try done.
  - by apply (inv_mono ∅ _ ∅); [|set_solver|].
  - set_solver.
  - intros y [= <-]. split; [done|by apply shared_unknown].
Qed.

Lemma points_attach kk : kk ≠ SLast c → points s' kk = points s kk.
Proof.
  intros Hkk. destruct kk as [c'|c'|c'|c'|c'|c'| | |]; try done; cbn [points];
    (destruct (decide (c' = c)) as [->|Hne];
     [|rewrite (wdata_ws_ne R s c w d wd'); [done|apply I|done..]]); try done;
    rewrite (wdata_ws s c w d wd' Hd Hw), (wdata_at s c w d wd Hd Hw Hwd); done.
Qed.

Lemma attach_last : points s' (SLast c) = Some x.
Proof. simpl. by rewrite (wdata_ws s c w d wd' Hd Hw). Qed.

Lemma attach_sink : points s' (SWsSink c) = Some sk.
Proof. simpl. by rewrite (wdata_ws s c w d wd' Hd Hw). Qed.

(** The task after the last steps of the callback. *)
Lemma task_ok_chunk E P s7 :
  same_objects s' s7 → keeps E P (nodes s) (nodes s7) → (∀ y, E y → y = x ∨ y = sk) →
  (∀ m, nodes s7 !! x = Some m → papi_ready (g_papiNumEvents s) m) → task_ok G R s7 c k.
Proof.
  intros O K HE HP.
  destruct (inv_tasks _ _ _ _ _ I c k ltac:(set_solver) Hk) as (d' & n & j & Hd' & Hn & HL & Hb & _ & Hf & Hm).
  assert (d' = d) as -> by congruence. pose proof (same_objects_views _ _ O) as V. pose proof O as (_&_&_&_&_&_&_&_&O9&_).
  exists d, n, j. rewrite (tdata_same V). split_and!; try done.
  - intros _. exists wd', st, sk, i. rewrite (wdata_same V), (wdata_ws s c w d wd' Hd Hw).
    split_and!; try done. intros y m [= <-] Hm'. rewrite O9. by apply HP.
  - intros Hfr. destruct (Hf Hfr) as (b & Hbar & Q1 & Q2 & Q3). exists b. split; [done|].
    assert (points s (SCur c) = Some n) as Pn by (simpl; by rewrite Hd).
    assert (is_Some (nodes s !! n)) as Hln by (by eapply inv_live).
    destruct (keeps_edges _ _ _ _ n K Hln) as [X1 X2].
    { intros [->| ->]%HE; [by apply (Hun (SCur c))|].
      assert (points s (SWsSink c) = Some sk) as HX%Q3; [|done]. by rewrite <- points_attach, attach_sink. }
    unfold private. rewrite X1, X2. split_and!; try done. intros kk. rewrite (points_same O). intros Hkk.
    destruct (decide (kk = SLast c)) as [->|Hne].
    + rewrite attach_last in Hkk. injection Hkk as <-. by destruct (Hun (SCur c)).
    + rewrite points_attach in Hkk by done. by apply Q3.
  - destruct (rt_kind k); try done. destruct Hm as (rr & rd & m & HREST). exists rr, rd, m.
    by rewrite (rdata_same V).
Qed.

(** The chunk is connected to the end of the loop and its counters start. *)
Lemma wp_attach_chunk es (Q : unit → state → Prop) :
  (∀ s7, inv ∅ ∅ G R s7 → (next_id s7 ≤ next_id s)%Z → g_papiNumEvents s7 = g_papiNumEvents s → Q tt s7) →
  wp (modify_ws (Some w) (set_ws_last_chunk_node (Some x));;
      Graph_connectNodes (Some x) (Some sk);;
      num ← read g_papiNumEvents;
      initPapiVals (Some x) num;;
      startPapiCounters (Some x) es) Q s.
Proof.
  intros HQ. apply wp_bind, (wp_modify_ws _ wd); [done|]. pose proof inv_attach_chunk as I5.
  apply wp_bind, (wp_connect {[c]} ∅ G R s'); try done.
  { apply (shared_slot {[c]} ∅ G R s' (SLast c)); [done|apply attach_last|done]. }
  { apply (shared_slot {[c]} ∅ G R s' (SWsSink c)); [done|apply attach_sink|done]. }
  { eapply (inv_live _ _ _ _ _ (SWsSink c)); [exact I5|apply attach_sink]. }
  { rewrite Lx, L2. apply lex_step. lia. }
  intros s6 I6 GS6 _. pose proof GS6 as (O6 & LL6 & N6 & K6). pose proof O6 as (_&_&_&_&_&_&_&_&U9&_).
  apply wp_bind, wp_read. unfold initPapiVals.
  assert (is_Some (nodes s6 !! x)) as [n6 Hn6] by (by eapply gstep_live).
  apply wp_bind, (wp_modify_silent {[c]} ∅ G R s6 x _ (eq x)); [done|by eexists|by intros m; split_and!|by intros []| |].
  { intros y <- c' Hc'. rewrite (points_same O6), points_attach by set_solver. apply Hun. }
  intros s7 I7 GS7 Hn7. specialize (Hn7 n6 Hn6). pose proof GS7 as (O7 & LL7 & N7 & K7). pose proof O7 as (_&_&_&_&_&_&_&_&V9&_).
  assert (g_papiNumEvents s6 = g_papiNumEvents s) as Enum by exact U9.
  apply wp_bind, wp_tick, wp_skip. apply HQ; [|simpl in *; lia|simpl; congruence].
  apply inv_tick, (inv_close_task ∅ ∅ _ _ _ c k); [by rewrite union_empty_r_L|done|].
  apply (task_ok_chunk (fun y => y = x ∨ y = sk) (eq x)); [by eapply same_objects_trans| |done|].
  - eapply keeps_trans; (eapply keeps_mono; [..|eassumption]); try done; intros ? [].
  - intros m Hm. rewrite Hn7 in Hm. injection Hm as <-. rewrite Enum. apply initPapiVals_ready.
    + rewrite (ob_papi R s); [lia|apply I].
    + destruct Hlx as [n4 Hn4]. destruct (K6 x n4 Hn4) as (n6' & Hn6' & P6 & _).
      assert (n6' = n6) as -> by congruence. apply (fmap_None length). rewrite P6 by (by intros []). by rewrite (Hpx n4 Hn4).
Qed.
End attach.

(** The new chunk of a loop. *)
Lemma wp_new_chunk G R s c k st sk i (lower upper tid : Z) (w : positive) (wd : WorksharingData) d p es
    (Q : unit → state → Prop) :
  inv ∅ ∅ G R s → (next_id s + 2 < 2 ^ 63)%Z → rt_tasks R !! c = Some k →
  tdata s c = Some d → td_curr_ws_data d = Some w →
  worksharings s !! w = Some wd → ws_start_node wd = Some st → ws_sink_node wd = Some sk →
  lab G st = pre G c ++ [i; 0] → lab G sk = pre G c ++ [S i] →
  threads s !! p = Some es →
  (∀ s', (∃ G', inv ∅ ∅ G' R s') → (next_id s' ≤ next_id s + 1)%Z →
     g_papiNumEvents s' = g_papiNumEvents s → Q tt s') →
  wp (chunk_node ← create_new_node env CHUNK_TASK (Some st) true;
      modify_node (Some chunk_node) (setLowerUpper lower upper);;
      th ← load_thread (Some p);
      modify_node (Some chunk_node) (setLoopCounter (th_loopCounter th));;
      modify_node (Some chunk_node) (setThreadId tid);;
      modify_ws (Some w) (set_ws_last_chunk_node (Some chunk_node));;
      Graph_connectNodes (Some chunk_node) (Some sk);;
      num ← read g_papiNumEvents;
      initPapiVals (Some chunk_node) num;;
      startPapiCounters (Some chunk_node) (th_papiEventset th)) Q s.
Proof.
  intros I Hid Hk Htd Hw Hwd Hst Hsk L1 L2 Hp HQ.
  assert (wdata s c = Some wd) as Hwda by (by apply (wdata_at s c w d wd)).
  assert (points s (SStart c) = Some st) as Pst by (simpl; by rewrite Hwda).
  assert (points s (SWsSink c) = Some sk) as Psk by (simpl; by rewrite Hwda).
  assert (is_Some (nodes s !! st)) as [nst Hlst] by (by eapply inv_live).
  assert (is_Some (nodes s !! sk)) as [nsk Hlsk] by (by eapply inv_live).
  apply (wp_chunk_node G R s st p es (pre G c ++ [i; 1])); try done.
  { by apply (shared_slot ∅ ∅ G R s (SStart c)). }
  { rewrite L1. apply lex_app, lex_tail, lex_head. lia. }
  intros x s1 I1 O1 N1 Hfr Hun Hlx Hpx. pose proof O1 as (_&E2&_&_&_&_&_&_&E9&_).
  apply (wp_attach_chunk _ R s1 c w x st sk k d wd i I1); try done; simpl.
  - by rewrite (tdata_same (same_objects_views _ _ O1)).
  - by rewrite E2.
  - rewrite fn_lookup_insert_ne; [done|]. intros <-. congruence.
  - rewrite fn_lookup_insert_ne; [done|]. intros <-. congruence.
  - by rewrite fn_lookup_insert.
  - intros s7 I7 N7 En. apply HQ; [eauto|lia|congruence].
Qed.
End chunk.

Section chunk_callback.
Context (env : Env).

Lemma safe_chunk G R s c lo up last th k :
  inv ∅ ∅ G R s → papi_ok env (g_papiNumEvents s) → (next_id s + 2 < 2 ^ 63)%Z →
  rt_tasks R !! c = Some k → rt_loop k = true → th ∈ rt_threads R →
  wp (cb_ext_chunk env (Some c) lo up last (Some th)) (fun _ => good R s) s.
Proof.
  intros I PO Hid Hk Hlo Hth. unfold cb_ext_chunk. apply wp_bind, wp_task_cell, wp_bind, wp_thread_cell.
  destruct (thread_at G R s th I Hth) as (p & es & Hp & Hes). rewrite Hp.
  destruct (loop_at G R s c k I Hk Hlo)
    as (tp & d & w & wd & st & sk & i & Hc & Hd & Htd & Hw & Hwd & Hwdata & Hst & Hsk & L1 & L2 & Pst & Psk).
  rewrite Hc. apply wp_bind, (wp_load_task _ d); [done|]. rewrite Hw.
  apply wp_bind, (wp_load_ws _ wd); [done|]. rewrite Hst, Hsk.
  assert (∀ s1, inv ∅ ∅ G R s1 → gstep none none 0 s s1 →
    wp (if last then skip
        else
          chunk_node ← create_new_node env CHUNK_TASK (Some st) true;
          modify_node (Some chunk_node) (setLowerUpper lo up);;
          th ← load_thread (Some p);
          modify_node (Some chunk_node) (setLoopCounter (th_loopCounter th));;
          modify_node (Some chunk_node) (setThreadId (td_threadNum d));;
          modify_ws (Some w) (set_ws_last_chunk_node (Some chunk_node));;
          Graph_connectNodes (Some chunk_node) (Some sk);;
          num ← read g_papiNumEvents;
          initPapiVals (Some chunk_node) num;;
          startPapiCounters (Some chunk_node) (th_papiEventset th)) (fun _ => good R s) s1) as HREST.
  { intros s1 I1 GS1. pose proof GS1 as (O1 & LL1 & N1 & _).
    pose proof O1 as (E1&E2&E3&E4&E5&E6&E7&E8&E9&E10).
    destruct last; [by apply wp_skip, (good_gstep none none 0 G)|].
    apply (wp_new_chunk env G R s1 c k st sk i lo up (td_threadNum d) w wd d p es);
      try done; try congruence; [lia|by rewrite (tdata_same (same_objects_views _ _ O1))|].
    intros s2 I2 N2 En. split; [done|]. split; [lia|congruence]. }
  apply wp_bind. destruct (ws_last_chunk_node wd) as [x|] eqn:Hx.
  - rewrite bool_decide_true by (by eexists). destruct last.
    + apply wp_skip, HREST; [done|]. split_and!; try done; [lia|apply keeps_refl].
    + by apply (wp_stop_chunk env G R s c k wd x p es).
  - rewrite bool_decide_false by (by intros []).
    apply (wp_add_time env ∅ ∅ G R s); [done|by eapply inv_live|]. done.
Qed.

End chunk_callback.
