(* ===== verification/Safety.v ===== *)
(** * Safety of the callbacks

    The main theorems about the graph that a run builds: every sequence of
    callbacks that the protocol allows runs without undefined behaviour, and
    the graph it leaves is well-formed, indexed by its table and acyclic. *)
From stdpp Require Import base numbers gmap list sorting relations functions.
From Stdlib Require Import ZArith Lia.
From S2P Require Import Prelude Float64 Graph Dag TopoSort CriticalPath Callbacks Protocol Invariant Objects.
From S2P Require Import SafeTasks SafeRegions SafeBarriers SafeLoops.

Section all.
Context (env : Env).
(** ** All callbacks *)

(** Every callback the protocol allows returns and keeps the invariant. *)
Lemma safe_event G R R' s e :
  inv ∅ ∅ G R s → papi_ok env (g_papiNumEvents s) → (next_id s + 2 < 2 ^ 63)%Z → rt_step R e = Some R' →
  wp (run_event env e) (fun _ => good R' s) s.
Proof.
  intros I PO Hid.
  destruct e as [[th|]|[th|]|[] [r|] [c|] ts tn|[p|] [r|] n|[r|]|[p|] [c|] []|[c1|] [c2|]|? ?|? ?|? ? ? ?
    |[] [] [r|] [c|]|[] [c|] lo up [th|]|[c|] lo up last [th|]];
    cbn [rt_step run_event]; intros HR; try discriminate HR;
    try (injection HR as <-; by eapply wp_skip, good_refl);
    try (injection HR as <-; by eapply safe_sync_other).
  all: repeat match goal with
  | H : (_ ≫= _) = Some _ |- _ => apply bind_Some in H as (? & ? & H)
  | H : (if decide _ then _ else _) = Some _ |- _ => case_decide; [|discriminate H]
  | H : Some _ = Some _ |- _ => injection H as <-
  | H : _ ∧ _ |- _ => destruct H
  end.
  all: first
    [ by eapply safe_thread_begin | by eapply safe_thread_end | by eapply safe_implicit_begin
    | by eapply safe_implicit_end | by eapply safe_parallel_begin | by eapply safe_parallel_end
    | by eapply safe_task_initial | by eapply safe_task_explicit | by eapply safe_task_schedule
    | by eapply safe_barrier_begin | by eapply safe_barrier_end | by eapply safe_loop_begin
    | by eapply safe_loop_end | by eapply safe_chunk | idtac ].
Qed.

Lemma safe_run G R R' s es :
  inv ∅ ∅ G R s → papi_ok env (g_papiNumEvents s) → rt_run R es = Some R' →
  (next_id s + 2 * Z.of_nat (length es) < 2 ^ 63)%Z →
  wp (run env es) (fun _ s' => ∃ G', inv ∅ ∅ G' R' s') s.
Proof.
  revert G R s. induction es as [|e es IH]; intros G R s I PO HR Hid; cbn [run rt_run] in *.
  - injection HR as <-. apply wp_skip. eauto.
  - apply bind_Some in HR as (R1 & HR1 & HR). cbn [length] in Hid.
    apply wp_bind. eapply wp_mono; [apply (safe_event G R R1 s e I PO); [lia|done]|].
    intros [] s1 ([G1 I1] & N1 & E1). apply (IH G1 R1); [done|by rewrite E1|done|lia].
Qed.
End all.

Definition ghost0 : ghost := MkGhost (fun _ => []) (fun _ => []) (fun _ => []).

Lemma wf_empty : wf ∅.
Proof. by split; intros *; rewrite ?elem_of_nil; try constructor. Qed.

Lemma inv_init evts : inv ∅ ∅ ghost0 rt_init (init_state evts).
Proof.
  split.
  - split; try done.
    + apply wf_empty.
    + intros id l. split; [done|]. by intros (n & ? & _).
    + intros l [? ?]. done.
    + intros u v He. by apply elem_of_nil in He.
  - split; try done; try (by intros ? []); simpl; try (intros; by split; intros []).
    + intros k x. by destruct k.
  - by intros c k _ ?.
  - by intros r rr _ ?.
Qed.

(** A run that the runtime may produce, and what it leaves. *)
Lemma run_inv_exists env evts es R :
  papi_ok env (Z.of_nat (length evts)) → rt_run rt_init es = Some R → (Z.of_nat (length es) < 2 ^ 61)%Z →
  ∃ s G, run env es (init_state evts) = Ok (tt, s) ∧ inv ∅ ∅ G R s.
Proof.
  intros PO HR Hlen.
  destruct (safe_run env ghost0 rt_init R (init_state evts) es) as ([] & s & E & G & I);
    [apply inv_init|done|done|simpl; lia|]. eauto.
Qed.

Lemma inv_acyclic X Y G R s : inv X Y G R s → acyclic (edge (nodes s)).
Proof.
  intros [GI _ _ _]. apply (acyclic_order _ lex (lab G)); [apply lex_irrefl|apply lex_trans|apply GI].
Qed.

Lemma inv_unsorted X Y G R s : inv X Y G R s → unsorted (nodes s).
Proof. intros [GI _ _ _] l n Hn. by destruct (gi_clean _ _ _ GI l n Hn) as (? & ? & _). Qed.

Lemma inv_unscanned X Y G R s : inv X Y G R s → unscanned (nodes s).
Proof. intros [GI _ _ _] l n Hn. by destruct (gi_clean _ _ _ GI l n Hn) as (_ & _ & ? & ? & ? & _). Qed.

#[export] Instance edge_dec h u v : Decision (edge h u v).
Proof. unfold edge. apply _. Defined.

(** ** A sample run *)

(** A clock that ticks once per call, and PAPI with one counter. *)
Definition sample_env : Env :=
  MkEnv (fun k => d_of_Z (Z.of_nat k)) (fun _ => (PAPI_OK, 7%Z)) (fun _ _ _ => PAPI_OK)
    (fun _ _ => PAPI_OK) (fun _ _ => PAPI_OK) (fun _ _ => [5%Z]).

Lemma sample_papi : papi_ok sample_env 1.
Proof. by split. Qed.

(** A team of two with a loop, chunks, an explicit task and the final barrier;
    the second thread reports its end after the end of the region. *)
Definition sample_trace : list event := Eval cbv in
  let c (n : positive) := Some n in [
  ThreadBegin (c 1); TaskCreate None (c 10) ompt_task_initial;
  ParallelBegin (c 10) (c 20) 2; ThreadBegin (c 2);
  ImplicitTask ompt_scope_begin (c 20) (c 11) 2 0;
  ExtLoop ompt_scope_begin (c 11) 0 9 (c 1);
  ExtChunk (c 11) 0 4 false (c 1);
  ImplicitTask ompt_scope_begin (c 20) (c 12) 2 1;
  ExtLoop ompt_scope_begin (c 12) 0 9 (c 2);
  ExtChunk (c 11) 5 9 false (c 1);
  ExtChunk (c 11) 5 9 true (c 1);
  ExtLoop ompt_scope_end (c 12) 0 9 (c 2);
  ExtLoop ompt_scope_end (c 11) 0 9 (c 1);
  TaskCreate (c 12) (c 13) ompt_task_explicit;
  SyncRegion ompt_sync_region_barrier ompt_scope_begin (c 20) (c 11);
  SyncRegion ompt_sync_region_barrier ompt_scope_begin (c 20) (c 12);
  TaskSchedule (c 12) (c 13);
  SyncRegion ompt_sync_region_barrier ompt_scope_end (c 20) (c 11);
  ImplicitTask ompt_scope_end None (c 11) 2 0;
  ParallelEnd (c 20);
  SyncRegion ompt_sync_region_barrier ompt_scope_end (c 20) (c 12);
  ImplicitTask ompt_scope_end None (c 12) 2 1;
  ThreadEnd (c 2)]%positive.

Lemma sample_allowed : ∃ R, rt_run rt_init sample_trace = Some R.
Proof. vm_compute. by eexists. Qed.

(** ** Properties *)

(** C2. No run that the runtime may produce leads the callbacks into undefined
    behaviour: with a working PAPI every sequence of callbacks that the
    protocol allows returns; afterwards the graph is well-formed, and the node
    table holds exactly the live nodes, each under its own id. *)
Theorem callbacks_safe env evts es R :
  papi_ok env (Z.of_nat (length evts)) → rt_run rt_init es = Some R → (Z.of_nat (length es) < 2 ^ 61)%Z →
  ∃ s, run env es (init_state evts) = Ok (tt, s) ∧ wf (nodes s) ∧ table_ok (nodes s) (g_tdg s).
Proof.
  intros PO HR Hlen. destruct (run_inv_exists env evts es R PO HR Hlen) as (s & G & E & I).
  exists s. split; [done|]. split; apply I.
Qed.

Lemma callbacks_safe_witness :
  ∃ s, run sample_env sample_trace (init_state [99%Z]) = Ok (tt, s) ∧ wf (nodes s).
Proof.
  destruct sample_allowed as [R HR].
  destruct (callbacks_safe sample_env [99%Z] sample_trace R) as (s & E & W & _).
  - exact sample_papi.
  - exact HR.
  - vm_compute. reflexivity.
  - exists s. split; [exact E|exact W].
Defined.

(** C3. With a working PAPI, every sequence of fewer than 2^61 callbacks that the
    protocol allows, which includes that every team is as large as requested,
    leaves an acyclic graph.  (What a smaller team does is in [ShortTeam].) *)
Theorem callbacks_acyclic env evts es R :
  papi_ok env (Z.of_nat (length evts)) → rt_run rt_init es = Some R → (Z.of_nat (length es) < 2 ^ 61)%Z →
  ∃ s, run env es (init_state evts) = Ok (tt, s) ∧ acyclic (edge (nodes s)).
Proof.
  intros PO HR Hlen. destruct (run_inv_exists env evts es R PO HR Hlen) as (s & G & E & I).
  exists s. split; [done|]. by eapply inv_acyclic.
Qed.

Lemma callbacks_acyclic_witness :
  ∃ s, run sample_env sample_trace (init_state [99%Z]) = Ok (tt, s) ∧ acyclic (edge (nodes s)).
Proof.
  destruct sample_allowed as [R HR].
  apply (callbacks_acyclic sample_env [99%Z] sample_trace R).
  - exact sample_papi.
  - exact HR.
  - vm_compute. reflexivity.
Defined.

(** From the first callback to the sorted graph: after a run that the
    runtime may produce, [topoSort] returns every node once, sources of edges
    before their targets, and [Graph::~Graph] frees every node. *)
Theorem callbacks_topoSort env evts es R :
  papi_ok env (Z.of_nat (length evts)) → rt_run rt_init es = Some R → (Z.of_nat (length es) < 2 ^ 61)%Z →
  ∃ s, run env es (init_state evts) = Ok (tt, s) ∧ delete_Graph (nodes s) (g_tdg s) = Ok ∅ ∧
    ((Z.of_nat (size (nodes s)) ≤ INT_MAX)%Z →
     ∃ h' l, topoSort (nodes s) (g_tdg s) = Ok (h', l) ∧ NoDup l ∧
       (∀ x, x ∈ l ↔ is_Some (nodes s !! x)) ∧ topo_sorted (edge (nodes s)) l).
Proof.
  intros PO HR Hlen. destruct (run_inv_exists env evts es R PO HR Hlen) as (s & G & E & I).
  pose proof (inv_graph _ _ _ _ _ I) as GI.
  exists s. split; [done|]. split.
  - apply delete_nodes_all; [by eapply nodes_in_order_NoDup, GI|]. intros l. apply nodes_in_order_live, GI.
  - intros Hsz. destruct (topoSort_run (nodes s) (g_tdg s)) as (tl & l & Et & Hnd & Hl & ? & ? & ? & Ht & _);
      [apply GI|apply GI|by eapply inv_unsorted|done|].
    exists (levelled (nodes s) tl), l. split_and!; try done.
    apply (level_sorted_topo (nodes s) (gi_wf _ _ _ GI) tl); try done. apply Ht. by eapply inv_acyclic.
Qed.

Lemma callbacks_topoSort_witness :
  ∃ s, run sample_env sample_trace (init_state [99%Z]) = Ok (tt, s) ∧ delete_Graph (nodes s) (g_tdg s) = Ok ∅.
Proof.
  destruct sample_allowed as [R HR].
  destruct (callbacks_topoSort sample_env [99%Z] sample_trace R) as (s & E & D & _).
  - exact sample_papi.
  - exact HR.
  - vm_compute. reflexivity.
  - exists s. split; [exact E|exact D].
Defined.

(** C10. The barrier counter implements the barrier of the runtime: while a
    team of more than one thread is open, [_barrier_cnt] is the number of tasks
    that wait at the current barrier, it is smaller than the team, and when it
    is not zero the region points to a live barrier node. *)
Theorem barrier_counter_refines env evts es R r rr :
  papi_ok env (Z.of_nat (length evts)) → rt_run rt_init es = Some R → (Z.of_nat (length es) < 2 ^ 61)%Z →
  rt_regions R !! r = Some rr → (1 < rr_size rr)%Z →
  ∃ s p d, run env es (init_state evts) = Ok (tt, s) ∧
    region_ptr s !! r = Some p ∧ regions s !! p = Some d ∧
    pr_team_size d = rr_size rr ∧ pr_barrier_cnt d = Z.of_nat (size (rr_arrived rr)) ∧
    (0 ≤ pr_barrier_cnt d < pr_team_size d)%Z ∧
    (pr_barrier_cnt d ≠ 0%Z → ∃ b, pr_curr_barrier_node d = Some b ∧ is_Some (nodes s !! b)).
Proof.
  intros PO HR Hlen Hrr Hsz. destruct (run_inv_exists env evts es R PO HR Hlen) as (s & G & E & I).
  destruct (inv_region_cell _ _ _ _ _ r rr I Hrr) as (p & d & Hp & Hd & Hrd).
  destruct (inv_regions _ _ _ _ _ I r rr ltac:(set_solver) Hrr)
    as (d' & kp & dp & np & sk & j & Hrd' & _ & _ & _ & _ & _ & _ & _ & _ & _ & _ & T1 & T2 & T3 & T4 & T5).
  assert (d' = d) as -> by congruence. exists s, p, d. split_and!; try done; try lia.
  intros Hc. destruct T5 as (b & Hb & _); [intros Ea; rewrite Ea in T3; by rewrite T3 in Hc|].
  exists b. split; [done|]. apply (inv_live _ _ _ _ _ (RBar r) b I). simpl. by rewrite Hrd.
Qed.

Lemma barrier_counter_refines_witness :
  ∃ s p d, run sample_env (take 15 sample_trace) (init_state [99%Z]) = Ok (tt, s) ∧
    region_ptr s !! 20%positive = Some p ∧ regions s !! p = Some d ∧ pr_barrier_cnt d = 1%Z.
Proof.
  destruct (barrier_counter_refines sample_env [99%Z] (take 15 sample_trace)
    (default rt_init (rt_run rt_init (take 15 sample_trace))) 20 (MkRRegion 10 2 0 {[11%positive]}))
    as (s & p & d & E & H1 & H2 & _ & H3 & _).
  - exact sample_papi.
  - vm_compute. reflexivity.
  - vm_compute. reflexivity.
  - vm_compute. reflexivity.
  - vm_compute. reflexivity.
  - exists s, p, d. split; [exact E|]. split; [exact H1|]. split; [exact H2|exact H3].
Defined.
