(* ===== verification/Init.v ===== *)
(** * Starting and ending the tool (init.cc)

    [init_libtdg] registers the callbacks and configures PAPI from the variable
    [TDG_PAPI_METRICS]; [finalize_libtdg] closes the last task, runs the
    metrics that [TDG_TOOL_METRICS] names and frees the graph.  A string is the
    list of its characters; a metric pointer that was never assigned is [None];
    the messages on standard error and the tracing output are left out. *)
From stdpp Require Import base numbers gmap list sorting strings.
From Stdlib Require Import ZArith Lia Ascii.
From S2P Require Import Prelude Float64 Timer Graph Dag TopoSort CriticalPath Stats Output Callbacks.

(** ** Strings *)

Abbreviation str := (list ascii).

Definition comma : ascii := ",".

(** [std::string::npos]. *)
Definition npos : Z := 2 ^ 64 - 1.

Fixpoint index_of (c : ascii) (s : str) : option nat :=
  match s with
  | [] => None
  | a :: s' => if decide (a = c) then Some 0 else S <$> index_of c s'
  end.

(** [s.find( c, pos )]. *)
Definition str_find (s : str) (c : ascii) (pos : Z) : Z :=
  if (pos <=? Z.of_nat (length s))%Z then
    match index_of c (drop (Z.to_nat pos) s) with
    | Some k => (pos + Z.of_nat k)%Z
    | None => npos
    end
  else npos.

(** [s.substr( pos, len )]; a position beyond the end throws [std::out_of_range],
    which nothing catches. *)
Definition substr (s : str) (pos len : Z) : res str :=
  if (pos <=? Z.of_nat (length s))%Z then
    Ok (take (Z.to_nat (Z.min len (Z.of_nat (length s) - pos))) (drop (Z.to_nat pos) s))
  else UB OutOfRange.

(** [std::count]. *)
Definition str_count (s : str) (c : ascii) : nat := length (filter (fun a => a = c) s).

(** The loop of [parse_tokens]: [n] iterations are left, [i] is an [int]. *)
Fixpoint token_loop (n : nat) (i : Z) (env_str : str) (last_pos : Z) (tokens_v : list str)
  : res (list str) :=
  match n with
  | O => Ok tokens_v
  | S n' =>
      let curr_pos := str_find env_str comma last_pos in
      token ← substr env_str last_pos
        (if decide (curr_pos = npos) then npos else u64 (curr_pos - last_pos));
      let last_pos := u64 (curr_pos + 1) in
      i ← int_add i 1;
      token_loop n' i env_str last_pos (tokens_v ++ [token])
  end.

Definition parse_tokens (env_var : option str) : res (list str) :=
  match env_var with
  | None => Ok []
  | Some env_str =>
      let num_tokens :=
        if decide (0 < length env_str) then u32 (Z.of_nat (str_count env_str comma) + 1) else 0%Z in
      token_loop (Z.to_nat num_tokens) 0 env_str 0 []
  end.

(** ** Initialisation *)

(** The answers of PAPI and of the runtime during the initialisation, the
    frequency file and the counter around the calls of [sleep]. *)
Record InitEnv : Type := MkInitEnv {
  PAPI_VER_CURRENT : Z;
  PAPI_library_init : Z → Z;
  PAPI_thread_init : Z;
  PAPI_event_name_to_code : str → Z * Z;    (** return code and the event *)
  lookup_set_callback : bool;               (** the lookup found the function *)
  callback_set : nat → Z;                   (** result of the n-th registration *)
  lookup_get_thread_data : bool;
  cpufreq_file : freq_file;
  sleep_tsc : nat → Z * Z }.

Definition ompt_set_always : Z := 4.

(** The loop that fills [g_papiEvents]. *)
Fixpoint event_codes (ie : InitEnv) (tokens_v : list str) : res (list Z) :=
  match tokens_v with
  | [] => Ok []
  | papi_event :: rest =>
      let '(rc, code) := PAPI_event_name_to_code ie papi_event in
      if decide (rc = PAPI_OK) then codes ← event_codes ie rest; Ok (code :: codes) else Exit (-1)
  end.

(** The result is [g_papiEvents], of size [g_papiNumEvents]. *)
Definition init_papi_events (ie : InitEnv) (papi_metrics_env : option str) : res (list Z) :=
  if decide (PAPI_library_init ie (PAPI_VER_CURRENT ie) = PAPI_VER_CURRENT ie) then
    if decide (PAPI_thread_init ie = PAPI_OK) then
      tokens_v ← parse_tokens papi_metrics_env;
      event_codes ie tokens_v
    else Exit 1
  else Exit (-1).

(** A registration that does not always work is reported, and ignored. *)
Definition INIT_CALLBACK (ie : InitEnv) (out : stream) (k : nat) : stream :=
  if decide (callback_set ie k = ompt_set_always) then out
  else out ++ [Str "libtdg: cb_##func set failed"; endl].

(** [ftimer_init]: the frequency and what is printed. *)
Definition ftimer_init (fuel : nat) (ie : InitEnv) : res (Z * stream) :=
  g_timerfreq ← init_clock_time fuel (cpufreq_file ie) (sleep_tsc ie);
  let out :=
    match cpufreq_file ie with
    | NoFile => [Str "# initializing x86-64 timer (takes some seconds)"; endl]
    | _ => []
    end in
  Ok (g_timerfreq, out ++ [Str "Timer: cycles per sec = "; Int g_timerfreq; endl]).

(** Returns the state the callbacks start from, the frequency of the clock, what
    was printed and the value returned to the runtime. *)
Definition init_libtdg (fuel : nat) (ie : InitEnv) (papi_metrics_env : option str) : res (state * Z * stream * Z) :=
  let out := [Str "libtdg: initialize..."; endl] in
  clock ← ftimer_init fuel ie;
  let '(g_timerfreq, clock_out) := (clock : Z * stream) in
  let out := out ++ clock_out in
  if lookup_set_callback ie then
    let out := foldl (INIT_CALLBACK ie) out (seq 0 13) in
    events ← init_papi_events ie papi_metrics_env;
    if lookup_get_thread_data ie then Ok (init_state events, g_timerfreq, out, 1%Z) else Exit (-1)
  else Exit (-1).

(** ** Metrics *)

Inductive Metric : Type :=
  | TotalTime (m : TotalTimeMetric)
  | CriticalPath (m : CriticalPathMetric)
  | SimpleDotFile (dotFilename : string)
  | LogFile (logFilename : string).

Definition str_of (s : string) : str := String.list_ascii_of_string s.

(** The four comparisons of [finalize_libtdg]; any other token leaves the
    array element as [new Metric*[n]] left it, indeterminate. *)
Definition make_metric (token : str) : option Metric :=
  let m := None in
  let m := if decide (token = str_of "tim") then Some (TotalTime new_TotalTimeMetric) else m in
  let m := if decide (token = str_of "cri") then Some (CriticalPath new_CriticalPathMetric) else m in
  let m := if decide (token = str_of "dot") then Some (SimpleDotFile "tdg.dot") else m in
  if decide (token = str_of "log") then Some (LogFile "chunks.log") else m.

Section finalize.
Context `{StdSort} (env : Env) (can_open : string → bool).

(** [g_metrics[i]->init( g_tdg )]. *)
Definition metric_init (h : heap) (g : node_map) (m : option Metric) : res Metric :=
  m ← initialized m;
  match m with
  | TotalTime t => t' ← TotalTimeMetric_init h g t; Ok (TotalTime t')
  | _ => Ok m
  end.

(** What [finalize_libtdg] has done so far: the store, standard output and the
    files, of which the last one opened under a name is kept. *)
Record report : Type := MkReport {
  rp_nodes : heap;
  rp_cout : stream;
  rp_files : gmap string stream }.

(** [g_metrics[i]->printMetric( std::cout )]. *)
Definition metric_print (g : node_map) (r : report) (m : Metric) : res report :=
  match m with
  | TotalTime t =>
      out ← TotalTimeMetric_printMetric t;
      Ok (MkReport (rp_nodes r) (rp_cout r ++ out) (rp_files r))
  | CriticalPath c =>
      '(h, _, out) ← CriticalPathMetric_printMetric (rp_nodes r) g c;
      Ok (MkReport h (rp_cout r ++ out) (rp_files r))
  | SimpleDotFile f =>
      out ← printDotFile can_open (rp_nodes r) g f;
      Ok (MkReport (rp_nodes r) (rp_cout r) (<[f := out]> (rp_files r)))
  | LogFile f =>
      out ← LogFileMetric_printMetric can_open (rp_nodes r) g f;
      Ok (MkReport (rp_nodes r) (rp_cout r) (<[f := out]> (rp_files r)))
  end.

(** The loop over [init]. *)
Fixpoint init_all (h : heap) (g : node_map) (ms : list (option Metric)) : res (list Metric) :=
  match ms with
  | [] => Ok []
  | m :: ms' => m' ← metric_init h g m; rest ← init_all h g ms'; Ok (m' :: rest)
  end.

Definition finalize_libtdg (s : state) (metrics_env : option str) : res report :=
  '(_, s) ← (if bool_decide (is_Some (g_finalNode s)) then add_time_now env (g_finalNode s) s else Ok (tt, s));
  tokens_v ← parse_tokens metrics_env;
  let g_metrics := make_metric <$> tokens_v in
  ms ← init_all (nodes s) (g_tdg s) g_metrics;
  r ← res_foldl (metric_print (g_tdg s)) (MkReport (nodes s) [] ∅) ms;
  h ← delete_Graph (rp_nodes r) (g_tdg s);
  Ok (MkReport h (rp_cout r) (rp_files r)).
End finalize.

(** ** Splitting at commas *)

(** The fields between the commas. *)
Fixpoint split (s : str) : list str :=
  match s with
  | [] => [[]]
  | a :: s' =>
      if decide (a = comma) then [] :: split s'
      else match split s' with t :: ts => (a :: t) :: ts | [] => [[a]] end
  end.

Fixpoint join (ts : list str) : str :=
  match ts with
  | [] => []
  | [t] => t
  | t :: ts' => t ++ comma :: join ts'
  end.

Lemma split_ne s : split s ≠ [].
Proof. destruct s; simpl; [done|]. case_decide; [done|]. by destruct (split s). Qed.

Lemma join_split s : join (split s) = s.
Proof.
  induction s as [|a s IH]; [done|]. simpl. pose proof (split_ne s). case_decide as Ha.
  - subst a. simpl. destruct (split s) eqn:E; [done|]. by rewrite <- IH.
  - destruct (split s) as [|t ts] eqn:E; [done|]. rewrite <- IH. by destruct ts.
Qed.

Lemma split_no_comma s : Forall (fun t => comma ∉ t) (split s).
Proof.
  induction s as [|a s IH]; simpl; [by repeat constructor; apply not_elem_of_nil|]. case_decide.
  - constructor; [apply not_elem_of_nil|done].
  - destruct (split s) as [|t ts] eqn:E; [by destruct (split_ne s)|].
    apply Forall_cons in IH as [Ht Hts]. constructor; [|done]. by apply not_elem_of_cons.
Qed.

Lemma split_app t s : comma ∉ t → split (t ++ comma :: s) = t :: split s.
Proof.
  induction t as [|a t IH]; intros Ht; simpl; [done|].
  apply not_elem_of_cons in Ht as [Ha Ht]. rewrite decide_False by done. by rewrite IH.
Qed.

Lemma split_single t : comma ∉ t → split t = [t].
Proof.
  induction t as [|a t IH]; intros Ht; [done|]. apply not_elem_of_cons in Ht as [Ha Ht]. simpl.
  rewrite decide_False by done. by rewrite IH.
Qed.

Lemma split_join ts : ts ≠ [] → Forall (fun t => comma ∉ t) ts → split (join ts) = ts.
Proof.
  induction ts as [|t ts IH]; intros Hne Hts; [done|]. apply Forall_cons in Hts as [Ht Hts].
  destruct ts as [|t' ts]; [by apply split_single|]. simpl join. rewrite split_app by done.
  f_equal. by apply IH.
Qed.

(** ** Searching *)

Lemma index_of_Some c s k :
  index_of c s = Some k → s = (take k s ++ c :: drop (S k) s) ∧ (c ∉ take k s) ∧ k < length s.
Proof.
  revert k. induction s as [|a s IH]; intros k H; [done|]. simpl in H. case_decide as Ha.
  - injection H as <-. subst a. split; [done|]. split; [apply not_elem_of_nil|simpl; lia].
  - apply fmap_Some in H as (k' & Hk & ->). apply IH in Hk as (E & Hn & Hl). simpl. rewrite <- E.
    split; [done|]. split; [by apply not_elem_of_cons|lia].
Qed.

Lemma index_of_None c s : index_of c s = None → c ∉ s.
Proof.
  induction s as [|a s IH]; simpl; [intros; apply not_elem_of_nil|]. case_decide; [done|].
  intros Hk%fmap_None. apply not_elem_of_cons. auto.
Qed.

Lemma str_count_app s1 s2 c : str_count (s1 ++ s2) c = str_count s1 c + str_count s2 c.
Proof. unfold str_count. by rewrite filter_app, length_app. Qed.

Lemma str_count_notin s c : c ∉ s → str_count s c = 0.
Proof.
  unfold str_count. induction s as [|a s IH]; intros Hn; [done|]. apply not_elem_of_cons in Hn as [Ha Hn].
  rewrite filter_cons_False by done. auto.
Qed.

Lemma str_count_cons s c : str_count (c :: s) c = S (str_count s c).
Proof. unfold str_count. by rewrite filter_cons_True. Qed.

Lemma str_count_le s c : str_count s c ≤ length s.
Proof. apply length_filter. Qed.

(** One iteration that finds a comma. *)
Lemma substr_run s p (k : nat) :
  p ≤ length s → substr s (Z.of_nat p) (Z.of_nat k) = Ok (take k (drop p s)).
Proof.
  intros Hp. unfold substr. rewrite (proj2 (Z.leb_le _ _)) by lia. rewrite Nat2Z.id.
  rewrite <- Nat2Z.inj_sub, <- Nat2Z.inj_min, Nat2Z.id by lia. f_equal.
  destruct (Nat.le_ge_cases k (length s - p)); [by rewrite Nat.min_l|].
  rewrite Nat.min_r by done. rewrite !take_ge; [done|rewrite length_drop; lia..].
Qed.

Lemma substr_rest s p :
  p ≤ length s → (Z.of_nat (length s) < 2 ^ 63)%Z → substr s (Z.of_nat p) npos = Ok (drop p s).
Proof.
  intros Hp Hl. unfold substr, npos. rewrite (proj2 (Z.leb_le _ _)) by lia. rewrite Nat2Z.id.
  rewrite Z.min_r by lia. rewrite take_ge; [done|]. rewrite length_drop. lia.
Qed.

Lemma str_find_run s p :
  p ≤ length s → str_find s comma (Z.of_nat p) =
    match index_of comma (drop p s) with Some k => Z.of_nat (p + k) | None => npos end.
Proof.
  intros Hp. unfold str_find. rewrite (proj2 (Z.leb_le _ _)) by lia. rewrite Nat2Z.id.
  destruct (index_of _ _); [lia|done].
Qed.

Lemma token_loop_S n i s p acc :
  token_loop (S n) i s p acc =
    (token ← substr s p (if decide (str_find s comma p = npos) then npos else u64 (str_find s comma p - p));
     i ← int_add i 1; token_loop n i s (u64 (str_find s comma p + 1)) (acc ++ [token])).
Proof. done. Qed.

Lemma token_loop_run n s p i acc :
  n = str_count (drop p s) comma → p ≤ length s → (Z.of_nat (length s) < 2 ^ 31)%Z →
  (0 ≤ i)%Z → (i + Z.of_nat (S n) ≤ INT_MAX)%Z →
  token_loop (S n) i s (Z.of_nat p) acc = Ok (acc ++ split (drop p s)).
Proof.
  revert p i acc. induction n as [|n IH]; intros p i acc Hn Hp Hs Hi Hmax;
    rewrite token_loop_S, str_find_run by done; destruct (index_of comma (drop p s)) as [k|] eqn:Ek.
  - apply index_of_Some in Ek as (E & _). rewrite E, str_count_app, str_count_cons in Hn. lia.
  - apply index_of_None in Ek. rewrite decide_True, substr_rest by (done || lia). cbn [mbind res_bind].
    rewrite int_add_Ok by (unfold INT_MIN, INT_MAX in *; lia). cbn [mbind res_bind token_loop].
    by rewrite split_single.
  - apply index_of_Some in Ek as (E & Hk & Hkl). rewrite length_drop in Hkl.
    rewrite E, str_count_app, str_count_notin, str_count_cons, drop_drop in Hn by done.
    rewrite decide_False by (unfold npos; lia). rewrite !u64_small by lia.
    replace (Z.of_nat (p + k) - Z.of_nat p)%Z with (Z.of_nat k) by lia.
    rewrite substr_run by done. cbn [mbind res_bind].
    rewrite int_add_Ok by (unfold INT_MIN, INT_MAX in *; lia). cbn [mbind res_bind].
    replace (Z.of_nat (p + k) + 1)%Z with (Z.of_nat (p + S k)) by lia.
    rewrite IH by lia. rewrite E at 2. rewrite split_app by done. by rewrite drop_drop, <- app_assoc.
  - apply index_of_None in Ek. by rewrite str_count_notin in Hn.
Qed.

Lemma parse_tokens_run s :
  s ≠ [] → (Z.of_nat (length s) < INT_MAX)%Z → parse_tokens (Some s) = Ok (split s).
Proof.
  intros Hne Hs. unfold parse_tokens, INT_MAX in *. rewrite decide_True by (destruct s; [done|simpl; lia]).
  pose proof (str_count_le s comma). rewrite u32_small by lia.
  replace (Z.to_nat (Z.of_nat (str_count s comma) + 1)) with (S (str_count s comma)) by lia.
  apply (token_loop_run _ s 0); unfold INT_MAX; try done; lia.
Qed.

(** ** Initialisation *)

(** What the initialisation needs from PAPI and the runtime. *)
Record init_works (ie : InitEnv) (tokens_v : list str) : Prop := {
  iw_lib : PAPI_library_init ie (PAPI_VER_CURRENT ie) = PAPI_VER_CURRENT ie;
  iw_thread : PAPI_thread_init ie = PAPI_OK;
  iw_events : Forall (fun t => (PAPI_event_name_to_code ie t).1 = PAPI_OK) tokens_v;
  iw_set : lookup_set_callback ie = true;
  iw_get : lookup_get_thread_data ie = true }.

Definition event_code (ie : InitEnv) (t : str) : Z := (PAPI_event_name_to_code ie t).2.

Lemma event_codes_run ie ts :
  Forall (fun t => (PAPI_event_name_to_code ie t).1 = PAPI_OK) ts →
  event_codes ie ts = Ok (event_code ie <$> ts).
Proof.
  induction 1 as [|t ts Ht _ IH]; [done|]. simpl. unfold event_code at 1.
  destruct (PAPI_event_name_to_code ie t) as [rc code]. simpl in *. rewrite decide_True by done. by rewrite IH.
Qed.

Lemma event_codes_fail ie ts :
  ¬ Forall (fun t => (PAPI_event_name_to_code ie t).1 = PAPI_OK) ts → event_codes ie ts = Exit (-1).
Proof.
  induction ts as [|t ts IH]; intros Hn; [by destruct Hn|]. simpl.
  destruct (PAPI_event_name_to_code ie t) as [rc code] eqn:E. case_decide as Hd; [|done].
  rewrite IH; [done|]. intros Hf. apply Hn. constructor; [|done]. by rewrite E.
Qed.

Lemma init_papi_events_run ie env_var ts :
  parse_tokens env_var = Ok ts →
  PAPI_library_init ie (PAPI_VER_CURRENT ie) = PAPI_VER_CURRENT ie → PAPI_thread_init ie = PAPI_OK →
  init_papi_events ie env_var = event_codes ie ts.
Proof. intros E H1 H2. unfold init_papi_events. rewrite !decide_True, E by done. done. Qed.

Lemma init_libtdg_state fuel ie env_var s f out :
  init_libtdg fuel ie env_var = Ok (s, f, out, 1%Z) →
  (∃ evts, s = init_state evts) ∧ init_clock_time fuel (cpufreq_file ie) (sleep_tsc ie) = Ok f.
Proof.
  unfold init_libtdg, ftimer_init. intros E. apply bind_Ok_inv in E as ([g out'] & Ec & E).
  apply bind_Ok_inv in Ec as (f' & Ec & [= <- _]). destruct (lookup_set_callback ie); [|done].
  apply bind_Ok_inv in E as (evts & _ & E). destruct (lookup_get_thread_data ie); [|done].
  injection E as <- <- _. eauto.
Qed.

(** ** A sample environment *)

Definition sample_init : InitEnv :=
  MkInitEnv 5 (fun v => v) PAPI_OK
    (fun t => if decide (t = str_of "PAPI_TOT_INS") then (PAPI_OK, 50%Z) else
              if decide (t = str_of "PAPI_L1_DCM") then (PAPI_OK, 7%Z) else (-1, 0)%Z)
    true (fun _ => ompt_set_always) true (FirstLine (d_of_Z 1000)) (fun _ => (0, 0)%Z).

Definition sample_events : list str := [str_of "PAPI_TOT_INS"; str_of "PAPI_L1_DCM"].

Lemma sample_events_no_comma : Forall (fun t => comma ∉ t) sample_events.
Proof. repeat constructor; by apply (bool_decide_unpack _). Qed.

(** ** Properties *)

(** C31. [parse_tokens] cuts a non-empty string at its commas: it never reads
    outside the string, the tokens hold no comma and joined with commas they
    give the string back.  An unset or empty variable gives no token. *)
Theorem parse_tokens_splits s :
  (Z.of_nat (length s) < INT_MAX)%Z →
  parse_tokens None = Ok [] ∧
  ∃ ts, parse_tokens (Some s) = Ok ts ∧ join ts = s ∧ Forall (fun t => comma ∉ t) ts ∧
    (s = [] → ts = []) ∧ (s ≠ [] → length ts = S (str_count s comma)).
Proof.
  intros Hs. split; [done|]. destruct (decide (s = [])) as [->|Hne].
  - by exists [].
  - exists (split s). rewrite parse_tokens_run by done.
    split_and!; try done; [apply join_split|apply split_no_comma|]. intros _. clear.
    induction s as [|a s IH]; [done|]. simpl. case_decide as Ha.
    + subst a. simpl. by rewrite IH, str_count_cons.
    + unfold str_count in *. rewrite filter_cons_False by done. by destruct (split s).
Qed.

Lemma parse_tokens_splits_witness :
  ∃ ts, parse_tokens (Some (str_of "tim,,dot,")) = Ok ts ∧ length ts = 4.
Proof.
  destruct (parse_tokens_splits (str_of "tim,,dot,")) as (_ & ts & E & _ & _ & _ & Hl).
  - reflexivity.
  - exists ts. split; [exact E|]. apply Hl. discriminate.
Defined.

(** [parse_tokens] recovers every list of tokens without commas from its
    joined form. *)
Theorem parse_tokens_join ts :
  join ts ≠ [] → Forall (fun t => comma ∉ t) ts → (Z.of_nat (length (join ts)) < INT_MAX)%Z →
  parse_tokens (Some (join ts)) = Ok ts.
Proof.
  intros Hne Hc Hl. rewrite parse_tokens_run by done. rewrite split_join; [done| |done].
  intros ->. done.
Qed.

Lemma parse_tokens_join_witness : parse_tokens (Some (join sample_events)) = Ok sample_events.
Proof.
  apply (parse_tokens_join sample_events).
  - discriminate.
  - exact sample_events_no_comma.
  - reflexivity.
Defined.

(** C29. [init_libtdg] either ends the process or leaves the state from which
    the callbacks start: an empty graph, one event code per token of
    [TDG_PAPI_METRICS], in order, and the frequency that the file or the
    calibration gave.  It ends the process, with an error code, when the frequency
    file is empty, and otherwise exactly when PAPI, one of the events or one of
    the two runtime functions is not available. *)
Theorem init_libtdg_outcome fuel ie env_var ts :
  parse_tokens env_var = Ok ts →
  (cpufreq_file ie = EmptyFile → ∃ c, init_libtdg fuel ie env_var = Exit c ∧ c ≠ 0%Z) ∧
  ∀ f, init_clock_time fuel (cpufreq_file ie) (sleep_tsc ie) = Ok f →
    (init_works ie ts → ∃ out, init_libtdg fuel ie env_var = Ok (init_state (event_code ie <$> ts), f, out, 1%Z)) ∧
    (¬ init_works ie ts → ∃ c, init_libtdg fuel ie env_var = Exit c ∧ c ≠ 0%Z).
Proof.
  intros E. unfold init_libtdg, ftimer_init. split; [intros ->; by eexists|].
  intros f ->. cbn [mbind res_bind]. split.
  - intros [H1 H2 H3 H4 H5]. rewrite H4, H5. rewrite (init_papi_events_run ie env_var ts) by done.
    rewrite event_codes_run by done. by eexists.
  - intros Hn. destruct (lookup_set_callback ie) eqn:H4; [|by eexists].
    unfold init_papi_events. case_decide as H1; [|by eexists]. case_decide as H2; [|by eexists].
    rewrite E. cbn [mbind res_bind].
    destruct (decide (Forall (fun t => (PAPI_event_name_to_code ie t).1 = PAPI_OK) ts)) as [H3|H3].
    + rewrite event_codes_run by done. cbn [mbind res_bind].
      destruct (lookup_get_thread_data ie) eqn:H5; [|by eexists]. by destruct Hn.
    + rewrite event_codes_fail by done. by eexists.
Qed.

Lemma init_libtdg_outcome_witness :
  ∃ out, init_libtdg 0 sample_init (Some (join sample_events)) = Ok (init_state [50; 7]%Z, 1000%Z, out, 1%Z).
Proof.
  destruct (init_libtdg_outcome 0 sample_init (Some (join sample_events)) sample_events) as [_ H].
  - vm_compute. reflexivity.
  - apply (H 1000%Z); [vm_compute; reflexivity|]. split; try reflexivity. repeat constructor.
Defined.
