(* ===== verification/EmptyTool.v ===== *)
(** * The empty tool (callbacks_empty.cc, init_empty.cc)

    The variant of the tool that measures the overhead of the callbacks
    themselves: it registers the same callbacks, which only write a line when the
    tool is built with [LIBTDG_TRACE] (an argument here) and list the dependences
    of a task.  Enumerations and addresses are printed as numbers. *)
From stdpp Require Import base numbers list strings.
From Stdlib Require Import ZArith Lia.
From S2P Require Import Prelude Timer Output Callbacks Init.

(** ** Trace lines *)

Definition TRACE_CALLBACK (cb : string) : stream := [Str "libtdg: "; Str cb; endl].

Definition TRACE_CALLBACK1 (cb argna : string) (arga : Z) : stream :=
  [Str "libtdg: "; Str cb; Str ", "; Str argna; Str " "; Int arga; Str " "; endl].

Definition TRACE_CALLBACK2 (cb argna : string) (arga : Z) (argnb : string) (argb : Z) : stream :=
  [Str "libtdg: "; Str cb; Str ", "; Str argna; Str " "; Int arga; Str " "; Str argnb; Str " "; Int argb; Str " "; endl].

Definition TRACE_CALLBACK3 (cb argna : string) (arga : Z) (argnb : string) (argb : Z) (argnc : string) (argc : Z) : stream :=
  [Str "libtdg: "; Str cb; Str ", "; Str argna; Str " "; Int arga; Str " "; Str argnb; Str " "; Int argb; Str " ";
   Str argnc; Str " "; Int argc; Str " "; endl].

Definition TRACE_CALLBACK4 (cb argna : string) (arga : Z) (argnb : string) (argb : Z) (argnc : string) (argc : Z)
    (argnd : string) (argd : Z) : stream :=
  [Str "libtdg: "; Str cb; Str ", "; Str argna; Str " "; Int arga; Str " "; Str argnb; Str " "; Int argb; Str " ";
   Str argnc; Str " "; Int argc; Str " "; Str argnd; Str " "; Int argd; Str " "; endl].

(** ** The callbacks *)

(** A pointer to an [ompt_data_t]: its address and the word it points to. *)
Abbreviation data_ptr := (option (Z * Z)).

Definition address (p : data_ptr) : Z := from_option fst 0%Z p.
Definition word (p : data_ptr) : res Z := c ← non_null p; Ok (c : Z * Z).2.

Definition endpoint_num (e : ompt_scope_endpoint_t) : Z :=
  match e with ompt_scope_begin => 1 | ompt_scope_end => 2 end.

(** [ompt_task_dependence_t]. *)
Record dependence : Type := MkDep { variable_addr : Z; dependence_flags : Z }.

(** A call of a callback, with the arguments that it looks at. *)
Inductive call : Type :=
  | CallThreadBegin (thread_type : Z)
  | CallThreadEnd
  | CallImplicitTask (endpoint : ompt_scope_endpoint_t) (team_size thread_num : Z)
  | CallParallelBegin (parent_task_data : data_ptr) (requested_team_size : Z)
  | CallParallelEnd (parallel_data : data_ptr)
  | CallTaskCreate (parent_task_data new_task_data : data_ptr) (type codeptr_ra : Z)
  | CallTaskSchedule (first_task_data : data_ptr) (prior_task_status : Z) (second_task_data : data_ptr)
  | CallTaskDependences (task_data : data_ptr) (deps : list dependence) (ndeps : Z)
  | CallTaskDependence (src_task_data sink_task_data : data_ptr)
  | CallWork (wstype : Z) (endpoint : ompt_scope_endpoint_t) (parallel_data : data_ptr)
  | CallSyncRegion (kind : Z) (endpoint : ompt_scope_endpoint_t) (task_data : data_ptr)
  | CallExtLoop (lower upper chunk_size : Z) (endpoint : ompt_scope_endpoint_t)
  | CallExtChunk (lower upper : Z) (task_data : data_ptr) (last_chunk : Z).

(** The line that a call writes when tracing is on. *)
Definition trace_line (c : call) : res stream :=
  match c with
  | CallThreadBegin t => Ok (TRACE_CALLBACK1 "thread begin" "type" t)
  | CallThreadEnd => Ok (TRACE_CALLBACK "thread end")
  | CallImplicitTask e ts tn =>
      Ok (TRACE_CALLBACK3 "implicit task" "endpoint" (endpoint_num e) "team size" ts "thread" tn)
  | CallParallelBegin p ts => v ← word p; Ok (TRACE_CALLBACK2 "parallel begin" "parent" v "team size" ts)
  | CallParallelEnd p => v ← word p; Ok (TRACE_CALLBACK1 "parallel end" "parallel data" v)
  | CallTaskCreate p n t code =>
      v ← (match p with None => Ok 0%Z | Some _ => word p end);
      Ok (TRACE_CALLBACK4 "task create" "type" t "parent_task_data" v "new_task_data" (address n) "codeptr_ra" code)
  | CallTaskSchedule f st s =>
      Ok (TRACE_CALLBACK3 "task schedule" "first_task_data" (address f) "prior_task_status" st
            "second_task_data" (address s))
  | CallTaskDependences t _ _ => Ok (TRACE_CALLBACK1 "task dependences" "task_data" (address t))
  | CallTaskDependence s k =>
      Ok (TRACE_CALLBACK2 "task dependence" "src_task_data" (address s) "sink_task_data" (address k))
  | CallWork w e p => v ← word p; Ok (TRACE_CALLBACK3 "worksharing" "type" w "endpoint" (endpoint_num e) "par data" v)
  | CallSyncRegion k e t =>
      v ← word t; Ok (TRACE_CALLBACK3 "sync region" "kind" k "endpoint" (endpoint_num e) "task data" v)
  | CallExtLoop l u ch e =>
      Ok (TRACE_CALLBACK4 "loop" "lower" l "upper" u "chunk_size" ch "endpoint" (endpoint_num e))
  | CallExtChunk l u t last =>
      v ← word t; Ok (TRACE_CALLBACK4 "chunk" "lower" l "upper" u "task data" v "last" last)
  end.

(** The loop of [cb_task_dependences]: [i] from [ndeps - n] on. *)
Fixpoint dep_loop (deps : list dependence) (i n : nat) : res stream :=
  match n with
  | O => Ok []
  | S n' =>
      d ← (match deps !! i with Some d => Ok d | None => UB OutOfRange end);
      rest ← dep_loop deps (S i) n';
      Ok ([Str "Addr = "; Int (u64 (variable_addr d)); Str ", flags = "; Int (dependence_flags d); endl] ++ rest)
  end.

Definition cb_body (c : call) : res stream :=
  match c with
  | CallTaskDependences _ deps ndeps =>
      lines ← dep_loop deps 0 (Z.to_nat ndeps);
      Ok ([Str "Ndeps = "; Int ndeps; endl] ++ lines)
  | _ => Ok []
  end.

Definition run_call (LIBTDG_TRACE : bool) (c : call) : res stream :=
  line ← (if LIBTDG_TRACE then trace_line c else Ok []);
  body ← cb_body c;
  Ok (line ++ body).

(** The registration, in [init_empty.cc], and the calls that follow. *)
Definition init_empty (ie : InitEnv) : res (stream * Z) :=
  let out := [Str "libtdg (empty): initialize..."; endl] in
  if lookup_set_callback ie then Ok (foldl (INIT_CALLBACK ie) out (seq 0 13), 1%Z) else Exit (-1).

Definition run_calls (LIBTDG_TRACE : bool) (out : stream) (cs : list call) : res stream :=
  res_foldl (fun out c => o ← run_call LIBTDG_TRACE c; Ok (out ++ o)) out cs.

(** ** Reading the output back *)

Fixpoint trace_names (out : stream) : list string :=
  match out with
  | Str a :: ((Str cb :: _) as rest) => if decide (a = "libtdg: ") then cb :: trace_names rest else trace_names rest
  | _ :: rest => trace_names rest
  | [] => []
  end.

Fixpoint read_deps (out : stream) : list dependence :=
  match out with
  | Str a :: ((Int x :: Str _ :: Int f :: _) as rest) =>
      if decide (a = "Addr = ") then MkDep x f :: read_deps rest else read_deps rest
  | _ :: rest => read_deps rest
  | [] => []
  end.

Definition call_name (c : call) : string :=
  match c with
  | CallThreadBegin _ => "thread begin" | CallThreadEnd => "thread end" | CallImplicitTask _ _ _ => "implicit task"
  | CallParallelBegin _ _ => "parallel begin" | CallParallelEnd _ => "parallel end"
  | CallTaskCreate _ _ _ _ => "task create" | CallTaskSchedule _ _ _ => "task schedule"
  | CallTaskDependences _ _ _ => "task dependences" | CallTaskDependence _ _ => "task dependence"
  | CallWork _ _ _ => "worksharing" | CallSyncRegion _ _ _ => "sync region" | CallExtLoop _ _ _ _ => "loop"
  | CallExtChunk _ _ _ _ => "chunk"
  end.

Definition call_deps (c : call) : list dependence :=
  match c with CallTaskDependences _ deps ndeps => take (Z.to_nat ndeps) deps | _ => [] end.

(** What the runtime guarantees: the pointers that a trace line follows are not
    null, the array has as many elements as it says, and addresses are 64-bit
    numbers. *)
Definition deps_ok (c : call) : Prop :=
  match c with
  | CallTaskDependences _ deps ndeps =>
      (ndeps ≤ Z.of_nat (length deps))%Z ∧ Forall (fun d => 0 ≤ variable_addr d < 2 ^ 64)%Z deps
  | _ => True
  end.

Definition call_ok (LIBTDG_TRACE : bool) (c : call) : Prop :=
  (LIBTDG_TRACE = true → ∃ line, trace_line c = Ok line) ∧ deps_ok c.

(** ** Lines *)

Lemma names_skip i out : i ≠ Str "libtdg: " → trace_names (i :: out) = trace_names out.
Proof. intros Hi. destruct i as [a| |]; [|done..]. destruct out as [|[cb| |] out]; try done. simpl. by rewrite decide_False by congruence. Qed.

Lemma names_head cb out : trace_names (Str "libtdg: " :: Str cb :: out) = cb :: trace_names (Str cb :: out).
Proof. done. Qed.

Lemma deps_skip i out : i ≠ Str "Addr = " → read_deps (i :: out) = read_deps out.
Proof.
  intros Hi. destruct i as [a| |]; [|done..]. destruct out as [|[cb|x|] [|[?| |] [|[|f|] out]]]; try done.
  simpl. by rewrite decide_False by congruence.
Qed.

Lemma deps_head x b f out :
  read_deps (Str "Addr = " :: Int x :: Str b :: Int f :: out) = MkDep x f :: read_deps (Int x :: Str b :: Int f :: out).
Proof. done. Qed.

Ltac read_items :=
  cbn [app]; repeat first [rewrite names_head | rewrite deps_head | rewrite names_skip by done | rewrite deps_skip by done].

(** A line of the trace, and the lines of a body, read back. *)
Lemma trace_line_names c line out :
  trace_line c = Ok line →
  trace_names (line ++ out) = call_name c :: trace_names out ∧ read_deps (line ++ out) = read_deps out.
Proof.
  destruct c; cbn [trace_line]; intros E; try (apply bind_Ok_inv in E as (v & _ & E)); injection E as <-;
    split; unfold TRACE_CALLBACK, TRACE_CALLBACK1, TRACE_CALLBACK2, TRACE_CALLBACK3, TRACE_CALLBACK4; by read_items.
Qed.

Lemma dep_loop_run deps n i out :
  i + n ≤ length deps → Forall (fun d => 0 ≤ variable_addr d < 2 ^ 64)%Z deps →
  ∃ lines, dep_loop deps i n = Ok lines ∧ trace_names (lines ++ out) = trace_names out ∧
    read_deps (lines ++ out) = take n (drop i deps) ++ read_deps out.
Proof.
  intros Hn Ha. revert i Hn. induction n as [|n IH]; intros i Hn; cbn [dep_loop]; [by exists []|].
  destruct (lookup_lt_is_Some_2 deps i) as [d Hd]; [lia|]. rewrite Hd. cbn [mbind res_bind].
  destruct (IH (S i)) as (lines & -> & H1 & H2); [lia|]. cbn [mbind res_bind]. eexists. split; [done|].
  rewrite <- app_assoc. rewrite Forall_lookup in Ha. rewrite u64_small by (by eapply Ha).
  split; read_items; [done|]. rewrite H2. erewrite (drop_S deps d i) by done. by destruct d.
Qed.

Lemma cb_body_run c out :
  deps_ok c →
  ∃ body, cb_body c = Ok body ∧ trace_names (body ++ out) = trace_names out ∧
    read_deps (body ++ out) = call_deps c ++ read_deps out.
Proof.
  intros Hd. destruct c; try (by exists []). destruct Hd as [Hl Ha].
  destruct (dep_loop_run deps (Z.to_nat ndeps) 0 out ltac:(lia) Ha) as (lines & E & H1 & H2).
  cbn [cb_body]. rewrite E. cbn [mbind res_bind]. eexists. split; [done|]. rewrite <- app_assoc.
  by split; read_items.
Qed.

Lemma run_call_run t c out :
  call_ok t c →
  ∃ o, run_call t c = Ok o ∧ trace_names (o ++ out) = (if t then [call_name c] else []) ++ trace_names out ∧
    read_deps (o ++ out) = call_deps c ++ read_deps out.
Proof.
  intros [Ht Hd]. destruct (cb_body_run c out Hd) as (body & Eb & B1 & B2). unfold run_call. destruct t.
  - destruct Ht as [line El]; [done|]. rewrite El, Eb. cbn [mbind res_bind]. eexists. split; [done|].
    rewrite <- app_assoc. destruct (trace_line_names c line (body ++ out) El) as [-> ->]. by rewrite B1, B2.
  - rewrite Eb. cbn [mbind res_bind]. by eexists.
Qed.

Lemma run_calls_run t cs out :
  Forall (call_ok t) cs →
  ∃ o, run_calls t out cs = Ok (out ++ o) ∧ trace_names o = (if t then call_name <$> cs else []) ∧
    read_deps o = cs ≫= call_deps.
Proof.
  revert out. induction cs as [|c cs IH]; intros out Hc.
  - exists []. rewrite app_nil_r. by destruct t.
  - apply Forall_cons in Hc as [Hc Hcs]. destruct (run_call_run t c [] Hc) as (o1 & E1 & _).
    destruct (IH (out ++ o1) Hcs) as (o & E & H1 & H2). exists (o1 ++ o). unfold run_calls in *.
    cbn [res_foldl]. rewrite E1. cbn [mbind res_bind]. rewrite E, app_assoc. split; [done|].
    destruct (run_call_run t c o Hc) as (o1' & E1' & N & D). assert (o1' = o1) as -> by congruence.
    rewrite N, D, H1, H2. by destruct t.
Qed.

(** ** Registration *)

Definition failed (ie : InitEnv) (k : nat) : Prop := callback_set ie k ≠ ompt_set_always.

#[export] Instance failed_dec ie k : Decision (failed ie k).
Proof. unfold failed. apply _. Defined.

(** One line for each registration that failed. *)
Lemma register_lines ie ks out :
  foldl (INIT_CALLBACK ie) out ks =
    out ++ mjoin (replicate (length (filter (failed ie) ks)) [Str "libtdg: cb_##func set failed"; endl]).
Proof.
  revert out. induction ks as [|k ks IH]; intros out; [by rewrite app_nil_r|]. cbn [foldl]. rewrite IH.
  unfold INIT_CALLBACK at 1. rewrite filter_cons. unfold failed at 3.
  destruct (decide (callback_set ie k = ompt_set_always)) as [E|E].
  - rewrite decide_False by (unfold failed; tauto). done.
  - rewrite decide_True by done. cbn [length replicate mjoin list_join]. by rewrite <- app_assoc.
Qed.

(** ** Properties *)

(** C39. What the empty tool writes.  It ends the process only when the runtime
    has no function to register callbacks.  Otherwise it returns 1 and, whatever
    calls follow, writes after its first line one line for each registration that
    failed, and then: with tracing, one line for each call, which names it, in the
    order of the calls; and, with tracing or without, every dependence of every
    task, with its address and flags, in order. *)
Theorem empty_tool_output trace ie cs :
  Forall (call_ok trace) cs →
  (lookup_set_callback ie = false → init_empty ie = Exit (-1)) ∧
  (lookup_set_callback ie = true → ∃ out0 out,
     init_empty ie = Ok (out0, 1%Z) ∧ length out0 = 2 + 2 * length (filter (failed ie) (seq 0 13)) ∧
     run_calls trace out0 cs = Ok (out0 ++ out) ∧
     trace_names out = (if trace then call_name <$> cs else []) ∧ read_deps out = cs ≫= call_deps).
Proof.
  intros Hc. unfold init_empty. split; intros ->; [done|].
  destruct (run_calls_run trace cs (foldl (INIT_CALLBACK ie) [Str "libtdg (empty): initialize..."; endl] (seq 0 13)) Hc)
    as (out & E & H1 & H2).
  do 2 eexists. split; [done|]. split; [|by split_and!]. rewrite register_lines.
  induction (length (filter (failed ie) (seq 0 13))) as [|n IH]; [done|]. simpl in *. lia.
Qed.

Definition sample_calls : list call :=
  [CallThreadBegin 1; CallTaskCreate None (Some (4096, 7)) 3 1024;
   CallTaskDependences (Some (4096, 7)) [MkDep 64 2; MkDep 72 1] 2; CallExtChunk 0 9 (Some (4096, 7)) 1;
   CallThreadEnd]%Z.

Lemma empty_tool_output_witness :
  ∃ out0 out, init_empty sample_init = Ok (out0, 1%Z) ∧ run_calls true out0 sample_calls = Ok (out0 ++ out) ∧
    trace_names out = ["thread begin"; "task create"; "task dependences"; "chunk"; "thread end"] ∧
    read_deps out = [MkDep 64 2; MkDep 72 1].
Proof.
  destruct (empty_tool_output true sample_init sample_calls) as [_ H].
  - unfold sample_calls. repeat constructor; try (intros _; eexists; reflexivity); vm_compute; discriminate.
  - destruct (H eq_refl) as (out0 & out & E0 & _ & E & N & D). exists out0, out. by split_and!.
Defined.
