(* ===== verification/Signatures.v ===== *)
(** * The types of the callbacks (ompt.h, callbacks.h, init.cc)

    The runtime calls the functions of the tool through pointers whose types the
    header ompt.h gives, one per event; [init_libtdg] casts each function to the
    common type [ompt_callback_t] when it registers it, so that the compiler does
    not compare the two.  Here they are compared: the types of the header, the
    declarations of callbacks.h and the registrations of init.cc.  The events are
    those of the header, with their codes; [static] says whether
    OMPT_STATIC_CHUNKS is defined. *)
From stdpp Require Import base gmap list strings.
From Stdlib Require Import ZArith Lia.
From S2P Require Import Prelude.

(** ** Types *)

Inductive ctype : Type :=
  | Int | UInt | Int64 | UInt64
  | Void
  | Tag (name : string)                (** a struct, union or enum *)
  | Ptr (const : bool) (t : ctype).

#[export] Instance ctype_eq_dec : EqDecision ctype.
Proof. solve_decision. Defined.

Definition ompt_data_t : ctype := Tag "ompt_data_u".
Definition ompt_thread_data_t : ctype := ompt_data_t.
Definition ompt_task_data_t : ctype := ompt_data_t.
Definition ompt_parallel_data_t : ctype := ompt_data_t.
Definition ompt_wait_id_t : ctype := UInt64.
Definition ompt_frame_t : ctype := Tag "ompt_frame_s".
Definition ompt_task_dependence_t : ctype := Tag "ompt_task_dependence_s".
Definition ompt_thread_type_t : ctype := Tag "ompt_thread_type_t".
Definition ompt_invoker_t : ctype := Tag "ompt_invoker_t".
Definition ompt_scope_endpoint_t : ctype := Tag "ompt_scope_endpoint_e".
Definition ompt_task_type_t : ctype := Tag "ompt_task_type_e".
Definition ompt_task_status_t : ctype := Tag "ompt_task_status_e".
Definition ompt_mutex_kind_t : ctype := Tag "ompt_mutex_kind_e".
Definition ompt_work_type_t : ctype := Tag "ompt_work_type_e".
Definition ext_loop_sched_t : ctype := Tag "ext_loop_sched_e".
Definition ompt_sync_region_kind_t : ctype := Tag "ompt_sync_region_kind_e".

Abbreviation ptr := (Ptr false).
Abbreviation cptr := (Ptr true).

(** ** The callback types of ompt.h: the parameters; all return [void] *)

Definition ompt_callback_thread_begin_t : list ctype := [ompt_thread_type_t; ptr ompt_data_t].
Definition ompt_callback_thread_end_t : list ctype := [ptr ompt_data_t].
Definition ompt_callback_implicit_task_t : list ctype :=
  [ompt_scope_endpoint_t; ptr ompt_data_t; ptr ompt_data_t; UInt; UInt].
Definition ompt_callback_parallel_begin_t : list ctype :=
  [ptr ompt_data_t; cptr ompt_frame_t; ptr ompt_data_t; UInt; ompt_invoker_t; cptr Void].
Definition ompt_callback_parallel_end_t : list ctype :=
  [ptr ompt_data_t; ptr ompt_task_data_t; ompt_invoker_t; cptr Void].
Definition ompt_callback_task_schedule_t : list ctype :=
  [ptr ompt_task_data_t; ompt_task_status_t; ptr ompt_task_data_t].
Definition ompt_callback_task_create_t : list ctype :=
  [ptr ompt_data_t; cptr ompt_frame_t; ptr ompt_data_t; ompt_task_type_t; Int; cptr Void].
Definition ext_callback_task_create_begin_t : list ctype := [ptr ompt_data_t; cptr ompt_frame_t; ompt_task_type_t].
Definition ompt_callback_task_dependences_t : list ctype := [ptr ompt_data_t; cptr ompt_task_dependence_t; Int].
Definition ompt_callback_task_dependence_t : list ctype := [ptr ompt_data_t; ptr ompt_data_t].
Definition ompt_control_callback_t : list ctype := [UInt64; UInt64].
Definition ompt_callback_mutex_acquire_t : list ctype := [ompt_mutex_kind_t; UInt; UInt; ompt_wait_id_t; cptr Void].
Definition ompt_callback_mutex_t : list ctype := [ompt_mutex_kind_t; ompt_wait_id_t; cptr Void].
Definition ompt_callback_lock_init_t : list ctype := [ompt_mutex_kind_t; UInt; UInt; ompt_wait_id_t; cptr Void].
Definition ompt_callback_lock_destroy_t : list ctype := [ompt_mutex_kind_t; ompt_wait_id_t; cptr Void].
Definition ompt_callback_nest_lock_t : list ctype := [ompt_scope_endpoint_t; ompt_wait_id_t; cptr Void].
Definition ompt_callback_master_t : list ctype :=
  [ompt_scope_endpoint_t; ptr ompt_data_t; ptr ompt_data_t; cptr Void].
Definition ompt_callback_idle_t : list ctype := [ompt_scope_endpoint_t].
Definition ompt_callback_work_t : list ctype :=
  [ompt_work_type_t; ompt_scope_endpoint_t; ptr ompt_data_t; ptr ompt_data_t; UInt64; cptr Void].
Definition ext_callback_loop_t (static : bool) : list ctype :=
  if static then [ext_loop_sched_t; ompt_scope_endpoint_t; ptr ompt_data_t; ptr ompt_data_t; Int64; cptr Void]
  else [ext_loop_sched_t; ompt_scope_endpoint_t; ptr ompt_data_t; ptr ompt_data_t; Int64; Int64; Int64; UInt64;
        Int64; cptr Void].
Definition ext_callback_chunk_t : list ctype := [ptr ompt_data_t; Int64; Int64; Int].
Definition ompt_callback_sync_region_t : list ctype :=
  [ompt_sync_region_kind_t; ompt_scope_endpoint_t; ptr ompt_data_t; ptr ompt_data_t; cptr Void].
Definition ompt_callback_cancel_t : list ctype := [ptr ompt_data_t; Int; cptr Void].
Definition ompt_callback_flush_t : list ctype := [ptr ompt_data_t; cptr Void].

(** ** The events, FOREACH_OMPT_EVENT *)

Inductive ompt_callbacks_t : Type :=
  | ompt_callback_thread_begin | ompt_callback_thread_end
  | ompt_callback_parallel_begin | ompt_callback_parallel_end
  | ompt_callback_task_create | ompt_callback_task_schedule | ompt_callback_implicit_task
  | ompt_callback_idle | ompt_callback_sync_region_wait | ompt_callback_mutex_released
  | ompt_callback_task_dependences | ompt_callback_task_dependence
  | ompt_callback_work | ompt_callback_master | ompt_callback_sync_region
  | ompt_callback_lock_init | ompt_callback_lock_destroy
  | ompt_callback_mutex_acquire | ompt_callback_mutex_acquired
  | ompt_callback_nest_lock | ompt_callback_flush | ompt_callback_cancel
  | ompt_event_control
  | ext_callback_task_create_begin | ext_callback_loop | ext_callback_chunk.

#[export] Instance callbacks_eq_dec : EqDecision ompt_callbacks_t.
Proof. solve_decision. Defined.

Definition event_id (e : ompt_callbacks_t) : Z :=
  match e with
  | ompt_callback_thread_begin => 1 | ompt_callback_thread_end => 2
  | ompt_callback_parallel_begin => 3 | ompt_callback_parallel_end => 4
  | ompt_callback_task_create => 5 | ompt_callback_task_schedule => 6 | ompt_callback_implicit_task => 7
  | ompt_callback_idle => 13 | ompt_callback_sync_region_wait => 14 | ompt_callback_mutex_released => 15
  | ompt_callback_task_dependences => 16 | ompt_callback_task_dependence => 17
  | ompt_callback_work => 18 | ompt_callback_master => 19 | ompt_callback_sync_region => 21
  | ompt_callback_lock_init => 22 | ompt_callback_lock_destroy => 23
  | ompt_callback_mutex_acquire => 24 | ompt_callback_mutex_acquired => 25
  | ompt_callback_nest_lock => 26 | ompt_callback_flush => 27 | ompt_callback_cancel => 28
  | ompt_event_control => 29
  | ext_callback_task_create_begin => 80 | ext_callback_loop => 81 | ext_callback_chunk => 82
  end.

(** The type of the pointer through which the runtime reports an event. *)
Definition event_type (static : bool) (e : ompt_callbacks_t) : list ctype :=
  match e with
  | ompt_callback_thread_begin => ompt_callback_thread_begin_t
  | ompt_callback_thread_end => ompt_callback_thread_end_t
  | ompt_callback_parallel_begin => ompt_callback_parallel_begin_t
  | ompt_callback_parallel_end => ompt_callback_parallel_end_t
  | ompt_callback_task_create => ompt_callback_task_create_t
  | ompt_callback_task_schedule => ompt_callback_task_schedule_t
  | ompt_callback_implicit_task => ompt_callback_implicit_task_t
  | ompt_callback_idle => ompt_callback_idle_t
  | ompt_callback_sync_region_wait | ompt_callback_sync_region => ompt_callback_sync_region_t
  | ompt_callback_mutex_released | ompt_callback_mutex_acquired => ompt_callback_mutex_t
  | ompt_callback_task_dependences => ompt_callback_task_dependences_t
  | ompt_callback_task_dependence => ompt_callback_task_dependence_t
  | ompt_callback_work => ompt_callback_work_t
  | ompt_callback_master => ompt_callback_master_t
  | ompt_callback_lock_init => ompt_callback_lock_init_t
  | ompt_callback_lock_destroy => ompt_callback_lock_destroy_t
  | ompt_callback_mutex_acquire => ompt_callback_mutex_acquire_t
  | ompt_callback_nest_lock => ompt_callback_nest_lock_t
  | ompt_callback_flush => ompt_callback_flush_t
  | ompt_callback_cancel => ompt_callback_cancel_t
  | ompt_event_control => ompt_control_callback_t
  | ext_callback_task_create_begin => ext_callback_task_create_begin_t
  | ext_callback_loop => ext_callback_loop_t static
  | ext_callback_chunk => ext_callback_chunk_t
  end.

(** ** The functions of the tool *)

Inductive tool_function : Type :=
  | cb_thread_begin | cb_thread_end | cb_implicit_task | cb_parallel_begin | cb_parallel_end
  | cb_task_create | cb_task_schedule | cb_task_dependences | cb_task_dependence
  | cb_work | cb_sync_region | cb_ext_loop | cb_ext_chunk.

#[export] Instance function_eq_dec : EqDecision tool_function.
Proof. solve_decision. Defined.

(** Their parameters, as callbacks.h declares them. *)
Definition signature (f : tool_function) : list ctype :=
  match f with
  | cb_thread_begin => [ompt_thread_type_t; ptr ompt_data_t]
  | cb_thread_end => [ptr ompt_data_t]
  | cb_implicit_task => [ompt_scope_endpoint_t; ptr ompt_data_t; ptr ompt_data_t; UInt; UInt]
  | cb_parallel_begin => [ptr ompt_data_t; cptr ompt_frame_t; ptr ompt_data_t; UInt; ompt_invoker_t; cptr Void]
  | cb_parallel_end => [ptr ompt_data_t; ptr ompt_task_data_t; ompt_invoker_t; cptr Void]
  | cb_task_create => [ptr ompt_data_t; cptr ompt_frame_t; ptr ompt_data_t; ompt_task_type_t; Int; cptr Void]
  | cb_task_schedule => [ptr ompt_task_data_t; ompt_task_status_t; ptr ompt_task_data_t]
  | cb_task_dependences => [ptr ompt_data_t; cptr ompt_task_dependence_t; Int]
  | cb_task_dependence => [ptr ompt_data_t; ptr ompt_data_t]
  | cb_work => [ompt_work_type_t; ompt_scope_endpoint_t; ptr ompt_data_t; ptr ompt_data_t; UInt64; cptr Void]
  | cb_sync_region => [ompt_sync_region_kind_t; ompt_scope_endpoint_t; ptr ompt_data_t; ptr ompt_data_t; cptr Void]
  | cb_ext_loop =>
      [ext_loop_sched_t; ompt_scope_endpoint_t; ptr ompt_data_t; ptr ompt_data_t; Int64; Int64; Int64; UInt64;
       Int64; cptr Void]
  | cb_ext_chunk => [ptr ompt_data_t; Int64; Int64; Int]
  end.

(** ** Registration *)

(** The calls of INIT_CALLBACK and INIT_CALLBACK_EXT in [init_libtdg], in order. *)
Definition registration : list (ompt_callbacks_t * tool_function) :=
  [(ompt_callback_thread_begin, cb_thread_begin); (ompt_callback_thread_end, cb_thread_end);
   (ompt_callback_parallel_begin, cb_parallel_begin); (ompt_callback_parallel_end, cb_parallel_end);
   (ompt_callback_implicit_task, cb_implicit_task); (ompt_callback_work, cb_work);
   (ompt_callback_task_schedule, cb_task_schedule); (ompt_callback_task_create, cb_task_create);
   (ompt_callback_task_dependences, cb_task_dependences); (ompt_callback_task_dependence, cb_task_dependence);
   (ompt_callback_sync_region, cb_sync_region); (ext_callback_loop, cb_ext_loop); (ext_callback_chunk, cb_ext_chunk)].

Inductive ompt_set_result_t : Type :=
  | ompt_set_error | ompt_set_never | ompt_set_sometimes | ompt_set_sometimes_paired | ompt_set_always.

(** The answers with which the runtime has stored the function. *)
Definition stored (rc : ompt_set_result_t) : bool :=
  match rc with ompt_set_error | ompt_set_never => false | _ => true end.

Section runtime.
(** What [ompt_set_callback] answers for each event. *)
Context (answer : ompt_callbacks_t → ompt_set_result_t).

(** One INIT_CALLBACK: the runtime keeps the function under the code of the
    event. *)
Definition set_callback (t : gmap Z tool_function) (ef : ompt_callbacks_t * tool_function) : gmap Z tool_function :=
  if stored (answer ef.1) then <[event_id ef.1 := ef.2]> t else t.

Definition callback_table : gmap Z tool_function := foldl set_callback ∅ registration.

(** The runtime reports an event: which function runs.  A call through a pointer
    of another type than that of the function is undefined. *)
Definition report_event (static : bool) (e : ompt_callbacks_t) : res (option tool_function) :=
  match callback_table !! event_id e with
  | None => Ok None
  | Some f => if decide (event_type static e = signature f) then Ok (Some f) else UB BadCast
  end.

#[local] Instance event_id_inj : Inj (=) (=) event_id.
Proof. intros [] []; simpl; intros E; try done; lia. Qed.

(** The table after some registrations of distinct events. *)
Lemma table_lookup regs t e f :
  NoDup regs.*1 → (∀ e, e ∈ regs.*1 → t !! event_id e = None) →
  foldl set_callback t regs !! event_id e = Some f ↔
    t !! event_id e = Some f ∨ (e, f) ∈ regs ∧ stored (answer e) = true.
Proof.
  revert t. induction regs as [|[e1 f1] regs IH]; intros t Hnd Ht; cbn [foldl].
  - rewrite elem_of_nil. tauto.
  - rewrite fmap_cons in Hnd. apply NoDup_cons in Hnd as [Hn Hnd].
    rewrite IH; [|done|].
    + unfold set_callback. cbn [fst snd]. rewrite elem_of_cons.
      specialize (Ht e1). rewrite fmap_cons in Ht. specialize (Ht ltac:(by left)).
      destruct (stored (answer e1)) eqn:Es.
      2: { split; [intros [?|[? ?]]; auto|]. intros [?|[[[= -> ->]|?] ?]]; auto; congruence. }
      destruct (decide (e = e1)) as [->|Hne].
      * rewrite lookup_insert_eq. rewrite Ht. split; [intros [[= ->]|[? ?]]; auto|]. intros [?|[[[= ->]|?] ?]]; [done|by left|auto].
      * rewrite lookup_insert_ne by (by intros ?%(inj event_id)).
        split; [intros [?|[? ?]]; auto|]. intros [?|[[[= -> ->]|?] ?]]; auto; congruence.
    + intros e' He'. unfold set_callback. cbn [fst snd].
      assert (t !! event_id e' = None) as E by (apply Ht; rewrite fmap_cons; by right).
      destruct (stored (answer e1)); [|done]. rewrite lookup_insert_ne; [done|]. intros ?%(inj event_id). subst. done.
Qed.

Lemma registration_events : NoDup registration.*1.
Proof. refine (proj1 (bool_decide_eq_true (NoDup registration.*1)) _). vm_compute. reflexivity. Qed.

Lemma callback_table_lookup e f :
  callback_table !! event_id e = Some f ↔ (e, f) ∈ registration ∧ stored (answer e) = true.
Proof.
  unfold callback_table. rewrite table_lookup; [|apply registration_events|intros; apply lookup_empty].
  rewrite lookup_empty. naive_solver.
Qed.

Lemma registration_typed : Forall (fun ef => event_type false ef.1 = signature ef.2) registration.
Proof. repeat constructor. Qed.

(** C30. The callbacks are called with the arguments they declare.  Whatever the
    runtime answers to the registrations: without OMPT_STATIC_CHUNKS the report
    of an event runs the function registered for that event, if it was stored, and
    the type of the pointer is the type of the function; with OMPT_STATIC_CHUNKS
    the same holds for all events except that of loops, where the call is
    undefined. *)
Theorem registration_type_safe static e :
  (static = false ∨ e ≠ ext_callback_loop →
    ∃ o, report_event static e = Ok o ∧ ∀ f, o = Some f ↔ (e, f) ∈ registration ∧ stored (answer e) = true) ∧
  (static = true → stored (answer ext_callback_loop) = true → report_event static ext_callback_loop = UB BadCast).
Proof.
  split.
  - intros Hs. exists (callback_table !! event_id e). split; [|apply callback_table_lookup]. unfold report_event.
    destruct (callback_table !! event_id e) as [f|] eqn:E; [|done]. apply callback_table_lookup in E as [Hr _].
    pose proof registration_typed as T. rewrite Forall_forall in T. specialize (T _ Hr). cbn [fst snd] in T.
    rewrite decide_True; [done|]. destruct Hs as [->|He]; [done|]. by destruct e.
  - intros -> Ha. unfold report_event.
    assert (callback_table !! event_id ext_callback_loop = Some cb_ext_loop) as ->; [|done].
    apply callback_table_lookup. split; [|done]. by repeat (left || right).
Qed.
End runtime.

Lemma registration_type_safe_witness :
  report_event (fun _ => ompt_set_always) true ext_callback_loop = UB BadCast ∧
  ∃ o, report_event (fun _ => ompt_set_always) false ext_callback_loop = Ok o.
Proof.
  destruct (registration_type_safe (fun _ => ompt_set_always) true ext_callback_loop) as [_ H].
  destruct (registration_type_safe (fun _ => ompt_set_always) false ext_callback_loop) as [(o & E & _) _]; [by left|].
  split; [by apply H|by exists o].
Defined.
