(* ===== verification/Session.v ===== *)
(** * A whole session

    From the first callback to the reports: the graph that the callbacks leave
    is one on which [finalize_libtdg] can run every metric, in any order and
    any number of times, and the process ends with all nodes freed.  Only on a
    graph without nodes the metric [tim] is undefined behaviour. *)
From stdpp Require Import base numbers gmap list sorting strings.
From Stdlib Require Import ZArith Lia Ascii.
From S2P Require Import Prelude Float64 FloatDiv Timer Graph Dag TopoSort CriticalPath Stats Output Callbacks NodeData.
From S2P Require Import Protocol Invariant SafeTasks Safety Init.

(** ** What the metrics leave alone *)

(** The part of a node that no metric assigns, the time apart. *)
Definition shape (n : Node) :=
  (_id n, _type n, _loopCounter n, _threadId n, _numPapiEvents n, _papiValsArr n, _entryEdges n, _exitEdges n).

Definition same_shape (h h' : heap) : Prop := ∀ l, shape <$> h' !! l = shape <$> h !! l.

#[export] Instance same_shape_equiv : Equivalence same_shape.
Proof. split; [by intros h l|by intros h h' H l|]. intros h1 h2 h3 H1 H2 l. by rewrite H2. Qed.

Lemma same_shape_lookup h h' l n' :
  same_shape h h' → h' !! l = Some n' → ∃ n, h !! l = Some n ∧ shape n' = shape n.
Proof.
  intros H Hn'. specialize (H l). rewrite Hn' in H. symmetry in H.
  apply fmap_Some in H as (n & Hn & E). eauto.
Qed.

Section same_shape.
Context (h h' : heap) (S : same_shape h h').

Lemma shape_exits u : exits h' u = exits h u.
Proof.
  unfold exits. specialize (S u). destruct (h' !! u), (h !! u); simpl in *; try done.
  by injection S.
Qed.

Lemma shape_entries u : entries h' u = entries h u.
Proof.
  unfold entries. specialize (S u). destruct (h' !! u), (h !! u); simpl in *; try done.
  by injection S.
Qed.

Lemma shape_id_of u : id_of h' u = id_of h u.
Proof.
  unfold id_of. specialize (S u). destruct (h' !! u), (h !! u); simpl in *; try done. by injection S.
Qed.

Lemma shape_edge u v : edge h' u v ↔ edge h u v.
Proof. apply edge_ext, shape_exits. Qed.

Lemma shape_wf : wf h → wf h'.
Proof. apply wf_ext; [apply shape_exits|apply shape_entries]. Qed.

Lemma shape_table g : table_ok h g → table_ok h' g.
Proof.
  intros T id l. rewrite (T id l). specialize (S l).
  destruct (h' !! l) as [n'|], (h !! l) as [n|]; simpl in *; try done.
  injection S as Eid. split; intros (? & [= <-] & <-); eauto.
Qed.

Lemma shape_printable : (∀ l n, h !! l = Some n → printable n) → ∀ l n, h' !! l = Some n → printable n.
Proof.
  intros P l n' Hn'. destruct (same_shape_lookup _ _ _ _ S Hn') as (n & Hn & E).
  destruct (P l n Hn) as [P1 P2 P3]. injection E as E1 E2 E3 E4 E5 E6 E7 E8.
  split; rewrite ?E2, ?E3, ?E4, ?E5, ?E6; done.
Qed.
End same_shape.

Lemma cp_result_shape h V m tl : same_shape h (crit V (overlay setCp m (levelled h tl))).
Proof.
  intros l. unfold levelled. rewrite lookup_flag, !lookup_overlay, lookup_flag.
  destruct (h !! l) as [n|]; simpl; [|done].
  by destruct (decide (l ∈ V)), (m !! l), (levels_on h tl !! l), (decide (l ∈ dom h)).
Qed.

Lemma same_shape_addTime h l n t : h !! l = Some n → same_shape h (<[l := addTime t n]> h).
Proof.
  intros Hn l'. destruct (decide (l' = l)) as [->|]; [by rewrite lookup_insert_eq, Hn|by rewrite lookup_insert_ne].
Qed.

(** ** The graph while the metrics run *)

(** [h0] is the graph the callbacks left, [h] the current one. *)
Record fin_ready (h0 : heap) (g : node_map) (h : heap) : Prop := {
  fr_shape : same_shape h0 h;
  fr_cp : cp_ready h g ∨ ∀ x n, h !! x = Some n → _visited n = true }.

(** The dot file shows the graph [h]. *)
Definition dot_shows (h : heap) (out : stream) : Prop :=
  (∀ id, id ∈ dot_nodes out ↔ ∃ l n, h !! l = Some n ∧ _id n = id) ∧
  (∀ a b, (a, b) ∈ dot_edges out ↔ ∃ u v, edge h u v ∧ id_of h u = a ∧ id_of h v = b).

Section finalize.
Context `{StdSort} (can_open : string → bool) (h0 : heap) (g : node_map).
Context (W : wf h0) (T : table_ok h0 g) (P : ∀ l n, h0 !! l = Some n → printable n).
Context (Ho : can_open "tdg.dot" = true ∧ can_open "chunks.log" = true).

Lemma critical_path_step h m :
  fin_ready h0 g h → dltb (_critical_path_time_len m) dzero = true →
  ∃ h' m' out, CriticalPathMetric_printMetric h g m = Ok (h', m', out) ∧ fin_ready h0 g h'.
Proof.
  intros [S C] Hm. unfold CriticalPathMetric_printMetric, CriticalPathMetric_getMetric. rewrite Hm.
  destruct C as [R|V].
  - destruct (computeCriticalPath_run h g R) as (tl & l & st & p & total & E & _).
    rewrite E. do 3 eexists. split; [done|]. split.
    + etransitivity; [exact S|apply cp_result_shape].
    + right. intros x n. apply cp_result_visited.
  - rewrite computeCriticalPath_visited; [|by eapply shape_table|done].
    do 3 eexists. split; [done|]. by split; [|right].
Qed.

Lemma dot_step h :
  fin_ready h0 g h → ∃ out, printDotFile can_open h g "tdg.dot" = Ok out ∧ dot_shows h0 out.
Proof.
  intros [S _]. pose proof (shape_table _ _ S g T) as T'. pose proof (shape_wf _ _ S W) as W'.
  eexists. split; [apply printDotFile_run; [done|done|by apply (shape_printable h0)|apply Ho]|].
  split; cbn [app dot_nodes dot_edges].
  - intros id. rewrite dot_nodes_blocks by (intros l; by apply nodes_in_order_live). simpl.
    rewrite app_nil_r, id_of_table by done. rewrite list_elem_of_fmap. split.
    + intros ([id' l] & -> & Hin%elem_of_nodes_in_order). exists l. by apply T.
    + intros (l & n & Hn & Eid). exists (id, l). split; [done|]. apply elem_of_nodes_in_order, T. eauto.
  - intros a b. rewrite dot_edges_blocks by (intros l; by apply nodes_in_order_live). simpl.
    rewrite app_nil_r. rewrite list_elem_of_bind. setoid_rewrite elem_edges_from; [|done].
    setoid_rewrite (shape_edge _ _ S). setoid_rewrite (shape_id_of _ _ S). split.
    + intros (u & (v & -> & -> & He) & _). eauto.
    + intros (u & v & He & <- & <-). exists u. split; [eauto|].
      apply (nodes_in_order_live h g); [done|]. apply (edge_live_l h u v). by apply (shape_edge _ _ S).
Qed.

Lemma log_step h : fin_ready h0 g h → ∃ out, LogFileMetric_printMetric can_open h g "chunks.log" = Ok out.
Proof.
  intros [S _]. unfold LogFileMetric_printMetric. rewrite (proj2 Ho).
  rewrite log_nodes_run; [by eexists| |by apply (shape_printable h0)].
  intros l. apply nodes_in_order_live. by eapply shape_table.
Qed.

(** A metric after its [init]. *)
Definition metric_ready (m : Metric) : Prop :=
  match m with
  | TotalTime t => is_Some (_nodes_avg_time t) ∧ is_Some (_nodes_time_stddev t) ∧
      is_Some (_nodes_med_time t) ∧ _node_times_arr t ≠ []
  | CriticalPath c => dltb (_critical_path_time_len c) dzero = true
  | SimpleDotFile f => f = "tdg.dot"
  | LogFile f => f = "chunks.log"
  end.

Definition report_ok (r : report) : Prop :=
  fin_ready h0 g (rp_nodes r) ∧ ∀ out, rp_files r !! "tdg.dot" = Some out → dot_shows h0 out.

Lemma metric_print_step r m :
  report_ok r → metric_ready m →
  ∃ r', metric_print can_open g r m = Ok r' ∧ report_ok r' ∧
    (is_Some (rp_files r !! "tdg.dot") → is_Some (rp_files r' !! "tdg.dot")) ∧
    (m = SimpleDotFile "tdg.dot" → is_Some (rp_files r' !! "tdg.dot")).
Proof.
  intros [F D] M. destruct m as [t|c|f|f]; cbn [metric_print].
  - destruct M as ([a Ea] & [sd Es] & [md Em] & Hne).
    destruct (TotalTimeMetric_print_run t a sd md) as (pre & a' & b & q1 & q2 & q3 & E & _); [done..|].
    rewrite E. by eexists.
  - destruct (critical_path_step _ c F M) as (h' & m' & out & E & F'). rewrite E. by eexists.
  - simpl in M. subst f. destruct (dot_step _ F) as (out & E & Hd). rewrite E. eexists. split; [done|].
    simpl. rewrite lookup_insert_eq. split; [|by eauto]. split; [done|]. simpl.
    rewrite lookup_insert_eq. by intros ? [= <-].
  - simpl in M. subst f. destruct (log_step _ F) as (out & E). rewrite E. eexists. split; [done|].
    simpl. rewrite lookup_insert_ne by done. split; [|done]. split; [done|]. simpl. by rewrite lookup_insert_ne.
Qed.

Lemma metric_print_all ms r :
  report_ok r → Forall metric_ready ms →
  ∃ r', res_foldl (metric_print can_open g) r ms = Ok r' ∧ report_ok r' ∧
    (is_Some (rp_files r !! "tdg.dot") ∨ SimpleDotFile "tdg.dot" ∈ ms → is_Some (rp_files r' !! "tdg.dot")).
Proof.
  intros R Hms. revert r R. induction Hms as [|m ms Hm _ IH]; intros r R; simpl.
  { exists r. split_and!; try done. intros [?|Hin]; [done|by apply elem_of_nil in Hin]. }
  destruct (metric_print_step r m R Hm) as (r1 & -> & R1 & K1 & K2). simpl.
  destruct (IH r1 R1) as (r' & -> & R' & K'). exists r'. split_and!; try done.
  intros [?|[<-|?]%elem_of_cons]; apply K'; auto.
Qed.

(** A time metric that has seen no node: its average is indeterminate. *)
Definition metric_unset (m : Metric) : Prop :=
  ∃ t, m = TotalTime t ∧ TotalTimeMetric_printMetric t = UB Uninitialized.

Lemma metric_print_unset ms m r :
  report_ok r → Forall (fun m => metric_ready m ∨ metric_unset m) ms → m ∈ ms → metric_unset m →
  res_foldl (metric_print can_open g) r ms = UB Uninitialized.
Proof.
  intros R Hms. revert r R. induction Hms as [|m' ms [Hr|(t & -> & Et)] _ IH]; intros r R Hin Hm.
  - by apply elem_of_nil in Hin.
  - cbn [res_foldl]. destruct (metric_print_step r m' R Hr) as (r1 & E & R1 & _). rewrite E. cbn [mbind res_bind].
    apply IH; [done| |done]. apply elem_of_cons in Hin as [->|?]; [|done].
    destruct Hm as (t & -> & Et). cbn [metric_print] in E. by rewrite Et in E.
  - cbn [res_foldl metric_print]. by rewrite Et.
Qed.
End finalize.

(** ** The metrics of a list of tokens *)

Definition known_tokens : list str := [str_of "tim"; str_of "cri"; str_of "dot"; str_of "log"].

Lemma known_no_comma ts : Forall (fun t => t ∈ known_tokens) ts → Forall (fun t => comma ∉ t) ts.
Proof.
  intros Hts. eapply Forall_impl; [exact Hts|]. simpl. intros t Ht. unfold known_tokens in Ht. rewrite !elem_of_cons, elem_of_nil in Ht.
  destruct Ht as [->|[->|[->|[->|[]]]]]; by apply (bool_decide_unpack _).
Qed.

Lemma join_known t : t ∈ known_tokens → t ≠ [].
Proof. unfold known_tokens. rewrite !elem_of_cons, elem_of_nil. by intros [->|[->|[->|[->|[]]]]]. Qed.

Lemma make_metric_unknown t : t ∉ known_tokens → make_metric t = None.
Proof.
  unfold known_tokens. rewrite !not_elem_of_cons. intros (H1 & H2 & H3 & H4 & _).
  unfold make_metric. by rewrite !decide_False.
Qed.

Section metrics.
Context `{StdSort} (h : heap) (g : node_map).
Context (T : table_ok h g) (Hn : ∀ l n, h !! l = Some n → is_num (_totalTime n)).
Context (Hsz : (Z.of_nat (size h) < 2 ^ 32)%Z).

(** What [init] makes of the metric of the token [t]. *)
Definition metric_for (t : str) (m : Metric) : Prop :=
  (h ≠ ∅ ∨ t ≠ str_of "tim" → metric_ready m) ∧
  (t = str_of "dot" → m = SimpleDotFile "tdg.dot") ∧
  (h = ∅ → t = str_of "tim" → metric_unset m).

Lemma TotalTime_ready m :
  h ≠ ∅ → TotalTimeMetric_init h g new_TotalTimeMetric = Ok m → metric_ready (TotalTime m).
Proof.
  intros Hne E. destruct (TotalTimeMetric_init_run h g T Hn Hne Hsz) as (m' & st & E' & Es & Ea & _ & E1 & E2 & E3 & _).
  rewrite E in E'. injection E' as <-. unfold metric_ready. rewrite E1, E2, E3, Ea.
  split_and!; eauto. apply run_stats_arr in Es. rewrite Es. intros E0.
  assert (length (std_sort (times_of h (nodes_in_order g).*2)) = size h) as El.
  { by rewrite std_sort_perm, (times_of_table h g T), length_all_times by (by apply strict_weak_table). }
  rewrite E0 in El. symmetry in El. by apply map_size_empty_iff in El.
Qed.

Lemma metric_init_known t : t ∈ known_tokens → ∃ m, metric_init h g (make_metric t) = Ok m ∧ metric_for t m.
Proof.
  unfold known_tokens. rewrite !elem_of_cons, elem_of_nil. intros [->|[->|[->|[->|[]]]]].
  - destruct (decide (h = ∅)) as [->|Hne].
    + assert (g = ∅) as ->.
      { apply map_empty. intros id. destruct (g !! id) as [l|] eqn:E; [|done]. apply T in E as (n & Hl & _).
        by rewrite lookup_empty in Hl. }
      destruct (TotalTimeMetric_empty_graph ∅) as (m & E & _ & Ep). exists (TotalTime m).
      unfold metric_init. cbn [initialized mbind res_bind]. split; [exact (f_equal (fun r => t ← r; Ok (TotalTime t)) E)|].
      split_and!; [by intros [?|?]|done|]. intros _ _. by exists m.
    + destruct (TotalTimeMetric_init_run h g T Hn Hne Hsz) as (m & _ & E & _). exists (TotalTime m).
      split; [exact (f_equal (fun r => t ← r; Ok (TotalTime t)) E)|]. split_and!; [|done|done].
      intros _. by apply TotalTime_ready.
  - by eexists.
  - by eexists.
  - by eexists.
Qed.

Lemma init_all_known ts :
  Forall (fun t => t ∈ known_tokens) ts →
  ∃ ms, init_all h g (make_metric <$> ts) = Ok ms ∧ Forall2 metric_for ts ms.
Proof.
  induction 1 as [|t ts Ht _ IH]; [|rewrite fmap_cons; cbn [init_all]].
  { exists []. split; [done|constructor]. }
  destruct (metric_init_known t Ht) as (m & -> & Hm). destruct IH as (ms & -> & Hms).
  exists (m :: ms). split; [done|by constructor].
Qed.

Lemma metric_for_elem ts ms t : Forall2 metric_for ts ms → t ∈ ts → ∃ m, m ∈ ms ∧ metric_for t m.
Proof.
  intros F [i Hi]%list_elem_of_lookup. destruct (Forall2_lookup_l _ _ _ _ _ F Hi) as (m & Hm & Hf).
  exists m. split; [by eapply list_elem_of_lookup_2|done].
Qed.

(** On a graph with a node, or without the time metric, all can report. *)
Lemma metric_for_ready ts ms :
  h ≠ ∅ ∨ (str_of "tim" ∉ ts) → Forall2 metric_for ts ms → Forall metric_ready ms.
Proof.
  intros Hh F. induction F as [|t m ts ms (Hr & _) _ IH]; constructor.
  - apply Hr. destruct Hh as [?|Hi]; [by left|right]. intros ->. apply Hi. by left.
  - apply IH. destruct Hh as [?|Hi]; [by left|right]. intros Hi'. apply Hi. by right.
Qed.

Lemma metric_for_cases ts ms : Forall2 metric_for ts ms → Forall (fun m => metric_ready m ∨ metric_unset m) ms.
Proof.
  intros F. induction F as [|t m ts ms (Hr & _ & Hu) _ IH]; constructor; [|done].
  destruct (decide (h = ∅)), (decide (t = str_of "tim")); auto.
Qed.

(** A token that names no metric stops the loop at an indeterminate pointer. *)
Lemma init_all_unknown ts t :
  Forall (fun t => t ∈ known_tokens) ts → t ∉ known_tokens → ∀ rest,
  init_all h g (make_metric <$> (ts ++ t :: rest)) = UB Uninitialized.
Proof.
  intros Hts Ht rest. induction Hts as [|t' ts Ht' _ IH]; cbn [app]; rewrite fmap_cons; cbn [init_all].
  - by rewrite make_metric_unknown.
  - destruct (metric_init_known t' Ht') as (m & -> & _). cbn [mbind res_bind]. by rewrite IH.
Qed.
End metrics.

(** ** The state after the callbacks *)

Section session.
Context `{StdSort} (env : Env) (can_open : string → bool).
Context (Clk : clock_ok env) (evts : list Z) (es : list event) (R : rt) (s : state) (G : ghost).
Context (E : run env es (init_state evts) = Ok (tt, s)) (I : inv ∅ ∅ G R s).
Context (Hcalls : (Z.of_nat (ext_calls s) < MAX_CALLS)%Z) (Hsize : (Z.of_nat (size (nodes s)) < INT_MAX)%Z).

Lemma session_printable l n : nodes s !! l = Some n → printable n.
Proof. apply (run_printable env es (init_state evts) s); [|done]. by intros ? ?. Qed.

Lemma session_time l n : nodes s !! l = Some n → time_ok env (ext_calls s) n.
Proof. apply (run_times env Clk es (init_state evts) s); [|done]. by intros ? ?. Qed.

(** The last task is closed. *)
Lemma close_final :
  ∃ s', (if bool_decide (is_Some (g_finalNode s)) then add_time_now env (g_finalNode s) s else Ok (tt, s)) =
      Ok (tt, s') ∧
    g_tdg s' = g_tdg s ∧ same_shape (nodes s) (nodes s') ∧ cp_ready (nodes s') (g_tdg s) ∧
    size (nodes s') = size (nodes s).
Proof.
  pose proof (inv_graph _ _ _ _ _ I) as GI.
  pose proof (inv_unsorted _ _ _ _ _ I) as Hu. pose proof (inv_unscanned _ _ _ _ _ I) as Hun.
  case_bool_decide as Hf.
  - destruct Hf as [l Hl]. rewrite Hl.
    destruct (ob_live _ _ (inv_objects _ _ _ _ _ I) SFinal l) as [n Hn]; [done|].
    exists (set_nodes (<[l := addTime (ftimer env (ext_calls s)) n]> (nodes s))
      (set_ext_calls (S (ext_calls s)) s)).
    split. { unfold add_time_now, ftimer_msec, tick, modify_node, load_node, lift, read, modify, mbind, M_bind.
      cbn. by rewrite (lookup_obj_Some _ _ _ Hn). }
    st_simpl. pose proof (same_shape_addTime _ _ _ (ftimer env (ext_calls s)) Hn) as Sh.
    split; [done|]. split; [done|]. split; [|by rewrite map_size_insert_Some by eauto].
    split; [by eapply shape_wf, GI|by eapply shape_table, GI| | | |].
    + intros l' n'. rewrite lookup_insert_Some. intros [[<- <-]|[_ Hn']]; [exact (Hu l n Hn)|by eapply Hu].
    + intros l' n'. rewrite lookup_insert_Some. intros [[<- <-]|[_ Hn']]; [exact (Hun l n Hn)|by eapply Hun].
    + intros l' n'. rewrite lookup_insert_Some. intros [[<- <-]|[_ Hn']].
      * pose proof (time_ok_add env Clk _ _ (session_time l n Hn)) as Ht. apply Ht. lia.
      * apply (session_time l' n' Hn'). lia.
    + by rewrite map_size_insert_Some by eauto.
  - exists s. split_and!; try done. split; try done; try apply GI.
    intros l n Hn. apply (session_time l n Hn). lia.
Qed.

Context (Hopen : can_open "tdg.dot" = true ∧ can_open "chunks.log" = true).

(** The variable that holds the tokens [ts]; with no token it may not be set. *)
Definition holds_tokens (ts : list str) (v : option str) : Prop := v = Some (join ts) ∨ v = None ∧ ts = [].

Lemma parse_tokens_of ts v :
  holds_tokens ts v → ts = [] ∨ join ts ≠ [] → Forall (fun t => comma ∉ t) ts →
  (Z.of_nat (length (join ts)) < INT_MAX)%Z → parse_tokens v = Ok ts.
Proof.
  intros [->|[-> ->]] Hne Hc Hl; [|done]. destruct Hne as [->|Hne]; [done|].
  rewrite parse_tokens_run by done. rewrite split_join; [done| |done]. by intros ->.
Qed.

(** The end of the session up to the reports. *)
Lemma finalize_starts ts v :
  Forall (fun t => t ∈ known_tokens) ts → holds_tokens ts v → (Z.of_nat (length (join ts)) < INT_MAX)%Z →
  ∃ s' ms, same_shape (nodes s) (nodes s') ∧ cp_ready (nodes s') (g_tdg s) ∧ size (nodes s') = size (nodes s) ∧
    Forall2 (metric_for (nodes s')) ts ms ∧
    finalize_libtdg env can_open s v =
      (r ← res_foldl (metric_print can_open (g_tdg s)) (MkReport (nodes s') [] ∅) ms;
       h ← delete_Graph (rp_nodes r) (g_tdg s);
       Ok (MkReport h (rp_cout r) (rp_files r))).
Proof.
  intros Hk Hv Hl. destruct close_final as (s' & Ec & Eg & Sh & Rd & Esz).
  destruct (init_all_known (nodes s') (g_tdg s) (ready_table _ _ Rd)) with (ts := ts) as (ms & Ei & Hms).
  { intros l n Hn. by apply is_fin_num, (ready_finite _ _ Rd l). }
  { rewrite Esz. unfold INT_MAX in Hsize. lia. }
  { done. }
  exists s', ms. split_and!; try done. unfold finalize_libtdg. rewrite Ec. cbn [mbind res_bind].
  rewrite (parse_tokens_of ts); [|done| |by apply known_no_comma|done].
  - cbn [mbind res_bind]. rewrite Eg, Ei. done.
  - destruct Hk as [|t ts Ht _]; [by left|right]. apply join_known in Ht. by destruct ts, t.
Qed.

(** On a graph without nodes the time metric reads its indeterminate average. *)
Lemma finalize_empty ts v :
  Forall (fun t => t ∈ known_tokens) ts → holds_tokens ts v → (Z.of_nat (length (join ts)) < INT_MAX)%Z →
  nodes s = ∅ → str_of "tim" ∈ ts → finalize_libtdg env can_open s v = UB Uninitialized.
Proof.
  intros Hk Hv Hl Hs Hin. destruct (finalize_starts ts v Hk Hv Hl) as (s' & ms & Sh & Rd & Esz & Hms & ->).
  pose proof (inv_graph _ _ _ _ _ I) as GI.
  assert (nodes s' = ∅) as He by (apply map_size_empty_iff; rewrite Esz, Hs; apply map_size_empty).
  destruct (metric_for_elem _ ts ms _ Hms Hin) as (m & Hm & _ & _ & Hu).
  rewrite (metric_print_unset can_open (nodes s) (g_tdg s) (gi_wf _ _ _ GI) (gi_table _ _ _ GI) session_printable Hopen ms m);
    [done|by split; [split; [|left]|done]|by eapply metric_for_cases|done|by apply Hu].
Qed.

Lemma finalize_known ts v :
  Forall (fun t => t ∈ known_tokens) ts → holds_tokens ts v → (Z.of_nat (length (join ts)) < INT_MAX)%Z →
  nodes s ≠ ∅ ∨ (str_of "tim" ∉ ts) →
  ∃ r, finalize_libtdg env can_open s v = Ok r ∧ rp_nodes r = ∅ ∧
    (str_of "dot" ∈ ts → ∃ out, rp_files r !! "tdg.dot" = Some out ∧ dot_shows (nodes s) out).
Proof.
  intros Hk Hv Hl Hs. destruct (finalize_starts ts v Hk Hv Hl) as (s' & ms & Sh & Rd & Esz & Hms & ->).
  pose proof (inv_graph _ _ _ _ _ I) as GI.
  assert (nodes s' ≠ ∅ ∨ (str_of "tim" ∉ ts)) as Hs'.
  { destruct Hs as [Hs|?]; [left|by right]. rewrite <- map_size_non_empty_iff, Esz. by apply map_size_non_empty_iff. }
  destruct (metric_print_all can_open (nodes s) (g_tdg s) (gi_wf _ _ _ GI) (gi_table _ _ _ GI)
    session_printable Hopen ms (MkReport (nodes s') [] ∅)) as (r & Er & [F D] & K);
    [by split; [split; [|left]|done]|by eapply metric_for_ready|].
  rewrite Er. cbn [mbind res_bind]. pose proof (shape_table _ _ (fr_shape _ _ _ F) _ (gi_table _ _ _ GI)) as T.
  unfold delete_Graph.
  rewrite delete_nodes_all; [|by eapply nodes_in_order_NoDup|intros l; by apply nodes_in_order_live].
  eexists. split; [done|]. split; [done|]. simpl. intros Hin.
  destruct (metric_for_elem _ ts ms _ Hms Hin) as (m & Hm & _ & Hd & _). rewrite (Hd eq_refl) in Hm.
  destruct K as [out Ho]; [by right|]. eauto.
Qed.

Lemma finalize_unknown ts1 t ts2 :
  Forall (fun t => comma ∉ t) (ts1 ++ t :: ts2) → Forall (fun t => t ∈ known_tokens) ts1 → t ∉ known_tokens →
  join (ts1 ++ t :: ts2) ≠ [] → (Z.of_nat (length (join (ts1 ++ t :: ts2))) < INT_MAX)%Z →
  finalize_libtdg env can_open s (Some (join (ts1 ++ t :: ts2))) = UB Uninitialized.
Proof.
  intros Hc Hk Hu Hj Hl. destruct close_final as (s' & Ec & Eg & Sh & Rd & Esz).
  unfold finalize_libtdg. rewrite Ec. cbn [mbind res_bind].
  rewrite (parse_tokens_of (ts1 ++ t :: ts2) _ (or_introl eq_refl) (or_intror Hj) Hc Hl). cbn [mbind res_bind]. rewrite Eg.
  rewrite (init_all_unknown (nodes s') (g_tdg s)); try done.
  - apply Rd.
  - intros l n Hn. by apply is_fin_num, (ready_finite _ _ Rd l).
  - rewrite Esz. unfold INT_MAX in Hsize. lia.
Qed.
End session.

(** ** The clock of the tool *)

(** The environment reads the clock of [timer.c] with frequency [g_timerfreq]:
    the counter is a 64-bit number that does not run backwards. *)
Record tsc_clock (env : Env) (g_timerfreq : Z) (tsc : nat → Z) : Prop := {
  tc_read : ∀ k, ftimer env k = get_clock_time g_timerfreq (tsc k);
  tc_range : ∀ k, (0 ≤ tsc k < 2 ^ 64)%Z;
  tc_mono : ∀ j k, j ≤ k → (tsc j ≤ tsc k)%Z }.

Lemma tsc_clock_ok env f tsc : tsc_clock env f tsc → (1 ≤ f < 2 ^ 64)%Z → clock_ok env.
Proof.
  intros [Hr Ht Hm] Hf.
  assert (∀ k, ftimer env k = HRT_GET_MSEC f (tsc k)) as E by (intros k; rewrite Hr; unfold get_clock_time; by rewrite get_time_tsc).
  split; intros; rewrite !E; [by apply msec_range| |by apply msec_mono; [done|split; [apply Ht|apply Hm]|apply Ht]].
  destruct (msec_range f (tsc k) Hf (Ht k)) as [_ H]. pose proof (pow2_le 1149 2044 ltac:(lia)). unfold TMAX. lia.
Qed.

(** ** A sample session *)

(** A counter of 1000 ticks per second, which ticks with every call until it
    stops at 8. *)
Definition session_tsc (k : nat) : Z := Z.of_nat (Nat.min k 8).

Definition session_env : Env :=
  MkEnv (fun k => get_clock_time 1000 (session_tsc k)) (fun _ => (PAPI_OK, 7%Z)) (fun _ _ _ => PAPI_OK)
    (fun _ _ => PAPI_OK) (fun _ _ => PAPI_OK) (fun _ _ => [5%Z; 6%Z]).

Lemma session_clock : tsc_clock session_env 1000 session_tsc.
Proof. split; unfold session_tsc; [done|intros; lia..]. Qed.

Lemma session_papi : papi_ok session_env 2.
Proof. by split. Qed.

Definition session_start : state := init_state [50; 7]%Z.

Lemma session_runs :
  ∃ s, run session_env sample_trace session_start = Ok (tt, s) ∧ (Z.of_nat (ext_calls s) < MAX_CALLS)%Z ∧
    (Z.of_nat (size (nodes s)) < INT_MAX)%Z ∧ nodes s ≠ ∅ ∧
    map_Forall (fun _ n => is_fin (_totalTime n)) (nodes s).
Proof.
  destruct (run session_env sample_trace session_start) as [[[] s]| | |] eqn:E; vm_compute in E; try discriminate E.
  exists s. split; [done|]. injection E as <-. split; [by vm_compute|]. split; [by vm_compute|].
  split; [by vm_compute|]. apply (bool_decide_unpack _). vm_compute. exact Logic.I.
Qed.

(** ** Properties *)

(** C23. Whatever the order of the callbacks, when they have returned every
    chunk has its loop number and its thread, and the counter array of a node
    is as long as its number of events: the printers read nothing
    indeterminate and nothing outside an array. *)
Theorem chunks_printable env evts es s :
  run env es (init_state evts) = Ok (tt, s) → ∀ l n, nodes s !! l = Some n → printable n.
Proof. intros E l n. by eapply session_printable. Qed.

Lemma chunks_printable_witness :
  ∃ s, run session_env sample_trace session_start = Ok (tt, s) ∧ ∀ l n, nodes s !! l = Some n → printable n.
Proof.
  destruct session_runs as (s & E & _). exists s. split; [exact E|].
  apply (chunks_printable session_env [50; 7]%Z sample_trace s). exact E.
Defined.

(** C21. With the clock of [timer.c], a frequency that is not zero and a counter
    that does not run backwards, the time of every node is finite and not
    negative, for every order of the callbacks and as long as fewer than [2^52]
    outside calls have been made. *)
Theorem times_finite env fuel file sleep_tsc g_timerfreq tsc evts es s :
  init_clock_time fuel file sleep_tsc = Ok g_timerfreq → g_timerfreq ≠ 0%Z → tsc_clock env g_timerfreq tsc →
  run env es (init_state evts) = Ok (tt, s) → (Z.of_nat (ext_calls s) < MAX_CALLS)%Z →
  ∀ l n, nodes s !! l = Some n → is_fin (_totalTime n) ∧ (0 ≤ dval (_totalTime n))%Z.
Proof.
  intros Hi Hne Hc E Hk l n Hn. apply init_clock_time_range in Hi.
  assert (clock_ok env) as Clk by (eapply tsc_clock_ok; [done|lia]).
  destruct (session_time env Clk evts es s E l n Hn) as (H1 & H2 & _); [lia|]. split; [done|apply H2].
Qed.

Lemma times_finite_witness :
  ∃ s, run session_env sample_trace session_start = Ok (tt, s) ∧
    ∀ l n, nodes s !! l = Some n → is_fin (_totalTime n) ∧ (0 ≤ dval (_totalTime n))%Z.
Proof.
  destruct session_runs as (s & E & Hc & _). exists s. split; [exact E|].
  apply (times_finite session_env 0 (FirstLine (d_of_Z 1000)) (fun _ => (0, 0)%Z) 1000 session_tsc [50; 7]%Z sample_trace s).
  - vm_compute. reflexivity.
  - discriminate.
  - exact session_clock.
  - exact E.
  - exact Hc.
Defined.

(** C1. A whole session: when [init_libtdg] has returned with a frequency that is
    not zero, PAPI works, the counter does not run backwards and the two output
    files can be opened, every sequence of fewer than 2^61 callbacks that the runtime
    may produce returns.  If the graph it leaves has fewer than [INT_MAX] nodes, and
    the clock was read fewer than 2^52 times, [finalize_libtdg] then
    runs any list of the metrics [tim], [cri], [dot] and [log], repetitions
    included, or none:
    - on a graph with a node, or without [tim], there is no undefined behaviour,
      every node is freed, and the dot file, if asked for, shows exactly the nodes
      and edges of the graph that the callbacks built;
    - on a graph without nodes, [tim] is undefined behaviour: the report reads the
      average, which nothing has initialised. *)
Theorem session_complete `{StdSort} fuel ie papi_env env tsc can_open es R s0 g_timerfreq out :
  init_libtdg fuel ie papi_env = Ok (s0, g_timerfreq, out, 1%Z) → g_timerfreq ≠ 0%Z →
  papi_ok env (g_papiNumEvents s0) → tsc_clock env g_timerfreq tsc →
  rt_run rt_init es = Some R → (Z.of_nat (length es) < 2 ^ 61)%Z →
  can_open "tdg.dot" = true ∧ can_open "chunks.log" = true →
  ∃ s, run env es s0 = Ok (tt, s) ∧
    ((Z.of_nat (ext_calls s) < MAX_CALLS)%Z → (Z.of_nat (size (nodes s)) < INT_MAX)%Z →
     ∀ ts v, Forall (fun t => t ∈ known_tokens) ts → holds_tokens ts v → (Z.of_nat (length (join ts)) < INT_MAX)%Z →
     (nodes s ≠ ∅ ∨ (str_of "tim" ∉ ts) →
       ∃ r, finalize_libtdg env can_open s v = Ok r ∧ rp_nodes r = ∅ ∧
         (str_of "dot" ∈ ts → ∃ dot, rp_files r !! "tdg.dot" = Some dot ∧ dot_shows (nodes s) dot)) ∧
     (nodes s = ∅ → str_of "tim" ∈ ts → finalize_libtdg env can_open s v = UB Uninitialized)).
Proof.
  intros E0 Hne PO Hc HR Hlen Hopen. destruct (init_libtdg_state _ _ _ _ _ _ E0) as [[evts ->] Ef%init_clock_time_range].
  assert (clock_ok env) as Clk by (eapply tsc_clock_ok; [done|lia]).
  destruct (run_inv_exists env evts es R PO HR Hlen) as (s & G & E & I).
  exists s. split; [done|]. intros Hk Hs ts v Hts Hv Hl. split; [by eapply finalize_known|by eapply finalize_empty].
Qed.

Lemma session_complete_witness :
  ∃ s r, run session_env sample_trace session_start = Ok (tt, s) ∧
    finalize_libtdg session_env (fun _ => true) s (Some (join known_tokens)) = Ok r ∧ rp_nodes r = ∅ ∧
    ∃ dot, rp_files r !! "tdg.dot" = Some dot ∧ dot_shows (nodes s) dot.
Proof.
  destruct sample_allowed as [R HR]. destruct session_runs as (s & E & Hc & Hs & Hne & _).
  destruct (session_complete 0 sample_init (Some (join sample_events)) session_env session_tsc (fun _ => true)
    sample_trace R session_start 1000
    [Str "libtdg: initialize..."; endl; Str "Timer: cycles per sec = "; Int 1000; endl]) as (s' & E' & H).
  - vm_compute. reflexivity.
  - discriminate.
  - exact session_papi.
  - exact session_clock.
  - exact HR.
  - vm_compute. reflexivity.
  - split; reflexivity.
  - assert (s' = s) as -> by congruence.
    destruct (H Hc Hs known_tokens (Some (join known_tokens))) as [(r & Er & Hn & Hd) _].
    + apply Forall_forall. intros t Ht. exact Ht.
    + left. reflexivity.
    + vm_compute. reflexivity.
    + left. exact Hne.
    + exists s, r. split; [exact E|]. split; [exact Er|]. split; [exact Hn|]. apply Hd.
      unfold known_tokens. right. right. left.
Defined.

(** C34. A token that names no metric, such as the empty one after a trailing
    comma, leaves its array element unassigned: [finalize_libtdg] calls
    [init] through an indeterminate pointer. *)
Theorem unknown_metric_undefined `{StdSort} env g_timerfreq tsc can_open evts es R ts1 t ts2 :
  papi_ok env (Z.of_nat (length evts)) → (1 ≤ g_timerfreq < 2 ^ 64)%Z → tsc_clock env g_timerfreq tsc →
  rt_run rt_init es = Some R → (Z.of_nat (length es) < 2 ^ 61)%Z →
  Forall (fun t => t ∈ known_tokens) ts1 → t ∉ known_tokens →
  Forall (fun t => comma ∉ t) (ts1 ++ t :: ts2) → join (ts1 ++ t :: ts2) ≠ [] →
  (Z.of_nat (length (join (ts1 ++ t :: ts2))) < INT_MAX)%Z →
  ∃ s, run env es (init_state evts) = Ok (tt, s) ∧
    ((Z.of_nat (ext_calls s) < MAX_CALLS)%Z → (Z.of_nat (size (nodes s)) < INT_MAX)%Z →
     finalize_libtdg env can_open s (Some (join (ts1 ++ t :: ts2))) = UB Uninitialized).
Proof.
  intros PO Hf Htc HR Hlen H1 Ht Hc Hj Hl. assert (clock_ok env) as Clk by (by eapply tsc_clock_ok).
  destruct (run_inv_exists env evts es R PO HR Hlen) as (s & G & E & I).
  exists s. split; [done|]. intros. by eapply (finalize_unknown env can_open).
Qed.

Lemma unknown_metric_undefined_witness :
  ∃ s, run session_env sample_trace session_start = Ok (tt, s) ∧
    finalize_libtdg session_env (fun _ => true) s (Some (str_of "tim,")) = UB Uninitialized.
Proof.
  destruct sample_allowed as [R HR]. destruct session_runs as (s & E & Hc & Hs & Hne & _).
  destruct (unknown_metric_undefined session_env 1000 session_tsc (fun _ => true) [50; 7]%Z sample_trace R [str_of "tim"] [] [])
    as (s' & E' & H).
  - exact session_papi.
  - lia.
  - exact session_clock.
  - exact HR.
  - vm_compute. reflexivity.
  - repeat constructor.
  - by apply (bool_decide_unpack _).
  - repeat constructor; by apply (bool_decide_unpack _).
  - discriminate.
  - vm_compute. reflexivity.
  - assert (s' = s) as -> by (unfold session_start in E; congruence).
    exists s. split; [exact E|]. exact (H Hc Hs).
Defined.
