(* ===== verification/Examples.v ===== *)
(** * The functions of the example programs (fib/fib.cc, mm/omp_mm.c)

    Two OpenMP programs that come with the tool: Fibonacci numbers with a task for
    each recursive call, and a matrix product whose rows are shared out among the
    threads in chunks. *)
From stdpp Require Import base numbers list.
From Stdlib Require Import ZArith Lia SpecFloat.
From S2P Require Import Prelude Float64.

(** ** fib.cc *)

(** [fib]: the two tasks are complete at the [taskwait]; the sum is an
    [unsigned int]. *)
Fixpoint fib (n : nat) : Z :=
  match n with
  | 0 => 0
  | 1 => 1
  | S (S n2 as n1) =>
      let prev_num := fib n1 in
      let prev_prev_num := fib n2 in
      u32 (prev_prev_num + prev_num)
  end.

(** The tasks that the call creates. *)
Fixpoint fib_tasks (n : nat) : Z :=
  match n with
  | 0 | 1 => 0
  | S (S n2 as n1) => 1 + fib_tasks n1 + (1 + fib_tasks n2)
  end.

(** The Fibonacci numbers, by iteration on a pair of neighbours. *)
Definition fib_pair (n : nat) : Z * Z := Nat.iter n (fun p => (p.2, p.1 + p.2)%Z) (0, 1)%Z.
Definition F (n : nat) : Z := (fib_pair n).1.

Lemma F_next n : (fib_pair n).2 = F (S n).
Proof. done. Qed.

Lemma F_SS n : F (S (S n)) = (F n + F (S n))%Z.
Proof. done. Qed.

Lemma nat_pair_ind (P : nat → Prop) : P 0 → P 1 → (∀ n, P n → P (S n) → P (S (S n))) → ∀ n, P n.
Proof. intros H0 H1 HS n. assert (P n ∧ P (S n)) as [? _]; [|done]. induction n as [|n [IH1 IH2]]; auto. Qed.

Lemma fib_run n : fib n = u32 (F n).
Proof.
  induction n as [| |n IH1 IH2] using nat_pair_ind; [done..|].
  change (fib (S (S n))) with (u32 (fib n + fib (S n))). rewrite IH1, IH2, F_SS.
  rewrite u32_add, Z.add_comm, u32_add. f_equal. lia.
Qed.

Lemma fib_tasks_run n : (fib_tasks n + 2 = 2 * F (S n))%Z.
Proof.
  induction n as [| |n IH1 IH2] using nat_pair_ind; [done..|].
  change (fib_tasks (S (S n))) with (1 + fib_tasks (S n) + (1 + fib_tasks n))%Z. rewrite F_SS. lia.
Qed.

(** ** omp_mm.c *)

(** Signed 32-bit multiplication: overflow is undefined behaviour. *)
Definition int_mul (a b : Z) : res Z :=
  let c := (a * b)%Z in
  if (INT_MIN <=? c)%Z && (c <=? INT_MAX)%Z then Ok c else UB SignedOverflow.

(** The position [i*col + j] of [MATV]. *)
Definition mat_index (i j col : nat) : res nat :=
  p ← int_mul (Z.of_nat i) (Z.of_nat col);
  q ← int_add p (Z.of_nat j);
  Ok (Z.to_nat q).

Definition MATV (m : list double) (i j col : nat) : res double :=
  q ← mat_index i j col;
  match m !! q with Some v => Ok v | None => UB OutOfRange end.

Definition set_MATV (m : list double) (i j col : nat) (v : double) : res (list double) :=
  q ← mat_index i j col;
  if decide (q < length m) then Ok (<[q := v]> m) else UB OutOfRange.

Section product.
Context (NRA NCA NCB : nat) (a b : list double).

(** The body of the innermost loop, [c[i][j] += a[i][k] * b[k][j]]. *)
Definition mm_update (c : list double) (ijk : nat * nat * nat) : res (list double) :=
  let '(i, j, k) := ijk in
  x ← MATV a i k NCA;
  y ← MATV b k j NCB;
  v ← MATV c i j NCB;
  set_MATV c i j NCB (dadd v (dmul x y)).

(** The iterations of row [i] of the outer loop, in order. *)
Definition row_loop (i : nat) : list (nat * nat * nat) :=
  j ← seq 0 NCB; k ← seq 0 NCA; [(i, j, k)].

(** The loop of the warm-up, by one thread. *)
Definition mm_serial (c : list double) : res (list double) :=
  res_foldl mm_update c (seq 0 NRA ≫= row_loop).
End product.

(** An interleaving of the rows, however they are shared out among the threads:
    each row keeps its order. *)
Inductive merge {A} : list (list A) → list A → Prop :=
  | merge_nil ls : Forall (eq []) ls → merge ls []
  | merge_cons ls i x l us : ls !! i = Some (x :: l) → merge (<[i := l]> ls) us → merge ls (x :: us).

(** The value of an element of the product. *)
Definition dot (a b : list double) (NCA NCB i j : nat) (v : double) (ks : list nat) : double :=
  foldl (fun v k => dadd v (dmul (default dzero (a !! (i * NCA + k))) (default dzero (b !! (k * NCB + j))))) v ks.

(** *** Interleavings *)

(** The elements that only one of the lists has come in the order of that list. *)
Lemma merge_filter {A} (P : A → Prop) `{!∀ x, Decision (P x)} (ls : list (list A)) us i l :
  merge ls us → ls !! i = Some l → (∀ j l', ls !! j = Some l' → j ≠ i → filter P l' = []) →
  filter P us = filter P l.
Proof.
  intros M. revert l. induction M as [ls Hn|ls j x l us Hj _ IH]; intros l0 Hi Hother.
  - rewrite Forall_lookup in Hn. by rewrite <- (Hn i l0 Hi).
  - assert (j < length ls) as Hlt by (by eapply lookup_lt_Some).
    destruct (decide (j = i)) as [->|Hne].
    + simplify_eq. rewrite !filter_cons. rewrite (IH l); [done|by rewrite list_lookup_insert_eq|].
      intros k l' Hk Hki. rewrite list_lookup_insert_ne in Hk by done. by eapply Hother.
    + pose proof (Hother j _ Hj Hne) as Hx. rewrite filter_cons in Hx. rewrite filter_cons.
      destruct (decide (P x)); [done|]. apply IH; [by rewrite list_lookup_insert_ne|].
      intros k l' Hk Hki. apply list_lookup_insert_Some in Hk as [(<- & <- & _)|[_ Hk]]; [done|by eapply Hother].
Qed.

Lemma merge_elem {A} (ls : list (list A)) us x : merge ls us → x ∈ us → ∃ l, l ∈ ls ∧ x ∈ l.
Proof.
  induction 1 as [ls Hn|ls j y l us Hj _ IH]; [by intros ?%elem_of_nil|].
  intros [->|Hx]%elem_of_cons; [exists (y :: l); split; [by eapply list_elem_of_lookup_2|left]|].
  destruct (IH Hx) as (l' & Hl' & Hxl'). apply list_elem_of_lookup in Hl' as [k Hk].
  apply list_lookup_insert_Some in Hk as [(<- & <- & _)|[_ Hk]]; [exists (y :: l)|exists l'];
    (split; [by eapply list_elem_of_lookup_2|]); [by right|done].
Qed.

(** One after the other is an interleaving. *)
Lemma merge_concat {A} (ls : list (list A)) : merge ls (mjoin ls).
Proof.
  assert (∀ done ls : list (list A), Forall (eq []) done → merge (done ++ ls) (mjoin ls)) as H; [|by apply (H [])].
  clear ls. intros dn ls. revert dn. induction ls as [|l ls IH]; intros dn Hd; simpl.
  - rewrite app_nil_r. by constructor.
  - induction l as [|x l IHl]; simpl.
    + change ([] :: ls) with ([[]] ++ ls). rewrite app_assoc. apply IH. apply Forall_app. split; [done|by constructor].
    + apply (merge_cons _ (length dn) x l); [by rewrite list_lookup_middle|].
      by rewrite insert_app_r_alt, Nat.sub_diag by done.
Qed.

Lemma bind_as_join {A B} (f : A → list B) l : l ≫= f = mjoin (f <$> l).
Proof. induction l as [|x l IH]; [done|]. rewrite bind_cons, fmap_cons, IH. done. Qed.

(** *** Indices *)

Lemma mat_index_ok i j rows col :
  i < rows → j < col → (Z.of_nat (rows * col) ≤ INT_MAX)%Z → mat_index i j col = Ok (i * col + j) ∧ i * col + j < rows * col.
Proof.
  intros Hi Hj Hm. assert (i * col + j < rows * col) as Hlt by nia. split; [|done].
  unfold mat_index, int_mul, INT_MIN, INT_MAX in *.
  rewrite (proj2 (Z.leb_le _ _)), (proj2 (Z.leb_le _ _)) by lia. cbn [andb mbind res_bind].
  assert (int_add (Z.of_nat i * Z.of_nat col) (Z.of_nat j) = Ok (Z.of_nat (i * col + j))) as ->.
  { unfold int_add, INT_MIN, INT_MAX. rewrite (proj2 (Z.leb_le _ _)), (proj2 (Z.leb_le _ _)) by lia. simpl. f_equal. lia. }
  cbn [mbind res_bind]. by rewrite Nat2Z.id.
Qed.

Lemma MATV_ok m i j rows col :
  i < rows → j < col → (Z.of_nat (rows * col) ≤ INT_MAX)%Z → length m = rows * col →
  ∃ v, MATV m i j col = Ok v ∧ m !! (i * col + j) = Some v.
Proof.
  intros Hi Hj Hm Hl. destruct (mat_index_ok i j rows col Hi Hj Hm) as [E Hlt]. unfold MATV. rewrite E. cbn [mbind res_bind].
  destruct (lookup_lt_is_Some_2 m (i * col + j)) as [v Hv]; [lia|]. exists v. by rewrite Hv.
Qed.

Lemma index_inj i j i' j' col : j < col → j' < col → i * col + j = i' * col + j' → i = i' ∧ j = j'.
Proof. intros. assert (i = i') by nia. lia. Qed.

(** *** The iterations of an element *)

Section rows.
Context (NRA NCA NCB : nat).

Definition inside (ijk : nat * nat * nat) : Prop := ijk.1.1 < NRA ∧ ijk.1.2 < NCB ∧ ijk.2 < NCA.

Definition at_ij (i j : nat) (ijk : nat * nat * nat) : Prop := ijk.1 = (i, j).

#[export] Instance at_ij_dec i j ijk : Decision (at_ij i j ijk).
Proof. unfold at_ij. apply _. Defined.

Lemma elem_row_loop i x : x ∈ row_loop NCA NCB i ↔ x.1.1 = i ∧ x.1.2 < NCB ∧ x.2 < NCA.
Proof.
  unfold row_loop. rewrite list_elem_of_bind. setoid_rewrite list_elem_of_bind. setoid_rewrite list_elem_of_singleton.
  setoid_rewrite elem_of_seq. destruct x as [[i' j] k]. cbn [fst snd]. split.
  - intros (j' & (k' & [= -> -> ->] & ?) & ?). lia.
  - intros (-> & ? & ?). exists j. split; [|lia]. exists k. split; [done|lia].
Qed.

(** The iterations of one element among those of its row. *)
Lemma column_filter i j j' ks :
  snd <$> filter (at_ij i j) (ks ≫= (fun k => [(i, j', k)])) = if decide (j' = j) then ks else [].
Proof.
  induction ks as [|k ks IH]; [by case_decide|]. rewrite bind_cons, filter_app, fmap_app, IH.
  rewrite filter_cons, filter_nil. unfold at_ij. cbn [fst].
  repeat case_decide; naive_solver.
Qed.

Lemma row_filter i j js ks :
  NoDup js →
  snd <$> filter (at_ij i j) (js ≫= (fun j' => ks ≫= (fun k => [(i, j', k)]))) = if decide (j ∈ js) then ks else [].
Proof.
  induction 1 as [|j' js Hj' _ IH]; [done|]. rewrite bind_cons, filter_app, fmap_app, IH, column_filter.
  destruct (decide (j' = j)) as [->|Hne].
  - rewrite (decide_False (P := j ∈ js)) by done. by rewrite decide_True, app_nil_r by left.
  - apply decide_ext. rewrite elem_of_cons. naive_solver.
Qed.

Lemma row_loop_filter i j : j < NCB → snd <$> filter (at_ij i j) (row_loop NCA NCB i) = seq 0 NCA.
Proof.
  intros Hj. unfold row_loop. rewrite row_filter by apply NoDup_seq. apply decide_True, elem_of_seq. lia.
Qed.

Lemma merge_rows us :
  merge (row_loop NCA NCB <$> seq 0 NRA) us →
  Forall inside us ∧ ∀ i j, i < NRA → j < NCB → snd <$> filter (at_ij i j) us = seq 0 NCA.
Proof.
  intros M. split.
  - apply Forall_forall. intros x Hx. destruct (merge_elem _ us x M Hx) as (l & Hl & Hxl).
    apply list_elem_of_fmap in Hl as (i & -> & Hi%elem_of_seq). apply elem_row_loop in Hxl as (E & H1 & H2).
    unfold inside. rewrite E. lia.
  - intros i j Hi Hj. rewrite (merge_filter (at_ij i j) _ us i (row_loop NCA NCB i) M).
    + by apply row_loop_filter.
    + by rewrite list_lookup_fmap, lookup_seq_lt by done.
    + intros i' l Hl Hne. rewrite list_lookup_fmap in Hl. destruct (seq 0 NRA !! i') as [r|] eqn:Er; [|done].
      apply lookup_seq in Er as [-> _]. injection Hl as <-. apply elem_of_nil_inv.
      intros x [Hx Hr]%list_elem_of_filter. apply elem_row_loop in Hr as [E _]. unfold at_ij in Hx. rewrite Hx in E. simpl in E. lia.
Qed.
End rows.

(** *** The product *)

Section mm.
Context (NRA NCA NCB : nat) (a b : list double).
Context (La : length a = NRA * NCA) (Lb : length b = NCA * NCB).
Context (Ha : (Z.of_nat (NRA * NCA) ≤ INT_MAX)%Z) (Hb : (Z.of_nat (NCA * NCB) ≤ INT_MAX)%Z)
  (Hc : (Z.of_nat (NRA * NCB) ≤ INT_MAX)%Z).

Lemma mm_update_run c i j k :
  length c = NRA * NCB → inside NRA NCA NCB (i, j, k) →
  ∃ v, c !! (i * NCB + j) = Some v ∧
    mm_update NCA NCB a b c (i, j, k) = Ok (<[i * NCB + j := dot a b NCA NCB i j v [k]]> c).
Proof.
  intros Lc (Hi & Hj & Hk). cbn [fst snd] in *.
  destruct (MATV_ok a i k NRA NCA Hi Hk Ha La) as (x & Ex & Hx). destruct (MATV_ok b k j NCA NCB Hk Hj Hb Lb) as (y & Ey & Hy).
  destruct (MATV_ok c i j NRA NCB Hi Hj Hc Lc) as (v & Ev & Hv). exists v. split; [done|].
  unfold mm_update. rewrite Ex, Ey, Ev. cbn [mbind res_bind]. unfold set_MATV.
  destruct (mat_index_ok i j NRA NCB Hi Hj Hc) as [-> Hlt]. cbn [mbind res_bind]. rewrite decide_True by lia.
  unfold dot. cbn [foldl]. by rewrite Hx, Hy.
Qed.

(** Any sequence of updates inside the matrices: each element gets its own
    updates, in their order. *)
Lemma mm_updates_run us c :
  length c = NRA * NCB → Forall (inside NRA NCA NCB) us →
  ∃ c', res_foldl (mm_update NCA NCB a b) c us = Ok c' ∧ length c' = length c ∧
    ∀ i j v, j < NCB → c !! (i * NCB + j) = Some v →
      c' !! (i * NCB + j) = Some (dot a b NCA NCB i j v (snd <$> filter (at_ij i j) us)).
Proof.
  revert c. induction us as [|[[i j] k] us IH]; intros c Lc Hus; [by exists c|].
  apply Forall_cons in Hus as [Hin Hus]. destruct (mm_update_run c i j k Lc Hin) as (v & Hv & E).
  destruct (IH (<[i * NCB + j := dot a b NCA NCB i j v [k]]> c)) as (c' & E' & Lc' & Hc'); [by rewrite length_insert|done|].
  exists c'. cbn [res_foldl]. rewrite E. cbn [mbind res_bind]. split; [done|]. split; [by rewrite Lc', length_insert|].
  intros i' j' w Hj' Hw. rewrite filter_cons. destruct Hin as (_ & Hj & _). cbn [fst snd] in Hj.
  destruct (decide (at_ij i' j' (i, j, k))) as [Eij|Hne]; unfold at_ij in *; cbn [fst] in *.
  - injection Eij as -> ->. simplify_eq. apply Hc'; [done|]. apply list_lookup_insert_eq. by eapply lookup_lt_Some.
  - apply Hc'; [done|]. rewrite list_lookup_insert_ne; [done|]. intros Eq. apply index_inj in Eq as [-> ->]; done.
Qed.

End mm.

(** *** Properties *)

(** [fib] computes the Fibonacci number of its argument modulo [2^32], and
    creates two tasks less than twice the next Fibonacci number. *)
Theorem fib_correct n : fib n = u32 (F n) ∧ fib_tasks n = (2 * F (S n) - 2)%Z.
Proof. pose proof (fib_tasks_run n). split; [apply fib_run|lia]. Qed.

(** The matrix product does not depend on the schedule.  For matrices whose
    sizes fit an [int], every interleaving of the rows stays inside the arrays and
    gives each element the same sum of products, added in the order of the inner
    loop, bit for bit; it is the result of the loop of one thread. *)
Theorem mm_schedule_independent NRA NCA NCB a b c us :
  length a = NRA * NCA → length b = NCA * NCB → length c = NRA * NCB →
  (Z.of_nat (NRA * NCA) ≤ INT_MAX)%Z → (Z.of_nat (NCA * NCB) ≤ INT_MAX)%Z → (Z.of_nat (NRA * NCB) ≤ INT_MAX)%Z →
  merge (row_loop NCA NCB <$> seq 0 NRA) us →
  ∃ c', res_foldl (mm_update NCA NCB a b) c us = Ok c' ∧ mm_serial NRA NCA NCB a b c = Ok c' ∧
    ∀ i j v, i < NRA → j < NCB → c !! (i * NCB + j) = Some v →
      c' !! (i * NCB + j) = Some (dot a b NCA NCB i j v (seq 0 NCA)).
Proof.
  intros La Lb Lc Ha Hb Hc M.
  assert (merge (row_loop NCA NCB <$> seq 0 NRA) (seq 0 NRA ≫= row_loop NCA NCB)) as M'
    by (rewrite bind_as_join; apply merge_concat).
  destruct (merge_rows NRA NCA NCB us M) as [I F]. destruct (merge_rows NRA NCA NCB _ M') as [I' F'].
  destruct (mm_updates_run NRA NCA NCB a b La Lb Ha Hb Hc us c Lc I) as (c1 & E1 & L1 & H1).
  destruct (mm_updates_run NRA NCA NCB a b La Lb Ha Hb Hc _ c Lc I') as (c2 & E2 & L2 & H2).
  assert (∀ i j v, i < NRA → j < NCB → c !! (i * NCB + j) = Some v →
    c1 !! (i * NCB + j) = Some (dot a b NCA NCB i j v (seq 0 NCA))) as H.
  { intros i j v Hi Hj Hv. rewrite (H1 i j v) by done. by rewrite F. }
  exists c1. split; [done|]. split; [|done]. unfold mm_serial. rewrite E2. f_equal. apply list_eq. intros q.
  destruct (decide (q < NRA * NCB)) as [Hq|Hq]; [|by rewrite !lookup_ge_None_2 by lia].
  assert (NCB ≠ 0) by lia. assert (q = q / NCB * NCB + q mod NCB) as -> by (rewrite (Nat.div_mod_eq q NCB) at 1; lia).
  assert (q / NCB < NRA) by (apply Nat.Div0.div_lt_upper_bound; lia). assert (q mod NCB < NCB) by (apply Nat.mod_upper_bound; done).
  destruct (lookup_lt_is_Some_2 c (q / NCB * NCB + q mod NCB)) as [v Hv]; [nia|].
  rewrite (H _ _ v), (H2 _ _ v), F' by done. done.
Qed.

Lemma mm_schedule_independent_witness :
  ∃ c', res_foldl (mm_update 1 1 [d_of_Z 2; d_of_Z 3] [d_of_Z 5]) [dzero; dzero] [(1, 0, 0); (0, 0, 0)] = Ok c' ∧
    mm_serial 2 1 1 [d_of_Z 2; d_of_Z 3] [d_of_Z 5] [dzero; dzero] = Ok c'.
Proof.
  destruct (mm_schedule_independent 2 1 1 [d_of_Z 2; d_of_Z 3] [d_of_Z 5] [dzero; dzero] [(1, 0, 0); (0, 0, 0)])
    as (c' & E1 & E2 & _); try reflexivity; try (vm_compute; discriminate).
  - apply (merge_cons _ 1 (1, 0, 0) []); [reflexivity|]. apply (merge_cons _ 0 (0, 0, 0) []); [reflexivity|].
    constructor. repeat constructor.
  - by exists c'.
Defined.
