(* ===== verification/MatMul.v ===== *)
(** * The matrix product as a whole (mm/omp_mm.c)

    [omp_mm] is [main] of the example program: the matrices are filled, the
    product is computed once by one thread to warm the cache and once by a team of
    threads, both times added to the result matrix, and the sum of the elements
    after each of the two is printed.  The matrices hold integers, and as long as
    these stay below [2^53] every operation on doubles is exact: [intd x n] says
    that the double [x] is the integer [n]. *)
From stdpp Require Import base numbers list.
From Stdlib Require Import ZArith Lia SpecFloat.
From S2P Require Import Prelude Float64 FloatDiv Examples.

(** ** Integers as doubles *)

Section integers.
Local Open Scope Z_scope.

Definition intd (x : double) (n : Z) : Prop := is_fin x ∧ dval x = n * ONE.

Lemma rndZ_int n : 0 ≤ n < 2 ^ 53 → rndZ (n * ONE) = n * ONE.
Proof.
  intros Hn. pose proof ONE_pos. pose proof (below_HUGE 1127 ltac:(lia)). unfold rndZ.
  destruct (Z.eq_dec n 0) as [->|Hne]; [done|]. rewrite Z.sgn_pos, Z.abs_eq by lia. unfold ONE.
  rewrite rnd_exact by lia. rewrite Z.mul_1_l, Z.min_l; [done|].
  assert (n * 2 ^ 1074 ≤ 2 ^ 53 * 2 ^ 1074) by (apply Z.mul_le_mono_nonneg_r; [apply Z.pow_nonneg|]; lia).
  rewrite <- Z.pow_add_r in * by lia. change (53 + 1074) with 1127 in *. lia.
Qed.

Lemma int_below n : 0 ≤ n < 2 ^ 53 → - HUGE < n * ONE < HUGE.
Proof.
  intros Hn. pose proof ONE_pos. pose proof (below_HUGE 1127 ltac:(lia)).
  assert (n * ONE ≤ 2 ^ 53 * ONE) as Hle by (apply Z.mul_le_mono_nonneg_r; lia). unfold ONE in Hle at 2.
  rewrite <- Z.pow_add_r in Hle by lia. change (53 + 1074) with 1127 in Hle. pose proof HUGE_pos. nia.
Qed.

Lemma intd_num x n : 0 ≤ n < 2 ^ 53 → is_num x → dval x = n * ONE → intd x n.
Proof. intros Hn Hx E. pose proof (int_below n Hn). split; [|done]. apply num_below_fin; [done|lia..]. Qed.

Lemma intd_zero : intd dzero 0.
Proof. split; [apply dzero_fin|done]. Qed.

Lemma intd_of_Z n : 0 ≤ n < 2 ^ 53 → intd (d_of_Z n) n.
Proof.
  intros Hn. destruct (Z.eq_dec n 0) as [->|Hne]; [apply intd_zero|].
  destruct (d_of_Z_pos n ltac:(lia)) as ([Hf _] & E & _). split; [done|]. rewrite E. unfold ONE. apply rnd_exact; lia.
Qed.

Lemma intd_add x y a b : intd x a → intd y b → 0 ≤ a → 0 ≤ b → a + b < 2 ^ 53 → intd (dadd x y) (a + b).
Proof.
  intros [Hx Ex] [Hy Ey] Ha Hb Hab. destruct (dadd_correct x y Hx Hy) as [Hn E]. apply intd_num; [lia|done|].
  rewrite E, Ex, Ey, <- Z.mul_add_distr_r. apply rndZ_int. lia.
Qed.

Lemma intd_0 x : intd x 0 → ∃ s, x = S754_zero s.
Proof.
  intros [[Hv Hf] E]. destruct x as [s|s| |s m e]; try done; [eauto|]. exfalso. cbn [dval] in E.
  destruct (valid_finite _ _ _ Hv) as [(He & _) _]. pose proof (pow2_pos (e + 1074) ltac:(lia)).
  destruct s; cbn [cond_Zopp] in E; lia.
Qed.

Lemma intd_mul x y a b : intd x a → intd y b → 0 ≤ a → 0 ≤ b → a * b < 2 ^ 53 → intd (dmul x y) (a * b).
Proof.
  intros Hx Hy Ha Hb Hab. pose proof ONE_pos as H1.
  destruct (Z.eq_dec a 0) as [->|Ha0].
  { destruct (intd_0 x Hx) as [s ->]. destruct Hy as [[_ Hy] _]. rewrite Z.mul_0_l. by destruct y, s. }
  destruct (Z.eq_dec b 0) as [->|Hb0].
  { destruct (intd_0 y Hy) as [s ->]. destruct Hx as [[_ Hx] _]. rewrite Z.mul_0_r. by destruct x, s. }
  destruct Hx as [Hx Ex], Hy as [Hy Ey].
  destruct (at_least_one_finite x) as (m1 & e1 & -> & _ & He1 & Hm1); [split; [done|nia]|].
  destruct (at_least_one_finite y) as (m2 & e2 & -> & _ & He2 & Hm2); [split; [done|nia]|].
  destruct (dmul_finite false m1 e1 false m2 e2 ltac:(lia) Hm1) as [Hn Hv]. cbn [xorb cond_Zopp dval] in *.
  assert (Zpos m1 * Zpos m2 * 2 ^ (e1 + e2 + 1074) = a * b * ONE) as E.
  { apply (Z.mul_cancel_r _ _ ONE); [lia|]. transitivity ((Zpos m1 * 2 ^ (e1 + 1074)) * (Zpos m2 * 2 ^ (e2 + 1074))).
    - unfold ONE. replace (Zpos m1 * 2 ^ (e1 + 1074) * (Zpos m2 * 2 ^ (e2 + 1074)))
        with (Zpos m1 * Zpos m2 * (2 ^ (e1 + 1074) * 2 ^ (e2 + 1074))) by ring.
      rewrite <- !Z.mul_assoc, <- !Z.pow_add_r by lia. do 3 f_equal. lia.
    - rewrite Ex, Ey. ring. }
  apply intd_num; [nia|done|]. rewrite Hv, E. pose proof (rndZ_int (a * b) ltac:(nia)) as Er. unfold rndZ in Er.
  rewrite Z.sgn_pos, Z.abs_eq in Er by nia. lia.
Qed.
End integers.

(** ** The program *)

(** The pairs of indices, in the order of two nested loops. *)
Definition cells (rows cols : nat) : list (nat * nat) := i ← seq 0 rows; j ← seq 0 cols; [(i, j)].

(** [for i, for j: m[i][j] = f(i, j)]. *)
Definition fill (rows cols : nat) (f : nat → nat → res double) (m : list double) : res (list double) :=
  res_foldl (fun m ij => v ← f ij.1 ij.2; set_MATV m ij.1 ij.2 cols v) m (cells rows cols).

(** [for i, for j: total += c[i][j]]. *)
Definition sum_matrix (rows cols : nat) (c : list double) (total : double) : res double :=
  res_foldl (fun t ij => v ← MATV c ij.1 ij.2 cols; Ok (dadd t v)) total (cells rows cols).

(** The initial values, sums and products of [int]. *)
Definition init_a (i j : nat) : res double := v ← int_add (Z.of_nat i) (Z.of_nat j); Ok (d_of_Z v).
Definition init_b (i j : nat) : res double := v ← int_mul (Z.of_nat i) (Z.of_nat j); Ok (d_of_Z v).
Definition init_c (i j : nat) : res double := Ok dzero.

Record mm_output : Type := MkOutput { exec_time : double; printed_total : double }.

Section main.
(** The numbers that [atoi] reads from the arguments, the blocks that [malloc]
    returns, the readings of the clock, and the order in which the team executes
    the iterations of the parallel loop. *)
Context (args : list Z) (malloc : nat → Z → list double) (start_msec end_msec : double)
  (order : list (nat * nat * nat)).

Definition omp_mm : res mm_output :=
  match args with
  | NRA :: NCA :: NCB :: _ =>
      na ← int_mul NRA NCA; let a := malloc 0 na in
      nb ← int_mul NCA NCB; let b := malloc 1 nb in
      nc ← int_mul NRA NCB; let c := malloc 2 nc in
      let nra := Z.to_nat NRA in let nca := Z.to_nat NCA in let ncb := Z.to_nat NCB in
      a ← fill nra nca init_a a;
      b ← fill nca ncb init_b b;
      c ← fill nra ncb init_c c;
      c ← mm_serial nra nca ncb a b c;
      total ← sum_matrix nra ncb c dzero;
      c ← res_foldl (mm_update nca ncb a b) c order;
      total ← sum_matrix nra ncb c total;
      Ok (MkOutput (dsub end_msec start_msec) total)
  | _ => Exit (-1)
  end.
End main.

(** ** The loops *)

Lemma elem_cells rows cols i j : (i, j) ∈ cells rows cols ↔ i < rows ∧ j < cols.
Proof.
  unfold cells. rewrite list_elem_of_bind. setoid_rewrite list_elem_of_bind. setoid_rewrite list_elem_of_singleton.
  setoid_rewrite elem_of_seq. split.
  - intros (i' & (j' & [= -> ->] & ?) & ?). lia.
  - intros [? ?]. exists i. split; [|lia]. exists j. split; [done|lia].
Qed.

(** The sum of integers over a list. *)
Definition sum_Z {A} (f : A → Z) (l : list A) : Z := foldr (fun x s => f x + s)%Z 0%Z l.

Lemma sum_Z_nonneg {A} (f : A → Z) l : (∀ x, x ∈ l → 0 ≤ f x)%Z → (0 ≤ sum_Z f l)%Z.
Proof.
  induction l as [|x l IH]; intros H; cbn; [done|]. assert (0 ≤ f x)%Z by (apply H; by left).
  assert (0 ≤ sum_Z f l)%Z; [|unfold sum_Z in *; lia]. apply IH. intros y Hy. apply H. by right.
Qed.

Section loops.
Context (rows cols : nat) (Hsize : (Z.of_nat (rows * cols) ≤ INT_MAX)%Z).

Lemma fill_list f g l m :
  (∀ i j, i < rows → j < cols → f i j = Ok (g i j)) → Forall (fun ij => ij.1 < rows ∧ ij.2 < cols) l →
  length m = rows * cols →
  ∃ m', res_foldl (fun m ij => v ← f ij.1 ij.2; set_MATV m ij.1 ij.2 cols v) m l = Ok m' ∧ length m' = rows * cols ∧
    (∀ i j, (i, j) ∈ l → m' !! (i * cols + j) = Some (g i j)) ∧
    (∀ i j, j < cols → (i, j) ∉ l → m' !! (i * cols + j) = m !! (i * cols + j)).
Proof.
  intros Hf. revert m. induction l as [|[i j] l IH]; intros m Hl Lm.
  { exists m. split_and!; [done|done| |done]. by intros i j []%elem_of_nil. }
  apply Forall_cons in Hl as [[Hi Hj] Hl]. cbn [fst snd] in *.
  destruct (mat_index_ok i j rows cols Hi Hj Hsize) as [Ei Hlt].
  destruct (IH (<[i * cols + j := g i j]> m) Hl) as (m' & E & L' & Hin & Hout); [by rewrite length_insert|].
  exists m'. split_and!; [|done|..].
  - cbn [res_foldl fst snd]. rewrite Hf by done. cbn [mbind res_bind]. unfold set_MATV. rewrite Ei. cbn [mbind res_bind].
    by rewrite decide_True by lia.
  - intros i' j' H. destruct (decide ((i', j') ∈ l)) as [|Hn]; [auto|].
    apply elem_of_cons in H as [[= -> ->]|]; [|done]. rewrite Hout by done. apply list_lookup_insert_eq. lia.
  - intros i' j' Hj' [Hne Hn]%not_elem_of_cons. rewrite Hout by done. apply list_lookup_insert_ne.
    intros Eq. apply index_inj in Eq as [-> ->]; done.
Qed.

Lemma fill_run f g m :
  (∀ i j, i < rows → j < cols → f i j = Ok (g i j)) → length m = rows * cols →
  ∃ m', fill rows cols f m = Ok m' ∧ length m' = rows * cols ∧
    ∀ i j, i < rows → j < cols → m' !! (i * cols + j) = Some (g i j).
Proof.
  intros Hf Lm. destruct (fill_list f g (cells rows cols) m Hf) as (m' & E & L' & Hin & _); [|done|].
  - apply Forall_forall. intros [i j]. by rewrite elem_cells.
  - exists m'. split_and!; [done..|]. intros i j Hi Hj. by apply Hin, elem_cells.
Qed.

End loops.

(** The loop that adds up the elements, on integers. *)
Lemma sum_run cols (c : list double) g l t n :
  (∀ i j, (i, j) ∈ l → ∃ v, MATV c i j cols = Ok v ∧ intd v (g (i, j)) ∧ 0 ≤ g (i, j))%Z →
  intd t n → (0 ≤ n)%Z → (n + sum_Z g l < 2 ^ 53)%Z →
  ∃ t', res_foldl (fun t ij => v ← MATV c ij.1 ij.2 cols; Ok (dadd t v)) t l = Ok t' ∧ intd t' (n + sum_Z g l).
Proof.
  revert t n. induction l as [|[i j] l IH]; intros t n Hc Ht Hn Hs; cbn in Hs.
  { exists t. split; [done|]. cbn. by rewrite Z.add_0_r. }
  destruct (Hc i j) as (v & E & Hv & Hg); [by left|].
  assert (0 ≤ sum_Z g l)%Z by (apply sum_Z_nonneg; intros [i' j'] H'; destruct (Hc i' j') as (? & _ & _ & ?); [by right|done]).
  unfold sum_Z in *. destruct (IH (dadd t v) (n + g (i, j))%Z) as (t' & E' & Ht').
  - intros i' j' H'. apply Hc. by right.
  - apply intd_add; try done; lia.
  - lia.
  - lia.
  - exists t'. cbn [res_foldl fst snd]. rewrite E. cbn [mbind res_bind]. split; [done|]. cbn. by rewrite Z.add_assoc.
Qed.

(** An element of the product of integer matrices. *)
Lemma dot_int a b NCA NCB i j v n ks (f g : nat → Z) :
  (∀ k, k ∈ ks → ∃ x y, a !! (i * NCA + k)%nat = Some x ∧ b !! (k * NCB + j)%nat = Some y ∧ intd x (f k) ∧ intd y (g k) ∧
     0 ≤ f k ∧ 0 ≤ g k)%Z →
  intd v n → (0 ≤ n)%Z → (n + sum_Z (fun k => f k * g k) ks < 2 ^ 53)%Z →
  intd (dot a b NCA NCB i j v ks) (n + sum_Z (fun k => f k * g k)%Z ks).
Proof.
  revert v n. induction ks as [|k ks IH]; intros v n Hk Hv Hn Hs; cbn in Hs |- *; [by rewrite Z.add_0_r|].
  destruct (Hk k) as (x & y & Hx & Hy & Ix & Iy & ? & ?); [by left|].
  assert (0 ≤ sum_Z (fun k => f k * g k) ks)%Z.
  { apply sum_Z_nonneg. intros k' H'. destruct (Hk k') as (? & ? & _ & _ & _ & _ & ? & ?); [by right|]. nia. }
  unfold sum_Z in *. rewrite Z.add_assoc. unfold dot in *. cbn [foldl]. rewrite Hx, Hy. cbn [from_option]. apply IH.
  - intros k' H'. apply Hk. by right.
  - apply intd_add; try done; [|nia|nia]. apply intd_mul; try done. nia.
  - nia.
  - lia.
Qed.

Lemma sum_Z_elem {A} (f : A → Z) l x : (∀ x, x ∈ l → 0 ≤ f x)%Z → x ∈ l → (f x ≤ sum_Z f l)%Z.
Proof.
  induction l as [|y l IH]; intros H; [by intros []%elem_of_nil|]. cbn.
  assert (0 ≤ f y)%Z by (apply H; by left).
  assert (0 ≤ sum_Z f l)%Z by (apply sum_Z_nonneg; intros z Hz; apply H; by right).
  intros [->|Hx]%elem_of_cons; unfold sum_Z in *; [lia|].
  assert (f x ≤ foldr (fun x s => f x + s) 0 l)%Z; [|lia]. apply IH; [|done]. intros z Hz. apply H. by right.
Qed.

Lemma sum_Z_scale {A} (f : A → Z) c l : sum_Z (fun x => c * f x)%Z l = (c * sum_Z f l)%Z.
Proof. induction l as [|x l IH]; cbn in *; [lia|]. unfold sum_Z in IH. rewrite IH. lia. Qed.

(** ** The product of the two matrices *)

(** The element [i, j] of the product of the initial matrices, and the sum of all
    elements. *)
Definition dot_Z (NCA i j : nat) : Z :=
  sum_Z (fun k => (Z.of_nat i + Z.of_nat k) * (Z.of_nat k * Z.of_nat j))%Z (seq 0 NCA).
Definition all_Z (NRA NCA NCB : nat) : Z := sum_Z (fun ij => dot_Z NCA ij.1 ij.2) (cells NRA NCB).

Lemma dot_Z_nonneg NCA i j : (0 ≤ dot_Z NCA i j)%Z.
Proof. apply sum_Z_nonneg. intros k _. lia. Qed.

(** The matrix [c] holds [n] times the product. *)
Definition holds (NRA NCA NCB : nat) (c : list double) (n : Z) : Prop :=
  length c = NRA * NCB ∧
  ∀ i j, i < NRA → j < NCB → ∃ v, c !! (i * NCB + j) = Some v ∧ intd v (n * dot_Z NCA i j).

Section product.
Context (NRA NCA NCB : nat) (a b : list double).
Context (La : length a = NRA * NCA) (Lb : length b = NCA * NCB).
Context (Ha : (Z.of_nat (NRA * NCA) ≤ INT_MAX)%Z) (Hb : (Z.of_nat (NCA * NCB) ≤ INT_MAX)%Z)
  (Hc : (Z.of_nat (NRA * NCB) ≤ INT_MAX)%Z).
Context (Ea : ∀ i k, i < NRA → k < NCA → a !! (i * NCA + k) = Some (d_of_Z (Z.of_nat i + Z.of_nat k)))
  (Eb : ∀ k j, k < NCA → j < NCB → b !! (k * NCB + j) = Some (d_of_Z (Z.of_nat k * Z.of_nat j))).
Context (Hall : (3 * all_Z NRA NCA NCB < 2 ^ 53)%Z).

Lemma dot_Z_small i j : i < NRA → j < NCB → (3 * dot_Z NCA i j < 2 ^ 53)%Z.
Proof.
  intros Hi Hj. assert (dot_Z NCA i j ≤ all_Z NRA NCA NCB)%Z; [|lia].
  apply (sum_Z_elem (fun ij => dot_Z NCA ij.1 ij.2) _ (i, j)); [|by apply elem_cells]. intros ij _. apply dot_Z_nonneg.
Qed.

(** One more product, whatever the order of the rows. *)
Lemma product_run us c n :
  merge (row_loop NCA NCB <$> seq 0 NRA) us → holds NRA NCA NCB c n → (0 ≤ n ≤ 2)%Z →
  ∃ c', res_foldl (mm_update NCA NCB a b) c us = Ok c' ∧ holds NRA NCA NCB c' (n + 1).
Proof.
  intros M [Lc Ec] Hn. destruct (merge_rows NRA NCA NCB us M) as [I F].
  destruct (mm_updates_run NRA NCA NCB a b La Lb Ha Hb Hc us c Lc I) as (c' & E & L' & H).
  exists c'. split; [done|]. split; [congruence|]. intros i j Hi Hj. destruct (Ec i j Hi Hj) as (v & Hv & Iv).
  pose proof (dot_Z_small i j Hi Hj). pose proof (dot_Z_nonneg NCA i j).
  eexists. split; [by apply H|]. rewrite F by done. rewrite Z.mul_add_distr_r, Z.mul_1_l.
  apply dot_int; [|done|nia|fold (dot_Z NCA i j); nia].
  intros k Hk%elem_of_seq. assert (k < NCA) as Hk' by lia. exists (d_of_Z (Z.of_nat i + Z.of_nat k)), (d_of_Z (Z.of_nat k * Z.of_nat j)).
  unfold INT_MAX in *. split_and!; [by apply Ea|by apply Eb|apply intd_of_Z|apply intd_of_Z|lia|lia].
  - assert (i + k < NRA * NCA + NCA * 1) by nia. split; [lia|]. nia.
  - assert (k * j < NCA * NCB) by nia. split; [lia|]. nia.
Qed.
End product.

Lemma sum_matrix_run NRA NCA NCB c n t m :
  (Z.of_nat (NRA * NCB) ≤ INT_MAX)%Z → holds NRA NCA NCB c n → (0 ≤ n ≤ 2)%Z → intd t m → (0 ≤ m)%Z → (m + n * all_Z NRA NCA NCB < 2 ^ 53)%Z →
  ∃ t', sum_matrix NRA NCB c t = Ok t' ∧ intd t' (m + n * all_Z NRA NCA NCB).
Proof.
  intros Hc [Lc Ec] Hn Ht Hm Hs. unfold all_Z in *. rewrite <- sum_Z_scale in *. apply sum_run; try done.
  intros i j [Hi Hj]%elem_cells. destruct (Ec i j Hi Hj) as (v & Hv & Iv). exists v.
  destruct (mat_index_ok i j NRA NCB Hi Hj Hc) as [Ei _]. unfold MATV. rewrite Ei. cbn [mbind res_bind]. rewrite Hv.
  pose proof (dot_Z_nonneg NCA i j). cbn [fst snd]. split_and!; [done..|nia].
Qed.

Lemma int_mul_nat (m n : nat) : (Z.of_nat (m * n) ≤ INT_MAX)%Z → int_mul (Z.of_nat m) (Z.of_nat n) = Ok (Z.of_nat (m * n)).
Proof.
  intros H. unfold int_mul, INT_MIN, INT_MAX in *. rewrite <- Nat2Z.inj_mul.
  by rewrite (proj2 (Z.leb_le _ _)), (proj2 (Z.leb_le _ _)) by lia.
Qed.

(** C40. The example program prints the exact sums, whatever the schedule.  With
    fewer than three arguments it exits with -1.  For sizes whose products fit an
    [int], blocks of memory of any contents, any readings of the clock and any
    interleaving of the rows that the team computes, it stays inside the arrays,
    and the number it prints is three times the sum of the elements of the integer
    product (once after the warm-up, twice after the parallel loop), with no
    rounding, as long as that is below [2^53]. *)
Theorem omp_mm_total NRA NCA NCB malloc start_msec end_msec us :
  (Z.of_nat (NRA * NCA) ≤ INT_MAX)%Z → (Z.of_nat (NCA * NCB) ≤ INT_MAX)%Z → (Z.of_nat (NRA * NCB) ≤ INT_MAX)%Z →
  (∀ k n, (0 ≤ n)%Z → length (malloc k n) = Z.to_nat n) →
  merge (row_loop NCA NCB <$> seq 0 NRA) us → (3 * all_Z NRA NCA NCB < 2 ^ 53)%Z →
  (∀ args, length args < 3 → omp_mm args malloc start_msec end_msec us = Exit (-1)) ∧
  ∃ total, omp_mm (Z.of_nat <$> [NRA; NCA; NCB]) malloc start_msec end_msec us =
      Ok (MkOutput (dsub end_msec start_msec) total) ∧
    intd total (3 * all_Z NRA NCA NCB).
Proof.
  intros Ha Hb Hc Hm M Hall. split; [by intros [|? [|? [|? ?]]] Hl; cbn in Hl; [..|lia]|].
  unfold omp_mm. rewrite !fmap_cons. cbv zeta. rewrite !int_mul_nat, !Nat2Z.id by done. cbn [mbind res_bind].
  destruct (fill_run NRA NCA Ha init_a (fun i j => d_of_Z (Z.of_nat i + Z.of_nat j)) (malloc 0 (Z.of_nat (NRA * NCA))))
    as (a & -> & La & Ea).
  { intros i j Hi Hj. unfold init_a. rewrite int_add_Ok; [done|]. unfold INT_MIN, INT_MAX in *. nia. }
  { rewrite Hm by lia. lia. }
  cbn [mbind res_bind].
  destruct (fill_run NCA NCB Hb init_b (fun i j => d_of_Z (Z.of_nat i * Z.of_nat j)) (malloc 1 (Z.of_nat (NCA * NCB))))
    as (b & -> & Lb & Eb).
  { intros i j Hi Hj. unfold init_b. rewrite int_mul_nat; [by rewrite Nat2Z.inj_mul|]. unfold INT_MAX in *. nia. }
  { rewrite Hm by lia. lia. }
  cbn [mbind res_bind].
  destruct (fill_run NRA NCB Hc init_c (fun _ _ => dzero) (malloc 2 (Z.of_nat (NRA * NCB)))) as (c & -> & Lc & Ec); [done| |].
  { rewrite Hm by lia. lia. }
  cbn [mbind res_bind].
  assert (holds NRA NCA NCB c 0) as H0.
  { split; [done|]. intros i j Hi Hj. exists dzero. split; [by apply Ec|apply intd_zero]. }
  pose proof (product_run NRA NCA NCB a b La Lb Ha Hb Hc Ea Eb Hall) as P.
  assert (0 ≤ all_Z NRA NCA NCB)%Z by (apply sum_Z_nonneg; intros ij _; apply dot_Z_nonneg).
  destruct (P (seq 0 NRA ≫= row_loop NCA NCB) c 0%Z) as (c1 & E1 & H1); [rewrite bind_as_join; apply merge_concat|done|lia|].
  unfold mm_serial. rewrite E1. cbn [mbind res_bind].
  destruct (sum_matrix_run NRA NCA NCB c1 1 dzero 0 Hc H1) as (t1 & -> & I1); [lia|apply intd_zero|lia..|]. cbn [mbind res_bind].
  destruct (P us c1 1%Z M H1) as (c2 & -> & H2); [lia|]. cbn [mbind res_bind].
  destruct (sum_matrix_run NRA NCA NCB c2 2 t1 (0 + 1 * all_Z NRA NCA NCB)%Z Hc H2) as (t2 & -> & I2); [lia|exact I1|lia..|]. cbn [mbind res_bind].
  exists t2. split; [done|]. replace (3 * all_Z NRA NCA NCB)%Z with (0 + 1 * all_Z NRA NCA NCB + 2 * all_Z NRA NCA NCB)%Z by lia.
  done.
Qed.

Lemma omp_mm_total_witness :
  ∃ total, omp_mm [2; 2; 2]%Z (fun _ n => replicate (Z.to_nat n) S754_nan) dzero (d_of_Z 5)
      (row_loop 2 2 1 ++ row_loop 2 2 0) = Ok (MkOutput (d_of_Z 5) total) ∧ intd total 9.
Proof.
  destruct (omp_mm_total 2 2 2 (fun _ n => replicate (Z.to_nat n) S754_nan) dzero (d_of_Z 5)
    (row_loop 2 2 1 ++ row_loop 2 2 0)) as [_ (total & E & I)].
  1-3: vm_compute; discriminate.
  - intros k n _. apply length_replicate.
  - do 4 (eapply (merge_cons _ 1); [reflexivity|]). do 4 (eapply (merge_cons _ 0); [reflexivity|]).
    constructor. repeat constructor.
  - reflexivity.
  - exists total. split; [exact E|exact I].
Defined.
