(* ===== verification/LoopTest.v ===== *)
(** * The busy loop and the loop test (fib/fib.cc: do_work; test/loop.c)

    [do_work] keeps a processor busy: [ITERS] times it adds to [total] its
    quotient by [ITERS].  The program loop.c calls it from the iterations of a
    parallel loop with a dynamic schedule: what the threads print is a sequence of
    [print]s, of which [schedule_ok] says what the runtime guarantees. *)
From stdpp Require Import base numbers list strings.
From Stdlib Require Import ZArith Lia SpecFloat.
From S2P Require Import Prelude Float64 FloatDiv Output Examples MatMul.

(** ** do_work *)

(** [ITERS] is 1000000 in fib.cc and 100000000 in loop.c. *)
Definition work_step (ITERS : Z) (total : double) : double := dadd total (ddiv total (d_of_Z ITERS)).
Definition do_work (ITERS : Z) : double := Nat.iter (Z.to_nat ITERS) (work_step ITERS) (d_of_Z 5).

Local Open Scope Z_scope.

Lemma intd_range n : 0 ≤ n < 2 ^ 53 → n * ONE ≤ 2 ^ 1127.
Proof.
  intros Hn. change 1127 with (53 + 1074). rewrite Z.pow_add_r by lia. apply Z.mul_le_mono_nonneg_r; [|lia].
  by apply Z.pow_nonneg.
Qed.

Lemma intd_one x n : intd x n → 1 ≤ n → at_least_one x.
Proof. intros [Hx E] Hn. split; [done|]. rewrite E. pose proof ONE_pos. nia. Qed.

(** One iteration, between integers. *)
Lemma work_step_run N t b c :
  1 ≤ N < 2 ^ 50 → at_least_one t → dval t ≤ b * ONE → b ≤ c * N → 1 ≤ c → b + c < 2 ^ 53 →
  at_least_one (work_step N t) ∧ dval t ≤ dval (work_step N t) ≤ (b + c) * ONE.
Proof.
  intros HN Ht Hb Hc Hc1 Hs. pose proof ONE_pos as H1. pose proof (intd_of_Z N ltac:(lia)) as IN. destruct IN as [FN EN] eqn:EI. clear EI.
  pose proof (intd_one _ _ (intd_of_Z N ltac:(lia)) ltac:(lia)) as AN. destruct Ht as [Ft Ht].
  assert (1 ≤ b) by nia. pose proof (intd_range b ltac:(lia)) as Rb. pose proof (intd_range N ltac:(lia)) as RN.
  assert (2 ^ 1127 ≤ 2 ^ 1138) by (apply Z.pow_le_mono_r; lia). assert (2 ^ 1127 ≤ 2 ^ 1148) by (apply Z.pow_le_mono_r; lia).
  destruct (ddiv_one t (d_of_Z N)) as (Fq & Eq & Q0 & Qpos); [by split|done|lia|lia|].
  assert (dval (ddiv t (d_of_Z N)) ≤ c * ONE) as Hq.
  { rewrite Eq. rewrite EN in *. etransitivity; [apply (rndQ_mono _ (c * ONE * (N * ONE))); [nia|done|nia]|].
    rewrite rndQ_exact by nia. unfold ONE at 1. rewrite rnd_exact by lia. reflexivity. }
  unfold work_step. destruct (dadd_correct t _ Ft Fq) as [Hn En].
  pose proof (dadd_ge_l t _ (is_fin_num _ Ft) Fq ltac:(lia)) as Hge.
  assert (dval (dadd t (ddiv t (d_of_Z N))) ≤ (b + c) * ONE) as Hle.
  { rewrite En. rewrite <- (rndZ_int (b + c)) by lia. apply rndZ_mono. lia. }
  pose proof (int_below (b + c) ltac:(lia)). pose proof HUGE_pos. split; [|lia]. split; [|lia]. apply num_below_fin; [done|lia..].
Qed.

(** After [k] iterations: at most 1 is added while the total is below [ITERS],
    and at most 2 in the last five. *)
Definition work_bound (N : Z) (k : nat) : Z := 5 + Z.of_nat k + Z.max 0 (Z.of_nat k + 5 - N).

Lemma work_steps_run N k :
  8 ≤ N < 2 ^ 50 → Z.of_nat k ≤ N →
  let t := Nat.iter k (work_step N) (d_of_Z 5) in at_least_one t ∧ 5 * ONE ≤ dval t ≤ work_bound N k * ONE.
Proof.
  intros HN. cbn zeta. induction k as [|k IH]; intros Hk; [|rewrite Nat.iter_succ].
  - pose proof (intd_of_Z 5 ltac:(lia)) as I5. cbn [Nat.iter nat_rect]. split; [by apply (intd_one _ 5)|]. destruct I5 as [_ ->]. unfold work_bound.
    pose proof ONE_pos. nia.
  - destruct IH as [A [L U]]; [lia|]. unfold work_bound in *.
    destruct (work_step_run N (Nat.iter k (work_step N) (d_of_Z 5)) (5 + Z.of_nat k + Z.max 0 (Z.of_nat k + 5 - N))
      (if decide (Z.of_nat k + 5 ≤ N) then 1 else 2)) as [A' [L' U']]; try done; try lia; try (case_decide; lia).
    split; [exact A'|]. split; [lia|]. etransitivity; [exact U'|]. pose proof ONE_pos. apply Z.mul_le_mono_nonneg_r; [lia|].
    case_decide; lia.
Qed.

(** The loop ends with a finite number between 5 and [ITERS + 10]. *)
Lemma do_work_finite N :
  8 ≤ N < 2 ^ 50 → is_fin (do_work N) ∧ 5 * ONE ≤ dval (do_work N) ≤ (N + 10) * ONE.
Proof.
  intros HN. destruct (work_steps_run N (Z.to_nat N) HN ltac:(lia)) as [[F _] H]. split; [exact F|].
  unfold do_work. replace (N + 10) with (work_bound N (Z.to_nat N)) by (unfold work_bound; lia). exact H.
Qed.

(** ** loop.c *)

Definition ITERS : Z := 100000000.

(** What a thread prints in the parallel region. *)
Inductive print : Type :=
  | Banner (tid : Z)
  | Work (i tid : Z).

Definition print_line (p : print) : stream :=
  match p with
  | Banner _ => [Str ">> just after omp parallel"; endl]
  | Work i tid => [Int i; Str ", tid = "; Int tid; Str ", res = "; Dbl (do_work ITERS); endl]
  end.

Definition iteration (p : print) : option Z := match p with Work i _ => Some i | Banner _ => None end.
Definition banner (p : print) : option Z := match p with Banner tid => Some tid | Work _ _ => None end.

(** Every thread of the team prints one banner, before it executes an iteration;
    every iteration of the loop is executed once, by a thread of the team. *)
Definition schedule_ok (num_threads num_iters : Z) (ps : list print) : Prop :=
  omap banner ps ≡ₚ seqZ 0 num_threads ∧ omap iteration ps ≡ₚ seqZ 0 num_iters ∧
  ∀ k i tid, ps !! k = Some (Work i tid) → ∃ j, (j < k)%nat ∧ ps !! j = Some (Banner tid).

(** [main]: the arguments after the program's name, as [atoi] reads them; a
    missing argument is a null pointer.  The clock is read three times. *)
Definition loop_main (args : list Z) (ps : list print) (t0 t1 t2 : double) : res stream :=
  num_iters ← (match args with a :: _ => Ok a | [] => UB NullDeref end);
  let start := t0 in
  let telapsed := dsub t1 start in
  let out := ps ≫= print_line in
  let elapsed := dsub t2 start in
  Ok (out ++ [Str "exec time (ms): "; Dbl elapsed; endl; Str "one do_work (ms): "; Dbl telapsed; endl]).

(** The lines of the iterations, read back. *)
Fixpoint read_works (out : stream) : list (Z * Z * double) :=
  match out with
  | Int i :: ((Str _ :: Int tid :: Str _ :: Dbl r :: _) as rest) => (i, tid, r) :: read_works rest
  | _ :: rest => read_works rest
  | [] => []
  end.

Lemma read_works_prints ps out :
  read_works ((ps ≫= print_line) ++ out) =
    omap (fun p => match p with Work i tid => Some (i, tid, do_work ITERS) | Banner _ => None end) ps ++ read_works out.
Proof.
  induction ps as [|p ps IH]; [done|]. cbn [mbind list_bind omap list_omap]. rewrite <- app_assoc.
  destruct p; cbn [print_line app read_works]; [exact IH|]. f_equal. exact IH.
Qed.

(** The loop test prints one line for every iteration, each with the same finite
    result, whatever the schedule; without an argument it reads a null pointer. *)
Theorem loop_main_output n rest num_threads ps t0 t1 t2 :
  schedule_ok num_threads n ps →
  (∃ out, loop_main (n :: rest) ps t0 t1 t2 = Ok out ∧ (read_works out).*1.*1 ≡ₚ seqZ 0 n ∧
    Forall (fun w => 0 ≤ w.1.2 < num_threads ∧ is_fin w.2 ∧ 5 * ONE ≤ dval w.2 ≤ (ITERS + 10) * ONE) (read_works out)) ∧
  loop_main [] ps t0 t1 t2 = UB NullDeref.
Proof.
  intros (Hb & Hi & Ho). split; [|done]. eexists. split; [reflexivity|]. rewrite read_works_prints, app_nil_r. split.
  - rewrite <- Hi. clear. induction ps as [|[|] ps IH]; [done|exact IH|]. cbn. by constructor.
  - apply Forall_forall. intros w (p & Hp & Hw)%list_elem_of_omap. destruct p as [|i tid]; [done|]. injection Hw as <-.
    cbn [fst snd]. split; [|apply do_work_finite; unfold ITERS; lia].
    apply list_elem_of_lookup in Hp as [k Hk]. destruct (Ho k i tid Hk) as (j & _ & Hj).
    assert (tid ∈ omap banner ps) as Ht by (apply list_elem_of_omap; exists (Banner tid); split; [by eapply list_elem_of_lookup_2|done]).
    rewrite Hb in Ht. apply elem_of_seqZ in Ht. lia.
Qed.

Lemma loop_main_output_witness :
  ∃ out, loop_main [2] [Banner 0; Work 0 0; Banner 1; Work 1 1] dzero dzero dzero = Ok out ∧ (read_works out).*1.*1 ≡ₚ [0; 1].
Proof.
  destruct (loop_main_output 2 [] 2 [Banner 0; Work 0 0; Banner 1; Work 1 1] dzero dzero dzero) as [(out & E & P & _) _].
  - split; [done|]. split; [done|]. intros [|[|[|[|k]]]] i tid H; cbn in H; simplify_eq; [by exists 0%nat; split; [lia|]|by exists 2%nat; split; [lia|]].
  - exists out. split; [exact E|exact P].
Defined.
