(* ===== verification/TaskPrograms.v ===== *)
(** * The programs with explicit tasks (fib/fib.cc, task_test/tasks.c)

    A task of fib.cc is executed by any thread at any time between its creation
    and the [taskwait] of its parent.  [fib_step] is a step of one of the tasks
    that exist; it says nothing about threads, so that every execution by any
    team is a sequence of such steps.  In tasks.c the order is restricted by the
    [depend] clauses, with the meaning the OpenMP specification gives them. *)
From stdpp Require Import base numbers gmap relations strings list.
From Stdlib Require Import ZArith Lia.
From S2P Require Import Prelude Float64 Graph Dag Output Callbacks Protocol Safety Examples.

(** ** fib.cc: the tasks *)

(** What a call of [fib] still has to do: a call that has not begun, one whose
    first task exists, one that waits for both tasks (the two variables that the
    tasks share with it are the values of its children), and one that has
    returned. *)
Inductive fib_call : Type :=
  | Call (n : nat)
  | First (n : nat) (prev : fib_call)
  | Wait (prev prev_prev : fib_call)
  | Return (result : Z).

Inductive fib_step : fib_call → fib_call → Prop :=
  | step_result n : n < 2 → fib_step (Call n) (Return (Z.of_nat n))
  | step_first n : 2 ≤ n → fib_step (Call n) (First n (Call (n - 1)))
  | step_second n t : fib_step (First n t) (Wait t (Call (n - 2)))
  | step_in_first n t t' : fib_step t t' → fib_step (First n t) (First n t')
  | step_prev t1 t1' t2 : fib_step t1 t1' → fib_step (Wait t1 t2) (Wait t1' t2)
  | step_prev_prev t1 t2 t2' : fib_step t2 t2' → fib_step (Wait t1 t2) (Wait t1 t2')
  | step_taskwait a b : fib_step (Wait (Return a) (Return b)) (Return (u32 (b + a))).

(** The frames that a call can have. *)
Fixpoint frame_ok (t : fib_call) : Prop :=
  match t with
  | Call _ | Return _ => True
  | First n t => 2 ≤ n ∧ frame_ok t
  | Wait t1 t2 => frame_ok t1 ∧ frame_ok t2
  end.

(** The value that a call will return. *)
Fixpoint value (t : fib_call) : Z :=
  match t with
  | Call n => fib n
  | First n t => u32 (fib (n - 2) + value t)
  | Wait t1 t2 => u32 (value t2 + value t1)
  | Return v => v
  end.

(** The steps of a call, and of the rest of one. *)
Fixpoint call_steps (n : nat) : nat :=
  match n with
  | 0 | 1 => 1
  | S (S n2 as n1) => 3 + call_steps n1 + call_steps n2
  end.

Fixpoint steps_left (t : fib_call) : nat :=
  match t with
  | Call n => call_steps n
  | First n t => 2 + steps_left t + call_steps (n - 2)
  | Wait t1 t2 => 1 + steps_left t1 + steps_left t2
  | Return _ => 0
  end.

Lemma fib_SS n : 2 ≤ n → fib n = u32 (fib (n - 2) + fib (n - 1)).
Proof. destruct n as [|[|n]]; [lia..|]. intros _. cbn [Nat.sub]. by rewrite Nat.sub_0_r. Qed.

Lemma call_steps_SS n : 2 ≤ n → call_steps n = 3 + call_steps (n - 1) + call_steps (n - 2).
Proof. destruct n as [|[|n]]; [lia..|]. intros _. cbn [Nat.sub]. by rewrite Nat.sub_0_r. Qed.

Lemma call_steps_run n : (Z.of_nat (call_steps n) + 3 = 4 * F (S n))%Z.
Proof.
  induction n as [| |n IH1 IH2] using nat_pair_ind; [done..|].
  rewrite call_steps_SS by lia. cbn [Nat.sub]. rewrite Nat.sub_0_r, F_SS. lia.
Qed.

(** Every step keeps the value and takes one of the steps that are left. *)
Lemma fib_step_keeps t t' :
  fib_step t t' → frame_ok t → frame_ok t' ∧ value t' = value t ∧ steps_left t = S (steps_left t').
Proof.
  induction 1 as [n Hn|n Hn|n t|n t t' H IH|t1 t1' t2 H IH|t1 t2 t2' H IH|a b]; cbn; intros Hok.
  - destruct n as [|[|n]]; [by repeat split..|lia].
  - rewrite (fib_SS n), (call_steps_SS n) by done. split_and!; [done..|lia].
  - destruct Hok. split_and!; [done..|lia].
  - destruct Hok as [? Hok]. destruct (IH Hok) as (? & -> & ->). split_and!; [done..|lia].
  - destruct Hok as [Hok ?]. destruct (IH Hok) as (? & -> & ->). split_and!; [done..|lia].
  - destruct Hok as [? Hok]. destruct (IH Hok) as (? & -> & ->). split_and!; [done..|lia].
  - done.
Qed.

(** As long as the call has not returned, some task can take a step. *)
Lemma fib_step_exists t : (∃ v, t = Return v) ∨ ∃ t', fib_step t t'.
Proof.
  induction t as [n|n t [[v ->]|[t' ?]]|t1 [[a ->]|[t1' ?]] t2 [[b ->]|[t2' ?]]|v]; eauto using fib_step.
  destruct (decide (n < 2)); [eauto using fib_step|]. right. eexists. apply step_first. lia.
Qed.

Lemma fib_steps_keep k t t' :
  nsteps fib_step k t t' → frame_ok t → frame_ok t' ∧ value t' = value t ∧ steps_left t = k + steps_left t'.
Proof.
  induction 1 as [t|k t t1 t' H _ IH]; intros Hok; [done|].
  destruct (fib_step_keeps _ _ H Hok) as (Hok1 & <- & ->). destruct (IH Hok1) as (? & -> & ->). done.
Qed.

(** Whatever the order in which the tasks take their steps, a call of [fib] never
    gets stuck before it returns, and it returns after the same number of steps
    with the Fibonacci number modulo [2^32]. *)
Theorem fib_any_order n k t :
  nsteps fib_step k (Call n) t →
  (Z.of_nat k ≤ 4 * F (S n) - 3)%Z ∧
  ((Z.of_nat k < 4 * F (S n) - 3)%Z → ∃ t', fib_step t t') ∧
  (Z.of_nat k = (4 * F (S n) - 3)%Z → t = Return (u32 (F n))).
Proof.
  intros H. destruct (fib_steps_keep _ _ _ H I) as (_ & V & E). cbn in V, E.
  pose proof (call_steps_run n) as C. rewrite fib_run in V. split; [lia|].
  destruct (fib_step_exists t) as [[v ->]|[t' Ht]]; cbn in *; split; intros Hk; [lia|by rewrite V|eauto|].
  destruct (fib_steps_keep _ _ _ (nsteps_r _ _ _ _ H Ht) I) as (_ & _ & E'). cbn in E'. lia.
Qed.

Lemma fib_any_order_witness : nsteps fib_step 5 (Call 2) (Return 1) ∧ Return 1 = Return (u32 (F 2)).
Proof.
  assert (nsteps fib_step 5 (Call 2) (Return 1)) as H.
  { eapply nsteps_l; [apply step_first; lia|]. eapply nsteps_l; [apply step_second|].
    eapply nsteps_l; [apply step_prev_prev, step_result; lia|]. eapply nsteps_l; [apply step_prev, step_result; lia|].
    eapply nsteps_l; [apply step_taskwait|]. constructor. }
  split; [exact H|]. destruct (fib_any_order 2 5 (Return 1) H) as (_ & _ & E). apply E. reflexivity.
Defined.

(** ** fib.cc: main *)

(** [main]: the arguments as [atoi] reads them, and two readings of the clock.
    The parallel region creates one task, which is complete at its end. *)
Definition fib_main (args : list Z) (start_time end_time : double) : res stream :=
  match args with
  | a1 :: a2 :: _ =>
      let n := u32 a1 in
      let g_print_debug := bool_decide (a2 = 1%Z) in
      let result := fib (Z.to_nat n) in
      let total_time := dsub end_time start_time in
      Ok ((if g_print_debug then [Str "N = "; Int n; endl] else []) ++
          [Str "result: "; Int result; endl; Str "exec time (ms): "; Dbl total_time; endl])
  | _ => Exit 1
  end.

(** A negative number is read as a large one; without two arguments the program
    ends with 1. *)
Lemma fib_main_result n d rest t1 t2 :
  (0 ≤ n < 2 ^ 32)%Z →
  ∃ out, fib_main (n :: d :: rest) t1 t2 = Ok (out ++ [Str "result: "; Int (u32 (F (Z.to_nat n))); endl;
    Str "exec time (ms): "; Dbl (dsub t2 t1); endl]) ∧ (out = [] ↔ d ≠ 1%Z).
Proof.
  intros Hn. unfold fib_main. rewrite fib_run, u32_small by done. eexists. split; [done|].
  case_bool_decide; split; done.
Qed.

(** ** tasks.c *)

(** The [depend] clauses of a task, by variable. *)
Record dtask : Type := MkDTask { prints : string; dep_in : list string; dep_out : list string }.

Definition tasks : list dtask :=
  [MkDTask "Task 2" ["x"] ["y"]; MkDTask "Task 1" [] ["x"]; MkDTask "Task 3" ["y"] []]%string.

(** A task depends on an earlier one when both name a variable and one of the two
    names it with [out]. *)
Definition depends (later earlier : dtask) : Prop :=
  ∃ v, (v ∈ dep_out earlier ∧ (v ∈ dep_in later ∨ v ∈ dep_out later)) ∨ (v ∈ dep_in earlier ∧ v ∈ dep_out later).

(** An order of execution: every task once, after the tasks it depends on. *)
Definition execution (order : list nat) : Prop :=
  order ≡ₚ seq 0 (length tasks) ∧
  ∀ i j ti tj, tasks !! i = Some ti → tasks !! j = Some tj → i < j → depends tj ti →
    ∃ p q, order !! p = Some i ∧ order !! q = Some j ∧ p < q.

Definition output (order : list nat) : list string :=
  omap (fun i => prints <$> tasks !! i) order.

(** The program prints "Task 2" first, then the two others in any order. *)
Theorem tasks_output out :
  (∃ order, execution order ∧ output order = out) ↔
    out = ["Task 2"; "Task 1"; "Task 3"]%string ∨ out = ["Task 2"; "Task 3"; "Task 1"]%string.
Proof.
  split.
  - intros (order & [Hp Hd] & <-).
    destruct (Hd 0 1 _ _ eq_refl eq_refl) as (p & q & P0 & P1 & L01); [lia|exists "x"%string; right; split; constructor|].
    destruct (Hd 0 2 _ _ eq_refl eq_refl) as (p' & q' & P0' & P2 & L02);
      [lia|exists "y"%string; left; split; [constructor|left; constructor]|].
    assert (NoDup order) as Hn by (rewrite Hp; apply NoDup_seq).
    assert (p' = p) as -> by (by eapply NoDup_lookup).
    pose proof (Permutation_length Hp) as Hl. cbn in Hl. destruct order as [|a [|b [|c [|]]]]; try done.
    destruct p as [|[|[|p]]], q as [|[|[|q]]], q' as [|[|[|q']]]; try lia; simplify_list_eq; auto.
  - assert (∀ order, order = [0; 1; 2] ∨ order = [0; 2; 1] → execution order) as He.
    { intros order Ho. split; [destruct Ho as [-> | ->]; [done|]; apply perm_skip, perm_swap|].
      intros i j ti tj Hi Hj Hij (v & Hv). pose proof (lookup_lt_Some _ _ _ Hj). cbn in H.
      destruct i as [|[|i]]; [|exfalso|lia].
      + destruct j as [|[|[|j]]]; try lia; destruct Ho as [-> | ->];
          first [by exists 0, 1; split_and!; [done..|lia] | by exists 0, 2; split_and!; [done..|lia]].
      + assert (j = 2) as -> by lia. cbn in Hi, Hj. simplify_eq. set_solver. }
    intros [-> | ->]; [exists [0; 1; 2]|exists [0; 2; 1]]; auto.
Qed.

(** ** What the tool sees of tasks.c *)

(** A run of tasks.c with two threads: the first thread creates the three tasks,
    and both wait at the barrier, where the second executes them. *)
Definition tasks_trace : list event := Eval cbv in
  let c (n : positive) := Some n in [
  ThreadBegin (c 1); TaskCreate None (c 10) ompt_task_initial;
  ParallelBegin (c 10) (c 20) 2; ThreadBegin (c 2);
  ImplicitTask ompt_scope_begin (c 20) (c 11) 2 0;
  ImplicitTask ompt_scope_begin (c 20) (c 12) 2 1;
  Work ompt_scope_begin (c 20) (c 11) 1;
  TaskCreate (c 11) (c 13) ompt_task_explicit; TaskDependences (c 13) 2;
  TaskCreate (c 11) (c 14) ompt_task_explicit; TaskDependences (c 14) 1; TaskDependence (c 13) (c 14);
  TaskCreate (c 11) (c 15) ompt_task_explicit; TaskDependences (c 15) 1; TaskDependence (c 13) (c 15);
  Work ompt_scope_end (c 20) (c 11) 1;
  SyncRegion ompt_sync_region_barrier ompt_scope_begin (c 20) (c 11);
  SyncRegion ompt_sync_region_barrier ompt_scope_begin (c 20) (c 12);
  TaskSchedule (c 12) (c 13); TaskSchedule (c 13) (c 14); TaskSchedule (c 14) (c 15); TaskSchedule (c 15) (c 12);
  SyncRegion ompt_sync_region_barrier ompt_scope_end (c 20) (c 11);
  SyncRegion ompt_sync_region_barrier ompt_scope_end (c 20) (c 12);
  ImplicitTask ompt_scope_end None (c 12) 2 1;
  ImplicitTask ompt_scope_end None (c 11) 2 0;
  ParallelEnd (c 20)]%positive.

Definition is_exp_task (h : heap) (x : positive) : Prop := ∃ n, h !! x = Some n ∧ _type n = EXP_TASK.

Definition exp_tasks (h : heap) : list (positive * Node) :=
  filter (fun p => bool_decide (_type p.2 = EXP_TASK)) (map_to_list h).

Lemma exp_tasks_all h x : x ∈ (exp_tasks h).*1 ↔ is_exp_task h x.
Proof.
  rewrite list_elem_of_fmap. unfold is_exp_task, exp_tasks. setoid_rewrite list_elem_of_filter.
  setoid_rewrite bool_decide_spec. split.
  - intros ([y n] & -> & Ht & Hn%elem_of_map_to_list). eauto.
  - intros (n & Hn & Ht). exists (x, n). by rewrite elem_of_map_to_list.
Qed.

(** The runtime may produce this run, and the graph holds the three tasks; but it
    has no path between any two of them, although the second and the third have to
    wait for the first: the callbacks of the dependences do nothing. *)
Theorem tasks_graph_without_dependences :
  ∃ R s, rt_run rt_init tasks_trace = Some R ∧ run sample_env tasks_trace (init_state []) = Ok (tt, s) ∧
    (∃ l, NoDup l ∧ length l = 3 ∧ ∀ x, x ∈ l ↔ is_exp_task (nodes s) x) ∧
    (∀ x y, is_exp_task (nodes s) x → ¬ tc (edge (nodes s)) x y).
Proof.
  assert (∃ s, run sample_env tasks_trace (init_state []) = Ok (tt, s) ∧
    (length (exp_tasks (nodes s)) =? 3) && forallb (fun p => bool_decide (exits (nodes s) p.1 = [])) (exp_tasks (nodes s)) = true)
    as (s & E & [El%Nat.eqb_eq Ee]%andb_true_iff).
  { destruct (run sample_env tasks_trace (init_state [])) as [[[] s]| | |] eqn:E;
      vm_compute in E; try discriminate E. exists s. split; [done|]. injection E as <-. vm_compute. reflexivity. }
  destruct (rt_run rt_init tasks_trace) as [R|] eqn:HR; [|vm_compute in HR; discriminate HR].
  exists R, s. split_and!; [done..| |].
  - exists ((exp_tasks (nodes s)).*1). rewrite length_fmap. split_and!; [|done|apply exp_tasks_all].
    apply NoDup_fmap_fst; [|apply NoDup_filter, NoDup_map_to_list].
    intros x n1 n2 [_ H1%elem_of_map_to_list]%list_elem_of_filter [_ H2%elem_of_map_to_list]%list_elem_of_filter.
    rewrite H1 in H2. injection H2 as E2. exact E2.
  - intros x y Hx Hxy. apply exp_tasks_all, list_elem_of_fmap in Hx as (p & -> & Hp). rewrite forallb_forall in Ee.
    specialize (Ee p ltac:(by apply list_elem_of_In)). apply bool_decide_eq_true in Ee.
    assert (∀ z, ¬ edge (nodes s) p.1 z) as Hno by (intros z; unfold edge; rewrite Ee; apply not_elem_of_nil).
    by destruct Hxy as [? ? H|? ? ? H]; eapply Hno.
Qed.
