(* ===== verification/Tracing.v ===== *)
(** * The callbacks with tracing (callbacks.cc built with LIBTDG_TRACE)

    With [LIBTDG_TRACE] most callbacks write a line before they do anything else.
    [trace_line] gives the name and the values of the line of a callback, [TRACE]
    the line; the values are read from the cells that the runtime passes, before
    the callback changes them.  The answer to whether tracing disturbs the tool is
    [tracing_transparent]. *)
From stdpp Require Import base numbers gmap strings list.
From Stdlib Require Import ZArith Lia.
From S2P Require Import Prelude Float64 Graph Output Callbacks Protocol Invariant Objects SafeTasks SafeRegions Safety.

(** ** Lines *)

(** [TRACE_CALLBACK], [TRACE_CALLBACK1], ..., [TRACE_CALLBACK4]: a line with the
    name of the callback and up to four named values. *)
Definition TRACE (cb : string) (args : list (string * Z)) : stream :=
  [Str "libtdg: "; Str cb] ++
  (if decide (args = []) then [] else Str ", " :: (args ≫= fun a => [Str a.1; Str " "; Int a.2; Str " "])) ++
  [endl].

(** The arguments of a callback that only the trace uses. *)
Record details : Type := MkDetails {
  thread_type : Z; prior_task_status : Z; has_dependences : Z; wstype : Z; chunk_size : Z; codeptr_ra : Z }.

Definition endpoint_num (e : ompt_scope_endpoint_t) : Z :=
  match e with ompt_scope_begin => 1 | ompt_scope_end => 2 end.
Definition task_type_num (t : ompt_task_type_t) : Z :=
  match t with
  | ompt_task_initial => 1 | ompt_task_implicit => 2 | ompt_task_explicit => 3 | ompt_task_target => 4
  end.
Definition sync_kind_num (k : ompt_sync_region_kind_t) : Z :=
  match k with ompt_sync_region_barrier => 1 | ompt_sync_region_taskwait => 2 | ompt_sync_region_taskgroup => 3 end.

Section tracing.
Context (env : Env).
(** The addresses of the cells of the runtime and of the objects of the tool. *)
Context (cell_addr obj_addr : positive → Z).

Definition address (f : positive → Z) (p : option positive) : Z := from_option f 0%Z p.

Definition trace_line (x : details) (e : event) : M stream :=
  match e with
  | ThreadBegin _ => mret (TRACE "thread begin" [("type", thread_type x)])
  | ThreadEnd _ => mret (TRACE "thread end" [])
  | ImplicitTask endpoint _ task_data team_size thread_num =>
      mret (TRACE "implicit task" [("endpoint", endpoint_num endpoint); ("team size", team_size);
        ("thread", thread_num); ("task_data", address cell_addr task_data)])
  | ParallelBegin parent_task_data _ requested_team_size =>
      v ← task_cell parent_task_data;
      mret (TRACE "parallel begin" [("parent", address obj_addr v); ("team size", requested_team_size)])
  | ParallelEnd parallel_data =>
      v ← region_cell parallel_data; mret (TRACE "parallel end" [("parallel data", address obj_addr v)])
  | TaskCreate parent_task_data new_task_data type =>
      v ← (match parent_task_data with Some _ => task_cell parent_task_data | None => mret None end);
      mret (TRACE "task create" [("type", task_type_num type); ("parent_task_data", address obj_addr v);
        ("new_task_data", address cell_addr new_task_data); ("has_dependences", has_dependences x)])
  | TaskSchedule first_task_data second_task_data =>
      mret (TRACE "task schedule" [("first_task_data", address cell_addr first_task_data);
        ("prior_task_status", prior_task_status x); ("second_task_data", address cell_addr second_task_data)])
  | TaskDependences _ _ | TaskDependence _ _ => mret []
  | Work endpoint parallel_data _ _ =>
      v ← region_cell parallel_data;
      mret (TRACE "worksharing" [("type", wstype x); ("endpoint", endpoint_num endpoint); ("par data", address obj_addr v)])
  | SyncRegion kind endpoint _ task_data =>
      v ← task_cell task_data;
      mret (TRACE "sync region" [("kind", sync_kind_num kind); ("endpoint", endpoint_num endpoint);
        ("task data", address obj_addr v)])
  | ExtLoop _ _ lower upper _ =>
      mret (TRACE "loop" [("lower", lower); ("upper", upper); ("chunk_size", chunk_size x); ("codeptr_ra", codeptr_ra x)])
  | ExtChunk task_data lower upper last_chunk _ =>
      v ← task_cell task_data;
      mret (TRACE "chunk" [("lower", lower); ("upper", upper); ("task data", address obj_addr v);
        ("last", if last_chunk then 1 else 0)])%Z
  end.

(** A callback of the build with tracing, and a run. *)
Definition traced_event (x : details) (e : event) : M stream :=
  line ← trace_line x e; run_event env e;; mret line.

Fixpoint traced_run (es : list (details * event)) (out : stream) : M stream :=
  match es with
  | [] => mret out
  | (x, e) :: es' => line ← traced_event x e; traced_run es' (out ++ line)
  end.
End tracing.

(** ** Reading the trace *)

Fixpoint lines (out : stream) : list stream :=
  match out with
  | [] => []
  | i :: rest =>
      if decide (i = endl) then [] :: lines rest
      else match lines rest with l :: ls => (i :: l) :: ls | [] => [[i]] end
  end.

Fixpoint read_args (l : stream) : list (string * Z) :=
  match l with
  | Str na :: ((_ :: Int v :: _) as rest) => (na, v) :: read_args rest
  | _ :: rest => read_args rest
  | [] => []
  end.

Definition read_line (l : stream) : option (string * list (string * Z)) :=
  match l with
  | Str p :: Str cb :: args => if decide (p = "libtdg: "%string) then Some (cb, read_args args) else None
  | _ => None
  end.

Definition read_trace (out : stream) : list (string * list (string * Z)) := omap read_line (lines out).

(** Names without a line break. *)
Definition no_break (cb : string) (args : list (string * Z)) : Prop :=
  Str cb ≠ endl ∧ Forall (fun a => Str a.1 ≠ endl) args.

Lemma lines_app l out : Forall (.≠ endl) l → lines (l ++ endl :: out) = l :: lines out.
Proof.
  induction l as [|i l IH]; intros Hl; [cbn; by rewrite decide_True|]. apply Forall_cons in Hl as [Hi Hl].
  cbn [app lines]. rewrite decide_False by done. by rewrite IH.
Qed.

Lemma read_args_line args : read_args (args ≫= fun a => [Str a.1; Str " "; Int a.2; Str " "]) = args.
Proof.
  induction args as [|[na v] args IH]; [done|]. cbn [mbind list_bind fst snd app] in *.
  cbn [read_args]. f_equal. destruct args as [|[nb w] args]; [done|]. exact IH.
Qed.

Lemma read_trace_line cb args out :
  no_break cb args → read_trace (TRACE cb args ++ out) = (cb, args) :: read_trace out.
Proof.
  intros [Hcb Ha]. unfold TRACE, read_trace. rewrite <- !app_assoc. cbn [app].
  pose (l := Str "libtdg: " :: Str cb ::
    (if decide (args = []) then [] else Str ", " :: (args ≫= fun a => [Str a.1; Str " "; Int a.2; Str " "]))).
  change (omap read_line (lines (l ++ endl :: out)) = (cb, args) :: omap read_line (lines out)).
  rewrite lines_app.
  - cbn [omap list_omap]. unfold l. cbn [read_line]. rewrite decide_True by done. case_decide as Hn; [by subst args|].
    cbn [read_args]. rewrite read_args_line. destruct args as [|[na v] args]; done.
  - unfold l. repeat (constructor; [done|]). case_decide; [constructor|]. constructor; [done|].
    apply Forall_bind. eapply Forall_impl; [exact Ha|]. intros a Hna. by repeat constructor.
Qed.

(** ** Tracing does not disturb the tool *)

(** What the line of a callback must show: its name and the values that the
    runtime passed; [None] stands for a pointer of the tool. *)
Section shows.
Context (cell_addr : positive → Z).

Definition shown (x : details) (e : event) : option (string * list (option Z)) :=
  match e with
  | ThreadBegin _ => Some ("thread begin"%string, [Some (thread_type x)])
  | ThreadEnd _ => Some ("thread end"%string, [])
  | ImplicitTask endpoint _ task_data ts tn =>
      Some ("implicit task"%string, [Some (endpoint_num endpoint); Some ts; Some tn; Some (address cell_addr task_data)])
  | ParallelBegin _ _ ts => Some ("parallel begin"%string, [None; Some ts])
  | ParallelEnd _ => Some ("parallel end"%string, [None])
  | TaskCreate _ new_task_data type =>
      Some ("task create"%string, [Some (task_type_num type); None; Some (address cell_addr new_task_data);
        Some (has_dependences x)])
  | TaskSchedule t1 t2 =>
      Some ("task schedule"%string, [Some (address cell_addr t1); Some (prior_task_status x); Some (address cell_addr t2)])
  | TaskDependences _ _ | TaskDependence _ _ => None
  | Work endpoint _ _ _ => Some ("worksharing"%string, [Some (wstype x); Some (endpoint_num endpoint); None])
  | SyncRegion kind endpoint _ _ => Some ("sync region"%string, [Some (sync_kind_num kind); Some (endpoint_num endpoint); None])
  | ExtLoop _ _ lower upper _ =>
      Some ("loop"%string, [Some lower; Some upper; Some (chunk_size x); Some (codeptr_ra x)])
  | ExtChunk _ lower upper last _ =>
      Some ("chunk"%string, [Some lower; Some upper; None; Some (if last then 1 else 0)%Z])
  end.

Definition line_shows (w : string * list (option Z)) (l : string * list (string * Z)) : Prop :=
  w.1 = l.1 ∧ Forall2 (fun o a => o = None ∨ o = Some a.2) w.2 l.2.
End shows.

(** The pointers that a line follows are not null. *)
Definition follows (e : event) : Prop :=
  match e with
  | ParallelBegin p _ _ | SyncRegion _ _ _ p | ExtChunk p _ _ _ _ => is_Some p
  | ParallelEnd r | Work _ r _ _ => is_Some r
  | _ => True
  end.

Lemma allowed_follows R R' e :
  rt_step R e = Some R' → (∀ ep pd td n, e = Work ep pd td n → is_Some pd) → follows e.
Proof.
  intros HR Hw. destruct e as [| |? ? ?|[]|[]|[] ? []|[] []| | |ep pd td n|[] [] [] []|[] [] ? ? []|[] ? ? ? []]; cbn in *;
    try done; eauto.
Qed.

Section transparent.
Context (env : Env) (cell_addr obj_addr : positive → Z).

Lemma trace_line_run x e s :
  follows e →
  ∃ line, trace_line cell_addr obj_addr x e s = Ok (line, s) ∧
    ∀ out, match shown cell_addr x e with
           | Some w => ∃ l, read_trace (line ++ out) = l :: read_trace out ∧ line_shows w l
           | None => read_trace (line ++ out) = read_trace out
           end.
Proof.
  intros Hf. destruct e as [| | |p|r|p| | | |ep r|k ep r p|?|p]; cbn in Hf; 
    try match type of Hf with is_Some _ => destruct Hf as [c ->] end; try (destruct p as [c|]); (eexists; split; [reflexivity|]); intros out; cbn [shown]; try reflexivity.
  all: eexists; split; [apply read_trace_line; by repeat constructor|]; split; [done|]; cbn [snd fst].
  all: repeat (constructor; [first [by left|by right]|]); constructor.
Qed.

Lemma traced_run_run es out s s' :
  Forall (fun xe => follows xe.2) es → run env es.*2 s = Ok (tt, s') →
  ∃ o, traced_run env cell_addr obj_addr es out s = Ok (out ++ o, s') ∧
    Forall2 line_shows (omap (fun xe => shown cell_addr xe.1 xe.2) es) (read_trace o).
Proof.
  revert out s. induction es as [|[x e] es IH]; intros out s Hf E.
  { injection E as <-. exists []. rewrite app_nil_r. split; [done|constructor]. }
  apply Forall_cons in Hf as [Hf Hfs]. cbn [fst snd] in Hf. rewrite fmap_cons in E. cbn [run snd] in E.
  unfold mbind, M_bind in E. destruct (run_event env e s) as [[[] s1]| | |] eqn:E1; try discriminate E.
  destruct (trace_line_run x e s Hf) as (line & El & Hl).
  destruct (IH (out ++ line) s1 Hfs E) as (o & Eo & Ho). exists (line ++ o).
  cbn [traced_run]. unfold traced_event, mbind, M_bind. rewrite El, E1, app_assoc. split; [exact Eo|].
  specialize (Hl o). cbn [omap list_omap fst snd]. destruct (shown cell_addr x e).
  - destruct Hl as (l & -> & Hl). by constructor.
  - by rewrite Hl.
Qed.
End transparent.

(** ** Properties *)

(** Tracing does not disturb the tool.  For every run that the runtime may produce
    and whose work callbacks name their region, the build with tracing leaves the
    same state as the build without, and the trace read back has one line for each
    callback other than those of the dependences, in order, with the values that
    the runtime passed.  A work callback without region is undefined behaviour in
    the build with tracing only. *)
Theorem tracing_transparent env cell_addr obj_addr evts es R :
  papi_ok env (Z.of_nat (length evts)) → rt_run rt_init es.*2 = Some R → (Z.of_nat (length es) < 2 ^ 61)%Z →
  (∀ x ep pd td n, (x, Work ep pd td n) ∈ es → is_Some pd) →
  (∃ s out, run env es.*2 (init_state evts) = Ok (tt, s) ∧
    traced_run env cell_addr obj_addr es [] (init_state evts) = Ok (out, s) ∧
    Forall2 line_shows (omap (fun xe => shown cell_addr xe.1 xe.2) es) (read_trace out)) ∧
  (∀ x ep td n s, run_event env (Work ep None td n) s = Ok (tt, s) ∧
    traced_event env cell_addr obj_addr x (Work ep None td n) s = UB NullDeref).
Proof.
  intros PO HR Hlen Hw. split; [|done].
  destruct (run_inv_exists env evts es.*2 R PO HR) as (s & G & E & I); [by rewrite length_fmap|].
  assert (Forall (fun xe => follows xe.2) es) as Hf.
  { clear E I Hlen. revert HR. generalize rt_init. induction es as [|[x e] es IH]; intros R0 HR; constructor.
    - cbn in HR. apply bind_Some in HR as (R1 & HR1 & _). cbn [snd]. eapply allowed_follows; [exact HR1|].
      intros ep pd td n ->. eapply Hw. by left.
    - cbn in HR. apply bind_Some in HR as (R1 & _ & HR). eapply IH; [|exact HR]. intros * H. eapply Hw. by right. }
  destruct (traced_run_run env cell_addr obj_addr es [] (init_state evts) s Hf E) as (o & Eo & Ho). by exists s, o.
Qed.

Definition sample_details : details := MkDetails 1 4 0 1 5 4096.

Lemma tracing_transparent_witness :
  ∃ s out, traced_run sample_env (fun c => Zpos c) (fun c => Zpos c) (pair sample_details <$> sample_trace) []
      (init_state [99%Z]) = Ok (out, s) ∧ length (read_trace out) = 23.
Proof.
  destruct sample_allowed as [R HR].
  destruct (tracing_transparent sample_env (fun c => Zpos c) (fun c => Zpos c) [99%Z]
    (pair sample_details <$> sample_trace) R) as [(s & out & _ & E & F) _].
  - exact sample_papi.
  - exact HR.
  - vm_compute. reflexivity.
  - intros x ep pd td n H. vm_compute in H.
    repeat (apply elem_of_cons in H as [H|H]; [discriminate H|]). by apply elem_of_nil in H.
  - exists s, out. split; [exact E|]. rewrite <- (Forall2_length _ _ _ F). reflexivity.
Defined.
